(** * The caching device-memory allocator of faster-rwkv (kernels/cuda)

    A shallow embedding of [CachingAllocator] (a binned free-list allocator
    with piece splitting, neighbour coalescing and release of idle blocks)
    and the verification of its specification.

    Conventions of the embedding:
    - [size_t] and [char*] values are [Z] in [0, 2^64); every operation that
      can wrap in the source has its wrap-around written out with [wrap64];
      the null pointer of a [char*] or [void*] is [0];
    - a [Piece*] is an index into [pieces_] ([option nat], [None] for
      [nullptr]); reading through a null or dangling [Piece*] is [Undefined];
    - [std::unordered_map] is a [gmap]; [std::set<Piece*, PieceCmp>] is the
      list of its elements in iteration order;
    - the member functions run in a state-and-failure monad over the
      allocator object; a failed [RV_CHECK] or [CHECK_EQ] stops the program
      with [CheckFailed] and leaves the state it was reached in;
    - the device ([cudaMalloc], [cudaFree]) is outside the program: the
      answer of [cudaMalloc] is a parameter, and every call is recorded in
      [cuda_calls_];
    - the lock guard of [DoAllocate] and [Deallocate] has no sequential
      effect and is left out;
    - the reclamation pass [DeallocateFreeBlockForGarbageCollection] is a
      private member of the class template that no member calls, and its
      line [free_block_ptrs.insert(pair.first)] hands a [void*] key to a
      [std::unordered_set<char*>], which a compiler refuses as soon as the
      member is instantiated: the program never runs the pass.
      [public_reachable] has the states of the program; [reachable] adds
      the states a pass with the key converted to [char*] would lead to,
      so that the invariants are shown for more states than the program
      has. *)

From stdpp Require Import gmap list sorting.
From Stdlib Require Import ZArith Lia.

Open Scope Z_scope.

(** ** Machine arithmetic *)

Definition wrap64 (z : Z) : Z := z mod 2 ^ 64.

(** [__builtin_clzll]: the number of leading zero bits of a 64-bit value,
    counted by looking at the bits from bit 63 downwards. *)
Fixpoint clz_below (n : nat) (v : Z) : Z :=
  match n with
  | O => 0
  | S k => if Z.testbit v (Z.of_nat k) then 0 else 1 + clz_below k v
  end.

Definition clzll (v : Z) : Z := clz_below 64 v.

(** ** Constants *)

Definition kInvalidBinNum : Z := -1.
Definition kBinNumSize : Z := 20.

Definition kHostAlignSize : Z := 64.
Definition kCudaAlignSize : Z := 512.
Definition kCudaMemAllocAlignSize : Z := 512.

(** Modelled from the spec: [kAlignSize] is the spec's alignment unit. It
    is used by [BinSize4BinNum] and [BinNum4BinSize] but declared in a
    header that is not part of the sources, and the spec gives no number
    for it. The value 512 is read off the source: the comment on [Bin]
    lists the bin sizes as 512, 1024, 2048, ..., [BinNum4BinSize] shifts by
    9, and [kCudaAlignSize] is 512. *)
Definition kAlignSize : Z := 512.

(** [128 << 20], computed in [int] and converted to [size_t]. *)
Definition kPieceSplitThreshold : Z := Z.shiftl 128 20.

Definition RoundUp (n val : Z) : Z := wrap64 (wrap64 (n + val - 1) / val * val).

Definition GetCudaAlignedSize (size : Z) : Z := RoundUp size kCudaAlignSize.

Definition MemAlignedBytes (bytes alignment : Z) : Z := RoundUp bytes alignment.

Definition IsAlignedSize (size alignment : Z) : bool := size mod alignment =? 0.

(** ** Size classes *)

Definition BinSize4BinNum (bin_num : Z) : Z := wrap64 (Z.shiftl kAlignSize bin_num).

Definition BinNum4BinSize (size : Z) : Z :=
  let value := Z.shiftr (Z.max size kAlignSize) 9 in
  Z.min (kBinNumSize - 1) (Z.lxor 63 (clzll value)).

(** The number of bytes [AllocateBlockToExtendTotalMem] asks the device for
    (its local [final_allocate_bytes]). *)
Definition final_allocate_bytes (alignment aligned_size : Z) : Z :=
  let allocate_bytes :=
    if aligned_size <? 1048576 then 2097152
    else if aligned_size <? 10485760 then 20971520
    else RoundUp aligned_size 2097152 in
  MemAlignedBytes allocate_bytes alignment.

(** ** Data model *)

Module Piece.
Record t : Type := mk {
  size : Z;
  ptr : Z;
  is_free : bool;
  prev : option nat;
  next : option nat;
  bin_num : Z
}.

(** [new Piece()]: the default member initialisers. *)
Definition fresh : t := mk 0 0 false None None kInvalidBinNum.

Definition set_size (v : Z) (p : t) : t :=
  mk v (ptr p) (is_free p) (prev p) (next p) (bin_num p).
Definition set_ptr (v : Z) (p : t) : t :=
  mk (size p) v (is_free p) (prev p) (next p) (bin_num p).
Definition set_is_free (v : bool) (p : t) : t :=
  mk (size p) (ptr p) v (prev p) (next p) (bin_num p).
Definition set_prev (v : option nat) (p : t) : t :=
  mk (size p) (ptr p) (is_free p) v (next p) (bin_num p).
Definition set_next (v : option nat) (p : t) : t :=
  mk (size p) (ptr p) (is_free p) (prev p) v (bin_num p).
Definition set_bin_num (v : Z) (p : t) : t :=
  mk (size p) (ptr p) (is_free p) (prev p) (next p) v.
End Piece.

Module Bin.
Record t : Type := mk {
  size : Z;
  pieces : list nat
}.
Definition set_pieces (l : list nat) (b : t) : t := mk (size b) l.
End Bin.

Module Block.
Record t : Type := mk {
  size : Z;
  ptr : Z;
  start_piece : nat
}.
End Block.

(** A call of the device interface: [CudaMalloc bytes p] is
    [cudaMalloc(&mem_ptr, bytes)] that left [p] in [mem_ptr]. *)
Inductive CudaCall : Type :=
  | CudaMalloc (bytes : Z) (mem_ptr : Z)
  | CudaFree (mem_ptr : Z).

Record CachingAllocator : Type := mkAllocator {
  alignment_ : Z;
  total_memory_bytes_ : Z;
  mem_ptr2block_ : gmap Z Block.t;
  bins_ : list Bin.t;
  pieces_ : list Piece.t;
  ptr2piece_ : gmap Z nat;
  recycle_piece_list_ : option nat;
  cuda_calls_ : list CudaCall   (* newest first *)
}.

Definition set_total_memory_bytes (v : Z) (s : CachingAllocator) :=
  mkAllocator (alignment_ s) v (mem_ptr2block_ s) (bins_ s) (pieces_ s)
    (ptr2piece_ s) (recycle_piece_list_ s) (cuda_calls_ s).
Definition set_mem_ptr2block (v : gmap Z Block.t) (s : CachingAllocator) :=
  mkAllocator (alignment_ s) (total_memory_bytes_ s) v (bins_ s) (pieces_ s)
    (ptr2piece_ s) (recycle_piece_list_ s) (cuda_calls_ s).
Definition set_bins (v : list Bin.t) (s : CachingAllocator) :=
  mkAllocator (alignment_ s) (total_memory_bytes_ s) (mem_ptr2block_ s) v (pieces_ s)
    (ptr2piece_ s) (recycle_piece_list_ s) (cuda_calls_ s).
Definition set_pieces (v : list Piece.t) (s : CachingAllocator) :=
  mkAllocator (alignment_ s) (total_memory_bytes_ s) (mem_ptr2block_ s) (bins_ s) v
    (ptr2piece_ s) (recycle_piece_list_ s) (cuda_calls_ s).
Definition set_ptr2piece (v : gmap Z nat) (s : CachingAllocator) :=
  mkAllocator (alignment_ s) (total_memory_bytes_ s) (mem_ptr2block_ s) (bins_ s)
    (pieces_ s) v (recycle_piece_list_ s) (cuda_calls_ s).
Definition set_recycle_piece_list (v : option nat) (s : CachingAllocator) :=
  mkAllocator (alignment_ s) (total_memory_bytes_ s) (mem_ptr2block_ s) (bins_ s)
    (pieces_ s) (ptr2piece_ s) v (cuda_calls_ s).
Definition set_cuda_calls (v : list CudaCall) (s : CachingAllocator) :=
  mkAllocator (alignment_ s) (total_memory_bytes_ s) (mem_ptr2block_ s) (bins_ s)
    (pieces_ s) (ptr2piece_ s) (recycle_piece_list_ s) v.

(** ** The monad of the member functions *)

Inductive Failure : Type :=
  | CheckFailed   (* a failed RV_CHECK or CHECK_EQ *)
  | OutOfRange    (* std::vector::at outside the vector *)
  | Undefined     (* a read through a null, dangling or end() pointer *)
  | Diverged.     (* a loop that does not end *)

Inductive Outcome (A : Type) : Type :=
  | Ret (a : A)
  | Fail (f : Failure).
Arguments Ret {A} a.
Arguments Fail {A} f.

Definition M (A : Type) : Type := CachingAllocator -> CachingAllocator * Outcome A.

Definition ret {A} (a : A) : M A := fun s => (s, Ret a).
Definition fail {A} (f : Failure) : M A := fun s => (s, Fail f).
Definition bind {A B} (m : M A) (k : A -> M B) : M B :=
  fun s => match m s with
           | (s', Ret a) => k a s'
           | (s', Fail f) => (s', Fail f)
           end.
Definition get : M CachingAllocator := fun s => (s, Ret s).
Definition modify (f : CachingAllocator -> CachingAllocator) : M unit :=
  fun s => (f s, Ret tt).

Notation "x <- m ;; k" := (bind m (fun x => k))
  (at level 100, m at next level, right associativity).
Notation "m ;; k" := (bind m (fun _ => k))
  (at level 100, right associativity).

Definition RV_CHECK (b : bool) : M unit :=
  if b then ret tt else fail CheckFailed.

(** [*piece] for a [Piece*]. *)
Definition deref (piece : option nat) : M nat :=
  match piece with
  | Some h => ret h
  | None => fail Undefined
  end.

(** Reading the object a non-null [Piece*] points to. *)
Definition load (h : nat) : M Piece.t :=
  fun s => match pieces_ s !! h with
           | Some p => (s, Ret p)
           | None => (s, Fail Undefined)
           end.

(** [piece->field = v]. *)
Definition store (h : nat) (f : Piece.t -> Piece.t) : M unit :=
  p <- load h ;;
  modify (fun s => set_pieces (<[h := f p]> (pieces_ s)) s).

(** [bins_.at(bin_num)]: the index is converted to [size_t], so a negative
    one is out of range as well. *)
Definition bins_at (bin_num : Z) : M Bin.t :=
  fun s => if (0 <=? bin_num) && (bin_num <? Z.of_nat (length (bins_ s)))
           then match bins_ s !! Z.to_nat bin_num with
                | Some b => (s, Ret b)
                | None => (s, Fail OutOfRange)
                end
           else (s, Fail OutOfRange).

Definition set_bin_pieces (bin_num : Z) (l : list nat) : M unit :=
  b <- bins_at bin_num ;;
  modify (fun s => set_bins (<[Z.to_nat bin_num := Bin.set_pieces l b]> (bins_ s)) s).

(** ** The ordered set of a Bin *)

(** [Bin::PieceCmp]: by size, then by address. The comparator reads the
    pieces through the pointers; the bins only ever hold valid pointers, and
    a dangling one compares as not less. *)
Definition PieceCmp (ps : list Piece.t) (lhs rhs : nat) : bool :=
  match ps !! lhs, ps !! rhs with
  | Some l, Some r =>
      if negb (Piece.size l =? Piece.size r) then Piece.size l <? Piece.size r
      else Piece.ptr l <? Piece.ptr r
  | _, _ => false
  end.

(** [std::set::insert]: the element goes to its place in the order; nothing
    is inserted when an equivalent element is there already. The result is
    the set and the [second] of the returned pair. *)
Fixpoint set_insert (cmp : nat -> nat -> bool) (x : nat) (l : list nat) : list nat * bool :=
  match l with
  | [] => ([x], true)
  | y :: l' =>
      if cmp x y then (x :: y :: l', true)
      else if cmp y x then
        let '(l'', inserted) := set_insert cmp x l' in (y :: l'', inserted)
      else (y :: l', false)
  end.

(** [std::set::erase(key)]: removes the element equivalent to the key. *)
Fixpoint set_erase (cmp : nat -> nat -> bool) (x : nat) (l : list nat) : list nat :=
  match l with
  | [] => []
  | y :: l' =>
      if cmp x y then y :: l'
      else if cmp y x then y :: set_erase cmp x l'
      else l'
  end.

(** [std::unordered_map::emplace]: an existing key keeps its value. *)
Definition emplace {V} (k : Z) (v : V) (m : gmap Z V) : gmap Z V :=
  match m !! k with
  | Some _ => m
  | None => <[k := v]> m
  end.

(** ** Member functions *)

Definition InsertPiece2Bin (piece : nat) : M unit :=
  p <- load piece ;;
  RV_CHECK (Piece.is_free p && (Piece.bin_num p =? kInvalidBinNum)) ;;
  let bin_num := BinNum4BinSize (Piece.size p) in
  store piece (Piece.set_bin_num bin_num) ;;
  bin <- bins_at bin_num ;;
  s <- get ;;
  let '(l, inserted) := set_insert (PieceCmp (pieces_ s)) piece (Bin.pieces bin) in
  set_bin_pieces bin_num l ;;
  RV_CHECK inserted.

Definition RemovePieceFromBin (piece : nat) : M unit :=
  p <- load piece ;;
  RV_CHECK (Piece.is_free p) ;;
  bin <- bins_at (Piece.bin_num p) ;;
  s <- get ;;
  set_bin_pieces (Piece.bin_num p) (set_erase (PieceCmp (pieces_ s)) piece (Bin.pieces bin)) ;;
  store piece (Piece.set_bin_num kInvalidBinNum).

Definition AllocatePiece : M nat :=
  s <- get ;;
  match recycle_piece_list_ s with
  | Some r =>
      p <- load r ;;
      modify (set_recycle_piece_list (Piece.next p)) ;;
      ret r
  | None =>
      modify (fun s => set_pieces (pieces_ s ++ [Piece.fresh]) s) ;;
      s' <- get ;;
      ret (length (pieces_ s') - 1)%nat
  end.

Definition DeallocatePiece (piece : nat) : M unit :=
  store piece (Piece.set_ptr 0) ;;
  store piece (Piece.set_size 0) ;;
  store piece (Piece.set_bin_num kInvalidBinNum) ;;
  store piece (Piece.set_is_free true) ;;
  store piece (Piece.set_prev None) ;;
  s <- get ;;
  store piece (Piece.set_next (recycle_piece_list_ s)) ;;
  modify (set_recycle_piece_list (Some piece)).

Definition MarkPiece (piece : nat) : M unit :=
  p <- load piece ;;
  s <- get ;;
  let inserted := bool_decide (ptr2piece_ s !! Piece.ptr p = None) in
  modify (fun s => set_ptr2piece (emplace (Piece.ptr p) piece (ptr2piece_ s)) s) ;;
  RV_CHECK inserted.

Definition UnMarkPiece (piece : nat) : M unit :=
  p <- load piece ;;
  s <- get ;;
  RV_CHECK (bool_decide (is_Some (ptr2piece_ s !! Piece.ptr p))) ;;
  modify (fun s => set_ptr2piece (delete (Piece.ptr p) (ptr2piece_ s)) s).

(** The split of [FindPiece]: the lines between the test of the split
    condition and the end of its block. *)
Definition SplitPiece (piece : nat) (aligned_size : Z) : M unit :=
  new_piece <- AllocatePiece ;;
  p <- load piece ;;
  store new_piece (Piece.set_ptr (wrap64 (Piece.ptr p + aligned_size))) ;;
  p <- load piece ;;
  store new_piece (Piece.set_size (wrap64 (Piece.size p - aligned_size))) ;;
  store piece (Piece.set_size aligned_size) ;;
  p <- load piece ;;
  let next_p := Piece.next p in
  store piece (Piece.set_next (Some new_piece)) ;;
  store new_piece (Piece.set_prev (Some piece)) ;;
  store new_piece (Piece.set_next next_p) ;;
  match next_p with
  | Some n => store n (Piece.set_prev (Some new_piece))
  | None => ret tt
  end ;;
  store new_piece (Piece.set_is_free true) ;;
  store new_piece (Piece.set_bin_num kInvalidBinNum) ;;
  s <- get ;;
  p <- load piece ;;
  RV_CHECK (IsAlignedSize (Piece.size p) (alignment_ s)) ;;
  np <- load new_piece ;;
  RV_CHECK (IsAlignedSize (Piece.size np) (alignment_ s)) ;;
  InsertPiece2Bin new_piece ;;
  MarkPiece new_piece.

(** The split condition of [FindPiece], on the size of the chosen piece. *)
Definition split_condition (size aligned_size : Z) : bool :=
  (wrap64 (aligned_size * 2) <=? size)
  || (kPieceSplitThreshold <=? wrap64 (size - aligned_size)).

(** The body of [FindPiece] once a piece of the bin fits: [it] is the
    position of the iterator in the set of bin [bin_num]. *)
Definition TakePiece (bin_num : Z) (it : nat) (piece : nat) (aligned_size : Z) : M unit :=
  bin <- bins_at bin_num ;;
  set_bin_pieces bin_num (delete it (Bin.pieces bin)) ;;
  store piece (Piece.set_bin_num kInvalidBinNum) ;;
  store piece (Piece.set_is_free false) ;;
  p <- load piece ;;
  if split_condition (Piece.size p) aligned_size
  then SplitPiece piece aligned_size
  else ret tt.

(** The inner loop of [FindPiece] over the set of one bin, from the
    iterator at position [it] on; [rest] are the elements from there. *)
Fixpoint FindPiece_in_bin (aligned_size bin_num : Z) (it : nat) (rest : list nat)
  : M (option nat) :=
  match rest with
  | [] => ret None
  | piece :: rest' =>
      p <- load piece ;;
      RV_CHECK (Piece.is_free p) ;;
      s <- get ;;
      RV_CHECK (IsAlignedSize (Piece.size p) (alignment_ s)) ;;
      if aligned_size <=? Piece.size p
      then TakePiece bin_num it piece aligned_size ;; ret (Some piece)
      else FindPiece_in_bin aligned_size bin_num (S it) rest'
  end.

(** The outer loop of [FindPiece]: [n] bins are left, from [bin_num] on. *)
Fixpoint FindPiece_from (aligned_size : Z) (n : nat) (bin_num : Z) : M (option nat) :=
  match n with
  | O => ret None
  | S n' =>
      bin <- bins_at bin_num ;;
      r <- FindPiece_in_bin aligned_size bin_num 0 (Bin.pieces bin) ;;
      match r with
      | Some piece => ret (Some piece)
      | None => FindPiece_from aligned_size n' (bin_num + 1)
      end
  end.

Definition FindPiece (aligned_size : Z) : M (option nat) :=
  let bin_num := BinNum4BinSize aligned_size in
  FindPiece_from aligned_size (Z.to_nat (kBinNumSize - bin_num)) bin_num.

Definition MergeNeighbourFreePiece (lhs rhs : nat) : M unit :=
  l <- load lhs ;;
  RV_CHECK (Piece.is_free l) ;;
  r <- load rhs ;;
  RV_CHECK (Piece.is_free r) ;;
  RV_CHECK (bool_decide (Piece.next l = Some rhs)) ;;
  RV_CHECK (bool_decide (Some lhs = Piece.prev r)) ;;
  RV_CHECK (wrap64 (Piece.ptr l + Piece.size l) =? Piece.ptr r) ;;
  store lhs (Piece.set_size (wrap64 (Piece.size l + Piece.size r))) ;;
  r <- load rhs ;;
  store lhs (Piece.set_next (Piece.next r)) ;;
  r <- load rhs ;;
  match Piece.next r with
  | Some n => store n (Piece.set_prev (Some lhs))
  | None => ret tt
  end ;;
  UnMarkPiece rhs ;;
  DeallocatePiece rhs.

Section Device.

(** The answer of the device to [cudaMalloc(&mem_ptr, bytes)]: the address
    left in [mem_ptr], [0] when the call fails and leaves it null. *)
Variable cudaMalloc : Z -> Z.

Definition AllocateBlockToExtendTotalMem (aligned_size : Z) : M bool :=
  s <- get ;;
  let final_bytes := final_allocate_bytes (alignment_ s) aligned_size in
  if final_bytes <? aligned_size then ret false
  else
    let mem_ptr := cudaMalloc final_bytes in
    modify (fun s => set_cuda_calls (CudaMalloc final_bytes mem_ptr :: cuda_calls_ s) s) ;;
    if mem_ptr =? 0 then ret false
    else
      modify (fun s => set_total_memory_bytes
                         (wrap64 (total_memory_bytes_ s + final_bytes)) s) ;;
      piece <- AllocatePiece ;;
      store piece (Piece.set_size final_bytes) ;;
      store piece (Piece.set_ptr mem_ptr) ;;
      store piece (Piece.set_prev None) ;;
      store piece (Piece.set_next None) ;;
      store piece (Piece.set_is_free true) ;;
      store piece (Piece.set_bin_num kInvalidBinNum) ;;
      InsertPiece2Bin piece ;;
      MarkPiece piece ;;
      p <- load piece ;;
      modify (fun s => set_mem_ptr2block
                         (emplace mem_ptr (Block.mk (Piece.size p) (Piece.ptr p) piece)
                            (mem_ptr2block_ s)) s) ;;
      ret true.

Definition DoAllocate (size : Z) : M Z :=
  if size =? 0 then ret 0
  else
    s <- get ;;
    let aligned_size := MemAlignedBytes size (alignment_ s) in
    piece <- FindPiece aligned_size ;;
    piece <- match piece with
             | Some h => ret (Some h)
             | None =>
                 extended <- AllocateBlockToExtendTotalMem aligned_size ;;
                 if extended then FindPiece aligned_size else ret None
             end ;;
    RV_CHECK (bool_decide (piece ≠ None)) ;;
    h <- deref piece ;;
    p <- load h ;;
    ret (Piece.ptr p).

End Device.

(** The first loop of [DeallocateFreeBlockForGarbageCollection] over the
    chain of a block: are all its pieces free? A chain that does not end
    within [fuel] steps repeats a piece, and the loop of the source does not
    end. *)
Fixpoint chain_all_free (fuel : nat) (ps : list Piece.t) (p : option nat) : Outcome bool :=
  match p with
  | None => Ret true
  | Some h =>
      match fuel with
      | O => Fail Diverged
      | S fuel' =>
          match ps !! h with
          | None => Fail Undefined
          | Some pc =>
              if Piece.is_free pc then chain_all_free fuel' ps (Piece.next pc)
              else Ret false
          end
      end
  end.

(** The scan of all blocks; the map is visited in the order of
    [map_to_list] (the source leaves the order open). In the source the
    keys of [mem_ptr2block_] are [void*] and [free_block_ptrs] is a
    [std::unordered_set<char*>], so [free_block_ptrs.insert(pair.first)]
    has no conversion for its argument and the member cannot be
    instantiated as it is written. The insert below is the one of a copy
    with the key converted to [char*]; it stands behind [reach_collect]
    only, and no statement about what the program does rests on it. *)
Fixpoint scan_blocks (blocks : list (Z * Block.t)) (total_free_bytes : Z)
    (free_block_ptrs : gset Z) : M (Z * gset Z) :=
  match blocks with
  | [] => ret (total_free_bytes, free_block_ptrs)
  | (key, block) :: blocks' =>
      s <- get ;;
      match chain_all_free (S (length (pieces_ s))) (pieces_ s)
              (Some (Block.start_piece block)) with
      | Fail f => fail f
      | Ret true =>
          scan_blocks blocks' (wrap64 (total_free_bytes + Block.size block))
            ({[ key ]} ∪ free_block_ptrs)
      | Ret false => scan_blocks blocks' total_free_bytes free_block_ptrs
      end
  end.

(** The loop that deletes all pieces of a block. *)
Fixpoint delete_chain (fuel : nat) (p : option nat) (piece_size_sum : Z) : M Z :=
  match p with
  | None => ret piece_size_sum
  | Some h =>
      match fuel with
      | O => fail Diverged
      | S fuel' =>
          pc <- load h ;;
          let next_p := Piece.next pc in
          let piece_size_sum := wrap64 (piece_size_sum + Piece.size pc) in
          RemovePieceFromBin h ;;
          UnMarkPiece h ;;
          DeallocatePiece h ;;
          delete_chain fuel' next_p piece_size_sum
      end
  end.

Definition release_block (ptr : Z) : M unit :=
  s <- get ;;
  match mem_ptr2block_ s !! ptr with
  | None => RV_CHECK false
  | Some block =>
      start <- load (Block.start_piece block) ;;
      RV_CHECK (Block.ptr block =? Piece.ptr start) ;;
      RV_CHECK (Block.ptr block =? ptr) ;;
      piece_size_sum <- delete_chain (S (length (pieces_ s)))
                          (Some (Block.start_piece block)) 0 ;;
      RV_CHECK (Block.size block =? piece_size_sum) ;;
      modify (fun s => set_mem_ptr2block (delete ptr (mem_ptr2block_ s)) s) ;;
      modify (fun s => set_cuda_calls (CudaFree ptr :: cuda_calls_ s) s)
  end.

Fixpoint release_blocks (ptrs : list Z) : M unit :=
  match ptrs with
  | [] => ret tt
  | ptr :: ptrs' => release_block ptr ;; release_blocks ptrs'
  end.

(** The pass with the key of its first loop converted (see [scan_blocks]).
    The second loop visits [free_block_ptrs] in the order of [elements];
    the source leaves the order of the set open. *)
Definition DeallocateFreeBlockForGarbageCollection : M bool :=
  s <- get ;;
  r <- scan_blocks (map_to_list (mem_ptr2block_ s)) 0 ∅ ;;
  let '(total_free_bytes, free_block_ptrs) := r in
  modify (fun s => set_total_memory_bytes
                     (wrap64 (total_memory_bytes_ s - total_free_bytes)) s) ;;
  (if 0 <? total_free_bytes then release_blocks (elements free_block_ptrs) else ret tt) ;;
  ret (0 <? total_free_bytes).

Definition Deallocate (mem_ptr : Z) : M unit :=
  if mem_ptr =? 0 then ret tt
  else
    s <- get ;;
    match ptr2piece_ s !! mem_ptr with
    | None => fail Undefined   (* it->second with it == end() *)
    | Some piece =>
        p <- load piece ;;
        RV_CHECK (negb (Piece.is_free p)) ;;
        store piece (Piece.set_is_free true) ;;
        p <- load piece ;;
        let next_p := Piece.next p in
        let prev_p := Piece.prev p in
        match next_p with
        | None => ret tt
        | Some n =>
            np <- load n ;;
            if Piece.is_free np
            then RemovePieceFromBin n ;; MergeNeighbourFreePiece piece n
            else ret tt
        end ;;
        last_piece_insert_to_bin <-
          match prev_p with
          | None => ret piece
          | Some m =>
              mp <- load m ;;
              if Piece.is_free mp
              then RemovePieceFromBin m ;; MergeNeighbourFreePiece m piece ;; ret m
              else ret piece
          end ;;
        InsertPiece2Bin last_piece_insert_to_bin
    end.

(** The constructor. *)
Definition CachingAllocator_new : CachingAllocator :=
  mkAllocator kCudaAlignSize 0 ∅
    (map (fun i => Bin.mk (BinSize4BinNum (Z.of_nat i)) []) (seq 0 (Z.to_nat kBinNumSize)))
    [] ∅ None [].

(** ** Predicates of the specification *)

(** A live piece: its descriptor is the one registered in the address map
    under its own address. *)
Definition live (s : CachingAllocator) (h : nat) (p : Piece.t) : Prop :=
  pieces_ s !! h = Some p ∧ ptr2piece_ s !! Piece.ptr p = Some h.

Definition piece_end (p : Piece.t) : Z := Piece.ptr p + Piece.size p.

(** Device addresses lie in the lower half of the 64-bit address space. *)
Definition address_limit : Z := 2 ^ 63.

(** What is assumed of the device when [cudaMalloc] succeeds: the range it
    hands out is inside the address space and disjoint from every block the
    allocator still holds. *)
Definition device_ok (cudaMalloc : Z -> Z) (s : CachingAllocator) : Prop :=
  ∀ bytes, 0 < bytes → cudaMalloc bytes ≠ 0 →
    0 < cudaMalloc bytes ∧ cudaMalloc bytes + bytes ≤ address_limit ∧
    ∀ a b, mem_ptr2block_ s !! a = Some b →
      cudaMalloc bytes + bytes ≤ a ∨ a + Block.size b ≤ cudaMalloc bytes.

(** The retired descriptors: the list threaded through [next] from
    [recycle_piece_list_]. *)
Inductive recycle_chain (ps : list Piece.t) : option nat -> list nat -> Prop :=
  | recycle_nil : recycle_chain ps None []
  | recycle_cons h p rl :
      ps !! h = Some p →
      recycle_chain ps (Piece.next p) rl →
      recycle_chain ps (Some h) (h :: rl).

Definition bin_sorted (ps : list Piece.t) (l : list nat) : Prop :=
  StronglySorted (fun x y => PieceCmp ps x y = true) l.

Definition blocks_total (m : gmap Z Block.t) : Z :=
  map_fold (fun _ b acc => acc + Block.size b) 0 m.

(** The layout of the arena: address map, sizes, physical chains, blocks. *)
Record structure (s : CachingAllocator) : Prop := mkStructure {
  st_align : alignment_ s = kCudaAlignSize;
  st_map : ∀ a h, ptr2piece_ s !! a = Some h →
             ∃ p, pieces_ s !! h = Some p ∧ Piece.ptr p = a;
  st_size : ∀ h p, live s h p → 0 < Piece.size p ∧ Piece.size p mod 512 = 0;
  st_next : ∀ h p n, live s h p → Piece.next p = Some n →
              ∃ q, live s n q ∧ Piece.prev q = Some h ∧ Piece.ptr q = piece_end p;
  st_prev : ∀ h p m, live s h p → Piece.prev p = Some m →
              ∃ q, live s m q ∧ Piece.next q = Some h;
  st_disj : ∀ h1 p1 h2 p2, live s h1 p1 → live s h2 p2 → h1 ≠ h2 →
              piece_end p1 ≤ Piece.ptr p2 ∨ piece_end p2 ≤ Piece.ptr p1;
  st_recycle : ∃ rl, recycle_chain (pieces_ s) (recycle_piece_list_ s) rl ∧ NoDup rl ∧
                 ∀ h, h ∈ rl → ∃ p, pieces_ s !! h = Some p ∧ Piece.ptr p = 0;
  st_block : ∀ a b, mem_ptr2block_ s !! a = Some b →
               Block.ptr b = a ∧ 0 < a ∧ 0 < Block.size b ∧
               a + Block.size b ≤ address_limit ∧
               ∃ p, live s (Block.start_piece b) p ∧ Piece.ptr p = a ∧ Piece.prev p = None;
  st_block_disj : ∀ a1 b1 a2 b2,
               mem_ptr2block_ s !! a1 = Some b1 → mem_ptr2block_ s !! a2 = Some b2 →
               a1 ≠ a2 → a1 + Block.size b1 ≤ a2 ∨ a2 + Block.size b2 ≤ a1;
  st_in_block : ∀ h p, live s h p →
               ∃ a b, mem_ptr2block_ s !! a = Some b ∧
                 a ≤ Piece.ptr p ∧ piece_end p ≤ a + Block.size b ∧
                 (Piece.next p = None ↔ piece_end p = a + Block.size b);
  st_total : total_memory_bytes_ s = blocks_total (mem_ptr2block_ s)
}.

(** The filing of the free pieces. While [Deallocate] runs, the pieces of
    [fl] are free but in no bin, the piece [hn] may have a free physical
    next and the piece [hp] a free physical prev. *)
Record filing (fl : list nat) (hp hn : option nat) (s : CachingAllocator) : Prop := mkFiling {
  fi_len : length (bins_ s) = Z.to_nat kBinNumSize;
  fi_used : ∀ h p, live s h p → Piece.is_free p = false →
              Piece.bin_num p = kInvalidBinNum;
  fi_float : ∀ h p, live s h p → h ∈ fl →
              Piece.is_free p = true ∧ Piece.bin_num p = kInvalidBinNum;
  fi_free : ∀ h p, live s h p → Piece.is_free p = true → h ∉ fl →
              Piece.bin_num p = BinNum4BinSize (Piece.size p) ∧
              ∃ b, bins_ s !! Z.to_nat (Piece.bin_num p) = Some b ∧ h ∈ Bin.pieces b;
  fi_bins : ∀ i b, bins_ s !! i = Some b →
              NoDup (Bin.pieces b) ∧ bin_sorted (pieces_ s) (Bin.pieces b) ∧
              ∀ h, h ∈ Bin.pieces b →
                (h ∉ fl) ∧ ∃ p, live s h p ∧ Piece.is_free p = true ∧
                                Piece.bin_num p = Z.of_nat i;
  fi_adj : ∀ h p n q, live s h p → Piece.next p = Some n → pieces_ s !! n = Some q →
              Piece.is_free p = true → Piece.is_free q = true →
              hn = Some h ∨ hp = Some n
}.

(** The invariant of the arena between public calls. *)
Definition wf (s : CachingAllocator) : Prop := structure s ∧ filing [] None None s.


(** The states of [public_reachable], and those a reclamation pass with
    the key converted would add if it ran between two public calls. The
    program has no such pass ([public_reachable_reachable]); the invariants
    are proved over this larger set. *)
Inductive reachable : CachingAllocator -> Prop :=
  | reach_new : reachable CachingAllocator_new
  | reach_allocate s cudaMalloc size s' p :
      reachable s → device_ok cudaMalloc s → 0 ≤ size < 2 ^ 64 →
      DoAllocate cudaMalloc size s = (s', Ret p) →
      reachable s'
  | reach_deallocate s mem_ptr s' :
      reachable s →
      Deallocate mem_ptr s = (s', Ret tt) →
      reachable s'
  | reach_collect s s' released :
      reachable s →
      DeallocateFreeBlockForGarbageCollection s = (s', Ret released) →
      reachable s'.

(** No two physically adjacent pieces are both free. *)
Definition no_adjacent_free (s : CachingAllocator) : Prop :=
  ∀ h p n q, live s h p → Piece.next p = Some n → pieces_ s !! n = Some q →
    ¬ (Piece.is_free p = true ∧ Piece.is_free q = true).

(** The index of the highest set bit. *)
Definition highest_set_bit (v : Z) : Z := Z.log2 v.

(** A member function leaves a component [f] of the allocator alone. *)
Definition keeps {A B} (f : CachingAllocator -> B) (m : M A) : Prop :=
  ∀ s, f (fst (m s)) = f s.

(** What [PieceCmp] reads of a piece. *)
Definition piece_key (ps : list Piece.t) (h : nat) : option (Z * Z) :=
  (fun p => (Piece.size p, Piece.ptr p)) <$> ps !! h.

(** ** The steps of the member functions, as functions on the state *)

(** The descriptor [DeallocatePiece] leaves behind. *)
Definition retired (recycle : option nat) : Piece.t :=
  Piece.mk 0 0 true None recycle kInvalidBinNum.

(** [if (next != nullptr) next->prev = v]. *)
Definition set_prev_of (n : option nat) (v : option nat) (ps : list Piece.t)
  : list Piece.t :=
  match n with
  | Some x => alter (Piece.set_prev v) x ps
  | None => ps
  end.

(** [MergeNeighbourFreePiece l r], for the pieces [pl] and [pr] found at
    [l] and [r]. *)
Definition merge_state (l r : nat) (pl pr : Piece.t) (s : CachingAllocator)
  : CachingAllocator :=
  set_recycle_piece_list (Some r)
    (set_ptr2piece (delete (Piece.ptr pr) (ptr2piece_ s))
       (set_pieces
          (<[r := retired (recycle_piece_list_ s)]>
             (set_prev_of (Piece.next pr) (Some l)
                (<[l := Piece.set_next (Piece.next pr)
                          (Piece.set_size (Piece.size pl + Piece.size pr) pl)]>
                   (pieces_ s)))) s)).

(** The split of the piece [ph] at [h] after [a] bytes, with the remainder
    in the descriptor [n]; the remainder is registered but not yet filed. *)
Definition carve_state (h n : nat) (ph : Piece.t) (a : Z) (s : CachingAllocator)
  : CachingAllocator :=
  set_ptr2piece (<[Piece.ptr ph + a := n]> (ptr2piece_ s))
    (set_pieces
       (set_prev_of (Piece.next ph) (Some n)
          (<[n := Piece.mk (Piece.size ph - a) (Piece.ptr ph + a) true (Some h)
                    (Piece.next ph) kInvalidBinNum]>
             (<[h := Piece.set_next (Some n) (Piece.set_size a ph)]> (pieces_ s)))) s).

(** A new block of [bytes] bytes at [mem_ptr] with its single piece in the
    descriptor [n]; the piece is registered but not yet filed. *)
Definition new_block_state (n : nat) (mem_ptr bytes : Z) (s : CachingAllocator)
  : CachingAllocator :=
  set_mem_ptr2block (<[mem_ptr := Block.mk bytes mem_ptr n]> (mem_ptr2block_ s))
    (set_ptr2piece (<[mem_ptr := n]> (ptr2piece_ s))
       (set_pieces (<[n := Piece.mk bytes mem_ptr true None None kInvalidBinNum]> (pieces_ s))
          (set_total_memory_bytes (total_memory_bytes_ s + bytes) s))).

(** The piece [p] at [h] leaves its bin, whose set becomes [l]. *)
Definition unbin_state (h : nat) (p : Piece.t) (b : Bin.t) (l : list nat)
    (s : CachingAllocator) : CachingAllocator :=
  set_pieces (<[h := Piece.set_bin_num kInvalidBinNum p]> (pieces_ s))
    (set_bins (<[Z.to_nat (Piece.bin_num p) := Bin.set_pieces l b]> (bins_ s)) s).

(** The piece [p] at [h] is filed in the bin of its size, whose set becomes [l]. *)
Definition bin_state (h : nat) (p : Piece.t) (b : Bin.t) (l : list nat)
    (s : CachingAllocator) : CachingAllocator :=
  set_bins (<[Z.to_nat (BinNum4BinSize (Piece.size p)) := Bin.set_pieces l b]> (bins_ s))
    (set_pieces (<[h := Piece.set_bin_num (BinNum4BinSize (Piece.size p)) p]> (pieces_ s)) s).

(** [piece->is_free = v]. *)
Definition flag_state (h : nat) (p : Piece.t) (v : bool) (s : CachingAllocator)
  : CachingAllocator :=
  set_pieces (<[h := Piece.set_is_free v p]> (pieces_ s)) s.

(** The part of a piece that the layout of the arena depends on. *)
Definition geom (p : Piece.t) : Z * Z * option nat * option nat :=
  (Piece.size p, Piece.ptr p, Piece.prev p, Piece.next p).

(** Two states with the same layout: they differ in the filing only. *)
Definition same_layout (s s' : CachingAllocator) : Prop :=
  alignment_ s' = alignment_ s ∧
  total_memory_bytes_ s' = total_memory_bytes_ s ∧
  mem_ptr2block_ s' = mem_ptr2block_ s ∧
  ptr2piece_ s' = ptr2piece_ s ∧
  recycle_piece_list_ s' = recycle_piece_list_ s ∧
  ∀ h, geom <$> pieces_ s' !! h = geom <$> pieces_ s !! h.

(** A descriptor that is neither live nor retired. *)
Definition spare (s : CachingAllocator) (n : nat) : Prop :=
  is_Some (pieces_ s !! n) ∧
  (∀ h p, live s h p → h ≠ n) ∧
  (∀ rl, recycle_chain (pieces_ s) (recycle_piece_list_ s) rl → n ∉ rl).

(** ** The search of the specification *)

(** The piece at [h] is large enough for [aligned_size] bytes. *)
Definition fits (ps : list Piece.t) (aligned_size : Z) (h : nat) : bool :=
  match ps !! h with
  | Some p => aligned_size <=? Piece.size p
  | None => false
  end.

(** The free pieces in the order the search visits them: the bins from the
    class of [aligned_size] upwards, each in the order of its set. *)
Definition scan_order (s : CachingAllocator) (aligned_size : Z) : list nat :=
  concat (map Bin.pieces (drop (Z.to_nat (BinNum4BinSize aligned_size)) (bins_ s))).

(** The first piece of the scan that is large enough. *)
Definition first_fit (s : CachingAllocator) (aligned_size : Z) : option nat :=
  List.find (fits (pieces_ s) aligned_size) (scan_order s aligned_size).

(** The state after [FindPiece] has taken the piece [p] at [h] out of its
    bin [b], whose other elements are [l], and marked it in use. *)
Definition taken_state (h : nat) (p : Piece.t) (b : Bin.t) (l : list nat)
    (s : CachingAllocator) : CachingAllocator :=
  flag_state h (Piece.set_bin_num kInvalidBinNum p) false (unbin_state h p b l s).

(** What [FindPiece] does when it hands out the free piece [p] found at
    [h] for a request of [aligned_size] bytes: from the state [s] to [s']. *)
Definition handed_out (aligned_size : Z) (h : nat) (p : Piece.t)
    (s s' : CachingAllocator) : Prop :=
  mem_ptr2block_ s' = mem_ptr2block_ s ∧
  total_memory_bytes_ s' = total_memory_bytes_ s ∧
  cuda_calls_ s' = cuda_calls_ s ∧
  alignment_ s' = alignment_ s ∧
  (∀ i b, bins_ s' !! i = Some b → h ∉ Bin.pieces b) ∧
  if split_condition (Piece.size p) aligned_size then
    ∃ n, n ≠ h ∧ (∀ q, ¬ live s n q) ∧
      pieces_ s' !! h =
        Some (Piece.mk aligned_size (Piece.ptr p) false (Piece.prev p) (Some n)
                kInvalidBinNum) ∧
      pieces_ s' !! n =
        Some (Piece.mk (Piece.size p - aligned_size) (Piece.ptr p + aligned_size) true
                (Some h) (Piece.next p)
                (BinNum4BinSize (Piece.size p - aligned_size))) ∧
      ptr2piece_ s' = <[Piece.ptr p + aligned_size := n]> (ptr2piece_ s) ∧
      (∃ b, bins_ s' !! Z.to_nat (BinNum4BinSize (Piece.size p - aligned_size)) = Some b ∧
            n ∈ Bin.pieces b) ∧
      (∀ nx, Piece.next p = Some nx →
         ∃ pnx, pieces_ s !! nx = Some pnx ∧
                pieces_ s' !! nx = Some (Piece.set_prev (Some n) pnx))
  else
    pieces_ s' =
      <[h := Piece.set_is_free false (Piece.set_bin_num kInvalidBinNum p)]> (pieces_ s) ∧
    ptr2piece_ s' = ptr2piece_ s.

(** [FindPiece] has found [piece] in the state [s] and left the state [s']. *)
Definition found (aligned_size : Z) (s : CachingAllocator) (piece : nat)
    (s' : CachingAllocator) : Prop :=
  ∃ p p', wf s' ∧ handed_out aligned_size piece p s s' ∧
          live s piece p ∧ Piece.is_free p = true ∧ aligned_size ≤ Piece.size p ∧
          live s' piece p' ∧ Piece.ptr p' = Piece.ptr p ∧ Piece.is_free p' = false.

(** The blocks of a list are pairwise disjoint. *)
Fixpoint disjoint_blocks (l : list (Z * Block.t)) : Prop :=
  match l with
  | [] => True
  | (a, b) :: l' =>
      Forall (fun kb => a + Block.size b ≤ kb.1 ∨ kb.1 + Block.size kb.2 ≤ a) l' ∧
      disjoint_blocks l'
  end.

(** The sum of the sizes of a list of blocks. *)
Definition blocks_size (l : list (Z * Block.t)) : Z :=
  foldr (fun kb acc => acc + Block.size kb.2) 0 l.

(** What a successful [AllocateBlockToExtendTotalMem] does: a new block of
    [bytes] bytes at [mem_ptr], registered with a single free piece that
    spans it. *)
Definition grown (mem_ptr bytes : Z) (s s' : CachingAllocator) : Prop :=
  ∃ n, (∀ q, ¬ live s n q) ∧
    mem_ptr2block_ s !! mem_ptr = None ∧
    mem_ptr2block_ s' = <[mem_ptr := Block.mk bytes mem_ptr n]> (mem_ptr2block_ s) ∧
    ptr2piece_ s' = <[mem_ptr := n]> (ptr2piece_ s) ∧
    pieces_ s' !! n =
      Some (Piece.mk bytes mem_ptr true None None (BinNum4BinSize bytes)) ∧
    (∃ b, bins_ s' !! Z.to_nat (BinNum4BinSize bytes) = Some b ∧ n ∈ Bin.pieces b) ∧
    total_memory_bytes_ s' = total_memory_bytes_ s + bytes ∧
    cuda_calls_ s' = CudaMalloc bytes mem_ptr :: cuda_calls_ s ∧
    (∀ x q, live s x q → live s' x q).

(** The physical neighbour behind the pointer [o], when it is free. *)
Definition free_neighbour (s : CachingAllocator) (o : option nat) : option (nat * Piece.t) :=
  match o with
  | Some x =>
      match pieces_ s !! x with
      | Some q => if Piece.is_free q then Some (x, q) else None
      | None => None
      end
  | None => None
  end.

(** What [Deallocate] does to the piece [p] found at [h]: it is merged with
    its free neighbours, the piece with the lowest address survives, and the
    survivor is filed in the bin of the merged size. *)
Definition freed (h : nat) (p : Piece.t) (s s' : CachingAllocator) : Prop :=
  let nx := free_neighbour s (Piece.next p) in
  let pv := free_neighbour s (Piece.prev p) in
  let survivor := from_option fst h pv in
  let base := from_option (fun xq => Piece.ptr xq.2) (Piece.ptr p) pv in
  let size := Piece.size p + from_option (fun xq => Piece.size xq.2) 0 nx
              + from_option (fun xq => Piece.size xq.2) 0 pv in
  mem_ptr2block_ s' = mem_ptr2block_ s ∧
  total_memory_bytes_ s' = total_memory_bytes_ s ∧
  cuda_calls_ s' = cuda_calls_ s ∧
  (∀ xq, nx = Some xq → ptr2piece_ s' !! Piece.ptr xq.2 = None) ∧
  (∀ xq, pv = Some xq → ptr2piece_ s' !! Piece.ptr p = None) ∧
  ∃ ps b, live s' survivor ps ∧ Piece.is_free ps = true ∧
          Piece.ptr ps = base ∧ Piece.size ps = size ∧
          Piece.bin_num ps = BinNum4BinSize size ∧
          bins_ s' !! Z.to_nat (BinNum4BinSize size) = Some b ∧
          survivor ∈ Bin.pieces b.

(** ** Reclamation *)

(** The pieces of a physical chain are all free. *)
Inductive chain_free (ps : list Piece.t) : option nat -> Prop :=
  | chain_free_end : chain_free ps None
  | chain_free_step h p :
      ps !! h = Some p → Piece.is_free p = true → chain_free ps (Piece.next p) →
      chain_free ps (Some h).

(** A block is idle when every piece of its physical chain is free. *)
Definition idle (s : CachingAllocator) (b : Block.t) : Prop :=
  chain_free (pieces_ s) (Some (Block.start_piece b)).

(** The answer of the first loop of the reclamation pass for one block. *)
Definition idle_b (s : CachingAllocator) (b : Block.t) : bool :=
  match chain_all_free (S (length (pieces_ s))) (pieces_ s)
          (Some (Block.start_piece b)) with
  | Ret true => true
  | _ => false
  end.

(** A retired descriptor: it is on the recycle list. *)
Definition recycled (s : CachingAllocator) (h : nat) : Prop :=
  ∃ rl, recycle_chain (pieces_ s) (recycle_piece_list_ s) rl ∧ h ∈ rl.

(** The state [s] with the byte count its blocks add up to. The reclamation
    pass lowers [total_memory_bytes_] before it releases the blocks. *)
Definition settled (s : CachingAllocator) : CachingAllocator :=
  set_total_memory_bytes (blocks_total (mem_ptr2block_ s)) s.

(** The block at [a], whose only piece is at [h], goes back to the device. *)
Definition drop_state (a : Z) (h : nat) (s : CachingAllocator) : CachingAllocator :=
  set_cuda_calls (CudaFree a :: cuda_calls_ s)
    (set_mem_ptr2block (delete a (mem_ptr2block_ s))
       (set_recycle_piece_list (Some h)
          (set_pieces (<[h := retired (recycle_piece_list_ s)]> (pieces_ s))
             (set_ptr2piece (delete a (ptr2piece_ s)) s)))).

(** The blocks the first loop of the reclamation pass selects. *)
Definition idle_blocks (s : CachingAllocator) : list (Z * Block.t) :=
  filter (fun kb => idle_b s kb.2 = true) (map_to_list (mem_ptr2block_ s)).

(** The piece [p] lies in the address range of the block [b] at [a]. *)
Definition in_block (a : Z) (b : Block.t) (p : Piece.t) : Prop :=
  a ≤ Piece.ptr p < a + Block.size b.

(** What the reclamation pass does, from the state [s] to [s']: the idle
    blocks go back to the device, their pieces are retired, and the byte
    count drops by their sizes. *)
Definition reclaimed (s s' : CachingAllocator) : Prop :=
  (∀ a blk, mem_ptr2block_ s' !! a = Some blk ↔
            mem_ptr2block_ s !! a = Some blk ∧ ¬ idle s blk) ∧
  total_memory_bytes_ s' = total_memory_bytes_ s - blocks_size (idle_blocks s) ∧
  total_memory_bytes_ s' = blocks_total (mem_ptr2block_ s') ∧
  (∃ ks, ks ≡ₚ (idle_blocks s).*1 ∧
         cuda_calls_ s' = (CudaFree <$> ks) ++ cuda_calls_ s) ∧
  (∀ x q, live s' x q ↔
          live s x q ∧
          ¬ ∃ a blk, mem_ptr2block_ s !! a = Some blk ∧ idle s blk ∧ in_block a blk q) ∧
  (∀ x q a blk, live s x q → mem_ptr2block_ s !! a = Some blk → idle s blk →
     in_block a blk q →
     ptr2piece_ s' !! Piece.ptr q = None ∧ recycled s' x ∧
     ∀ i b, bins_ s' !! i = Some b → x ∉ Bin.pieces b).

(** The allocator holds the address [mem_ptr] as a piece in use. *)
Definition held_in_use (s : CachingAllocator) (mem_ptr : Z) : Prop :=
  ∃ h p, ptr2piece_ s !! mem_ptr = Some h ∧ pieces_ s !! h = Some p ∧
         Piece.is_free p = false.

(** The order of the set of a bin: by size, then by address. *)
Definition size_then_address (ps : list Piece.t) (x y : nat) : Prop :=
  ∃ px py, ps !! x = Some px ∧ ps !! y = Some py ∧
    (Piece.size px < Piece.size py ∨
     Piece.size px = Piece.size py ∧ Piece.ptr px < Piece.ptr py).

(** ** A run of the allocator *)

(** A device whose free memory starts at address 4096. *)
Definition device_4096 : Z -> Z :=
  fun bytes => if bytes <=? 2 ^ 30 then 4096 else 0.

(** A device that has no memory left. *)
Definition device_full : Z -> Z := fun _ => 0.

(** [DoAllocate(100)] on a new allocator: a block of 2 MiB at 4096, its
    first 512 bytes in use. *)
Definition run_1 : CachingAllocator :=
  fst (DoAllocate device_4096 100 CachingAllocator_new).

(** Then [DoAllocate(4000)]: 4096 bytes at 4608, cut from the free piece. *)
Definition run_2 : CachingAllocator := fst (DoAllocate device_full 4000 run_1).

(** Then [Deallocate(4096)]: the first piece is free again. *)
Definition run_3 : CachingAllocator := fst (Deallocate 4096 run_2).

(** Then [Deallocate(4608)]: the three pieces are merged into one. *)
Definition run_4 : CachingAllocator := fst (Deallocate 4608 run_3).

(** ** What a user of the allocator holds *)

(** The allocator holds the address [mem_ptr] as a piece in use with room
    for [room] bytes. *)
Definition allocation (s : CachingAllocator) (mem_ptr room : Z) : Prop :=
  ∃ h p, ptr2piece_ s !! mem_ptr = Some h ∧ pieces_ s !! h = Some p ∧
         Piece.is_free p = false ∧ Piece.size p = room.

(** ** The destructor and the calls of the device *)

(** The loop of the destructor: [cudaFree] of every block, in the order of
    the map. *)
Fixpoint free_blocks (blocks : list (Z * Block.t)) : M unit :=
  match blocks with
  | [] => ret tt
  | (mem_ptr, _) :: blocks' =>
      modify (fun s => set_cuda_calls (CudaFree mem_ptr :: cuda_calls_ s) s) ;;
      free_blocks blocks'
  end.

(** The destructor. *)
Definition CachingAllocator_delete : M unit :=
  s <- get ;;
  if total_memory_bytes_ s =? 0 then ret tt
  else free_blocks (map_to_list (mem_ptr2block_ s)).

(** The addresses the device has handed out and not got back, after the
    calls [calls] (the newest first). *)
Fixpoint outstanding (calls : list CudaCall) : gset Z :=
  match calls with
  | [] => ∅
  | CudaMalloc _ mem_ptr :: calls' =>
      if mem_ptr =? 0 then outstanding calls' else {[ mem_ptr ]} ∪ outstanding calls'
  | CudaFree mem_ptr :: calls' => outstanding calls' ∖ {[ mem_ptr ]}
  end.

(** Every [cudaFree] of [calls] is of an address that was outstanding. *)
Fixpoint frees_valid (calls : list CudaCall) : Prop :=
  match calls with
  | [] => True
  | CudaMalloc _ _ :: calls' => frees_valid calls'
  | CudaFree mem_ptr :: calls' => mem_ptr ∈ outstanding calls' ∧ frees_valid calls'
  end.

(** The pieces in use in [s], but for the piece [ex], are in use in [s']
    with the same address and size. *)
Definition used_kept (ex : option nat) (s s' : CachingAllocator) : Prop :=
  ∀ x q, live s x q → Piece.is_free q = false → ex ≠ Some x →
    ∃ q', live s' x q' ∧ Piece.is_free q' = false ∧
          Piece.size q' = Piece.size q ∧ Piece.ptr q' = Piece.ptr q.

(* ===================================================================== *)
(** * Proofs *)

(** ** Machine arithmetic and size classes *)

Lemma clz_below_spec n v :
  0 < v < 2 ^ Z.of_nat n → clz_below n v = Z.of_nat n - 1 - Z.log2 v.
Proof.
  revert v. induction n as [|k IH]; intros v Hv.
  - simpl in Hv. lia.
  - cbn [clz_below].
    assert (Hlog : Z.log2 v < Z.of_nat (S k)) by (apply Z.log2_lt_pow2; lia).
    destruct (Z.testbit v (Z.of_nat k)) eqn:Hbit.
    + assert (Z.of_nat k ≤ Z.log2 v).
      { destruct (Z_lt_le_dec (Z.log2 v) (Z.of_nat k)) as [Hlt|]; [|done].
        rewrite Z.bits_above_log2 in Hbit by lia. discriminate. }
      lia.
    + assert (Z.log2 v ≠ Z.of_nat k).
      { intros Heq. rewrite <- Heq, Z.bit_log2 in Hbit by lia. discriminate. }
      rewrite IH; [lia|]. split; [lia|]. apply Z.log2_lt_pow2; lia.
Qed.

Lemma lxor_63 x : 0 ≤ x ≤ 63 → Z.lxor 63 x = 63 - x.
Proof.
  intros Hx.
  assert (Hall : forallb (fun n => Z.lxor 63 (Z.of_nat n) =? 63 - Z.of_nat n) (seq 0 64) = true)
    by (vm_compute; reflexivity).
  rewrite forallb_forall in Hall.
  specialize (Hall (Z.to_nat x)).
  rewrite Z2Nat.id in Hall by lia.
  apply Z.eqb_eq, Hall, in_seq. lia.
Qed.

Lemma BinNum4BinSize_log2 size :
  0 ≤ size < 2 ^ 64 →
  BinNum4BinSize size = Z.min (kBinNumSize - 1) (Z.log2 (Z.max size kAlignSize / kAlignSize)).
Proof.
  intros Hsize. unfold BinNum4BinSize, kAlignSize, clzll.
  rewrite Z.shiftr_div_pow2 by lia. change (2 ^ 9) with 512.
  set (v := Z.max size 512 / 512).
  assert (Hv : 1 ≤ v < 2 ^ 55).
  { subst v. split.
    - apply Z.div_le_lower_bound; lia.
    - apply Z.div_lt_upper_bound; [lia|]. change (512 * 2 ^ 55) with (2 ^ 64). lia. }
  assert (Hlog : 0 ≤ Z.log2 v < 55).
  { split; [apply Z.log2_nonneg|]. apply Z.log2_lt_pow2; lia. }
  rewrite clz_below_spec.
  - rewrite lxor_63 by (change (Z.of_nat 64) with 64; lia).
    change (Z.of_nat 64) with 64. f_equal. lia.
  - change (Z.of_nat 64) with 64. split; [lia|].
    assert (2 ^ 55 < 2 ^ 64) by (apply Z.pow_lt_mono_r; lia). lia.
Qed.

Lemma BinNum4BinSize_range size :
  0 ≤ size < 2 ^ 64 → 0 ≤ BinNum4BinSize size < kBinNumSize.
Proof.
  intros Hsize. rewrite BinNum4BinSize_log2 by done.
  pose proof (Z.log2_nonneg (Z.max size kAlignSize / kAlignSize)).
  unfold kBinNumSize. lia.
Qed.

Lemma BinNum4BinSize_mono a b :
  0 ≤ a ≤ b → b < 2 ^ 64 → BinNum4BinSize a ≤ BinNum4BinSize b.
Proof.
  intros Hab Hb. rewrite !BinNum4BinSize_log2 by lia.
  apply Z.min_le_compat_l, Z.log2_le_mono, Z.div_le_mono; unfold kAlignSize; lia.
Qed.

Lemma BinSize4BinNum_pow2 i :
  0 ≤ i < kBinNumSize → BinSize4BinNum i = 512 * 2 ^ i.
Proof.
  intros Hi. unfold BinSize4BinNum, kAlignSize, wrap64, kBinNumSize in *.
  rewrite Z.shiftl_mul_pow2 by lia.
  apply Z.mod_small. split; [lia|].
  assert (2 ^ i ≤ 2 ^ 19) by (apply Z.pow_le_mono_r; lia).
  change (2 ^ 64) with (512 * 2 ^ 55).
  assert (2 ^ 19 < 2 ^ 55) by (apply Z.pow_lt_mono_r; lia). lia.
Qed.

Lemma BinNum4BinSize_class size i :
  0 ≤ size < 2 ^ 64 → 0 ≤ i < kBinNumSize - 1 →
  BinNum4BinSize size = i ↔ 512 * 2 ^ i ≤ Z.max size 512 < 512 * 2 ^ (i + 1).
Proof.
  intros Hsize Hi. rewrite BinNum4BinSize_log2 by done.
  unfold kAlignSize, kBinNumSize in *.
  set (m := Z.max size 512). set (v := m / 512).
  assert (Hv : 1 ≤ v) by (subst v m; apply Z.div_le_lower_bound; lia).
  pose proof (Z.log2_spec v ltac:(lia)) as [Hlo Hhi].
  pose proof (Z.log2_nonneg v) as Hnn.
  assert (Hdiv : 512 * v ≤ m < 512 * v + 512).
  { subst v. pose proof (Z.mul_div_le m 512 ltac:(lia)).
    pose proof (Z.mul_succ_div_gt m 512 ltac:(lia)). lia. }
  split.
  - intros Hmin. assert (Z.log2 v = i) as <- by lia.
    rewrite <- Z.add_1_r in Hhi. split; nia.
  - intros [Hl Hu].
    assert (Z.log2 v = i); [|lia].
    apply Z.log2_unique; [lia|]. rewrite <- Z.add_1_r. split; nia.
Qed.

Lemma BinNum4BinSize_top size :
  0 ≤ size < 2 ^ 64 →
  BinNum4BinSize size = kBinNumSize - 1 ↔ 512 * 2 ^ (kBinNumSize - 1) ≤ size.
Proof.
  intros Hsize. rewrite BinNum4BinSize_log2 by done.
  unfold kAlignSize, kBinNumSize in *. change (20 - 1) with 19.
  set (m := Z.max size 512). set (v := m / 512).
  assert (Hv : 1 ≤ v) by (subst v m; apply Z.div_le_lower_bound; lia).
  assert (Hdiv : 512 * v ≤ m < 512 * v + 512).
  { subst v. pose proof (Z.mul_div_le m 512 ltac:(lia)).
    pose proof (Z.mul_succ_div_gt m 512 ltac:(lia)). lia. }
  assert (H19 : 2 ^ 19 = 524288) by reflexivity.
  split.
  - intros Hmin. assert (19 ≤ Z.log2 v) by lia.
    assert (2 ^ 19 ≤ v).
    { apply Z.log2_le_pow2; lia. }
    subst m. lia.
  - intros Hle. assert (2 ^ 19 ≤ v).
    { subst v. apply Z.div_le_lower_bound; lia. }
    assert (19 ≤ Z.log2 v) by (apply Z.log2_le_pow2; lia).
    lia.
Qed.

Lemma wrap64_small z : 0 ≤ z < 2 ^ 64 → wrap64 z = z.
Proof. intros. unfold wrap64. by apply Z.mod_small. Qed.

Lemma wrap64_range z : 0 ≤ wrap64 z < 2 ^ 64.
Proof. unfold wrap64. apply Z.mod_pos_bound. lia. Qed.

Lemma RoundUp_small n val :
  0 < val → 0 ≤ n → n + val - 1 < 2 ^ 64 →
  RoundUp n val = (n + val - 1) / val * val.
Proof.
  intros Hval Hn Hlt. unfold RoundUp.
  rewrite (wrap64_small (n + val - 1)) by lia.
  apply wrap64_small.
  pose proof (Z.mul_div_le (n + val - 1) val Hval).
  assert (0 ≤ (n + val - 1) / val) by (apply Z.div_pos; lia).
  nia.
Qed.

Lemma RoundUp_bounds n val :
  0 < val → 0 ≤ n → n + val - 1 < 2 ^ 64 →
  n ≤ RoundUp n val < n + val ∧ RoundUp n val mod val = 0.
Proof.
  intros Hval Hn Hlt. rewrite RoundUp_small by done.
  pose proof (Z.mul_div_le (n + val - 1) val Hval).
  pose proof (Z.mul_succ_div_gt (n + val - 1) val Hval).
  split; [lia|]. apply Z.mod_mul. lia.
Qed.

Lemma RoundUp_multiple n val :
  0 < val → 0 ≤ n → n + val - 1 < 2 ^ 64 → n mod val = 0 → RoundUp n val = n.
Proof.
  intros Hval Hn Hlt Hmod.
  destruct (RoundUp_bounds n val) as [Hb Hm]; [done..|].
  apply Z.mod_divide in Hm; [|lia]. apply Z.mod_divide in Hmod; [|lia].
  destruct Hm as [k Hk], Hmod as [j Hj]. rewrite Hk in *. subst n.
  assert (j ≤ k) by (apply (Z.mul_le_mono_pos_r _ _ val); lia).
  assert (k < j + 1) by (apply (Z.mul_lt_mono_pos_r val); lia).
  f_equal. lia.
Qed.

Lemma RoundUp_wrapped n val :
  0 < val ≤ 2 ^ 64 → 0 ≤ n < 2 ^ 64 → 2 ^ 64 ≤ n + val - 1 → RoundUp n val = 0.
Proof.
  intros Hval Hn Hge. unfold RoundUp, wrap64.
  replace ((n + val - 1) mod 2 ^ 64) with (n + val - 1 - 2 ^ 64).
  - rewrite Z.div_small by lia. reflexivity.
  - apply Z.mod_unique with 1; lia.
Qed.

Lemma final_allocate_bytes_cases a :
  0 ≤ a < 2 ^ 64 →
  (a < 1048576 ∧ final_allocate_bytes kCudaAlignSize a = 2097152) ∨
  (1048576 ≤ a < 10485760 ∧ final_allocate_bytes kCudaAlignSize a = 20971520) ∨
  (10485760 ≤ a ∧ a + 2097151 < 2 ^ 64 ∧
   final_allocate_bytes kCudaAlignSize a = (a + 2097151) / 2097152 * 2097152) ∨
  (2 ^ 64 ≤ a + 2097151 ∧ final_allocate_bytes kCudaAlignSize a = 0).
Proof.
  intros Ha. unfold final_allocate_bytes, kCudaAlignSize, MemAlignedBytes.
  destruct (Z.ltb_spec a 1048576); [left; split; [done|reflexivity]|].
  destruct (Z.ltb_spec a 10485760); [right; left; split; [lia|reflexivity]|].
  right; right.
  destruct (Z_lt_le_dec (a + 2097151) (2 ^ 64)) as [Hlt|Hge].
  - left. split; [done|]. split; [done|].
    destruct (RoundUp_bounds a 2097152) as [Hb Hm]; [lia..|].
    replace (a + 2097151) with (a + 2097152 - 1) by lia.
    rewrite <- (RoundUp_small a 2097152) by lia.
    set (x := RoundUp a 2097152) in *.
    apply Z.mod_divide in Hm; [|lia]. destruct Hm as [k Hk].
    assert (x ≤ 2 ^ 64 - 2097152).
    { change (2 ^ 64) with (8796093022208 * 2097152) in *. nia. }
    apply RoundUp_multiple; [lia..|].
    rewrite Hk. replace (k * 2097152) with (k * 4096 * 512) by lia.
    apply Z.mod_mul. lia.
  - right. split; [done|].
    rewrite (RoundUp_wrapped a 2097152) by lia. reflexivity.
Qed.

Lemma final_allocate_bytes_aligned a :
  0 ≤ a < 2 ^ 64 → a ≤ final_allocate_bytes kCudaAlignSize a →
  2097152 ≤ final_allocate_bytes kCudaAlignSize a < 2 ^ 64 ∧
  final_allocate_bytes kCudaAlignSize a mod 512 = 0.
Proof.
  intros Ha Hle.
  destruct (final_allocate_bytes_cases a Ha)
    as [[? ->]|[[? ->]|[(? & ? & Hf)|[? Hf]]]]; [done|done| |lia].
  rewrite Hf in *.
  pose proof (Z.mul_div_le (a + 2097151) 2097152 ltac:(lia)).
  split; [lia|].
  replace ((a + 2097151) / 2097152 * 2097152)
    with ((a + 2097151) / 2097152 * 4096 * 512) by lia.
  apply Z.mod_mul. lia.
Qed.

(** ** The monad *)

Lemma bind_ret_inv {A B} (m : M A) (k : A -> M B) s s' b :
  (x <- m ;; k x) s = (s', Ret b) →
  ∃ s1 a, m s = (s1, Ret a) ∧ k a s1 = (s', Ret b).
Proof.
  unfold bind. destruct (m s) as [s1 [a|f]]; [eauto|discriminate].
Qed.

Lemma bind_eval {A B} (m : M A) (k : A -> M B) s s1 a :
  m s = (s1, Ret a) → (x <- m ;; k x) s = k a s1.
Proof. intros H. unfold bind. by rewrite H. Qed.

Lemma bind_fail {A B} (m : M A) (k : A -> M B) s s1 f :
  m s = (s1, Fail f) → (x <- m ;; k x) s = (s1, Fail f).
Proof. intros H. unfold bind. by rewrite H. Qed.

Lemma keeps_ret {A B} (f : CachingAllocator -> B) (a : A) : keeps f (ret a).
Proof. by intros s. Qed.

Lemma keeps_fail {A B} (f : CachingAllocator -> B) (e : Failure) : keeps f (@fail A e).
Proof. by intros s. Qed.

Lemma keeps_bind {A A' B} (f : CachingAllocator -> B) (m : M A) (k : A -> M A') :
  keeps f m → (∀ a, keeps f (k a)) → keeps f (x <- m ;; k x).
Proof.
  intros Hm Hk s. unfold bind. specialize (Hm s).
  destruct (m s) as [s1 [a|e]]; simpl in *; [|done].
  by rewrite Hk.
Qed.

Lemma keeps_get {B} (f : CachingAllocator -> B) : keeps f get.
Proof. by intros s. Qed.

Lemma keeps_RV_CHECK {B} (f : CachingAllocator -> B) b : keeps f (RV_CHECK b).
Proof. by destruct b. Qed.

Lemma keeps_load {B} (f : CachingAllocator -> B) h : keeps f (load h).
Proof. intros s. unfold load. by destruct (pieces_ s !! h). Qed.

Lemma keeps_deref {B} (f : CachingAllocator -> B) h : keeps f (deref h).
Proof. by destruct h. Qed.

Lemma keeps_bins_at {B} (f : CachingAllocator -> B) i : keeps f (bins_at i).
Proof.
  intros s. unfold bins_at.
  destruct (_ && _); [|done]. by destruct (bins_ s !! _).
Qed.

(** ** The ordered sets of the bins *)

Lemma PieceCmp_true ps x y :
  PieceCmp ps x y = true ↔
  ∃ px py, ps !! x = Some px ∧ ps !! y = Some py ∧
    (Piece.size px < Piece.size py ∨
     (Piece.size px = Piece.size py ∧ Piece.ptr px < Piece.ptr py)).
Proof.
  unfold PieceCmp. split.
  - destruct (ps !! x) as [px|], (ps !! y) as [py|]; try discriminate.
    intros H. exists px, py. split; [done|]. split; [done|].
    destruct (Z.eqb_spec (Piece.size px) (Piece.size py)); simpl in H;
      apply Z.ltb_lt in H; lia.
  - intros (px & py & -> & -> & H).
    destruct (Z.eqb_spec (Piece.size px) (Piece.size py)); simpl;
      apply Z.ltb_lt; lia.
Qed.

Lemma PieceCmp_asym ps x y : PieceCmp ps x y = true → PieceCmp ps y x = false.
Proof.
  intros H. apply not_true_is_false. intros H'.
  apply PieceCmp_true in H as (px & py & Hx & Hy & H).
  apply PieceCmp_true in H' as (py' & px' & Hy' & Hx' & H').
  simplify_eq. lia.
Qed.

Lemma PieceCmp_irrefl ps x : PieceCmp ps x x = false.
Proof.
  apply not_true_is_false. intros H.
  pose proof (PieceCmp_asym _ _ _ H). congruence.
Qed.

Lemma PieceCmp_trans ps x y z :
  PieceCmp ps x y = true → PieceCmp ps y z = true → PieceCmp ps x z = true.
Proof.
  intros H1 H2.
  apply PieceCmp_true in H1 as (px & py & Hx & Hy & H1).
  apply PieceCmp_true in H2 as (py' & pz & Hy' & Hz & H2).
  simplify_eq. apply PieceCmp_true. exists px, pz. repeat split; try done. lia.
Qed.

(** The order only looks at the size and the address of the elements. *)
Lemma PieceCmp_ext ps ps' x y :
  piece_key ps' x = piece_key ps x → piece_key ps' y = piece_key ps y →
  PieceCmp ps' x y = PieceCmp ps x y.
Proof.
  unfold piece_key, PieceCmp. intros Hx Hy.
  destruct (ps' !! x) as [a'|], (ps !! x) as [a|]; simpl in Hx; try discriminate;
  destruct (ps' !! y) as [b'|], (ps !! y) as [b|]; simpl in Hy; try discriminate;
    try done.
  injection Hx as -> ->. injection Hy as -> ->. done.
Qed.

Lemma bin_sorted_ext ps ps' l :
  (∀ h, h ∈ l → piece_key ps' h = piece_key ps h) →
  bin_sorted ps l → bin_sorted ps' l.
Proof.
  unfold bin_sorted. intros Hkey Hs. induction Hs as [|x l Hs IH Hx].
  - constructor.
  - constructor.
    + apply IH. intros h Hh. apply Hkey. by right.
    + rewrite Forall_forall in *. intros y Hy.
      rewrite (PieceCmp_ext ps ps'); [by apply Hx| |].
      * apply Hkey. by left.
      * apply Hkey. by right.
Qed.

Lemma bin_sorted_app_inv ps l1 x l2 :
  bin_sorted ps (l1 ++ x :: l2) →
  (∀ y, y ∈ l1 → PieceCmp ps y x = true) ∧ (∀ y, y ∈ l2 → PieceCmp ps x y = true).
Proof.
  unfold bin_sorted. induction l1 as [|a l1 IH]; simpl; intros Hs.
  - apply StronglySorted_inv in Hs as [_ Hx]. rewrite Forall_forall in Hx.
    split; [by intros y ?%elem_of_nil|done].
  - apply StronglySorted_inv in Hs as [Hs Ha]. rewrite Forall_forall in Ha.
    destruct (IH Hs) as [H1 H2]. split; [|done].
    intros y [->|Hy]%elem_of_cons; [|by apply H1].
    apply Ha. apply elem_of_app. right. by left.
Qed.

Lemma bin_sorted_delete ps l1 x l2 :
  bin_sorted ps (l1 ++ x :: l2) → bin_sorted ps (l1 ++ l2).
Proof.
  unfold bin_sorted. induction l1 as [|a l1 IH]; simpl; intros Hs.
  - by apply StronglySorted_inv in Hs as [? _].
  - apply StronglySorted_inv in Hs as [Hs Ha]. constructor; [by apply IH|].
    rewrite Forall_forall in *. intros y Hy. apply Ha.
    apply elem_of_app in Hy as [?|?]; apply elem_of_app; [by left|right; by right].
Qed.

Lemma set_erase_sorted ps l1 x l2 :
  bin_sorted ps (l1 ++ x :: l2) →
  set_erase (PieceCmp ps) x (l1 ++ x :: l2) = l1 ++ l2.
Proof.
  induction l1 as [|a l1 IH]; simpl; intros Hs.
  - by rewrite PieceCmp_irrefl.
  - pose proof Hs as Hs'. apply StronglySorted_inv in Hs as [Hs Ha].
    rewrite Forall_forall in Ha.
    assert (Hax : PieceCmp ps a x = true).
    { apply Ha, elem_of_app. right. by left. }
    rewrite (PieceCmp_asym _ _ _ Hax), Hax. f_equal. by apply IH.
Qed.

Lemma set_insert_spec ps x l :
  bin_sorted ps l →
  (∀ y, y ∈ l → PieceCmp ps x y = true ∨ PieceCmp ps y x = true) →
  ∃ l1 l2, l = l1 ++ l2 ∧ set_insert (PieceCmp ps) x l = (l1 ++ x :: l2, true) ∧
           bin_sorted ps (l1 ++ x :: l2).
Proof.
  unfold bin_sorted. induction l as [|a l IH]; simpl; intros Hs Htot.
  - exists [], []. repeat split. repeat constructor.
  - apply StronglySorted_inv in Hs as [Hs Ha]. rewrite Forall_forall in Ha.
    destruct (PieceCmp ps x a) eqn:Hxa.
    + exists [], (a :: l). repeat split. simpl. constructor.
      * by constructor; [|apply Forall_forall].
      * apply Forall_forall. intros y [->|Hy]%elem_of_cons; [done|].
        eapply PieceCmp_trans; [done|]. by apply Ha.
    + destruct (Htot a) as [H|Hax]; [by left|congruence|]. rewrite Hax.
      destruct IH as (l1 & l2 & -> & Hins & Hsorted); [done| |].
      { intros y Hy. apply Htot. by right. }
      rewrite Hins. exists (a :: l1), l2. repeat split. simpl. constructor; [done|].
      apply Forall_forall. intros y Hy.
      apply elem_of_app in Hy as [Hy|[->|Hy]%elem_of_cons]; [| done |].
      * apply Ha, elem_of_app. by left.
      * apply Ha, elem_of_app. by right.
Qed.

(** ** Running the member functions *)

Ltac munfold :=
  unfold store, load, bind, get, modify, RV_CHECK, ret, fail, deref; simpl.

(** Reads of updated lists and maps. *)
Ltac lk_side := first [done | congruence | lia |
  rewrite ?length_insert, ?length_app; simpl; eauto using lookup_lt_Some; lia].

Ltac lk :=
  repeat first
    [ rewrite list_lookup_insert_eq by lk_side
    | rewrite list_lookup_insert_ne by lk_side
    | rewrite list_insert_insert_eq
    | rewrite lookup_insert_eq
    | rewrite lookup_insert_ne by lk_side
    | rewrite lookup_delete_eq
    | rewrite lookup_delete_ne by lk_side ].

Lemma load_eval s h p : pieces_ s !! h = Some p → load h s = (s, Ret p).
Proof. intros H. unfold load. by rewrite H. Qed.

Lemma store_eval s h p f :
  pieces_ s !! h = Some p →
  store h f s = (set_pieces (<[h := f p]> (pieces_ s)) s, Ret tt).
Proof. intros H. munfold. by rewrite H. Qed.

Lemma bins_at_eval s i b :
  0 ≤ i → bins_ s !! Z.to_nat i = Some b → bins_at i s = (s, Ret b).
Proof.
  intros Hi Hb. unfold bins_at.
  pose proof (lookup_lt_Some _ _ _ Hb).
  rewrite Hb.
  destruct (Z.leb_spec 0 i); [|lia].
  destruct (Z.ltb_spec i (Z.of_nat (length (bins_ s)))); [|lia]. done.
Qed.

Lemma RemovePieceFromBin_eval s h p b :
  pieces_ s !! h = Some p → Piece.is_free p = true →
  0 ≤ Piece.bin_num p → bins_ s !! Z.to_nat (Piece.bin_num p) = Some b →
  RemovePieceFromBin h s =
    (set_pieces (<[h := Piece.set_bin_num kInvalidBinNum p]> (pieces_ s))
       (set_bins (<[Z.to_nat (Piece.bin_num p) :=
                     Bin.set_pieces (set_erase (PieceCmp (pieces_ s)) h (Bin.pieces b)) b]>
                    (bins_ s)) s),
     Ret tt).
Proof.
  intros Hp Hfree Hbn Hb.
  unfold RemovePieceFromBin, set_bin_pieces. munfold.
  rewrite Hp, Hfree. rewrite !(bins_at_eval _ _ b) by done. simpl. by rewrite Hp.
Qed.

Lemma InsertPiece2Bin_eval s h p b l :
  pieces_ s !! h = Some p → Piece.is_free p = true →
  Piece.bin_num p = kInvalidBinNum →
  0 ≤ BinNum4BinSize (Piece.size p) →
  bins_ s !! Z.to_nat (BinNum4BinSize (Piece.size p)) = Some b →
  set_insert (PieceCmp (<[h := Piece.set_bin_num (BinNum4BinSize (Piece.size p)) p]> (pieces_ s)))
    h (Bin.pieces b) = (l, true) →
  InsertPiece2Bin h s =
    (set_bins (<[Z.to_nat (BinNum4BinSize (Piece.size p)) := Bin.set_pieces l b]> (bins_ s))
       (set_pieces (<[h := Piece.set_bin_num (BinNum4BinSize (Piece.size p)) p]> (pieces_ s)) s),
     Ret tt).
Proof.
  intros Hp Hfree Hbn Hrange Hb Hins.
  unfold InsertPiece2Bin, set_bin_pieces. munfold.
  rewrite Hp, Hfree, Hbn. simpl. rewrite Hp.
  rewrite (bins_at_eval _ _ b) by done. simpl. rewrite Hins.
  rewrite (bins_at_eval _ _ b) by done. done.
Qed.

Lemma AllocatePiece_recycled s r p :
  recycle_piece_list_ s = Some r → pieces_ s !! r = Some p →
  AllocatePiece s = (set_recycle_piece_list (Piece.next p) s, Ret r).
Proof. intros Hr Hp. unfold AllocatePiece. munfold. by rewrite Hr, Hp. Qed.

Lemma AllocatePiece_new s :
  recycle_piece_list_ s = None →
  AllocatePiece s = (set_pieces (pieces_ s ++ [Piece.fresh]) s, Ret (length (pieces_ s))).
Proof.
  intros Hr. unfold AllocatePiece. munfold. rewrite Hr.
  rewrite length_app. simpl. do 2 f_equal. lia.
Qed.

Lemma DeallocatePiece_eval s h p :
  pieces_ s !! h = Some p →
  DeallocatePiece h s =
    (set_recycle_piece_list (Some h)
       (set_pieces (<[h := Piece.mk 0 0 true None (recycle_piece_list_ s) kInvalidBinNum]>
                      (pieces_ s)) s),
     Ret tt).
Proof.
  intros Hp. pose proof (lookup_lt_Some _ _ _ Hp).
  unfold DeallocatePiece. munfold. rewrite Hp. simpl.
  repeat (lk; simpl). done.
Qed.

Lemma MarkPiece_eval s h p :
  pieces_ s !! h = Some p → ptr2piece_ s !! Piece.ptr p = None →
  MarkPiece h s = (set_ptr2piece (<[Piece.ptr p := h]> (ptr2piece_ s)) s, Ret tt).
Proof.
  intros Hp Hnone. unfold MarkPiece, emplace. munfold. rewrite Hp. simpl.
  rewrite Hnone. by rewrite bool_decide_eq_true_2.
Qed.

Lemma UnMarkPiece_eval s h p :
  pieces_ s !! h = Some p → is_Some (ptr2piece_ s !! Piece.ptr p) →
  UnMarkPiece h s = (set_ptr2piece (delete (Piece.ptr p) (ptr2piece_ s)) s, Ret tt).
Proof.
  intros Hp Hsome. unfold UnMarkPiece. munfold. rewrite Hp. simpl.
  by rewrite bool_decide_eq_true_2.
Qed.

(** ** Live pieces *)

Lemma live_fun s h p1 p2 : live s h p1 → live s h p2 → p1 = p2.
Proof. intros [H1 _] [H2 _]. congruence. Qed.

Lemma live_inj s h1 h2 p1 p2 :
  live s h1 p1 → live s h2 p2 → Piece.ptr p1 = Piece.ptr p2 → h1 = h2 ∧ p1 = p2.
Proof.
  intros [H1 M1] [H2 M2] Heq. rewrite Heq in M1.
  assert (h1 = h2) as -> by congruence. split; congruence.
Qed.

Lemma live_of_map s a h :
  structure s → ptr2piece_ s !! a = Some h → ∃ p, live s h p ∧ Piece.ptr p = a.
Proof.
  intros Hst Ha. destruct (st_map s Hst a h Ha) as (p & Hp & <-).
  exists p. by split_and!.
Qed.

Lemma live_bounds s h p :
  structure s → live s h p →
  0 < Piece.ptr p ∧ piece_end p ≤ address_limit ∧
  0 < Piece.size p ∧ Piece.size p mod 512 = 0.
Proof.
  intros Hst Hl.
  destruct (st_in_block s Hst h p Hl) as (a & b & Hb & Hlo & Hhi & _).
  destruct (st_block s Hst a b Hb) as (_ & Ha & _ & Hlim & _).
  destruct (st_size s Hst h p Hl). repeat split; lia.
Qed.

Lemma live_next s h p n :
  structure s → live s h p → Piece.next p = Some n →
  ∃ q, live s n q ∧ Piece.prev q = Some h ∧ Piece.ptr q = piece_end p ∧ n ≠ h.
Proof.
  intros Hst Hl Hn. destruct (st_next s Hst h p n Hl Hn) as (q & Hq & Hprev & Hptr).
  exists q. split_and!; try done. intros ->.
  pose proof (live_fun _ _ _ _ Hl Hq) as ->.
  destruct (st_size s Hst _ _ Hq). unfold piece_end in Hptr. lia.
Qed.

Lemma live_prev s h p m :
  structure s → live s h p → Piece.prev p = Some m →
  ∃ q, live s m q ∧ Piece.next q = Some h ∧ Piece.ptr p = piece_end q ∧ m ≠ h.
Proof.
  intros Hst Hl Hm. destruct (st_prev s Hst h p m Hl Hm) as (q & Hq & Hnext).
  destruct (live_next s m q h Hst Hq Hnext) as (p' & Hp' & _ & Hptr & Hne).
  pose proof (live_fun _ _ _ _ Hl Hp') as ->.
  exists q. by split_and!.
Qed.

Lemma recycle_chain_fun ps head rl1 rl2 :
  recycle_chain ps head rl1 → recycle_chain ps head rl2 → rl1 = rl2.
Proof.
  intros H1. revert rl2. induction H1 as [|h p rl Hp _ IH]; intros rl2 H2.
  - by inversion H2.
  - inversion H2 as [|h' p' rl' Hp' Hc']; subst.
    rewrite Hp in Hp'. simplify_eq. f_equal. by apply IH.
Qed.

Lemma recycle_chain_ext ps ps' head rl :
  (∀ h, h ∈ rl → ps' !! h = ps !! h) →
  recycle_chain ps head rl → recycle_chain ps' head rl.
Proof.
  intros Hext Hc. induction Hc as [|h p rl Hp _ IH].
  - constructor.
  - econstructor.
    + rewrite Hext; [done|]. by left.
    + apply IH. intros h' Hh'. apply Hext. by right.
Qed.

Lemma recycle_chain_next ps ps' head rl :
  (∀ h, Piece.next <$> ps' !! h = Piece.next <$> ps !! h) →
  recycle_chain ps head rl → recycle_chain ps' head rl.
Proof.
  intros Hext Hc. induction Hc as [|h p rl Hp _ IH].
  - constructor.
  - specialize (Hext h) as Hh. rewrite Hp in Hh. simpl in Hh.
    destruct (ps' !! h) as [p'|] eqn:Hp'; [|done]. simpl in Hh.
    econstructor; [done|]. by replace (Piece.next p') with (Piece.next p) by congruence.
Qed.

Lemma recycled_not_live s rl h p :
  structure s → recycle_chain (pieces_ s) (recycle_piece_list_ s) rl →
  h ∈ rl → ¬ live s h p.
Proof.
  intros Hst Hc Hh Hl.
  destruct (st_recycle s Hst) as (rl' & Hc' & _ & Hdead).
  rewrite (recycle_chain_fun _ _ _ _ Hc Hc') in Hh.
  destruct (Hdead h Hh) as (p' & Hp' & Hz).
  assert (p = p') as -> by (destruct Hl; congruence).
  destruct (live_bounds s h p' Hst Hl) as [? _]. lia.
Qed.

(** ** States with the same layout *)

Lemma same_layout_live s s' h p' :
  same_layout s s' → live s' h p' → ∃ p, live s h p ∧ geom p = geom p'.
Proof.
  intros (_ & _ & _ & Hm & _ & Hg) [Hp' Hm'].
  specialize (Hg h). rewrite Hp' in Hg. simpl in Hg.
  destruct (pieces_ s !! h) as [p|] eqn:Hp; [|done].
  exists p. simpl in Hg. injection Hg as Hg.
  split; [|unfold geom; congruence]. split; [done|congruence].
Qed.

Lemma same_layout_live_rev s s' h p :
  same_layout s s' → live s h p → ∃ p', live s' h p' ∧ geom p = geom p'.
Proof.
  intros (_ & _ & _ & Hm & _ & Hg) [Hp Hmp].
  specialize (Hg h). rewrite Hp in Hg. simpl in Hg.
  destruct (pieces_ s' !! h) as [p'|] eqn:Hp'; [|done].
  exists p'. simpl in Hg. injection Hg as Hg.
  split; [|unfold geom; congruence]. split; [done|congruence].
Qed.

Lemma structure_same_layout s s' : same_layout s s' → structure s → structure s'.
Proof.
  intros Hsl Hst. pose proof Hsl as (Hal & Htot & Hblk & Hm & Hrec & Hg).
  assert (Hfield : ∀ p p', geom p = geom p' →
            Piece.size p = Piece.size p' ∧ Piece.ptr p = Piece.ptr p' ∧
            Piece.prev p = Piece.prev p' ∧ Piece.next p = Piece.next p').
  { unfold geom. intros p p' H. by simplify_eq. }
  split.
  - rewrite Hal. apply Hst.
  - intros a h Ha. rewrite Hm in Ha.
    destruct (live_of_map s a h Hst Ha) as (p & Hl & Hptr).
    destruct (same_layout_live_rev s s' h p Hsl Hl) as (p' & [Hp' _] & Hgeo).
    apply Hfield in Hgeo as (_ & ? & _). exists p'. split; [done|congruence].
  - intros h p' Hl'. destruct (same_layout_live s s' h p' Hsl Hl') as (p & Hl & Hgeo).
    apply Hfield in Hgeo as (<- & _). by apply (st_size s Hst h).
  - intros h p' n Hl' Hn. destruct (same_layout_live s s' h p' Hsl Hl') as (p & Hl & Hgeo).
    apply Hfield in Hgeo as (Hsz & Hptr & _ & Hnx).
    destruct (st_next s Hst h p n Hl) as (q & Hq & Hprev & Hqptr); [congruence|].
    destruct (same_layout_live_rev s s' n q Hsl Hq) as (q' & Hq' & Hgeo).
    apply Hfield in Hgeo as (_ & ? & ? & _).
    exists q'. split; [done|]. unfold piece_end in *. split; congruence.
  - intros h p' m Hl' Hn. destruct (same_layout_live s s' h p' Hsl Hl') as (p & Hl & Hgeo).
    apply Hfield in Hgeo as (Hsz & Hptr & Hpv & Hnx).
    destruct (st_prev s Hst h p m Hl) as (q & Hq & Hnext); [congruence|].
    destruct (same_layout_live_rev s s' m q Hsl Hq) as (q' & Hq' & Hgeo).
    apply Hfield in Hgeo as (_ & ? & ? & ?).
    exists q'. split; [done|]. congruence.
  - intros h1 p1' h2 p2' Hl1 Hl2 Hne.
    destruct (same_layout_live s s' h1 p1' Hsl Hl1) as (p1 & Hp1 & Hgeo1).
    destruct (same_layout_live s s' h2 p2' Hsl Hl2) as (p2 & Hp2 & Hgeo2).
    apply Hfield in Hgeo1 as (? & ? & _). apply Hfield in Hgeo2 as (? & ? & _).
    pose proof (st_disj s Hst h1 p1 h2 p2 Hp1 Hp2 Hne). unfold piece_end in *. lia.
  - destruct (st_recycle s Hst) as (rl & Hc & Hnd & Hdead).
    exists rl. rewrite Hrec. split; [|split; [done|]].
    + eapply recycle_chain_next; [|done].
      intros h. specialize (Hg h).
      destruct (pieces_ s' !! h), (pieces_ s !! h); simpl in *; try done.
      injection Hg as _ _ _ ?. congruence.
    + intros h Hh. destruct (Hdead h Hh) as (p & Hp & Hz).
      specialize (Hg h). rewrite Hp in Hg.
      destruct (pieces_ s' !! h) as [p'|]; simpl in *; [|done].
      injection Hg as _ ? _ _. exists p'. split; [done|congruence].
  - intros a b Hb. rewrite Hblk in Hb.
    destruct (st_block s Hst a b Hb) as (? & ? & ? & ? & p & Hl & Hptr & Hprev).
    destruct (same_layout_live_rev s s' _ p Hsl Hl) as (p' & Hp' & Hgeo).
    apply Hfield in Hgeo as (_ & ? & ? & _).
    split_and!; try done. exists p'. split; [done|]. split; congruence.
  - rewrite Hblk. apply Hst.
  - intros h p' Hl'. destruct (same_layout_live s s' h p' Hsl Hl') as (p & Hl & Hgeo).
    apply Hfield in Hgeo as (? & ? & _ & ?).
    destruct (st_in_block s Hst h p Hl) as (a & b & Hb & ? & ? & Hiff).
    exists a, b. rewrite Hblk. unfold piece_end in *.
    split; [done|]. split; [lia|]. split; [lia|].
    replace (Piece.next p') with (Piece.next p) by done.
    replace (Piece.ptr p') with (Piece.ptr p) by done.
    by replace (Piece.size p') with (Piece.size p) by done.
  - rewrite Htot, Hblk. apply Hst.
Qed.

(** ** Changes of the filing *)

Lemma live_update s s' h q x p' :
  pieces_ s' = <[h := q]> (pieces_ s) → ptr2piece_ s' = ptr2piece_ s →
  live s' x p' → (x = h ∧ p' = q) ∨ (x ≠ h ∧ live s x p').
Proof.
  intros Hps Hm [Hp' Hm']. rewrite Hps in Hp'. rewrite Hm in Hm'.
  destruct (decide (x = h)) as [->|Hne].
  - left. split; [done|].
    apply list_lookup_insert_Some in Hp' as [(_ & ? & _)|[? _]]; done.
  - right. split; [done|]. rewrite list_lookup_insert_ne in Hp' by done. by split.
Qed.

Lemma live_update_other s s' h q x p :
  pieces_ s' = <[h := q]> (pieces_ s) → ptr2piece_ s' = ptr2piece_ s →
  x ≠ h → live s x p → live s' x p.
Proof.
  intros Hps Hm Hne [Hp Hmp]. split; [|by rewrite Hm].
  rewrite Hps. by rewrite list_lookup_insert_ne.
Qed.

Lemma live_update_same s s' h q p :
  pieces_ s' = <[h := q]> (pieces_ s) → ptr2piece_ s' = ptr2piece_ s →
  Piece.ptr q = Piece.ptr p → live s h p → live s' h q.
Proof.
  intros Hps Hm Hptr [Hp Hmp]. split; [|by rewrite Hm, Hptr].
  rewrite Hps. apply list_lookup_insert_eq. by eapply lookup_lt_Some.
Qed.

Lemma same_layout_update s s' h p q :
  alignment_ s' = alignment_ s → total_memory_bytes_ s' = total_memory_bytes_ s →
  mem_ptr2block_ s' = mem_ptr2block_ s → ptr2piece_ s' = ptr2piece_ s →
  recycle_piece_list_ s' = recycle_piece_list_ s →
  pieces_ s' = <[h := q]> (pieces_ s) →
  pieces_ s !! h = Some p → geom q = geom p →
  same_layout s s'.
Proof.
  intros ? ? ? ? ? Hps Hp Hgeo. split_and!; try done.
  intros x. rewrite Hps. destruct (decide (x = h)) as [->|].
  - rewrite list_lookup_insert_eq by (by eapply lookup_lt_Some). rewrite Hp. simpl. by f_equal.
  - by rewrite list_lookup_insert_ne.
Qed.

Lemma same_layout_unbin s h p b l :
  pieces_ s !! h = Some p → same_layout s (unbin_state h p b l s).
Proof. intros Hp. by eapply same_layout_update. Qed.

Lemma same_layout_bin s h p b l :
  pieces_ s !! h = Some p → same_layout s (bin_state h p b l s).
Proof. intros Hp. by eapply same_layout_update. Qed.

Lemma same_layout_flag s h p v :
  pieces_ s !! h = Some p → same_layout s (flag_state h p v s).
Proof. intros Hp. by eapply same_layout_update. Qed.

Lemma piece_key_update ps h p q x :
  ps !! h = Some p → Piece.size q = Piece.size p → Piece.ptr q = Piece.ptr p →
  piece_key (<[h := q]> ps) x = piece_key ps x.
Proof.
  intros Hp Hs Hptr. unfold piece_key. destruct (decide (x = h)) as [->|].
  - rewrite list_lookup_insert_eq by (by eapply lookup_lt_Some). rewrite Hp. simpl. congruence.
  - by rewrite list_lookup_insert_ne.
Qed.

Lemma filing_unbin fl hp hn s h p b l1 l2 :
  filing fl hp hn s → live s h p → Piece.is_free p = true → h ∉ fl →
  bins_ s !! Z.to_nat (Piece.bin_num p) = Some b → Bin.pieces b = l1 ++ h :: l2 →
  filing (h :: fl) hp hn (unbin_state h p b (l1 ++ l2) s).
Proof.
  intros Hfi Hl Hfree Hfl Hb Hsplit.
  set (s' := unbin_state h p b (l1 ++ l2) s).
  assert (Hps : pieces_ s' = <[h := Piece.set_bin_num kInvalidBinNum p]> (pieces_ s)) by done.
  assert (Hm : ptr2piece_ s' = ptr2piece_ s) by done.
  pose proof (fi_bins _ _ _ _ Hfi _ _ Hb) as (Hnd & Hsorted & Helems).
  rewrite Hsplit in Hnd, Hsorted, Helems.
  assert (Hhl : h ∉ l1 ++ l2).
  { apply NoDup_app in Hnd as (? & Hd & Hnd2). apply NoDup_cons in Hnd2 as [? ?].
    intros [?|?]%elem_of_app; [|done]. eapply Hd; [done|]. by left. }
  assert (Hkey : ∀ x, piece_key (pieces_ s') x = piece_key (pieces_ s) x).
  { intros x. rewrite Hps. eapply piece_key_update; [apply Hl|done..]. }
  split.
  - simpl. rewrite length_insert. apply Hfi.
  - intros x q Hq Hused.
    destruct (live_update _ _ _ _ _ _ Hps Hm Hq) as [[-> ->]|[Hne Hq']]; [done|].
    by eapply fi_used.
  - intros x q Hq Hx.
    destruct (live_update _ _ _ _ _ _ Hps Hm Hq) as [[-> ->]|[Hne Hq']]; [done|].
    apply elem_of_cons in Hx as [?|Hx]; [done|]. by eapply fi_float.
  - intros x q Hq Hqfree Hx.
    destruct (live_update _ _ _ _ _ _ Hps Hm Hq) as [[-> ->]|[Hne Hq']].
    { exfalso. apply Hx. by left. }
    destruct (fi_free _ _ _ _ Hfi x q Hq' Hqfree) as (Hbn & b' & Hb' & Hxb').
    { intros ?. apply Hx. by right. }
    split; [done|]. simpl.
    destruct (decide (Z.to_nat (Piece.bin_num q) = Z.to_nat (Piece.bin_num p))) as [Heq|Hneq].
    + rewrite Heq in *. simplify_eq. eexists. split.
      * apply list_lookup_insert_eq. by eapply lookup_lt_Some.
      * simpl. rewrite Hsplit in Hxb'.
        apply elem_of_app in Hxb' as [?|[?|?]%elem_of_cons]; [|done|];
          apply elem_of_app; auto.
    + exists b'. by rewrite list_lookup_insert_ne.
  - intros i b' Hb'. simpl in Hb'.
    destruct (decide (i = Z.to_nat (Piece.bin_num p))) as [->|Hneq].
    + rewrite list_lookup_insert_eq in Hb' by (by eapply lookup_lt_Some).
      injection Hb' as <-. simpl. split_and!.
      * apply NoDup_app in Hnd as (? & Hd & Hnd2). apply NoDup_cons in Hnd2 as [? ?].
        apply NoDup_app. split_and!; [done| |done].
        intros y Hy1 Hy2. eapply Hd; [done|]. by right.
      * eapply bin_sorted_ext; [|by eapply bin_sorted_delete]. intros; apply Hkey.
      * intros x Hx.
        assert (x ≠ h) by (by intros ->).
        destruct (Helems x) as (Hxfl & q & Hq & ? & ?).
        { apply elem_of_app in Hx as [?|?]; apply elem_of_app; [by left|right; by right]. }
        split; [by intros [?|?]%elem_of_cons|].
        exists q. split; [|done]. by eapply live_update_other.
    + rewrite list_lookup_insert_ne in Hb' by done.
      destruct (fi_bins _ _ _ _ Hfi _ _ Hb') as (Hnd' & Hsorted' & Helems').
      split_and!; [done| |].
      * eapply bin_sorted_ext; [|done]. intros; apply Hkey.
      * intros x Hx. destruct (Helems' x Hx) as (Hxfl & q & Hq & ? & Hbn).
        assert (x ≠ h).
        { intros ->. pose proof (live_fun _ _ _ _ Hl Hq) as ->.
          apply Hneq. rewrite Hbn. by rewrite Nat2Z.id. }
        split; [by intros [?|?]%elem_of_cons|].
        exists q. split; [|done]. by eapply live_update_other.
  - intros x q n q' Hq Hnext Hn Hf1 Hf2.
    assert (∃ q0, live s x q0 ∧ Piece.next q0 = Some n ∧ Piece.is_free q0 = true)
      as (q0 & Hq0 & Hn0 & Hf0).
    { destruct (live_update _ _ _ _ _ _ Hps Hm Hq) as [[-> ->]|[Hne Hq']]; eauto. }
    assert (∃ q1, pieces_ s !! n = Some q1 ∧ Piece.is_free q1 = true) as (q1 & Hq1 & Hf1').
    { rewrite Hps in Hn. destruct (decide (n = h)) as [->|].
      - destruct Hl as [Hl _]. rewrite list_lookup_insert_eq in Hn by (by eapply lookup_lt_Some).
        simplify_eq. eauto.
      - rewrite list_lookup_insert_ne in Hn by done. eauto. }
    by eapply (fi_adj _ _ _ _ Hfi).
Qed.

Lemma filing_bin fl fl' hp hn s h p b l1 l2 :
  filing fl hp hn s → live s h p → h ∈ fl →
  (∀ x, x ∈ fl' ↔ x ∈ fl ∧ x ≠ h) →
  0 ≤ BinNum4BinSize (Piece.size p) →
  bins_ s !! Z.to_nat (BinNum4BinSize (Piece.size p)) = Some b →
  Bin.pieces b = l1 ++ l2 →
  bin_sorted (pieces_ s) (l1 ++ h :: l2) →
  filing fl' hp hn (bin_state h p b (l1 ++ h :: l2) s).
Proof.
  intros Hfi Hl Hfl Hfl' Hrange Hb Hsplit Hsorted.
  set (bn := BinNum4BinSize (Piece.size p)) in *.
  set (s' := bin_state h p b (l1 ++ h :: l2) s).
  assert (Hps : pieces_ s' = <[h := Piece.set_bin_num bn p]> (pieces_ s)) by done.
  assert (Hm : ptr2piece_ s' = ptr2piece_ s) by done.
  pose proof (fi_bins _ _ _ _ Hfi _ _ Hb) as (Hnd & _ & Helems).
  rewrite Hsplit in Hnd, Helems.
  destruct (fi_float _ _ _ _ Hfi h p Hl Hfl) as [Hfree Hbn].
  assert (Hhl : h ∉ l1 ++ l2).
  { intros Hin. by destruct (Helems h Hin) as [? _]. }
  assert (Hkey : ∀ x, piece_key (pieces_ s') x = piece_key (pieces_ s) x).
  { intros x. rewrite Hps. eapply piece_key_update; [apply Hl|done..]. }
  assert (Hl' : live s' h (Piece.set_bin_num bn p))
    by (by apply (live_update_same s s' h _ p Hps Hm)).
  split.
  - simpl. rewrite length_insert. apply Hfi.
  - intros x q Hq Hused.
    destruct (live_update _ _ _ _ _ _ Hps Hm Hq) as [[-> ->]|[Hne Hq']].
    { simpl in Hused. congruence. }
    by eapply fi_used.
  - intros x q Hq Hx. apply Hfl' in Hx as [Hx Hne].
    destruct (live_update _ _ _ _ _ _ Hps Hm Hq) as [[-> ->]|[_ Hq']]; [done|].
    by eapply fi_float.
  - intros x q Hq Hqfree Hx.
    destruct (live_update _ _ _ _ _ _ Hps Hm Hq) as [[-> ->]|[Hne Hq']].
    + simpl. split; [done|]. eexists. split.
      * apply list_lookup_insert_eq. by eapply lookup_lt_Some.
      * simpl. apply elem_of_app. right. by left.
    + destruct (fi_free _ _ _ _ Hfi x q Hq' Hqfree) as (Hbnq & b' & Hb' & Hxb').
      { intros ?. apply Hx. by apply Hfl'. }
      split; [done|]. simpl.
      destruct (decide (Z.to_nat (Piece.bin_num q) = Z.to_nat bn)) as [Heq|Hneq].
      * rewrite Heq in *. simplify_eq. eexists. split.
        -- apply list_lookup_insert_eq. by eapply lookup_lt_Some.
        -- simpl. rewrite Hsplit in Hxb'.
           apply elem_of_app in Hxb' as [?|?]; apply elem_of_app; [by left|right; by right].
      * exists b'. by rewrite list_lookup_insert_ne.
  - intros i b' Hb'. simpl in Hb'.
    destruct (decide (i = Z.to_nat bn)) as [->|Hneq].
    + rewrite list_lookup_insert_eq in Hb' by (by eapply lookup_lt_Some).
      injection Hb' as <-. simpl. split_and!.
      * apply NoDup_app in Hnd as (? & Hd & ?).
        apply NoDup_app. split_and!; [done| |].
        -- intros y Hy1 [->|Hy2]%elem_of_cons; [|by eapply Hd].
           apply Hhl, elem_of_app. by left.
        -- apply NoDup_cons. split; [|done]. intros ?. apply Hhl, elem_of_app. by right.
      * eapply bin_sorted_ext; [|done]. intros; apply Hkey.
      * intros x Hx.
        destruct (decide (x = h)) as [->|Hne].
        { split; [rewrite Hfl'; by intros [? ?]|].
          eexists. split; [done|]. simpl. split; [done|]. by rewrite Z2Nat.id. }
        destruct (Helems x) as (Hxfl & q & Hq & ? & ?).
        { apply elem_of_app in Hx as [?|[?|?]%elem_of_cons]; [|done|];
            apply elem_of_app; auto. }
        split; [rewrite Hfl'; by intros [? ?]|].
        exists q. split; [|done]. by eapply live_update_other.
    + rewrite list_lookup_insert_ne in Hb' by done.
      destruct (fi_bins _ _ _ _ Hfi _ _ Hb') as (Hnd' & Hsorted' & Helems').
      split_and!; [done| |].
      * eapply bin_sorted_ext; [|done]. intros; apply Hkey.
      * intros x Hx. destruct (Helems' x Hx) as (Hxfl & q & Hq & ? & Hbnq).
        assert (x ≠ h) by (by intros ->).
        split; [rewrite Hfl'; by intros [? ?]|].
        exists q. split; [|done]. by eapply live_update_other.
  - intros x q n q' Hq Hnext Hn Hf1 Hf2.
    assert (∃ q0, live s x q0 ∧ Piece.next q0 = Some n ∧ Piece.is_free q0 = true)
      as (q0 & Hq0 & Hn0 & Hf0).
    { destruct (live_update _ _ _ _ _ _ Hps Hm Hq) as [[-> ->]|[Hne Hq']]; eauto. }
    assert (∃ q1, pieces_ s !! n = Some q1 ∧ Piece.is_free q1 = true) as (q1 & Hq1 & Hf1').
    { rewrite Hps in Hn. destruct (decide (n = h)) as [->|].
      - destruct Hl as [Hl _]. rewrite list_lookup_insert_eq in Hn by (by eapply lookup_lt_Some).
        simplify_eq. eauto.
      - rewrite list_lookup_insert_ne in Hn by done. eauto. }
    by eapply (fi_adj _ _ _ _ Hfi).
Qed.

Lemma filing_mark_free s h p :
  filing [] None None s → live s h p → Piece.is_free p = false →
  filing [h] (Some h) (Some h) (flag_state h p true s).
Proof.
  intros Hfi Hl Hused.
  set (s' := flag_state h p true s).
  assert (Hps : pieces_ s' = <[h := Piece.set_is_free true p]> (pieces_ s)) by done.
  assert (Hm : ptr2piece_ s' = ptr2piece_ s) by done.
  assert (Hkey : ∀ x, piece_key (pieces_ s') x = piece_key (pieces_ s) x).
  { intros x. rewrite Hps. eapply piece_key_update; [apply Hl|done..]. }
  pose proof (fi_used _ _ _ _ Hfi h p Hl Hused) as Hbn.
  split.
  - apply Hfi.
  - intros x q Hq Hqused.
    destruct (live_update _ _ _ _ _ _ Hps Hm Hq) as [[-> ->]|[Hne Hq']]; [done|].
    by eapply fi_used.
  - intros x q Hq ->%list_elem_of_singleton.
    destruct (live_update _ _ _ _ _ _ Hps Hm Hq) as [[_ ->]|[? _]]; done.
  - intros x q Hq Hqfree Hx.
    destruct (live_update _ _ _ _ _ _ Hps Hm Hq) as [[-> ->]|[Hne Hq']].
    { exfalso. apply Hx. by left. }
    apply (fi_free _ _ _ _ Hfi x q Hq' Hqfree). by intros ?%elem_of_nil.
  - intros i b Hb. simpl in Hb.
    destruct (fi_bins _ _ _ _ Hfi _ _ Hb) as (Hnd & Hsorted & Helems).
    split_and!; [done| |].
    + eapply bin_sorted_ext; [|done]. intros; apply Hkey.
    + intros x Hx. destruct (Helems x Hx) as (_ & q & Hq & Hqfree & ?).
      assert (x ≠ h).
      { intros ->. pose proof (live_fun _ _ _ _ Hl Hq) as ->. congruence. }
      split; [by intros ?%list_elem_of_singleton|].
      exists q. split; [|done]. by eapply live_update_other.
  - intros x q n q' Hq Hnext Hn Hf1 Hf2.
    destruct (decide (x = h)) as [->|Hxh]; [by left|].
    destruct (decide (n = h)) as [->|Hnh]; [by right|].
    exfalso.
    destruct (live_update _ _ _ _ _ _ Hps Hm Hq) as [[? _]|[_ Hq']]; [done|].
    rewrite Hps, list_lookup_insert_ne in Hn by done.
    by destruct (fi_adj _ _ _ _ Hfi x q n q' Hq' Hnext Hn Hf1 Hf2).
Qed.

Lemma filing_mark_used fl fl' hp hn s h p :
  filing fl hp hn s → live s h p → h ∈ fl →
  (∀ x, x ∈ fl' ↔ x ∈ fl ∧ x ≠ h) →
  filing fl' hp hn (flag_state h p false s).
Proof.
  intros Hfi Hl Hfl Hfl'.
  set (s' := flag_state h p false s).
  assert (Hps : pieces_ s' = <[h := Piece.set_is_free false p]> (pieces_ s)) by done.
  assert (Hm : ptr2piece_ s' = ptr2piece_ s) by done.
  assert (Hkey : ∀ x, piece_key (pieces_ s') x = piece_key (pieces_ s) x).
  { intros x. rewrite Hps. eapply piece_key_update; [apply Hl|done..]. }
  destruct (fi_float _ _ _ _ Hfi h p Hl Hfl) as [Hfree Hbn].
  split.
  - apply Hfi.
  - intros x q Hq Hqused.
    destruct (live_update _ _ _ _ _ _ Hps Hm Hq) as [[-> ->]|[Hne Hq']]; [done|].
    by eapply fi_used.
  - intros x q Hq Hx. apply Hfl' in Hx as [Hx Hne].
    destruct (live_update _ _ _ _ _ _ Hps Hm Hq) as [[? _]|[_ Hq']]; [done|].
    by eapply fi_float.
  - intros x q Hq Hqfree Hx.
    destruct (live_update _ _ _ _ _ _ Hps Hm Hq) as [[-> ->]|[Hne Hq']]; [done|].
    apply (fi_free _ _ _ _ Hfi x q Hq' Hqfree). intros ?. apply Hx. by apply Hfl'.
  - intros i b Hb. simpl in Hb.
    destruct (fi_bins _ _ _ _ Hfi _ _ Hb) as (Hnd & Hsorted & Helems).
    split_and!; [done| |].
    + eapply bin_sorted_ext; [|done]. intros; apply Hkey.
    + intros x Hx. destruct (Helems x Hx) as (Hxfl & q & Hq & Hqfree & ?).
      assert (x ≠ h) by (by intros ->).
      split; [rewrite Hfl'; by intros [? ?]|].
      exists q. split; [|done]. by eapply live_update_other.
  - intros x q n q' Hq Hnext Hn Hf1 Hf2.
    destruct (live_update _ _ _ _ _ _ Hps Hm Hq) as [[-> ->]|[Hxh Hq']]; [done|].
    rewrite Hps in Hn. destruct (decide (n = h)) as [->|Hnh].
    { destruct Hl as [Hl _]. rewrite list_lookup_insert_eq in Hn by (by eapply lookup_lt_Some).
      by simplify_eq. }
    rewrite list_lookup_insert_ne in Hn by done.
    by eapply (fi_adj _ _ _ _ Hfi).
Qed.

Lemma filing_adj fl hp hn hp' hn' s :
  filing fl hp hn s →
  (∀ h p n q, live s h p → Piece.next p = Some n → pieces_ s !! n = Some q →
     Piece.is_free p = true → Piece.is_free q = true →
     hn = Some h ∨ hp = Some n → hn' = Some h ∨ hp' = Some n) →
  filing fl hp' hn' s.
Proof.
  intros Hfi Hadj. split; try apply Hfi.
  intros h p n q Hl Hn Hq Hf1 Hf2. eapply Hadj; try done. by eapply (fi_adj _ _ _ _ Hfi).
Qed.

(** ** Filing and unfiling a piece *)

Lemma live_size_range s h p :
  structure s → live s h p → 0 ≤ Piece.size p < 2 ^ 64 ∧ 0 ≤ Piece.ptr p < 2 ^ 64.
Proof.
  intros Hst Hl. destruct (live_bounds s h p Hst Hl) as (? & Hend & ? & _).
  unfold piece_end, address_limit in Hend.
  assert (2 ^ 63 < 2 ^ 64) by (apply Z.pow_lt_mono_r; lia). lia.
Qed.

Lemma bins_lookup fl hp hn s i :
  filing fl hp hn s → 0 ≤ i < kBinNumSize → is_Some (bins_ s !! Z.to_nat i).
Proof.
  intros Hfi Hi. apply lookup_lt_is_Some. rewrite (fi_len _ _ _ _ Hfi). lia.
Qed.

Lemma RemovePieceFromBin_spec fl hp hn s h p :
  structure s → filing fl hp hn s → live s h p → Piece.is_free p = true → h ∉ fl →
  ∃ b l, RemovePieceFromBin h s = (unbin_state h p b l s, Ret tt) ∧
         structure (unbin_state h p b l s) ∧
         filing (h :: fl) hp hn (unbin_state h p b l s).
Proof.
  intros Hst Hfi Hl Hfree Hfl.
  destruct (fi_free _ _ _ _ Hfi h p Hl Hfree Hfl) as (Hbn & b & Hb & Hin).
  destruct (live_size_range s h p Hst Hl) as [Hsz _].
  pose proof (BinNum4BinSize_range _ Hsz) as Hrange.
  apply list_elem_of_split in Hin as (l1 & l2 & Hsplit).
  pose proof (fi_bins _ _ _ _ Hfi _ _ Hb) as (_ & Hsorted & _).
  exists b, (l1 ++ l2). split_and!.
  - rewrite (RemovePieceFromBin_eval s h p b); [|apply Hl|done|lia|done].
    by rewrite Hsplit, set_erase_sorted by (by rewrite <- Hsplit).
  - eapply structure_same_layout; [|done]. apply same_layout_unbin, Hl.
  - by eapply filing_unbin.
Qed.

Lemma InsertPiece2Bin_spec fl fl' hp hn s h p :
  structure s → filing fl hp hn s → live s h p → h ∈ fl →
  (∀ x, x ∈ fl' ↔ x ∈ fl ∧ x ≠ h) →
  ∃ b l, InsertPiece2Bin h s = (bin_state h p b l s, Ret tt) ∧
         structure (bin_state h p b l s) ∧
         filing fl' hp hn (bin_state h p b l s) ∧
         bins_ s !! Z.to_nat (BinNum4BinSize (Piece.size p)) = Some b ∧
         set_insert
           (PieceCmp (<[h := Piece.set_bin_num (BinNum4BinSize (Piece.size p)) p]> (pieces_ s)))
           h (Bin.pieces b) = (l, true) ∧
         h ∈ l.
Proof.
  intros Hst Hfi Hl Hfl Hfl'.
  destruct (fi_float _ _ _ _ Hfi h p Hl Hfl) as [Hfree Hbn].
  destruct (live_size_range s h p Hst Hl) as [Hsz _].
  pose proof (BinNum4BinSize_range _ Hsz) as Hrange.
  destruct (bins_lookup _ _ _ _ _ Hfi Hrange) as [b Hb].
  pose proof (fi_bins _ _ _ _ Hfi _ _ Hb) as (_ & Hsorted & Helems).
  set (ps' := <[h := Piece.set_bin_num (BinNum4BinSize (Piece.size p)) p]> (pieces_ s)).
  assert (Hkey : ∀ x, piece_key ps' x = piece_key (pieces_ s) x).
  { intros x. eapply piece_key_update; [apply Hl|done..]. }
  destruct (set_insert_spec ps' h (Bin.pieces b)) as (l1 & l2 & Hsplit & Hins & Hsorted').
  { eapply bin_sorted_ext; [|done]. intros; apply Hkey. }
  { intros y Hy. destruct (Helems y Hy) as (Hyfl & q & Hq & _).
    assert (Hne : y ≠ h) by (by intros ->).
    assert (Piece.ptr q ≠ Piece.ptr p).
    { intros Heq. by destruct (live_inj _ _ _ _ _ Hq Hl Heq). }
    rewrite !(PieceCmp_ext (pieces_ s) ps') by apply Hkey.
    destruct Hl as [Hp _], Hq as [Hq _].
    destruct (Z_lt_le_dec (Piece.size p) (Piece.size q));
      [left|destruct (Z_lt_le_dec (Piece.size q) (Piece.size p));
        [right|destruct (Z_lt_le_dec (Piece.ptr p) (Piece.ptr q)); [left|right]]];
      apply PieceCmp_true; eexists _, _; (split; [done|]); (split; [done|]); lia. }
  exists b, (l1 ++ h :: l2). split_and!.
  - by eapply InsertPiece2Bin_eval; [apply Hl|..]; try done; lia.
  - eapply structure_same_layout; [|done]. apply same_layout_bin, Hl.
  - eapply filing_bin; try done; [lia|].
    eapply bin_sorted_ext; [|done]. intros. symmetry. apply Hkey.
  - done.
  - done.
  - apply elem_of_app. right. by left.
Qed.

(** ** Merging two neighbours *)

Lemma bind_ret {A B} (a : A) (k : A -> M B) s : (x <- ret a ;; k x) s = k a s.
Proof. reflexivity. Qed.

Lemma set_prev_of_lookup_eq v ps x :
  set_prev_of (Some x) v ps !! x = Piece.set_prev v <$> ps !! x.
Proof. apply list_lookup_alter_eq. Qed.

Lemma set_prev_of_lookup_ne n v ps x :
  n ≠ Some x → set_prev_of n v ps !! x = ps !! x.
Proof.
  destruct n as [y|]; [|done]. intros Hne. apply list_lookup_alter_ne. congruence.
Qed.

Lemma set_prev_of_length n v ps : length (set_prev_of n v ps) = length ps.
Proof. destruct n; [apply length_alter|done]. Qed.

Lemma mod_512_add a b : a mod 512 = 0 → b mod 512 = 0 → (a + b) mod 512 = 0.
Proof.
  intros Ha Hb. apply Z.mod_divide in Ha; [|lia]. apply Z.mod_divide in Hb; [|lia].
  apply Z.mod_divide; [lia|]. by apply Z.divide_add_r.
Qed.

Lemma mod_512_sub a b : a mod 512 = 0 → b mod 512 = 0 → (a - b) mod 512 = 0.
Proof.
  intros Ha Hb. apply Z.mod_divide in Ha; [|lia]. apply Z.mod_divide in Hb; [|lia].
  apply Z.mod_divide; [lia|]. by apply Z.divide_sub_r.
Qed.

Section Merge.
Variables (s : CachingAllocator) (l r : nat) (pl pr : Piece.t).
Hypothesis Hst : structure s.
Hypothesis Hl : live s l pl.
Hypothesis Hr : live s r pr.
Hypothesis Hnext : Piece.next pl = Some r.

Let s' := merge_state l r pl pr s.
Let pl' := Piece.set_next (Piece.next pr)
             (Piece.set_size (Piece.size pl + Piece.size pr) pl).

Lemma merge_facts :
  Piece.prev pr = Some l ∧ Piece.ptr pr = piece_end pl ∧ r ≠ l.
Proof.
  destruct (live_next s l pl r Hst Hl Hnext) as (q & Hq & ? & ? & ?).
  by rewrite (live_fun _ _ _ _ Hr Hq).
Qed.

Lemma merge_next nn :
  Piece.next pr = Some nn →
  ∃ pnn, live s nn pnn ∧ Piece.prev pnn = Some r ∧ Piece.ptr pnn = piece_end pr ∧
         nn ≠ r ∧ nn ≠ l.
Proof.
  intros Hnn. destruct merge_facts as (_ & Hptr & _).
  destruct (live_next s r pr nn Hst Hr Hnn) as (pnn & Hpnn & ? & Hptr' & ?).
  exists pnn. split_and!; try done. intros ->.
  pose proof (live_fun _ _ _ _ Hl Hpnn) as ->.
  destruct (live_bounds s r pr Hst Hr) as (_ & _ & ? & _).
  destruct (live_bounds s l pnn Hst Hl) as (_ & _ & ? & _).
  unfold piece_end in *. lia.
Qed.

Lemma merge_pieces_l : pieces_ s' !! l = Some pl'.
Proof.
  destruct merge_facts as (_ & _ & Hne). destruct Hl as [Hpl _].
  pose proof (lookup_lt_Some _ _ _ Hpl). simpl.
  rewrite list_lookup_insert_ne by done.
  rewrite set_prev_of_lookup_ne.
  - by apply list_lookup_insert_eq.
  - intros Hnn. by destruct (merge_next l Hnn) as (_ & _ & _ & _ & _ & ?).
Qed.

Lemma merge_pieces_r : pieces_ s' !! r = Some (retired (recycle_piece_list_ s)).
Proof.
  destruct Hr as [Hpr _]. pose proof (lookup_lt_Some _ _ _ Hpr). simpl.
  apply list_lookup_insert_eq. by rewrite set_prev_of_length, length_insert.
Qed.

Lemma merge_pieces_nn nn pnn :
  Piece.next pr = Some nn → pieces_ s !! nn = Some pnn →
  pieces_ s' !! nn = Some (Piece.set_prev (Some l) pnn).
Proof.
  intros Hnn Hp. destruct (merge_next nn Hnn) as (_ & _ & _ & _ & ? & ?). simpl.
  rewrite list_lookup_insert_ne by done. rewrite Hnn, set_prev_of_lookup_eq.
  rewrite list_lookup_insert_ne by done. by rewrite Hp.
Qed.

Lemma merge_pieces_other x :
  x ≠ l → x ≠ r → Piece.next pr ≠ Some x → pieces_ s' !! x = pieces_ s !! x.
Proof.
  intros ? ? ?. simpl. rewrite list_lookup_insert_ne by done.
  rewrite set_prev_of_lookup_ne by done. by rewrite list_lookup_insert_ne.
Qed.

Lemma merge_map a : a ≠ Piece.ptr pr → ptr2piece_ s' !! a = ptr2piece_ s !! a.
Proof. intros ?. simpl. by rewrite lookup_delete_ne. Qed.

Lemma merge_ptr_ne x q : live s x q → x ≠ r → Piece.ptr q ≠ Piece.ptr pr.
Proof. intros Hq Hne Heq. by destruct (live_inj _ _ _ _ _ Hq Hr Heq). Qed.

Lemma merge_live_l : live s' l pl'.
Proof.
  destruct merge_facts as (_ & _ & Hne).
  split; [apply merge_pieces_l|].
  rewrite merge_map; [apply Hl|]. by apply (merge_ptr_ne l pl).
Qed.

Lemma merge_live_nn nn pnn :
  Piece.next pr = Some nn → live s nn pnn → live s' nn (Piece.set_prev (Some l) pnn).
Proof.
  intros Hnn Hp. destruct (merge_next nn Hnn) as (_ & _ & _ & _ & ? & ?).
  split; [apply merge_pieces_nn; [done|apply Hp]|].
  rewrite merge_map; [apply Hp|]. by apply (merge_ptr_ne nn pnn).
Qed.

Lemma merge_live_other x q :
  x ≠ l → x ≠ r → Piece.next pr ≠ Some x → live s x q → live s' x q.
Proof.
  intros ? ? ? Hq. split; [rewrite merge_pieces_other by done; apply Hq|].
  rewrite merge_map; [apply Hq|]. by apply (merge_ptr_ne x q).
Qed.

Lemma merge_live_inv x q :
  live s' x q →
  (x = l ∧ q = pl') ∨
  (Piece.next pr = Some x ∧ ∃ pnn, live s x pnn ∧ q = Piece.set_prev (Some l) pnn) ∨
  (x ≠ l ∧ x ≠ r ∧ Piece.next pr ≠ Some x ∧ live s x q).
Proof.
  intros [Hq Hm]. simpl in Hm.
  apply lookup_delete_Some in Hm as [Hptr Hm].
  destruct (live_of_map s _ _ Hst Hm) as (q0 & Hq0 & Hptr0).
  assert (x ≠ r).
  { intros ->. rewrite (live_fun _ _ _ _ Hq0 Hr) in Hptr0. congruence. }
  destruct (decide (x = l)) as [->|Hxl].
  { left. split; [done|]. rewrite merge_pieces_l in Hq. congruence. }
  right. destruct (decide (Piece.next pr = Some x)) as [Hnn|Hnn].
  - left. split; [done|]. exists q0. split; [done|].
    rewrite (merge_pieces_nn x q0 Hnn) in Hq by apply Hq0. congruence.
  - right. split_and!; try done.
    rewrite merge_pieces_other in Hq by done.
    destruct Hq0 as [Hq0 ?]. by assert (q = q0) as -> by congruence.
Qed.

(** Every piece but [r] lives on, at the same address. *)
Lemma merge_live_fwd x q :
  live s x q → x ≠ r →
  ∃ q', live s' x q' ∧ Piece.ptr q' = Piece.ptr q ∧
        Piece.is_free q' = Piece.is_free q ∧ Piece.bin_num q' = Piece.bin_num q ∧
        (x ≠ l → Piece.size q' = Piece.size q ∧ Piece.next q' = Piece.next q) ∧
        (Piece.next pr ≠ Some x → Piece.prev q' = Piece.prev q).
Proof.
  intros Hq Hxr. destruct (decide (x = l)) as [->|Hxl].
  { rewrite (live_fun _ _ _ _ Hq Hl). exists pl'. split; [apply merge_live_l|].
    by split_and!. }
  destruct (decide (Piece.next pr = Some x)) as [Hnn|Hnn].
  - eexists. split; [by apply merge_live_nn|]. by split_and!.
  - exists q. split; [by apply merge_live_other|]. by split_and!.
Qed.

Lemma merge_same_block :
  ∃ a b, mem_ptr2block_ s !! a = Some b ∧
    a ≤ Piece.ptr pl ∧ piece_end pr ≤ a + Block.size b ∧
    (Piece.next pr = None ↔ piece_end pr = a + Block.size b).
Proof.
  destruct merge_facts as (_ & Hptr & _).
  destruct (st_in_block s Hst l pl Hl) as (a & b & Hb & Hlo & Hhi & Hiff).
  destruct (st_in_block s Hst r pr Hr) as (a' & b' & Hb' & Hlo' & Hhi' & Hiff').
  destruct (live_bounds s l pl Hst Hl) as (_ & _ & ? & _).
  destruct (live_bounds s r pr Hst Hr) as (_ & _ & ? & _).
  assert (piece_end pl ≠ a + Block.size b).
  { intros Heq. apply Hiff in Heq. congruence. }
  assert (a' = a) as ->.
  { destruct (decide (a' = a)) as [|Hne]; [done|].
    pose proof (st_block_disj s Hst a' b' a b Hb' Hb Hne).
    unfold piece_end in *. lia. }
  assert (b' = b) as -> by congruence.
  exists a, b. by split_and!.
Qed.

Lemma structure_merge : structure s'.
Proof.
  destruct merge_facts as (Hprev & Hptr & Hne).
  destruct (live_bounds s l pl Hst Hl) as (? & ? & ? & ?).
  destruct (live_bounds s r pr Hst Hr) as (? & ? & ? & ?).
  split.
  - apply Hst.
  - intros a x Ha. simpl in Ha. apply lookup_delete_Some in Ha as [Hane Ha].
    destruct (live_of_map s a x Hst Ha) as (q & Hq & Hqptr).
    assert (x ≠ r).
    { intros ->. rewrite (live_fun _ _ _ _ Hq Hr) in Hqptr. congruence. }
    destruct (merge_live_fwd x q Hq) as (q' & [Hq' _] & ? & _); [done|].
    exists q'. split; [done|congruence].
  - intros x q Hq.
    destruct (merge_live_inv x q Hq) as [[-> ->]|[(Hnn & pnn & Hpnn & ->)|(_ & _ & _ & Hq0)]].
    + simpl. split; [lia|]. by apply mod_512_add.
    + simpl. by apply (st_size s Hst x).
    + by apply (st_size s Hst x).
  - intros x q n Hq Hn.
    destruct (merge_live_inv x q Hq) as [[-> ->]|[(Hnn & pnn & Hpnn & ->)|(? & ? & ? & Hq0)]].
    + simpl in Hn. destruct (merge_next n Hn) as (pnn & Hpnn & ? & Hpp & ? & ?).
      eexists. split; [by apply merge_live_nn|]. simpl. split; [done|].
      unfold piece_end in *. simpl. lia.
    + simpl in Hn.
      destruct (merge_next x Hnn) as (pnn' & Hpnn' & ? & Hpp & ? & ?).
      pose proof (live_fun _ _ _ _ Hpnn Hpnn') as <-.
      destruct (live_next s x pnn n Hst Hpnn Hn) as (qn & Hqn & Hqprev & Hqptr & ?).
      destruct (live_bounds s x pnn Hst Hpnn) as (? & ? & ? & ?).
      exists qn. split; [|done].
      apply merge_live_other; try done.
      * intros ->. pose proof (live_fun _ _ _ _ Hl Hqn) as <-.
        unfold piece_end in *. lia.
      * intros ->. pose proof (live_fun _ _ _ _ Hr Hqn) as <-. congruence.
      * congruence.
    + destruct (live_next s x q n Hst Hq0 Hn) as (qn & Hqn & Hqprev & Hqptr & ?).
      assert (n ≠ r).
      { intros ->. pose proof (live_fun _ _ _ _ Hr Hqn) as <-. congruence. }
      destruct (merge_live_fwd n qn Hqn) as (qn' & Hqn' & ? & _ & _ & _ & Hpv); [done|].
      exists qn'. split; [done|]. split; [|congruence].
      rewrite Hpv; [done|]. intros Hnn.
      destruct (merge_next n Hnn) as (pnn & Hpnn & ? & _).
      pose proof (live_fun _ _ _ _ Hpnn Hqn) as <-. congruence.
  - intros x q m Hq Hm.
    destruct (merge_live_inv x q Hq) as [[-> ->]|[(Hnn & pnn & Hpnn & ->)|(? & ? & ? & Hq0)]].
    + simpl in Hm. destruct (live_prev s l pl m Hst Hl Hm) as (qm & Hqm & Hqnext & Hqptr & ?).
      assert (m ≠ r).
      { intros ->. pose proof (live_fun _ _ _ _ Hr Hqm) as <-.
        unfold piece_end in *. lia. }
      destruct (merge_live_fwd m qm Hqm) as (qm' & Hqm' & _ & _ & _ & Hsn & _); [done|].
      exists qm'. split; [done|]. destruct Hsn as [_ ->]; done.
    + simpl in Hm. injection Hm as <-. exists pl'. split; [apply merge_live_l|done].
    + destruct (live_prev s x q m Hst Hq0 Hm) as (qm & Hqm & Hqnext & Hqptr & ?).
      assert (m ≠ l).
      { intros ->. pose proof (live_fun _ _ _ _ Hl Hqm) as <-. congruence. }
      assert (m ≠ r).
      { intros ->. pose proof (live_fun _ _ _ _ Hr Hqm) as <-. congruence. }
      destruct (merge_live_fwd m qm Hqm) as (qm' & Hqm' & _ & _ & _ & Hsn & _); [done|].
      exists qm'. split; [done|]. destruct Hsn as [_ ->]; done.
  - assert (Hrange : ∀ x q, live s' x q →
      ∃ q0 x0, live s x0 q0 ∧ (x0 = l ∨ x0 = x) ∧ x ≠ r ∧
        ((x = l ∧ Piece.ptr q = Piece.ptr pl ∧ piece_end q = piece_end pr) ∨
         (x ≠ l ∧ live s x q0 ∧ Piece.ptr q = Piece.ptr q0 ∧ piece_end q = piece_end q0))).
    { intros x q Hq.
      destruct (merge_live_inv x q Hq) as [[-> ->]|[(Hnn & pnn & Hpnn & ->)|(? & ? & ? & Hq0)]].
      - exists pl, l. split_and!; try done; [by left|]. left. unfold piece_end. simpl.
        split_and!; try done. unfold piece_end in *. lia.
      - destruct (merge_next x Hnn) as (_ & _ & _ & _ & ? & ?).
        exists pnn, x. split_and!; try done; [by right|]. right. by split_and!.
      - exists q, x. split_and!; try done; [by right|]. right. by split_and!. }
    intros x1 q1 x2 q2 Hq1 Hq2 Hx.
    destruct (Hrange x1 q1 Hq1) as (a1 & y1 & _ & _ & ? & [(-> & Hp1 & He1)|(? & Ha1 & Hp1 & He1)]);
    destruct (Hrange x2 q2 Hq2) as (a2 & y2 & _ & _ & ? & [(-> & Hp2 & He2)|(? & Ha2 & Hp2 & He2)]);
      try done; rewrite ?Hp1, ?He1, ?Hp2, ?He2.
    + pose proof (st_disj s Hst l pl x2 a2 Hl Ha2 ltac:(done)).
      pose proof (st_disj s Hst r pr x2 a2 Hr Ha2 ltac:(done)).
      destruct (live_bounds s x2 a2 Hst Ha2) as (_ & _ & ? & _).
      unfold piece_end in *. lia.
    + pose proof (st_disj s Hst l pl x1 a1 Hl Ha1 ltac:(done)).
      pose proof (st_disj s Hst r pr x1 a1 Hr Ha1 ltac:(done)).
      destruct (live_bounds s x1 a1 Hst Ha1) as (_ & _ & ? & _).
      unfold piece_end in *. lia.
    + by apply (st_disj s Hst x1 a1 x2 a2).
  - destruct (st_recycle s Hst) as (rl & Hc & Hnd & Hdead).
    assert (Hrl : ∀ x, x ∈ rl → pieces_ s' !! x = pieces_ s !! x).
    { intros x Hx. apply merge_pieces_other.
      - intros ->. by eapply recycled_not_live.
      - intros ->. by eapply recycled_not_live.
      - intros Hnn. destruct (merge_next x Hnn) as (pnn & Hpnn & _).
        by eapply recycled_not_live. }
    exists (r :: rl). split_and!.
    + simpl. econstructor; [apply merge_pieces_r|]. simpl.
      eapply recycle_chain_ext; [|done]. intros x Hx. by apply Hrl.
    + apply NoDup_cons. split; [|done]. intros ?. by eapply recycled_not_live.
    + intros x [->|Hx]%elem_of_cons.
      * eexists. split; [apply merge_pieces_r|done].
      * rewrite Hrl by done. by apply Hdead.
  - intros a b Hb. simpl in Hb.
    destruct (st_block s Hst a b Hb) as (? & ? & ? & ? & q & Hq & Hqptr & Hqprev).
    split_and!; try done.
    assert (Block.start_piece b ≠ r).
    { intros Heq. rewrite Heq in Hq. pose proof (live_fun _ _ _ _ Hr Hq) as <-. congruence. }
    destruct (merge_live_fwd _ q Hq) as (q' & Hq' & ? & _ & _ & _ & Hpv); [done|].
    exists q'. split; [done|]. split; [congruence|]. rewrite Hpv; [done|].
    intros Hnn. destruct (merge_next _ Hnn) as (pnn & Hpnn & ? & _).
    pose proof (live_fun _ _ _ _ Hpnn Hq) as <-. congruence.
  - apply Hst.
  - intros x q Hq.
    destruct (merge_live_inv x q Hq) as [[-> ->]|[(Hnn & pnn & Hpnn & ->)|(? & ? & ? & Hq0)]].
    + destruct merge_same_block as (a & b & Hb & ? & ? & Hiff).
      exists a, b. split; [done|]. unfold piece_end in *. simpl.
      split; [done|]. split; [lia|]. rewrite Hiff. lia.
    + by apply (st_in_block s Hst x pnn).
    + by apply (st_in_block s Hst x).
  - apply Hst.
Qed.

Lemma merge_pieces_inv y q' :
  pieces_ s' !! y = Some q' → y ≠ r →
  ∃ q0, pieces_ s !! y = Some q0 ∧ Piece.is_free q0 = Piece.is_free q' ∧
        Piece.bin_num q0 = Piece.bin_num q' ∧ Piece.ptr q0 = Piece.ptr q' ∧
        (y ≠ l → Piece.size q0 = Piece.size q').
Proof.
  intros Hq' Hyr. destruct (decide (y = l)) as [->|Hyl].
  { rewrite merge_pieces_l in Hq'. injection Hq' as <-. exists pl.
    split; [apply Hl|]. by split_and!. }
  destruct (decide (Piece.next pr = Some y)) as [Hnn|Hnn].
  - destruct (merge_next y Hnn) as (pnn & [Hpnn _] & _).
    rewrite (merge_pieces_nn y pnn Hnn Hpnn) in Hq'. injection Hq' as <-.
    exists pnn. by split_and!.
  - rewrite merge_pieces_other in Hq' by done. exists q'. by split_and!.
Qed.

Lemma merge_key x : x ≠ l → x ≠ r → piece_key (pieces_ s') x = piece_key (pieces_ s) x.
Proof.
  intros Hxl Hxr. unfold piece_key.
  destruct (decide (Piece.next pr = Some x)) as [Hnn|Hnn].
  - destruct (merge_next x Hnn) as (pnn & [Hpnn _] & _).
    by rewrite (merge_pieces_nn x pnn Hnn Hpnn), Hpnn.
  - by rewrite merge_pieces_other.
Qed.

Lemma filing_merge fl fl' hp hn hp' hn' :
  filing fl hp hn s → l ∈ fl → r ∈ fl →
  (∀ x, x ∈ fl' ↔ x ∈ fl ∧ x ≠ r) →
  (∀ x y, x ≠ l → x ≠ r → y ≠ r →
     hn = Some x ∨ hp = Some y → hn' = Some x ∨ hp' = Some y) →
  (∀ nn, Piece.next pr = Some nn → hn = Some r ∨ hp = Some nn →
         hn' = Some l ∨ hp' = Some nn) →
  filing fl' hp' hn' s'.
Proof.
  intros Hfi Hlfl Hrfl Hfl' Hadj1 Hadj2.
  destruct merge_facts as (Hprev & Hptr & Hne).
  destruct (fi_float _ _ _ _ Hfi l pl Hl Hlfl) as [Hlfree Hlbn].
  destruct (fi_float _ _ _ _ Hfi r pr Hr Hrfl) as [Hrfree Hrbn].
  assert (Hback : ∀ x q, live s' x q → x ≠ r ∧
            ∃ q0, live s x q0 ∧ Piece.is_free q0 = Piece.is_free q ∧
                  Piece.bin_num q0 = Piece.bin_num q ∧
                  (x ≠ l → Piece.size q0 = Piece.size q ∧ Piece.next q0 = Piece.next q)).
  { intros x q Hq.
    destruct (merge_live_inv x q Hq) as [[-> ->]|[(Hnn & pnn & Hpnn & ->)|(? & ? & ? & Hq0)]].
    - split; [done|]. exists pl. by split_and!.
    - destruct (merge_next x Hnn) as (_ & _ & _ & _ & ? & _).
      split; [done|]. exists pnn. by split_and!.
    - split; [done|]. exists q. by split_and!. }
  split.
  - apply Hfi.
  - intros x q Hq Hused. destruct (Hback x q Hq) as (_ & q0 & Hq0 & Hf & Hb & _).
    rewrite <- Hb. eapply (fi_used _ _ _ _ Hfi); [done|congruence].
  - intros x q Hq Hx. apply Hfl' in Hx as [Hx _].
    destruct (Hback x q Hq) as (_ & q0 & Hq0 & Hf & Hb & _).
    rewrite <- Hf, <- Hb. by eapply (fi_float _ _ _ _ Hfi).
  - intros x q Hq Hqfree Hx.
    destruct (Hback x q Hq) as (Hxr & q0 & Hq0 & Hf & Hb & Hsz).
    assert (x ∉ fl) by (intros ?; apply Hx, Hfl'; done).
    assert (x ≠ l) by (by intros ->).
    destruct (fi_free _ _ _ _ Hfi x q0 Hq0) as (Hbn & b & Hbl & Hin); [congruence|done|].
    destruct Hsz as [Hsz _]; [done|]. rewrite <- Hb, <- Hsz. split; [done|].
    by exists b.
  - intros i b Hb. simpl in Hb.
    destruct (fi_bins _ _ _ _ Hfi _ _ Hb) as (Hnd & Hsorted & Helems).
    split_and!; [done| |].
    + eapply bin_sorted_ext; [|done]. intros x Hx.
      destruct (Helems x Hx) as (Hxfl & _). apply merge_key; by intros ->.
    + intros x Hx. destruct (Helems x Hx) as (Hxfl & q & Hq & Hqfree & Hqbn).
      split; [rewrite Hfl'; by intros [? ?]|].
      destruct (merge_live_fwd x q Hq) as (q' & Hq' & _ & ? & ? & _); [by intros ->|].
      exists q'. split; [done|]. split; congruence.
  - intros x q y q' Hq Hnextq Hy Hf1 Hf2.
    destruct (merge_live_inv x q Hq) as [[-> ->]|Hx].
    + simpl in Hnextq. apply Hadj2; [done|].
      destruct (merge_next y Hnextq) as (pnn & [Hpnn _] & _).
      rewrite (merge_pieces_nn y pnn Hnextq Hpnn) in Hy. injection Hy as <-.
      by apply (fi_adj _ _ _ _ Hfi r pr y pnn).
    + assert (x ≠ l ∧ x ≠ r ∧ ∃ q0, live s x q0 ∧ Piece.next q0 = Some y ∧
                Piece.is_free q0 = true) as (Hxl & Hxr & q0 & Hq0 & Hn0 & Hf0).
      { destruct Hx as [(Hnn & pnn & Hpnn & ->)|(? & ? & ? & Hq0)].
        - destruct (merge_next x Hnn) as (_ & _ & _ & _ & ? & ?).
          split_and!; try done. by exists pnn.
        - split_and!; try done. by exists q. }
      destruct (live_next s x q0 y Hst Hq0 Hn0) as (qy & Hqy & Hqprev & _).
      assert (y ≠ r).
      { intros ->. pose proof (live_fun _ _ _ _ Hr Hqy) as <-. congruence. }
      destruct (merge_pieces_inv y q' Hy) as (qy' & Hqy' & Hfy & _); [done|].
      apply Hadj1; try done.
      apply (fi_adj _ _ _ _ Hfi x q0 y qy'); try done. congruence.
Qed.

Lemma MergeNeighbourFreePiece_eval :
  Piece.is_free pl = true → Piece.is_free pr = true →
  MergeNeighbourFreePiece l r s = (s', Ret tt).
Proof.
  intros Hlfree Hrfree.
  destruct merge_facts as (Hprev & Hptr & Hne).
  destruct (live_bounds s l pl Hst Hl) as (? & Hel & ? & ?).
  destruct (live_bounds s r pr Hst Hr) as (? & Her & ? & ?).
  assert (Hlim : address_limit < 2 ^ 64) by (apply Z.pow_lt_mono_r; lia).
  pose proof Hl as [Hpl Hml]. pose proof Hr as [Hpr Hmr].
  pose proof (lookup_lt_Some _ _ _ Hpl). pose proof (lookup_lt_Some _ _ _ Hpr).
  unfold piece_end in *.
  unfold MergeNeighbourFreePiece.
  rewrite (bind_eval _ _ _ _ _ (load_eval s l pl Hpl)).
  rewrite Hlfree. simpl. rewrite bind_ret.
  rewrite (bind_eval _ _ _ _ _ (load_eval s r pr Hpr)).
  rewrite Hrfree. simpl.
  rewrite !bool_decide_eq_true_2 by congruence. simpl.
  rewrite wrap64_small by lia. rewrite <- Hptr, Z.eqb_refl. simpl.
  rewrite (wrap64_small (Piece.size pl + Piece.size pr)) by lia.
  rewrite !bind_ret.
  rewrite (bind_eval _ _ _ _ _ (store_eval s l pl _ Hpl)).
  erewrite bind_eval; [|apply load_eval; simpl; by rewrite list_lookup_insert_ne].
  erewrite bind_eval; [|apply store_eval; simpl; by apply list_lookup_insert_eq].
  simpl. rewrite list_insert_insert_eq.
  erewrite bind_eval; [|apply load_eval; simpl; by rewrite list_lookup_insert_ne].
  set (ps1 := <[l := _]> (pieces_ s)).
  assert (Hps1r : ps1 !! r = Some pr) by (subst ps1; by rewrite list_lookup_insert_ne).
  assert (∃ s2, (match Piece.next pr with
                 | Some n => store n (Piece.set_prev (Some l))
                 | None => ret tt
                 end) (set_pieces ps1 s) = (s2, Ret tt) ∧
                s2 = set_pieces (set_prev_of (Piece.next pr) (Some l) ps1) s)
    as (s2 & Hs2 & ->).
  { destruct (Piece.next pr) as [nn|] eqn:Hnn.
    - destruct (merge_next nn Hnn) as (pnn & [Hpnn _] & _ & _ & ? & ?).
      assert (Hps1nn : ps1 !! nn = Some pnn) by (subst ps1; by rewrite list_lookup_insert_ne).
      eexists. split; [by apply store_eval|]. unfold set_pieces. simpl. f_equal.
      apply list_eq. intros i. destruct (decide (i = nn)) as [->|].
      + rewrite list_lookup_alter_eq, Hps1nn. simpl.
        apply list_lookup_insert_eq. by eapply lookup_lt_Some.
      + rewrite list_lookup_alter_ne by done. by rewrite list_lookup_insert_ne.
    - by eexists. }
  rewrite (bind_eval _ _ _ _ _ Hs2).
  assert (Hps2r : set_prev_of (Piece.next pr) (Some l) ps1 !! r = Some pr).
  { rewrite set_prev_of_lookup_ne; [done|]. intros Hnn.
    by destruct (merge_next r Hnn) as (_ & _ & _ & _ & ? & _). }
  erewrite bind_eval; [|by apply (UnMarkPiece_eval _ r pr)].
  erewrite DeallocatePiece_eval; [|done]. done.
Qed.

End Merge.

Lemma MergeNeighbourFreePiece_spec fl fl' hp hn hp' hn' s l r pl pr :
  structure s → filing fl hp hn s → live s l pl → live s r pr →
  Piece.next pl = Some r → l ∈ fl → r ∈ fl →
  (∀ x, x ∈ fl' ↔ x ∈ fl ∧ x ≠ r) →
  (∀ x y, x ≠ l → x ≠ r → y ≠ r →
     hn = Some x ∨ hp = Some y → hn' = Some x ∨ hp' = Some y) →
  (∀ nn, Piece.next pr = Some nn → hn = Some r ∨ hp = Some nn →
         hn' = Some l ∨ hp' = Some nn) →
  MergeNeighbourFreePiece l r s = (merge_state l r pl pr s, Ret tt) ∧
  structure (merge_state l r pl pr s) ∧
  filing fl' hp' hn' (merge_state l r pl pr s).
Proof.
  intros Hst Hfi Hl Hr Hnext Hlfl Hrfl Hfl' Hadj1 Hadj2.
  destruct (fi_float _ _ _ _ Hfi l pl Hl Hlfl) as [Hlfree _].
  destruct (fi_float _ _ _ _ Hfi r pr Hr Hrfl) as [Hrfree _].
  split_and!.
  - by apply MergeNeighbourFreePiece_eval.
  - by apply structure_merge.
  - by eapply filing_merge.
Qed.


(** ** Taking a descriptor *)

Lemma structure_frame s s' :
  alignment_ s' = alignment_ s →
  total_memory_bytes_ s' = total_memory_bytes_ s →
  mem_ptr2block_ s' = mem_ptr2block_ s →
  ptr2piece_ s' = ptr2piece_ s →
  (∀ x p, live s' x p ↔ live s x p) →
  (∃ rl, recycle_chain (pieces_ s') (recycle_piece_list_ s') rl ∧ NoDup rl ∧
         ∀ h, h ∈ rl → ∃ p, pieces_ s' !! h = Some p ∧ Piece.ptr p = 0) →
  structure s → structure s'.
Proof.
  intros Hal Htot Hblk Hm Hlive Hrec Hst. split.
  - by rewrite Hal; apply Hst.
  - intros a h Ha. rewrite Hm in Ha.
    destruct (live_of_map s a h Hst Ha) as (p & Hp & Hptr).
    apply Hlive in Hp as [Hp _]. by exists p.
  - intros h p Hp. apply Hlive in Hp. by apply (st_size s Hst h).
  - intros h p n Hp Hn. apply Hlive in Hp.
    destruct (st_next s Hst h p n Hp Hn) as (q & Hq & ?). exists q.
    split; [by apply Hlive|done].
  - intros h p m Hp Hn. apply Hlive in Hp.
    destruct (st_prev s Hst h p m Hp Hn) as (q & Hq & ?). exists q.
    split; [by apply Hlive|done].
  - intros h1 p1 h2 p2 Hp1 Hp2. apply Hlive in Hp1, Hp2. by apply (st_disj s Hst).
  - done.
  - intros a b Hb. rewrite Hblk in Hb.
    destruct (st_block s Hst a b Hb) as (? & ? & ? & ? & p & Hp & ?).
    split_and!; try done. exists p. split; [by apply Hlive|done].
  - rewrite Hblk. apply Hst.
  - intros h p Hp. apply Hlive in Hp. rewrite Hblk. by apply (st_in_block s Hst h).
  - rewrite Htot, Hblk. apply Hst.
Qed.

Lemma filing_frame fl hp hn s s' :
  bins_ s' = bins_ s →
  (∀ x p, live s' x p ↔ live s x p) →
  (∀ x, is_Some (pieces_ s !! x) → pieces_ s' !! x = pieces_ s !! x) →
  (∀ x q, pieces_ s' !! x = Some q → Piece.is_free q = true → pieces_ s !! x = Some q) →
  filing fl hp hn s → filing fl hp hn s'.
Proof.
  intros Hbins Hlive Hsame Hfree Hfi. split.
  - rewrite Hbins. apply Hfi.
  - intros h p Hp. apply Hlive in Hp. by apply (fi_used _ _ _ _ Hfi h).
  - intros h p Hp. apply Hlive in Hp. by apply (fi_float _ _ _ _ Hfi h).
  - intros h p Hp. apply Hlive in Hp. rewrite Hbins. by apply (fi_free _ _ _ _ Hfi h).
  - intros i b Hb. rewrite Hbins in Hb.
    destruct (fi_bins _ _ _ _ Hfi _ _ Hb) as (Hnd & Hsorted & Helems).
    split_and!; [done| |].
    + eapply bin_sorted_ext; [|done]. intros x Hx.
      destruct (Helems x Hx) as (_ & q & [Hq _] & _).
      unfold piece_key. by rewrite Hsame.
    + intros x Hx. destruct (Helems x Hx) as (? & q & Hq & ?).
      split; [done|]. exists q. split; [by apply Hlive|done].
  - intros h p n q Hp Hn Hq Hf1 Hf2. apply Hlive in Hp.
    apply (fi_adj _ _ _ _ Hfi h p n q); try done. by apply Hfree.
Qed.

Lemma AllocatePiece_spec s :
  structure s →
  ∃ s1 n,
    AllocatePiece s = (s1, Ret n) ∧
    structure s1 ∧ spare s1 n ∧
    (∀ fl hp hn, filing fl hp hn s → filing fl hp hn s1) ∧
    (∀ x p, live s1 x p ↔ live s x p) ∧
    (∀ x, is_Some (pieces_ s !! x) → pieces_ s1 !! x = pieces_ s !! x) ∧
    alignment_ s1 = alignment_ s ∧ total_memory_bytes_ s1 = total_memory_bytes_ s ∧
    mem_ptr2block_ s1 = mem_ptr2block_ s ∧ bins_ s1 = bins_ s ∧
    ptr2piece_ s1 = ptr2piece_ s ∧ cuda_calls_ s1 = cuda_calls_ s.
Proof.
  intros Hst. destruct (st_recycle s Hst) as (rl & Hc & Hnd & Hdead).
  destruct (recycle_piece_list_ s) as [r|] eqn:Hrec.
  - inversion Hc as [|r' p rl' Hp Hc']; subst.
    apply NoDup_cons in Hnd as [Hr Hnd'].
    exists (set_recycle_piece_list (Piece.next p) s), r.
    assert (Hlive : ∀ x q, live (set_recycle_piece_list (Piece.next p) s) x q ↔ live s x q)
      by done.
    assert (Hst' : structure (set_recycle_piece_list (Piece.next p) s)).
    { apply (structure_frame s); try done. exists rl'. split_and!; try done.
      intros h Hh. apply Hdead. by right. }
    split_and!; try done.
    + by apply AllocatePiece_recycled.
    + split_and!.
      * by exists p.
      * intros x q Hq ->. apply Hlive in Hq.
        eapply (recycled_not_live s (r :: rl')); [done|by rewrite Hrec|by left|done].
      * intros rl2 Hc2. simpl in Hc2. by rewrite (recycle_chain_fun _ _ _ _ Hc2 Hc').
    + intros fl hp hn Hfi. by apply (filing_frame fl hp hn s).
  - inversion Hc; subst.
    set (s1 := set_pieces (pieces_ s ++ [Piece.fresh]) s).
    assert (Hsame : ∀ x, is_Some (pieces_ s !! x) → pieces_ s1 !! x = pieces_ s !! x).
    { intros x [q Hq]. simpl. rewrite Hq. by apply lookup_app_l_Some. }
    assert (Hlive : ∀ x q, live s1 x q ↔ live s x q).
    { intros x q. split.
      - intros [Hq Hm]. simpl in Hq, Hm.
        destruct (live_of_map s _ _ Hst Hm) as (q0 & [Hq0 Hm0] & Hptr).
        pose proof (lookup_app_l_Some _ [Piece.fresh] _ _ Hq0) as Hq0'.
        assert (q = q0) as -> by congruence. by split.
      - intros [Hq Hm]. split; [|done]. simpl. by apply lookup_app_l_Some. }
    exists s1, (length (pieces_ s)).
    assert (Hst' : structure s1).
    { apply (structure_frame s); try done. exists []. simpl. rewrite Hrec.
      split_and!; [constructor|constructor|]. by intros h ?%elem_of_nil. }
    split_and!; try done.
    + by apply AllocatePiece_new.
    + split_and!.
      * exists Piece.fresh. simpl. by apply list_lookup_middle.
      * intros x q Hq ->. apply Hlive in Hq as [Hq _].
        apply lookup_lt_Some in Hq. lia.
      * intros rl2 Hc2. simpl in Hc2. rewrite Hrec in Hc2. inversion Hc2.
        by intros ?%elem_of_nil.
    + intros fl hp hn Hfi. apply (filing_frame fl hp hn s); try done.
      intros x q Hq Hfree. simpl in Hq.
      apply lookup_app_Some in Hq as [Hq|[_ Hq]]; [done|].
      apply list_lookup_singleton_Some in Hq as [_ <-]. done.
Qed.

(** ** Splitting a piece *)

Section Carve.
Variables (s : CachingAllocator) (h n : nat) (ph : Piece.t) (a : Z).
Hypothesis Hst : structure s.
Hypothesis Hh : live s h ph.
Hypothesis Hn : spare s n.
Hypothesis Ha : 0 < a < Piece.size ph.
Hypothesis Hmod : a mod 512 = 0.

Let s' := carve_state h n ph a s.
Let ph' := Piece.set_next (Some n) (Piece.set_size a ph).
Let pn := Piece.mk (Piece.size ph - a) (Piece.ptr ph + a) true (Some h)
            (Piece.next ph) kInvalidBinNum.

Lemma carve_ne : n ≠ h.
Proof. destruct Hn as (_ & Hnl & _). intros ->. by eapply Hnl. Qed.

Lemma carve_not_live x q : live s x q → x ≠ n.
Proof. destruct Hn as (_ & Hnl & _). apply Hnl. Qed.

Lemma carve_next nx :
  Piece.next ph = Some nx →
  ∃ pnx, live s nx pnx ∧ Piece.prev pnx = Some h ∧ Piece.ptr pnx = piece_end ph ∧
         nx ≠ h ∧ nx ≠ n.
Proof.
  intros Hnx. destruct (live_next s h ph nx Hst Hh Hnx) as (pnx & Hpnx & ? & ? & ?).
  exists pnx. split_and!; try done. by eapply carve_not_live.
Qed.

Lemma carve_fresh_ptr : ptr2piece_ s !! (Piece.ptr ph + a) = None.
Proof.
  destruct (ptr2piece_ s !! (Piece.ptr ph + a)) as [x|] eqn:Hx; [|done]. exfalso.
  destruct (live_of_map s _ _ Hst Hx) as (q & Hq & Hptr).
  assert (x ≠ h).
  { intros ->. rewrite (live_fun _ _ _ _ Hq Hh) in Hptr. lia. }
  destruct (live_bounds s x q Hst Hq) as (_ & _ & ? & _).
  pose proof (st_disj s Hst x q h ph Hq Hh ltac:(done)).
  unfold piece_end in *. lia.
Qed.

Lemma carve_pieces_h : pieces_ s' !! h = Some ph'.
Proof.
  pose proof carve_ne. destruct Hh as [Hph _].
  pose proof (lookup_lt_Some _ _ _ Hph). simpl.
  rewrite set_prev_of_lookup_ne.
  - rewrite list_lookup_insert_ne by done. by apply list_lookup_insert_eq.
  - intros Hnx. by destruct (carve_next h Hnx) as (_ & _ & _ & _ & ? & _).
Qed.

Lemma carve_pieces_n : pieces_ s' !! n = Some pn.
Proof.
  destruct Hn as ([q Hq] & _). pose proof (lookup_lt_Some _ _ _ Hq). simpl.
  rewrite set_prev_of_lookup_ne.
  - apply list_lookup_insert_eq. by rewrite length_insert.
  - intros Hnx. by destruct (carve_next n Hnx) as (_ & _ & _ & _ & _ & ?).
Qed.

Lemma carve_pieces_next nx pnx :
  Piece.next ph = Some nx → pieces_ s !! nx = Some pnx →
  pieces_ s' !! nx = Some (Piece.set_prev (Some n) pnx).
Proof.
  intros Hnx Hp. destruct (carve_next nx Hnx) as (_ & _ & _ & _ & ? & ?). simpl.
  rewrite Hnx, set_prev_of_lookup_eq.
  rewrite !list_lookup_insert_ne by done. by rewrite Hp.
Qed.

Lemma carve_pieces_other x :
  x ≠ h → x ≠ n → Piece.next ph ≠ Some x → pieces_ s' !! x = pieces_ s !! x.
Proof.
  intros ? ? ?. simpl. rewrite set_prev_of_lookup_ne by done.
  by rewrite !list_lookup_insert_ne.
Qed.

Lemma carve_ptr_ne x q : live s x q → Piece.ptr q ≠ Piece.ptr ph + a.
Proof.
  intros [_ Hq] Heq. rewrite Heq in Hq. pose proof carve_fresh_ptr. congruence.
Qed.

Lemma carve_map b : b ≠ Piece.ptr ph + a → ptr2piece_ s' !! b = ptr2piece_ s !! b.
Proof. intros ?. simpl. by rewrite lookup_insert_ne. Qed.

Lemma carve_live_h : live s' h ph'.
Proof.
  split; [apply carve_pieces_h|]. rewrite carve_map; [apply Hh|].
  by apply (carve_ptr_ne h ph).
Qed.

Lemma carve_live_n : live s' n pn.
Proof. split; [apply carve_pieces_n|]. simpl. apply lookup_insert_eq. Qed.

Lemma carve_live_next nx pnx :
  Piece.next ph = Some nx → live s nx pnx → live s' nx (Piece.set_prev (Some n) pnx).
Proof.
  intros Hnx Hp. split; [apply carve_pieces_next; [done|apply Hp]|].
  rewrite carve_map; [apply Hp|]. by apply (carve_ptr_ne nx pnx).
Qed.

Lemma carve_live_other x q :
  x ≠ h → Piece.next ph ≠ Some x → live s x q → live s' x q.
Proof.
  intros ? ? Hq. pose proof (carve_not_live x q Hq).
  split; [rewrite carve_pieces_other by done; apply Hq|].
  rewrite carve_map; [apply Hq|]. by apply (carve_ptr_ne x q).
Qed.

Lemma carve_live_inv x q :
  live s' x q →
  (x = h ∧ q = ph') ∨ (x = n ∧ q = pn) ∨
  (Piece.next ph = Some x ∧ ∃ pnx, live s x pnx ∧ q = Piece.set_prev (Some n) pnx) ∨
  (x ≠ h ∧ x ≠ n ∧ Piece.next ph ≠ Some x ∧ live s x q).
Proof.
  intros [Hq Hm].
  destruct (decide (x = h)) as [->|Hxh].
  { left. rewrite carve_pieces_h in Hq. split; congruence. }
  right. destruct (decide (x = n)) as [->|Hxn].
  { left. rewrite carve_pieces_n in Hq. split; congruence. }
  right. destruct (decide (Piece.next ph = Some x)) as [Hnx|Hnx].
  - left. split; [done|]. destruct (carve_next x Hnx) as (pnx & Hpnx & _).
    exists pnx. split; [done|].
    rewrite (carve_pieces_next x pnx Hnx) in Hq by apply Hpnx. congruence.
  - right. split_and!; try done. rewrite carve_pieces_other in Hq by done.
    split; [done|]. simpl in Hm.
    apply lookup_insert_Some in Hm as [[_ ?]|[_ ?]]; [congruence|done].
Qed.

Lemma carve_live_fwd x q :
  live s x q →
  ∃ q', live s' x q' ∧ Piece.ptr q' = Piece.ptr q ∧
        Piece.is_free q' = Piece.is_free q ∧ Piece.bin_num q' = Piece.bin_num q ∧
        (x ≠ h → Piece.size q' = Piece.size q ∧ Piece.next q' = Piece.next q) ∧
        (Piece.next ph ≠ Some x → Piece.prev q' = Piece.prev q).
Proof.
  intros Hq. destruct (decide (x = h)) as [->|Hxh].
  { rewrite (live_fun _ _ _ _ Hq Hh). exists ph'. split; [apply carve_live_h|].
    by split_and!. }
  destruct (decide (Piece.next ph = Some x)) as [Hnx|Hnx].
  - eexists. split; [by apply carve_live_next|]. by split_and!.
  - exists q. split; [by apply carve_live_other|]. by split_and!.
Qed.

Lemma structure_carve : structure s'.
Proof.
  pose proof carve_ne as Hne.
  destruct (live_bounds s h ph Hst Hh) as (? & ? & ? & ?).
  split.
  - apply Hst.
  - intros b x Hb. simpl in Hb. apply lookup_insert_Some in Hb as [[<- <-]|[? Hb]].
    + exists pn. split; [apply carve_pieces_n|done].
    + destruct (live_of_map s b x Hst Hb) as (q & Hq & Hqptr).
      destruct (carve_live_fwd x q Hq) as (q' & [Hq' _] & ? & _).
      exists q'. split; [done|congruence].
  - intros x q Hq.
    destruct (carve_live_inv x q Hq)
      as [[-> ->]|[[-> ->]|[(Hnx & pnx & Hpnx & ->)|(_ & _ & _ & Hq0)]]]; simpl.
    + split; [lia|done].
    + split; [lia|]. by apply mod_512_sub.
    + by apply (st_size s Hst x).
    + by apply (st_size s Hst x).
  - intros x q y Hq Hy.
    destruct (carve_live_inv x q Hq)
      as [[-> ->]|[[-> ->]|[(Hnx & pnx & Hpnx & ->)|(? & ? & ? & Hq0)]]]; simpl in Hy.
    + injection Hy as <-. exists pn. split; [apply carve_live_n|]. by split.
    + destruct (carve_next y Hy) as (pnx & Hpnx & ? & Hpp & ? & ?).
      eexists. split; [by apply carve_live_next|]. simpl. split; [done|].
      unfold piece_end in *. simpl. lia.
    + destruct (carve_next x Hnx) as (pnx' & Hpnx' & ? & Hpp & ? & ?).
      pose proof (live_fun _ _ _ _ Hpnx Hpnx') as <-.
      destruct (live_next s x pnx y Hst Hpnx Hy) as (qy & Hqy & Hqprev & Hqptr & ?).
      destruct (live_bounds s x pnx Hst Hpnx) as (? & ? & ? & ?).
      exists qy. split; [|done].
      apply carve_live_other; try done.
      * intros ->. pose proof (live_fun _ _ _ _ Hh Hqy) as <-.
        unfold piece_end in *. lia.
      * congruence.
    + destruct (live_next s x q y Hst Hq0 Hy) as (qy & Hqy & Hqprev & Hqptr & ?).
      destruct (carve_live_fwd y qy Hqy) as (qy' & Hqy' & ? & _ & _ & _ & Hpv).
      exists qy'. split; [done|]. split; [|congruence].
      rewrite Hpv; [done|]. intros Hnx.
      destruct (carve_next y Hnx) as (pnx & Hpnx & ? & _).
      pose proof (live_fun _ _ _ _ Hpnx Hqy) as <-. congruence.
  - intros x q m Hq Hm.
    destruct (carve_live_inv x q Hq)
      as [[-> ->]|[[-> ->]|[(Hnx & pnx & Hpnx & ->)|(? & ? & ? & Hq0)]]]; simpl in Hm.
    + destruct (live_prev s h ph m Hst Hh Hm) as (qm & Hqm & Hqnext & Hqptr & ?).
      destruct (carve_live_fwd m qm Hqm) as (qm' & Hqm' & _ & _ & _ & Hsn & _).
      exists qm'. split; [done|]. destruct Hsn as [_ ->]; done.
    + injection Hm as <-. exists ph'. split; [apply carve_live_h|done].
    + injection Hm as <-. exists pn. split; [apply carve_live_n|done].
    + destruct (live_prev s x q m Hst Hq0 Hm) as (qm & Hqm & Hqnext & Hqptr & ?).
      assert (m ≠ h).
      { intros ->. pose proof (live_fun _ _ _ _ Hh Hqm) as <-. congruence. }
      destruct (carve_live_fwd m qm Hqm) as (qm' & Hqm' & _ & _ & _ & Hsn & _).
      exists qm'. split; [done|]. destruct Hsn as [_ ->]; done.
  - assert (Hrange : ∀ x q, live s' x q →
      (x = h ∧ Piece.ptr q = Piece.ptr ph ∧ piece_end q = Piece.ptr ph + a) ∨
      (x = n ∧ Piece.ptr q = Piece.ptr ph + a ∧ piece_end q = piece_end ph) ∨
      (x ≠ h ∧ x ≠ n ∧ ∃ q0, live s x q0 ∧ Piece.ptr q = Piece.ptr q0 ∧
                             piece_end q = piece_end q0)).
    { intros x q Hq.
      destruct (carve_live_inv x q Hq)
        as [[-> ->]|[[-> ->]|[(Hnx & pnx & Hpnx & ->)|(? & ? & ? & Hq0)]]].
      - left. by split_and!.
      - right; left. unfold piece_end. simpl. split_and!; try done. lia.
      - destruct (carve_next x Hnx) as (_ & _ & _ & _ & ? & ?).
        right; right. split_and!; try done. by exists pnx.
      - right; right. split_and!; try done. by exists q. }
    intros x1 q1 x2 q2 Hq1 Hq2 Hx.
    destruct (Hrange x1 q1 Hq1)
      as [(-> & Hp1 & He1)|[(-> & Hp1 & He1)|(? & ? & a1 & Ha1 & Hp1 & He1)]];
    destruct (Hrange x2 q2 Hq2)
      as [(-> & Hp2 & He2)|[(-> & Hp2 & He2)|(? & ? & a2 & Ha2 & Hp2 & He2)]];
      try done; rewrite ?Hp1, ?He1, ?Hp2, ?He2; unfold piece_end in *; try lia.
    + pose proof (st_disj s Hst h ph x2 a2 Hh Ha2 ltac:(done)).
      unfold piece_end in *. lia.
    + pose proof (st_disj s Hst h ph x2 a2 Hh Ha2 ltac:(done)).
      unfold piece_end in *. lia.
    + pose proof (st_disj s Hst h ph x1 a1 Hh Ha1 ltac:(done)).
      unfold piece_end in *. lia.
    + pose proof (st_disj s Hst h ph x1 a1 Hh Ha1 ltac:(done)).
      unfold piece_end in *. lia.
    + by apply (st_disj s Hst x1 a1 x2 a2).
  - destruct (st_recycle s Hst) as (rl & Hc & Hnd & Hdead).
    assert (Hrl : ∀ x, x ∈ rl → pieces_ s' !! x = pieces_ s !! x).
    { intros x Hx. apply carve_pieces_other.
      - intros ->. by eapply recycled_not_live.
      - intros ->. destruct Hn as (_ & _ & Hnrl). by eapply Hnrl.
      - intros Hnx. destruct (carve_next x Hnx) as (pnx & Hpnx & _).
        by eapply recycled_not_live. }
    exists rl. split_and!; [|done|].
    + eapply recycle_chain_ext; [|done]. intros x Hx. by apply Hrl.
    + intros x Hx. rewrite Hrl by done. by apply Hdead.
  - intros b blk Hb. simpl in Hb.
    destruct (st_block s Hst b blk Hb) as (? & ? & ? & ? & q & Hq & Hqptr & Hqprev).
    split_and!; try done.
    destruct (carve_live_fwd _ q Hq) as (q' & Hq' & ? & _ & _ & _ & Hpv).
    exists q'. split; [done|]. split; [congruence|]. rewrite Hpv; [done|].
    intros Hnx. destruct (carve_next _ Hnx) as (pnx & Hpnx & ? & _).
    pose proof (live_fun _ _ _ _ Hpnx Hq) as <-. congruence.
  - apply Hst.
  - destruct (st_in_block s Hst h ph Hh) as (b & blk & Hb & ? & ? & Hiff).
    intros x q Hq.
    destruct (carve_live_inv x q Hq)
      as [[-> ->]|[[-> ->]|[(Hnx & pnx & Hpnx & ->)|(? & ? & ? & Hq0)]]].
    + exists b, blk. split; [done|]. unfold piece_end in *. simpl.
      split; [done|]. split; [lia|]. split; [done|lia].
    + exists b, blk. split; [done|]. unfold piece_end in *. simpl.
      split; [lia|]. split; [lia|]. rewrite Hiff. lia.
    + by apply (st_in_block s Hst x pnx).
    + by apply (st_in_block s Hst x).
  - apply Hst.
Qed.

Lemma carve_pieces_inv y q' :
  pieces_ s' !! y = Some q' → y ≠ h → y ≠ n →
  ∃ q0, pieces_ s !! y = Some q0 ∧ Piece.is_free q0 = Piece.is_free q'.
Proof.
  intros Hq' Hyh Hyn.
  destruct (decide (Piece.next ph = Some y)) as [Hnx|Hnx].
  - destruct (carve_next y Hnx) as (pnx & [Hpnx _] & _).
    rewrite (carve_pieces_next y pnx Hnx Hpnx) in Hq'. injection Hq' as <-.
    by exists pnx.
  - rewrite carve_pieces_other in Hq' by done. by exists q'.
Qed.

Lemma carve_key x : x ≠ h → x ≠ n → piece_key (pieces_ s') x = piece_key (pieces_ s) x.
Proof.
  intros Hxh Hxn. unfold piece_key.
  destruct (decide (Piece.next ph = Some x)) as [Hnx|Hnx].
  - destruct (carve_next x Hnx) as (pnx & [Hpnx _] & _).
    by rewrite (carve_pieces_next x pnx Hnx Hpnx), Hpnx.
  - by rewrite carve_pieces_other.
Qed.

Lemma filing_carve :
  filing [] None None s → Piece.is_free ph = false →
  (∀ nx pnx, Piece.next ph = Some nx → live s nx pnx → Piece.is_free pnx = false) →
  filing [n] None None s'.
Proof.
  intros Hfi Hused Hnxused.
  pose proof carve_ne as Hne.
  assert (Hback : ∀ x q, live s' x q → x ≠ n →
            ∃ q0, live s x q0 ∧ Piece.is_free q0 = Piece.is_free q ∧
                  Piece.bin_num q0 = Piece.bin_num q ∧
                  (x ≠ h → Piece.size q0 = Piece.size q ∧ Piece.next q0 = Piece.next q)).
  { intros x q Hq Hxn.
    destruct (carve_live_inv x q Hq)
      as [[-> ->]|[[-> ->]|[(Hnx & pnx & Hpnx & ->)|(? & ? & ? & Hq0)]]]; [|done|..].
    - exists ph. by split_and!.
    - exists pnx. by split_and!.
    - exists q. by split_and!. }
  split.
  - apply Hfi.
  - intros x q Hq Hqused.
    destruct (decide (x = n)) as [->|Hxn].
    { pose proof (live_fun _ _ _ _ Hq carve_live_n) as ->. done. }
    destruct (Hback x q Hq Hxn) as (q0 & Hq0 & Hf & Hb & _).
    rewrite <- Hb. eapply (fi_used _ _ _ _ Hfi); [done|congruence].
  - intros x q Hq ->%list_elem_of_singleton.
    by pose proof (live_fun _ _ _ _ Hq carve_live_n) as ->.
  - intros x q Hq Hqfree Hx.
    assert (Hxn : x ≠ n) by (intros ->; apply Hx; by left).
    destruct (Hback x q Hq Hxn) as (q0 & Hq0 & Hf & Hb & Hsz).
    assert (x ≠ h).
    { intros ->. pose proof (live_fun _ _ _ _ Hq0 Hh) as ->. congruence. }
    destruct (fi_free _ _ _ _ Hfi x q0 Hq0) as (Hbn & b & Hbl & Hin);
      [congruence|by intros ?%elem_of_nil|].
    destruct Hsz as [Hsz _]; [done|]. rewrite <- Hb, <- Hsz. split; [done|].
    by exists b.
  - intros i b Hb. simpl in Hb.
    destruct (fi_bins _ _ _ _ Hfi _ _ Hb) as (Hnd & Hsorted & Helems).
    assert (Hx : ∀ x, x ∈ Bin.pieces b → x ≠ h ∧ x ≠ n).
    { intros x Hx. destruct (Helems x Hx) as (_ & q & Hq & Hqfree & _). split.
      - intros ->. pose proof (live_fun _ _ _ _ Hq Hh) as ->. congruence.
      - by eapply carve_not_live. }
    split_and!; [done| |].
    + eapply bin_sorted_ext; [|done]. intros x [? ?]%Hx. by apply carve_key.
    + intros x Hxb. destruct (Hx x Hxb) as [? ?].
      destruct (Helems x Hxb) as (_ & q & Hq & Hqfree & Hqbn).
      split; [by intros ?%list_elem_of_singleton|].
      destruct (carve_live_fwd x q Hq) as (q' & Hq' & _ & ? & ? & _).
      exists q'. split; [done|]. split; congruence.
  - intros x q y q' Hq Hnextq Hy Hf1 Hf2. exfalso.
    destruct (carve_live_inv x q Hq)
      as [[-> ->]|[[-> ->]|Hx]].
    + simpl in Hf1. congruence.
    + simpl in Hnextq. destruct (carve_next y Hnextq) as (pnx & Hpnx & _).
      rewrite (carve_pieces_next y pnx Hnextq) in Hy by apply Hpnx.
      injection Hy as <-. simpl in Hf2.
      rewrite (Hnxused y pnx Hnextq Hpnx) in Hf2. done.
    + assert (x ≠ h ∧ ∃ q0, live s x q0 ∧ Piece.next q0 = Some y ∧
                Piece.is_free q0 = true) as (Hxh & q0 & Hq0 & Hn0 & Hf0).
      { destruct Hx as [(Hnx & pnx & Hpnx & ->)|(? & ? & ? & Hq0)].
        - destruct (carve_next x Hnx) as (_ & _ & _ & _ & ? & ?).
          split_and!; try done. by exists pnx.
        - split_and!; try done. by exists q. }
      destruct (live_next s x q0 y Hst Hq0 Hn0) as (qy & Hqy & Hqprev & _).
      pose proof (carve_not_live y qy Hqy).
      destruct (decide (y = h)) as [->|Hyh].
      { rewrite carve_pieces_h in Hy. injection Hy as <-. simpl in Hf2. congruence. }
      destruct (carve_pieces_inv y q' Hy) as (qy' & Hqy' & Hfy); [done..|].
      destruct (fi_adj _ _ _ _ Hfi x q0 y qy'); try done. congruence.
Qed.

End Carve.

Lemma set_pieces_id s : set_pieces (pieces_ s) s = s.
Proof. by destruct s. Qed.

Lemma load_eval_sp s ps h p :
  ps !! h = Some p → load h (set_pieces ps s) = (set_pieces ps s, Ret p).
Proof. intros H. by apply load_eval. Qed.

Lemma store_eval_sp s ps h p f :
  ps !! h = Some p →
  store h f (set_pieces ps s) = (set_pieces (<[h := f p]> ps) s, Ret tt).
Proof. intros H. by rewrite (store_eval _ h p). Qed.

Lemma store_prev_of_sp s ps nx v :
  (∀ x, nx = Some x → is_Some (ps !! x)) →
  (match nx with
   | Some n => store n (Piece.set_prev v)
   | None => ret tt
   end) (set_pieces ps s) = (set_pieces (set_prev_of nx v ps) s, Ret tt).
Proof.
  intros Hnx. destruct nx as [x|]; [|done].
  destruct (Hnx x eq_refl) as [p Hp]. rewrite (store_eval_sp _ _ _ p) by done.
  do 2 f_equal. unfold set_pieces. f_equal. simpl.
  apply list_eq. intros i. destruct (decide (i = x)) as [->|].
  - rewrite list_lookup_alter_eq, Hp. simpl.
    apply list_lookup_insert_eq. by eapply lookup_lt_Some.
  - rewrite list_lookup_alter_ne by done. by rewrite list_lookup_insert_ne.
Qed.

Lemma bind_check {B} (k : M B) s : (RV_CHECK true ;; k) s = k s.
Proof. reflexivity. Qed.

Ltac mload := erewrite bind_eval; [|apply load_eval_sp; lk; done].
Ltac mstore :=
  erewrite bind_eval; [|apply store_eval_sp; lk; done]; rewrite ?list_insert_insert_eq.

Lemma IsAlignedSize_true size : size mod 512 = 0 → IsAlignedSize size kCudaAlignSize = true.
Proof. intros H. unfold IsAlignedSize, kCudaAlignSize. by apply Z.eqb_eq. Qed.

Lemma SplitPiece_spec s h ph a :
  structure s → filing [] None None s → live s h ph → Piece.is_free ph = false →
  0 < a < Piece.size ph → a mod 512 = 0 →
  (∀ nx pnx, Piece.next ph = Some nx → live s nx pnx → Piece.is_free pnx = false) →
  ∃ s1 n b l,
    let pn := Piece.mk (Piece.size ph - a) (Piece.ptr ph + a) true (Some h)
                (Piece.next ph) kInvalidBinNum in
    let s' := bin_state n pn b l (carve_state h n ph a s1) in
    AllocatePiece s = (s1, Ret n) ∧
    SplitPiece h a s = (s', Ret tt) ∧
    structure s' ∧ filing [] None None s' ∧
    n ≠ h ∧ n ∈ l ∧
    bins_ s !! Z.to_nat (BinNum4BinSize (Piece.size ph - a)) = Some b ∧
    ptr2piece_ s1 = ptr2piece_ s ∧ mem_ptr2block_ s1 = mem_ptr2block_ s ∧
    total_memory_bytes_ s1 = total_memory_bytes_ s ∧ cuda_calls_ s1 = cuda_calls_ s ∧
    bins_ s1 = bins_ s ∧
    (∀ x, is_Some (pieces_ s !! x) → pieces_ s1 !! x = pieces_ s !! x) ∧
    structure s1 ∧ spare s1 n ∧ (∀ x p, live s1 x p ↔ live s x p).
Proof.
  intros Hst Hfi Hh Hused Ha Hmod Hnxused.
  destruct (AllocatePiece_spec s Hst)
    as (s1 & n & Halloc & Hst1 & Hspare & Hfi1 & Hlive1 & Hsame1 & Hal1 & Htot1 & Hblk1 &
        Hbins1 & Hmap1 & Hcalls1).
  assert (Hh1 : live s1 h ph) by (by apply Hlive1).
  assert (Hnx1 : ∀ nx pnx, Piece.next ph = Some nx → live s1 nx pnx →
            Piece.is_free pnx = false).
  { intros nx pnx Hnx Hp. apply (Hnxused nx pnx Hnx). by apply Hlive1. }
  set (pn := Piece.mk (Piece.size ph - a) (Piece.ptr ph + a) true (Some h)
               (Piece.next ph) kInvalidBinNum) in *.
  assert (Hst2 : structure (carve_state h n ph a s1)) by (by apply structure_carve).
  assert (Hfi2 : filing [n] None None (carve_state h n ph a s1))
    by (apply filing_carve; auto).
  assert (Hn2 : live (carve_state h n ph a s1) n pn) by (by eapply carve_live_n).
  assert (Hne : n ≠ h) by (by eapply carve_ne).
  destruct (InsertPiece2Bin_spec [n] [] None None _ n pn Hst2 Hfi2 Hn2)
    as (b & l & Hins & Hst3 & Hfi3 & Hb & Hset & Hnl).
  { by left. }
  { intros x. split; [by intros ?%elem_of_nil|]. by intros [->%list_elem_of_singleton ?]. }
  exists s1, n, b, l. simpl. split_and!; try done; [|by rewrite <- Hbins1].
  destruct (live_bounds s1 h ph Hst1 Hh1) as (? & Hend & ? & ?).
  assert (Hlim : address_limit < 2 ^ 64) by (apply Z.pow_lt_mono_r; lia).
  unfold piece_end in Hend.
  pose proof Hh1 as [Hph _]. pose proof Hspare as ([pn0 Hpn0] & Hsp2 & Hsp3).
  pose proof (lookup_lt_Some _ _ _ Hph). pose proof (lookup_lt_Some _ _ _ Hpn0).
  assert (Hnxs : ∀ x, Piece.next ph = Some x →
            ∃ pnx, pieces_ s1 !! x = Some pnx ∧ x ≠ h ∧ x ≠ n).
  { intros x Hx. destruct (carve_next s1 h n ph Hst1 Hh1 Hspare x Hx)
      as (pnx & [Hpnx _] & _ & _ & ? & ?). by exists pnx. }
  unfold SplitPiece. rewrite (bind_eval _ _ _ _ _ Halloc).
  rewrite <- (set_pieces_id s1) at 1.
  mload. rewrite (wrap64_small (Piece.ptr ph + a)) by lia.
  mstore. mload. rewrite (wrap64_small (Piece.size ph - a)) by lia.
  mstore. mstore. mload. simpl.
  mstore. mstore. mstore.
  erewrite bind_eval; cycle 1.
  { apply store_prev_of_sp. intros x Hx. destruct (Hnxs x Hx) as (pnx & Hpnx & ? & ?).
    exists pnx. by lk. }
  set (ps2 := set_prev_of _ _ _).
  assert (Hps2h : ps2 !! h = Some (Piece.set_next (Some n) (Piece.set_size a ph))).
  { subst ps2. rewrite set_prev_of_lookup_ne; [by lk|].
    intros Hx. by destruct (Hnxs h Hx) as (_ & _ & ? & _). }
  assert (Hps2n : ps2 !! n = Some (Piece.mk (Piece.size ph - a) (Piece.ptr ph + a)
                                     (Piece.is_free pn0) (Some h) (Piece.next ph)
                                     (Piece.bin_num pn0))).
  { subst ps2. rewrite set_prev_of_lookup_ne; [by lk|].
    intros Hx. by destruct (Hnxs n Hx) as (_ & _ & _ & ?). }
  assert (Hcarve : <[n := pn]> ps2 = pieces_ (carve_state h n ph a s1)).
  { subst ps2. simpl. apply list_eq. intros i.
    destruct (decide (i = n)) as [->|Hin].
    { rewrite list_lookup_insert_eq
        by (by rewrite set_prev_of_length, !length_insert).
      rewrite set_prev_of_lookup_ne; [by lk|].
      intros Hx. by destruct (Hnxs n Hx) as (_ & _ & _ & ?). }
    rewrite list_lookup_insert_ne by done.
    destruct (decide (Piece.next ph = Some i)) as [Hx|Hx].
    - destruct (Hnxs i Hx) as (_ & _ & ? & _).
      rewrite Hx, !set_prev_of_lookup_eq. by lk.
    - rewrite !set_prev_of_lookup_ne by done.
      destruct (decide (i = h)) as [->|]; by lk. }
  clearbody ps2.
  mstore. mstore.
  lazymatch goal with |- context [<[n := ?q]> ps2] => change q with pn end.
  rewrite Hcarve.
  rewrite bind_eval with (s1 := set_pieces (pieces_ (carve_state h n ph a s1)) s1)
                         (a := set_pieces (pieces_ (carve_state h n ph a s1)) s1)
    by done.
  assert (Hc_h : pieces_ (carve_state h n ph a s1) !! h =
                 Some (Piece.set_next (Some n) (Piece.set_size a ph)))
    by (by eapply carve_pieces_h).
  assert (Hc_n : pieces_ (carve_state h n ph a s1) !! n = Some pn) by apply Hn2.
  mload. cbn [Piece.size Piece.set_next Piece.set_size alignment_ set_pieces].
  rewrite (st_align s1 Hst1), (IsAlignedSize_true a) by done.
  rewrite bind_check. mload. cbn [Piece.size pn].
  rewrite (IsAlignedSize_true (Piece.size ph - a)) by (by apply mod_512_sub).
  rewrite bind_check.
  erewrite bind_eval; cycle 1.
  { eapply (InsertPiece2Bin_eval _ n pn b l); try done.
    pose proof (BinNum4BinSize_range (Piece.size pn)). simpl in *. lia. }
  erewrite MarkPiece_eval; cycle 1.
  { simpl. apply list_lookup_insert_eq. by eapply lookup_lt_Some. }
  { simpl. by eapply carve_fresh_ptr. }
  done.
Qed.

(** ** Taking a piece out of its bin *)

Lemma wf_structure s : wf s → structure s.
Proof. by intros [? _]. Qed.

Lemma wf_filing s : wf s → filing [] None None s.
Proof. by intros [_ ?]. Qed.

Lemma split_condition_spec size a :
  0 < a ≤ size → size < 2 ^ 63 →
  split_condition size a = true ↔ a ≤ size - a ∨ kPieceSplitThreshold ≤ size - a.
Proof.
  intros Ha Hsize. unfold split_condition.
  assert (2 ^ 63 < 2 ^ 64) by (apply Z.pow_lt_mono_r; lia).
  change (2 ^ 64) with (2 * 2 ^ 63) in *.
  rewrite (wrap64_small (a * 2)), (wrap64_small (size - a))
    by (change (2 ^ 64) with (2 * 2 ^ 63); lia).
  rewrite orb_true_iff, !Z.leb_le. lia.
Qed.

Lemma split_condition_lt size a :
  0 < a ≤ size → size < 2 ^ 63 → split_condition size a = true → a < size.
Proof.
  intros Ha Hsize Hsplit. apply split_condition_spec in Hsplit; [|done..].
  change kPieceSplitThreshold with 134217728 in Hsplit. lia.
Qed.

Lemma taken_spec s bn b l1 piece l2 :
  wf s → 0 ≤ bn → bins_ s !! Z.to_nat bn = Some b → Bin.pieces b = l1 ++ piece :: l2 →
  ∃ p, live s piece p ∧ Piece.is_free p = true ∧ Piece.bin_num p = bn ∧
       wf (taken_state piece p b (l1 ++ l2) s) ∧
       live (taken_state piece p b (l1 ++ l2) s) piece
         (Piece.set_is_free false (Piece.set_bin_num kInvalidBinNum p)) ∧
       (∀ nx pnx, Piece.next p = Some nx →
          live (taken_state piece p b (l1 ++ l2) s) nx pnx → Piece.is_free pnx = false).
Proof.
  intros [Hst Hfi] Hbn Hb Hsplit.
  destruct (fi_bins _ _ _ _ Hfi _ _ Hb) as (_ & _ & Helems).
  destruct (Helems piece) as (_ & p & Hp & Hfree & Hpbn).
  { rewrite Hsplit. apply elem_of_app. right. by left. }
  rewrite Z2Nat.id in Hpbn by done.
  exists p. split_and!; try done.
  - set (s1 := unbin_state piece p b (l1 ++ l2) s).
    assert (Hst1 : structure s1).
    { eapply structure_same_layout; [|done]. apply same_layout_unbin, Hp. }
    assert (Hfi1 : filing [piece] None None s1).
    { eapply filing_unbin; try done; [by intros ?%elem_of_nil|by rewrite Hpbn]. }
    assert (Hp1 : live s1 piece (Piece.set_bin_num kInvalidBinNum p)).
    { by apply (live_update_same s s1 piece _ p). }
    split.
    + eapply structure_same_layout; [|done]. apply same_layout_flag, Hp1.
    + eapply filing_mark_used; try done; [by left|].
      intros x. split; [by intros ?%elem_of_nil|]. by intros [->%list_elem_of_singleton ?].
  - split; [|apply Hp]. simpl.
    destruct Hp as [Hp _]. pose proof (lookup_lt_Some _ _ _ Hp).
    apply list_lookup_insert_eq. by rewrite length_insert.
  - intros nx pnx Hnx [Hpnx _]. simpl in Hpnx.
    destruct (live_next s piece p nx Hst Hp Hnx) as (q & Hq & _ & _ & Hne).
    rewrite !list_lookup_insert_ne in Hpnx by done.
    assert (pnx = q) as -> by (destruct Hq; congruence).
    destruct (Piece.is_free q) eqn:Hqfree; [|done].
    destruct Hq as [Hq _].
    by destruct (fi_adj _ _ _ _ Hfi piece p nx q Hp Hnx Hq Hfree Hqfree).
Qed.

Lemma TakePiece_eval_taken {A} s bn b l1 piece l2 p (k : M A) :
  0 ≤ bn → bins_ s !! Z.to_nat bn = Some b → Bin.pieces b = l1 ++ piece :: l2 →
  pieces_ s !! piece = Some p → Piece.bin_num p = bn →
  (bin <- bins_at bn ;;
   set_bin_pieces bn (delete (length l1) (Bin.pieces bin)) ;;
   store piece (Piece.set_bin_num kInvalidBinNum) ;;
   store piece (Piece.set_is_free false) ;;
   k) s = k (taken_state piece p b (l1 ++ l2) s).
Proof.
  intros Hbn Hb Hsplit Hp Hpbn.
  pose proof (lookup_lt_Some _ _ _ Hp).
  rewrite (bind_eval _ _ _ _ _ (bins_at_eval s bn b Hbn Hb)).
  unfold set_bin_pieces.
  rewrite (bind_eval _ _ s (set_bins (<[Z.to_nat bn := Bin.set_pieces (l1 ++ l2) b]> (bins_ s)) s) tt).
  2:{ rewrite (bind_eval _ _ _ _ _ (bins_at_eval s bn b Hbn Hb)).
      by rewrite Hsplit, delete_middle. }
  erewrite bind_eval; [|by apply store_eval].
  erewrite bind_eval; [|apply store_eval; simpl; by apply list_lookup_insert_eq].
  unfold taken_state, flag_state, unbin_state. rewrite Hpbn. done.
Qed.

Lemma wf_not_binned s h p i b :
  wf s → live s h p → Piece.is_free p = false → bins_ s !! i = Some b → h ∉ Bin.pieces b.
Proof.
  intros [_ Hfi] Hp Hused Hb Hin.
  destruct (fi_bins _ _ _ _ Hfi _ _ Hb) as (_ & _ & Helems).
  destruct (Helems h Hin) as (_ & q & Hq & Hfree & _).
  rewrite (live_fun _ _ _ _ Hq Hp) in Hfree. congruence.
Qed.

Lemma TakePiece_spec s bn b l1 piece l2 a :
  wf s → 0 ≤ bn → bins_ s !! Z.to_nat bn = Some b → Bin.pieces b = l1 ++ piece :: l2 →
  0 < a → a mod 512 = 0 → fits (pieces_ s) a piece = true →
  ∃ s' p p',
    live s piece p ∧ Piece.is_free p = true ∧ a ≤ Piece.size p ∧
    TakePiece bn (length l1) piece a s = (s', Ret tt) ∧
    wf s' ∧ handed_out a piece p s s' ∧
    live s' piece p' ∧ Piece.ptr p' = Piece.ptr p ∧ Piece.is_free p' = false.
Proof.
  intros Hwf Hbn Hb Hsplit Ha Hmod Hfits.
  destruct (taken_spec s bn b l1 piece l2 Hwf Hbn Hb Hsplit)
    as (p & Hp & Hfree & Hpbn & Hwf1 & Hp1 & Hnx1).
  assert (Hsize : a ≤ Piece.size p).
  { unfold fits in Hfits. destruct Hp as [Hp _]. rewrite Hp in Hfits. lia. }
  set (s1 := taken_state piece p b (l1 ++ l2) s) in *.
  set (p1 := Piece.set_is_free false (Piece.set_bin_num kInvalidBinNum p)) in *.
  destruct (live_bounds s piece p (wf_structure s Hwf) Hp) as (? & Hend & ? & ?).
  unfold piece_end, address_limit in Hend.
  unfold TakePiece.
  rewrite (TakePiece_eval_taken s bn b l1 piece l2 p) by (done || apply Hp).
  fold s1. rewrite (bind_eval _ _ _ _ _ (load_eval s1 piece p1 (proj1 Hp1))).
  change (Piece.size p1) with (Piece.size p).
  destruct (split_condition (Piece.size p) a) eqn:Hcond.
  - assert (a < Piece.size p) by (apply split_condition_lt; [lia..|done]).
    destruct (SplitPiece_spec s1 piece p1 a)
      as (s2 & n & b' & l' & Halloc & Hsp & Hst' & Hfi' & Hne & Hnl & Hb' & Hmap2 & Hblk2 &
          Htot2 & Hcalls2 & Hbins2 & Hsame2 & Hst2 & Hspare & Hlive2);
      try done; try apply Hwf1.
    simpl in Hsp, Hst', Hfi', Hb'.
    assert (Hp2 : live s2 piece p1) by (by apply Hlive2).
    set (pn := Piece.mk (Piece.size p - a) (Piece.ptr p + a) true (Some piece)
                 (Piece.next p) kInvalidBinNum) in *.
    set (s' := bin_state n pn b' l' (carve_state piece n p1 a s2)) in *.
    set (p' := Piece.set_next (Some n) (Piece.set_size a p1)).
    assert (Hc : live (carve_state piece n p1 a s2) piece p')
      by (by eapply carve_live_h).
    assert (Hp' : live s' piece p').
    { eapply (live_update_other (carve_state piece n p1 a s2) s' n);
        [reflexivity|reflexivity|congruence|done]. }
    assert (Hlen : (n < length (pieces_ (carve_state piece n p1 a s2)))%nat).
    { eapply lookup_lt_Some. by eapply carve_pieces_n. }
    exists s', p, p'. split_and!; try done.
    unfold handed_out. split_and!.
    + simpl. by rewrite Hblk2.
    + simpl. by rewrite Htot2.
    + simpl. by rewrite Hcalls2.
    + rewrite (st_align _ Hst'). symmetry. apply (st_align s), Hwf.
    + intros i b0 Hb0. by apply (wf_not_binned s' piece p' i b0).
    + rewrite Hcond. exists n. split_and!; try done.
      * intros q Hq. destruct Hspare as (_ & Hsp2 & _). apply (Hsp2 n q); [|done].
        apply Hlive2. destruct Hq as [Hq Hm]. split; [|done]. unfold s1. simpl.
        by rewrite !list_lookup_insert_ne by congruence.
      * unfold s'. simpl. rewrite list_lookup_insert_ne by done. apply Hc.
      * unfold s'. simpl. by apply list_lookup_insert_eq.
      * unfold s'. simpl. by rewrite Hmap2.
      * eexists. split.
        -- unfold s'. simpl. apply list_lookup_insert_eq. rewrite Hbins2.
           by eapply lookup_lt_Some.
        -- done.
      * intros nx Hnx.
        destruct (carve_next s2 piece n p1 Hst2 Hp2 Hspare nx Hnx)
          as (pnx & Hpnx & _ & _ & ? & ?).
        exists pnx. split.
        -- apply Hlive2 in Hpnx as [Hpnx _]. unfold s1 in Hpnx. simpl in Hpnx.
           by rewrite !list_lookup_insert_ne in Hpnx by congruence.
        -- unfold s'. simpl. rewrite list_lookup_insert_ne by done.
           eapply (carve_pieces_next s2 piece n p1 a); try done. apply Hpnx.
  - exists s1, p, p1. split_and!; try done.
    split_and!; try done.
    + intros i b0 Hb0. by apply (wf_not_binned s1 piece p1 i b0).
    + rewrite Hcond. split; [|done]. simpl. by rewrite list_insert_insert_eq.
Qed.

(** ** The search *)

Lemma find_app_split {A} (f : A → bool) (l1 l2 : list A) :
  List.find f (l1 ++ l2) =
  match List.find f l1 with
  | Some x => Some x
  | None => List.find f l2
  end.
Proof. induction l1 as [|x l1 IH]; simpl; [done|]. by destruct (f x). Qed.

Lemma FindPiece_in_bin_spec s a bn b pre rest :
  wf s → 0 ≤ bn → bins_ s !! Z.to_nat bn = Some b → Bin.pieces b = pre ++ rest →
  0 < a → a mod 512 = 0 →
  match List.find (fits (pieces_ s) a) rest with
  | None => FindPiece_in_bin a bn (length pre) rest s = (s, Ret None)
  | Some piece =>
      ∃ s', FindPiece_in_bin a bn (length pre) rest s = (s', Ret (Some piece)) ∧
            found a s piece s'
  end.
Proof.
  intros Hwf Hbn Hb Hsplit Ha Hmod. revert pre Hsplit.
  induction rest as [|x rest IH]; intros pre Hsplit; simpl; [done|].
  destruct (fi_bins _ _ _ _ (wf_filing s Hwf) _ _ Hb) as (_ & _ & Helems).
  destruct (Helems x) as (_ & px & Hpx & Hfree & _).
  { rewrite Hsplit. apply elem_of_app. right. by left. }
  destruct (st_size s (wf_structure s Hwf) x px Hpx) as [_ Hxmod].
  rewrite (bind_eval _ _ _ _ _ (load_eval s x px (proj1 Hpx))).
  rewrite Hfree, bind_check.
  rewrite (bind_eval _ _ s s s) by done.
  rewrite (st_align s (wf_structure s Hwf)), (IsAlignedSize_true _ Hxmod), bind_check.
  assert (Hfits : fits (pieces_ s) a x = (a <=? Piece.size px)).
  { unfold fits. destruct Hpx as [Hpx _]. by rewrite Hpx. }
  rewrite Hfits. destruct (a <=? Piece.size px) eqn:Hle.
  - destruct (TakePiece_spec s bn b pre x rest a)
      as (s' & p & p' & Hp & Hpfree & Hsize & Htake & Hwf' & Hout & Hp' & Hptr & Hused);
      try done; try (by rewrite Hfits).
    exists s'. split.
    + by rewrite (bind_eval _ _ _ _ _ Htake).
    + by exists p, p'.
  - specialize (IH (pre ++ [x])). rewrite length_app in IH. simpl in IH.
    replace (length pre + 1)%nat with (S (length pre)) in IH by lia.
    apply IH. by rewrite <- app_assoc.
Qed.

Lemma found_not_None a s piece s' : found a s piece s' → s' = s → False.
Proof.
  intros (p & p' & _ & _ & Hp & Hfree & _ & Hp' & _ & Hused) ->.
  rewrite (live_fun _ _ _ _ Hp Hp') in Hfree. congruence.
Qed.

Lemma FindPiece_from_spec s a n bn :
  wf s → 0 ≤ bn → bn + Z.of_nat n = kBinNumSize → 0 < a → a mod 512 = 0 →
  match List.find (fits (pieces_ s) a)
          (concat (map Bin.pieces (drop (Z.to_nat bn) (bins_ s)))) with
  | None => FindPiece_from a n bn s = (s, Ret None)
  | Some piece =>
      ∃ s', FindPiece_from a n bn s = (s', Ret (Some piece)) ∧ found a s piece s'
  end.
Proof.
  intros Hwf Hbn Hn Ha Hmod. revert bn Hbn Hn.
  pose proof (fi_len _ _ _ _ (wf_filing s Hwf)) as Hlen.
  induction n as [|n IH]; intros bn Hbn Hn.
  - rewrite drop_ge by lia. done.
  - destruct (bins_lookup _ _ _ s bn (wf_filing s Hwf)) as [b Hb]; [lia|].
    rewrite (drop_S _ _ _ Hb). simpl. rewrite find_app_split.
    rewrite (bind_eval _ _ _ _ _ (bins_at_eval s bn b Hbn Hb)).
    pose proof (FindPiece_in_bin_spec s a bn b [] (Bin.pieces b) Hwf Hbn Hb eq_refl Ha Hmod)
      as Hin.
    simpl in Hin.
    destruct (List.find (fits (pieces_ s) a) (Bin.pieces b)) as [piece|].
    + destruct Hin as (s' & Hin & Hfound). exists s'. split; [|done].
      by rewrite (bind_eval _ _ _ _ _ Hin).
    + rewrite (bind_eval _ _ _ _ _ Hin).
      specialize (IH (bn + 1)).
      replace (Z.to_nat (bn + 1)) with (S (Z.to_nat bn)) in IH by lia.
      apply IH; lia.
Qed.

Lemma FindPiece_spec s a :
  wf s → 0 < a < 2 ^ 64 → a mod 512 = 0 →
  match first_fit s a with
  | None => FindPiece a s = (s, Ret None)
  | Some piece => ∃ s', FindPiece a s = (s', Ret (Some piece)) ∧ found a s piece s'
  end.
Proof.
  intros Hwf Ha Hmod. unfold first_fit, scan_order, FindPiece.
  pose proof (BinNum4BinSize_range a ltac:(lia)).
  apply FindPiece_from_spec; try done; lia.
Qed.

(** ** The bytes held in blocks *)

Lemma blocks_total_list (m : gmap Z Block.t) :
  blocks_total m = blocks_size (map_to_list m).
Proof.
  unfold blocks_total, blocks_size. rewrite map_fold_foldr.
  induction (map_to_list m) as [|[k b] l IH]; simpl; [done|]. by rewrite IH.
Qed.

Lemma blocks_total_insert (m : gmap Z Block.t) a b :
  m !! a = None → blocks_total (<[a := b]> m) = blocks_total m + Block.size b.
Proof.
  intros Hnone. unfold blocks_total. rewrite map_fold_insert_L; [done| |done].
  intros. lia.
Qed.

Lemma blocks_total_delete (m : gmap Z Block.t) a b :
  m !! a = Some b → blocks_total (delete a m) = blocks_total m - Block.size b.
Proof.
  intros Hb. rewrite <- (insert_delete_id m a b Hb) at 2.
  rewrite blocks_total_insert by apply lookup_delete_eq. lia.
Qed.

Lemma blocks_size_filter (P : Z * Block.t → Prop) `{∀ x, Decision (P x)} l :
  blocks_size l = blocks_size (filter P l) + blocks_size (filter (λ x, ¬ P x) l).
Proof.
  induction l as [|x l IH]; [done|].
  rewrite !filter_cons. simpl. destruct (decide (P x)), (decide (¬ P x)); simpl; try done; lia.
Qed.

Lemma disjoint_blocks_filter (P : Z * Block.t → Prop) `{∀ x, Decision (P x)} l :
  disjoint_blocks l → disjoint_blocks (filter P l).
Proof.
  induction l as [|[a b] l IH]; [done|]. intros [Hall Hd].
  rewrite filter_cons. destruct (decide (P (a, b))); [|by apply IH].
  split; [|by apply IH]. rewrite Forall_forall in *.
  intros x [_ Hx]%list_elem_of_filter. by apply Hall.
Qed.

Lemma blocks_size_bound n l lo hi :
  (length l ≤ n)%nat → lo ≤ hi → disjoint_blocks l →
  (∀ kb, kb ∈ l → lo ≤ kb.1 ∧ 0 < Block.size kb.2 ∧ kb.1 + Block.size kb.2 ≤ hi) →
  blocks_size l ≤ hi - lo.
Proof.
  revert l lo hi. induction n as [|n IH]; intros l lo hi Hlen Hlohi Hd Hin.
  - destruct l; [simpl; lia|simpl in Hlen; lia].
  - destruct l as [|[a b] l]; [simpl; lia|]. destruct Hd as [Hall Hd].
    simpl in Hlen. rewrite Forall_forall in Hall.
    destruct (Hin (a, b)) as (? & ? & ?); [by left|]. simpl in *.
    rewrite (blocks_size_filter (λ kb, kb.1 < a) l).
    assert (blocks_size (filter (λ kb, kb.1 < a) l) ≤ a - lo).
    { apply IH; [|lia|by apply disjoint_blocks_filter|].
      - pose proof (length_filter (λ kb : Z * Block.t, kb.1 < a) l). lia.
      - intros kb [Hlt Hkb]%list_elem_of_filter.
        destruct (Hin kb) as (? & ? & ?); [by right|].
        specialize (Hall kb Hkb). simpl in *. lia. }
    assert (blocks_size (filter (λ kb, ¬ kb.1 < a) l) ≤ hi - (a + Block.size b)).
    { apply IH; [|lia|by apply disjoint_blocks_filter|].
      - pose proof (length_filter (λ kb : Z * Block.t, ¬ kb.1 < a) l). lia.
      - intros kb [Hlt Hkb]%list_elem_of_filter.
        destruct (Hin kb) as (? & ? & ?); [by right|].
        specialize (Hall kb Hkb). simpl in *. lia. }
    lia.
Qed.

Lemma disjoint_blocks_map_to_list (m : gmap Z Block.t) :
  (∀ a1 b1 a2 b2, m !! a1 = Some b1 → m !! a2 = Some b2 → a1 ≠ a2 →
     a1 + Block.size b1 ≤ a2 ∨ a2 + Block.size b2 ≤ a1) →
  disjoint_blocks (map_to_list m).
Proof.
  intros Hdisj.
  assert (Hin : ∀ kb, kb ∈ map_to_list m → m !! kb.1 = Some kb.2).
  { intros [k b]. apply elem_of_map_to_list. }
  pose proof (NoDup_fst_map_to_list m) as Hnd.
  induction (map_to_list m) as [|[a b] l IH]; [done|].
  simpl in Hnd. apply NoDup_cons in Hnd as [Ha Hnd].
  split.
  - apply Forall_forall. intros [k bk] Hk. simpl.
    apply (Hdisj a b k bk).
    + apply (Hin (a, b)). by left.
    + apply (Hin (k, bk)). by right.
    + intros ->. apply Ha. apply list_elem_of_fmap. by exists (k, bk).
  - apply IH; [|done]. intros kb Hkb. apply Hin. by right.
Qed.

Lemma blocks_total_bound (m : gmap Z Block.t) :
  (∀ a b, m !! a = Some b → 0 < a ∧ 0 < Block.size b ∧ a + Block.size b ≤ address_limit) →
  (∀ a1 b1 a2 b2, m !! a1 = Some b1 → m !! a2 = Some b2 → a1 ≠ a2 →
     a1 + Block.size b1 ≤ a2 ∨ a2 + Block.size b2 ≤ a1) →
  0 ≤ blocks_total m ≤ address_limit.
Proof.
  intros Hin Hdisj. rewrite blocks_total_list. split.
  - assert (Hpos : ∀ kb, kb ∈ map_to_list m → 0 < Block.size kb.2).
    { intros [k b] Hkb%elem_of_map_to_list. by destruct (Hin k b Hkb) as (_ & ? & _). }
    induction (map_to_list m) as [|kb l IH]; simpl; [done|].
    assert (0 < Block.size kb.2) by (apply Hpos; by left).
    assert (0 ≤ blocks_size l) by (apply IH; intros; apply Hpos; by right). lia.
  - replace address_limit with (address_limit - 0) by lia.
    apply (blocks_size_bound (length (map_to_list m))); [done|done| |].
    + by apply disjoint_blocks_map_to_list.
    + intros [k b] Hkb%elem_of_map_to_list. destruct (Hin k b Hkb) as (? & ? & ?).
      simpl. lia.
Qed.

(** ** A new block *)

Section NewBlock.
Variables (s : CachingAllocator) (n : nat) (mem_ptr bytes : Z).
Hypothesis Hst : structure s.
Hypothesis Hn : spare s n.
Hypothesis Hptr : 0 < mem_ptr.
Hypothesis Hbytes : 0 < bytes.
Hypothesis Hmod : bytes mod 512 = 0.
Hypothesis Hlim : mem_ptr + bytes ≤ address_limit.
Hypothesis Hdisj : ∀ a b, mem_ptr2block_ s !! a = Some b →
                     mem_ptr + bytes ≤ a ∨ a + Block.size b ≤ mem_ptr.

Let s' := new_block_state n mem_ptr bytes s.
Let pn := Piece.mk bytes mem_ptr true None None kInvalidBinNum.

Lemma new_block_fresh : mem_ptr2block_ s !! mem_ptr = None.
Proof.
  destruct (mem_ptr2block_ s !! mem_ptr) as [b|] eqn:Hb; [|done]. exfalso.
  destruct (st_block s Hst _ _ Hb) as (_ & _ & ? & _).
  destruct (Hdisj _ _ Hb); lia.
Qed.

Lemma new_block_outside x q :
  live s x q → mem_ptr + bytes ≤ Piece.ptr q ∨ piece_end q ≤ mem_ptr.
Proof.
  intros Hq. destruct (st_in_block s Hst x q Hq) as (a & b & Hb & ? & ? & _).
  destruct (live_bounds s x q Hst Hq) as (_ & _ & ? & _).
  unfold piece_end in *. destruct (Hdisj _ _ Hb); lia.
Qed.

Lemma new_block_fresh_ptr : ptr2piece_ s !! mem_ptr = None.
Proof.
  destruct (ptr2piece_ s !! mem_ptr) as [x|] eqn:Hx; [|done]. exfalso.
  destruct (live_of_map s _ _ Hst Hx) as (q & Hq & Hqptr).
  destruct (live_bounds s x q Hst Hq) as (_ & _ & ? & _).
  pose proof (new_block_outside x q Hq). unfold piece_end in *. lia.
Qed.

Lemma new_block_live_n : live s' n pn.
Proof.
  destruct Hn as ([q Hq] & _). split; simpl.
  - apply list_lookup_insert_eq. by eapply lookup_lt_Some.
  - apply lookup_insert_eq.
Qed.

Lemma new_block_live_other x q : live s x q → live s' x q.
Proof.
  intros Hq. destruct Hn as (_ & Hnl & _). pose proof (Hnl x q Hq).
  split; simpl.
  - rewrite list_lookup_insert_ne by done. apply Hq.
  - rewrite lookup_insert_ne; [apply Hq|]. intros Heq.
    destruct Hq as [_ Hq]. rewrite <- Heq, new_block_fresh_ptr in Hq. done.
Qed.

Lemma new_block_live_inv x q :
  live s' x q → (x = n ∧ q = pn) ∨ (x ≠ n ∧ live s x q).
Proof.
  intros [Hq Hm]. simpl in Hq, Hm.
  destruct (decide (x = n)) as [->|Hne].
  - left. split; [done|].
    apply list_lookup_insert_Some in Hq as [(_ & ? & _)|[? _]]; done.
  - right. split; [done|]. rewrite list_lookup_insert_ne in Hq by done.
    apply lookup_insert_Some in Hm as [[_ ?]|[_ ?]]; [congruence|]. by split.
Qed.

Lemma structure_new_block : structure s'.
Proof.
  pose proof new_block_live_n as Hln.
  split.
  - apply Hst.
  - intros a x Ha. simpl in Ha. apply lookup_insert_Some in Ha as [[<- <-]|[? Ha]].
    + exists pn. split; [apply Hln|done].
    + destruct (live_of_map s a x Hst Ha) as (q & Hq & Hqptr).
      exists q. split; [|done]. by apply new_block_live_other.
  - intros x q Hq. destruct (new_block_live_inv x q Hq) as [[-> ->]|[_ Hq0]].
    + done.
    + by apply (st_size s Hst x).
  - intros x q y Hq Hy. destruct (new_block_live_inv x q Hq) as [[-> ->]|[_ Hq0]]; [done|].
    destruct (st_next s Hst x q y Hq0 Hy) as (qy & Hqy & ?).
    exists qy. split; [|done]. by apply new_block_live_other.
  - intros x q y Hq Hy. destruct (new_block_live_inv x q Hq) as [[-> ->]|[_ Hq0]]; [done|].
    destruct (st_prev s Hst x q y Hq0 Hy) as (qy & Hqy & ?).
    exists qy. split; [|done]. by apply new_block_live_other.
  - intros x1 q1 x2 q2 Hq1 Hq2 Hne.
    destruct (new_block_live_inv x1 q1 Hq1) as [[-> ->]|[_ Hq1']];
    destruct (new_block_live_inv x2 q2 Hq2) as [[-> ->]|[_ Hq2']]; try done.
    + pose proof (new_block_outside x2 q2 Hq2'). unfold piece_end in *. simpl. lia.
    + pose proof (new_block_outside x1 q1 Hq1'). unfold piece_end in *. simpl. lia.
    + by apply (st_disj s Hst x1 q1 x2 q2).
  - destruct (st_recycle s Hst) as (rl & Hc & Hnd & Hdead).
    assert (Hrl : ∀ x, x ∈ rl → pieces_ s' !! x = pieces_ s !! x).
    { intros x Hx. simpl. rewrite list_lookup_insert_ne; [done|].
      intros <-. destruct Hn as (_ & _ & Hnrl). by eapply Hnrl. }
    exists rl. split_and!; [|done|].
    + eapply recycle_chain_ext; [|done]. intros x Hx. by apply Hrl.
    + intros x Hx. rewrite Hrl by done. by apply Hdead.
  - intros a b Hb. simpl in Hb. apply lookup_insert_Some in Hb as [[<- <-]|[? Hb]].
    + simpl. split_and!; try done. by exists pn.
    + destruct (st_block s Hst a b Hb) as (? & ? & ? & ? & q & Hq & ?).
      split_and!; try done. exists q. split; [|done]. by apply new_block_live_other.
  - intros a1 b1 a2 b2 Hb1 Hb2 Hne. simpl in Hb1, Hb2.
    apply lookup_insert_Some in Hb1 as [[<- <-]|[? Hb1]];
    apply lookup_insert_Some in Hb2 as [[<- <-]|[? Hb2]]; try done; simpl.
    + destruct (Hdisj _ _ Hb2); lia.
    + destruct (Hdisj _ _ Hb1); lia.
    + by apply (st_block_disj s Hst a1 b1 a2 b2).
  - intros x q Hq. destruct (new_block_live_inv x q Hq) as [[-> ->]|[_ Hq0]].
    + exists mem_ptr, (Block.mk bytes mem_ptr n). simpl.
      split; [apply lookup_insert_eq|]. unfold piece_end. simpl. by split_and!.
    + destruct (st_in_block s Hst x q Hq0) as (a & b & Hb & ?).
      exists a, b. split; [|done]. simpl. rewrite lookup_insert_ne; [done|].
      intros <-. rewrite new_block_fresh in Hb. done.
  - simpl. rewrite blocks_total_insert by apply new_block_fresh.
    simpl. by rewrite (st_total s Hst).
Qed.

Lemma filing_new_block fl hp hn :
  filing fl hp hn s → filing (n :: fl) hp hn s'.
Proof.
  intros Hfi. destruct Hn as ([q0 Hq0] & Hnl & _).
  assert (Hkey : ∀ x q, live s x q → piece_key (pieces_ s') x = piece_key (pieces_ s) x).
  { intros x q Hq. unfold piece_key. simpl. rewrite list_lookup_insert_ne; [done|].
    intros <-. by eapply Hnl. }
  split.
  - apply Hfi.
  - intros x q Hq Hused. destruct (new_block_live_inv x q Hq) as [[-> ->]|[_ Hq']]; [done|].
    by apply (fi_used _ _ _ _ Hfi x).
  - intros x q Hq Hx. destruct (new_block_live_inv x q Hq) as [[-> ->]|[Hne Hq']]; [done|].
    apply elem_of_cons in Hx as [?|Hx]; [done|]. by apply (fi_float _ _ _ _ Hfi x).
  - intros x q Hq Hfree Hx. destruct (new_block_live_inv x q Hq) as [[-> ->]|[Hne Hq']].
    { exfalso. apply Hx. by left. }
    apply (fi_free _ _ _ _ Hfi x q Hq' Hfree). intros ?. apply Hx. by right.
  - intros i b Hb. simpl in Hb.
    destruct (fi_bins _ _ _ _ Hfi _ _ Hb) as (Hnd & Hsorted & Helems).
    split_and!; [done| |].
    + eapply bin_sorted_ext; [|done]. intros x Hx.
      destruct (Helems x Hx) as (_ & q & Hq & _). by apply (Hkey x q).
    + intros x Hx. destruct (Helems x Hx) as (Hxfl & q & Hq & ?).
      split.
      * intros [->|?]%elem_of_cons; [by eapply Hnl|done].
      * exists q. split; [|done]. by apply new_block_live_other.
  - intros x q y qy Hq Hy Hqy Hf1 Hf2.
    destruct (new_block_live_inv x q Hq) as [[-> ->]|[Hne Hq']]; [done|].
    destruct (st_next s Hst x q y Hq' Hy) as (qy' & Hqy' & _).
    assert (y ≠ n) by (by eapply Hnl).
    simpl in Hqy. rewrite list_lookup_insert_ne in Hqy by done.
    by apply (fi_adj _ _ _ _ Hfi x q y qy).
Qed.

End NewBlock.

Lemma structure_cuda_calls c s : structure s → structure (set_cuda_calls c s).
Proof. intros Hst. split; apply Hst. Qed.

Lemma filing_cuda_calls fl hp hn c s :
  filing fl hp hn s → filing fl hp hn (set_cuda_calls c s).
Proof. intros Hfi. split; apply Hfi. Qed.

Lemma wf_cuda_calls c s : wf s → wf (set_cuda_calls c s).
Proof. intros [? ?]. split; [by apply structure_cuda_calls|by apply filing_cuda_calls]. Qed.

(** ** Growth *)

Lemma AllocatePiece_frame s s1 n tot c :
  AllocatePiece s = (s1, Ret n) →
  AllocatePiece (set_total_memory_bytes tot (set_cuda_calls c s)) =
    (set_total_memory_bytes tot (set_cuda_calls c s1), Ret n).
Proof.
  unfold AllocatePiece, bind, get, modify, load, ret. simpl.
  destruct (recycle_piece_list_ s) as [r|].
  - destruct (pieces_ s !! r) eqn:Hp; intros H; simplify_eq. simpl. by rewrite Hp.
  - intros H. simplify_eq. done.
Qed.

Lemma AllocateBlockToExtendTotalMem_spec cudaMalloc s a :
  wf s → device_ok cudaMalloc s → 0 ≤ a < 2 ^ 64 →
  let f := final_allocate_bytes kCudaAlignSize a in
  if f <? a then AllocateBlockToExtendTotalMem cudaMalloc a s = (s, Ret false)
  else if cudaMalloc f =? 0 then
    AllocateBlockToExtendTotalMem cudaMalloc a s =
      (set_cuda_calls (CudaMalloc f 0 :: cuda_calls_ s) s, Ret false)
  else
    ∃ s', AllocateBlockToExtendTotalMem cudaMalloc a s = (s', Ret true) ∧
          wf s' ∧ grown (cudaMalloc f) f s s'.
Proof.
  intros Hwf Hdev Ha f. pose proof Hwf as [Hst Hfi].
  unfold AllocateBlockToExtendTotalMem.
  rewrite (bind_eval _ _ s s s) by done.
  rewrite (st_align s Hst). fold f.
  destruct (f <? a) eqn:Hfa; [done|]. apply Z.ltb_ge in Hfa.
  destruct (final_allocate_bytes_aligned a Ha Hfa) as [Hfrange Hfmod]. fold f in Hfrange, Hfmod.
  set (mem_ptr := cudaMalloc f).
  rewrite (bind_eval _ _ s (set_cuda_calls (CudaMalloc f mem_ptr :: cuda_calls_ s) s) tt)
    by done.
  destruct (mem_ptr =? 0) eqn:Hnull.
  { apply Z.eqb_eq in Hnull. by rewrite Hnull. }
  apply Z.eqb_neq in Hnull.
  destruct (Hdev f ltac:(lia) Hnull) as (Hpos & Hlim & Hdisj). fold mem_ptr in Hpos, Hlim, Hdisj.
  destruct (AllocatePiece_spec s Hst)
    as (s1 & n & Halloc & Hst1 & Hspare & Hfi1 & Hlive1 & Hsame1 & Hal1 & Htot1 & Hblk1 &
        Hbins1 & Hmap1 & Hcalls1).
  assert (Hdisj1 : ∀ a0 b0, mem_ptr2block_ s1 !! a0 = Some b0 →
            mem_ptr + f ≤ a0 ∨ a0 + Block.size b0 ≤ mem_ptr).
  { intros a0 b0. rewrite Hblk1. apply Hdisj. }
  set (pn := Piece.mk f mem_ptr true None None kInvalidBinNum).
  set (X := new_block_state n mem_ptr f s1).
  assert (HstX : structure X) by (apply structure_new_block; auto; lia).
  assert (HfiX : filing [n] None None X)
    by (apply filing_new_block; [done|done|lia|done|by apply Hfi1]).
  assert (HnX : live X n pn) by (by apply new_block_live_n).
  destruct (InsertPiece2Bin_spec [n] [] None None X n pn HstX HfiX HnX)
    as (b & l & Hins & Hst3 & Hfi3 & Hb & Hset & Hnl).
  { by left. }
  { intros x. split; [by intros ?%elem_of_nil|]. by intros [->%list_elem_of_singleton ?]. }
  set (s' := set_cuda_calls (CudaMalloc f mem_ptr :: cuda_calls_ s) (bin_state n pn b l X)).
  assert (Htotal : wrap64 (total_memory_bytes_ s + f) = total_memory_bytes_ s1 + f).
  { rewrite Htot1. apply wrap64_small.
    pose proof (st_total X HstX) as HtX. simpl in HtX.
    destruct (blocks_total_bound (mem_ptr2block_ X)) as [_ Hbound].
    { intros a0 b0 Hb0. by destruct (st_block X HstX a0 b0 Hb0) as (_ & ? & ? & ? & _). }
    { apply (st_block_disj X HstX). }
    simpl in Hbound. rewrite <- HtX, Htot1 in Hbound.
    pose proof (st_total s Hst) as Hts.
    destruct (blocks_total_bound (mem_ptr2block_ s)) as [Hnn _].
    { intros a0 b0 Hb0. by destruct (st_block s Hst a0 b0 Hb0) as (_ & ? & ? & ? & _). }
    { apply (st_block_disj s Hst). }
    rewrite <- Hts in Hnn.
    assert (address_limit < 2 ^ 64) by (apply Z.pow_lt_mono_r; lia). lia. }
  exists s'. split_and!.
  - rewrite (bind_eval _ _ _
      (set_total_memory_bytes (total_memory_bytes_ s1 + f)
         (set_cuda_calls (CudaMalloc f mem_ptr :: cuda_calls_ s) s)) tt).
    2:{ unfold modify. simpl. by rewrite Htotal. }
    rewrite (bind_eval _ _ _ _ _ (AllocatePiece_frame s s1 n _ _ Halloc)).
    destruct Hspare as ([pn0 Hpn0] & _).
    pose proof (lookup_lt_Some _ _ _ Hpn0).
    set (S0 := set_total_memory_bytes _ (set_cuda_calls _ s1)).
    rewrite <- (set_pieces_id S0) at 1.
    change (pieces_ S0) with (pieces_ s1).
    mstore. mstore. mstore. mstore. mstore. mstore.
    lazymatch goal with |- context [<[n := ?q]> (pieces_ s1)] => change q with pn end.
    erewrite bind_eval; cycle 1.
    { eapply (InsertPiece2Bin_eval _ n pn b l); try done.
      - simpl. by apply list_lookup_insert_eq.
      - pose proof (BinNum4BinSize_range (Piece.size pn)). simpl in *. lia. }
    erewrite bind_eval; cycle 1.
    { eapply MarkPiece_eval.
      - simpl. apply list_lookup_insert_eq. by rewrite length_insert.
      - simpl. apply (new_block_fresh_ptr s1 mem_ptr f Hst1); [lia|done]. }
    erewrite bind_eval; cycle 1.
    { apply load_eval. simpl. apply list_lookup_insert_eq. by rewrite length_insert. }
    unfold modify, bind, ret, emplace. simpl.
    rewrite (new_block_fresh s1 mem_ptr f Hst1) by (done || lia).
    done.
  - by apply wf_cuda_calls.
  - exists n. split_and!.
    + intros q Hq. destruct Hspare as (_ & Hsp & _). apply (Hsp n q); [|done]. by apply Hlive1.
    + rewrite <- Hblk1. apply (new_block_fresh s1 mem_ptr f Hst1); [lia|done].
    + simpl. by rewrite Hblk1.
    + simpl. by rewrite Hmap1.
    + simpl. apply list_lookup_insert_eq. rewrite length_insert.
      destruct Hspare as ([pn0 Hpn0] & _). by eapply lookup_lt_Some.
    + exists (Bin.set_pieces l b). split; [|done]. simpl. apply list_lookup_insert_eq.
      simpl in Hb. by eapply lookup_lt_Some.
    + simpl. by rewrite Htot1.
    + done.
    + intros x q Hq. apply Hlive1 in Hq.
      assert (x ≠ n).
      { destruct Hspare as (_ & Hsp & _). by eapply Hsp. }
      apply (live_update_other X s' n
               (Piece.set_bin_num (BinNum4BinSize (Piece.size pn)) pn) x q);
        [reflexivity|reflexivity|done|].
      apply new_block_live_other; [done|done|lia|done|done].
Qed.

(** ** Allocation *)

Lemma first_fit_exists s a x p :
  wf s → live s x p → Piece.is_free p = true → 0 ≤ a ≤ Piece.size p →
  ∃ piece, first_fit s a = Some piece.
Proof.
  intros [Hst Hfi] Hp Hfree Ha.
  destruct (first_fit s a) as [piece|] eqn:Hff; [by exists piece|]. exfalso.
  unfold first_fit in Hff.
  assert (Hnone : fits (pieces_ s) a x = false).
  { apply (List.find_none _ _ Hff).
    destruct (fi_free _ _ _ _ Hfi x p Hp Hfree) as (Hbn & b & Hb & Hin);
      [by intros ?%elem_of_nil|].
    destruct (live_size_range s x p Hst Hp) as [Hsz _].
    pose proof (BinNum4BinSize_range a ltac:(lia)).
    pose proof (BinNum4BinSize_mono a (Piece.size p) ltac:(lia) ltac:(lia)).
    unfold scan_order. apply in_concat. exists (Bin.pieces b).
    split; [|by apply list_elem_of_In]. apply in_map, list_elem_of_In.
    apply list_elem_of_lookup.
    exists (Z.to_nat (Piece.bin_num p) - Z.to_nat (BinNum4BinSize a))%nat.
    rewrite lookup_drop. rewrite <- Hb. f_equal. lia. }
  unfold fits in Hnone. destruct Hp as [Hp _]. rewrite Hp in Hnone. lia.
Qed.

Lemma aligned_size_spec size :
  0 < size ≤ 2 ^ 64 - 512 →
  size ≤ MemAlignedBytes size kCudaAlignSize < size + 512 ∧
  MemAlignedBytes size kCudaAlignSize mod 512 = 0.
Proof.
  intros Hsize. unfold MemAlignedBytes, kCudaAlignSize.
  apply RoundUp_bounds; lia.
Qed.

Lemma DoAllocate_spec cudaMalloc s size :
  wf s → device_ok cudaMalloc s → 0 < size ≤ 2 ^ 64 - 512 →
  let a := MemAlignedBytes size kCudaAlignSize in
  let f := final_allocate_bytes kCudaAlignSize a in
  match first_fit s a with
  | Some piece =>
      ∃ s' p, DoAllocate cudaMalloc size s = (s', Ret (Piece.ptr p)) ∧
              live s piece p ∧ found a s piece s'
  | None =>
      if f <? a then DoAllocate cudaMalloc size s = (s, Fail CheckFailed)
      else if cudaMalloc f =? 0 then
        DoAllocate cudaMalloc size s =
          (set_cuda_calls (CudaMalloc f 0 :: cuda_calls_ s) s, Fail CheckFailed)
      else
        ∃ s1 s' piece p,
          AllocateBlockToExtendTotalMem cudaMalloc a s = (s1, Ret true) ∧
          wf s1 ∧ grown (cudaMalloc f) f s s1 ∧
          first_fit s1 a = Some piece ∧
          FindPiece a s1 = (s', Ret (Some piece)) ∧
          live s1 piece p ∧ found a s1 piece s' ∧
          DoAllocate cudaMalloc size s = (s', Ret (Piece.ptr p))
  end.
Proof.
  intros Hwf Hdev Hsize a f.
  destruct (aligned_size_spec size Hsize) as [Ha Hmod]. fold a in Ha, Hmod.
  assert (Ha' : 0 < a < 2 ^ 64) by lia.
  assert (Hfinish : ∀ s0 piece s', found a s0 piece s' →
            ∃ p, live s0 piece p ∧
              (RV_CHECK (bool_decide (Some piece ≠ None)) ;;
               h <- deref (Some piece) ;; p <- load h ;; ret (Piece.ptr p)) s' =
              (s', Ret (Piece.ptr p))).
  { intros s0 piece s' (p & p' & _ & _ & Hp & _ & _ & Hp' & Hptr & _).
    exists p. split; [done|]. rewrite bool_decide_eq_true_2 by done. rewrite bind_check.
    simpl. rewrite bind_ret. rewrite (bind_eval _ _ _ _ _ (load_eval s' piece p' (proj1 Hp'))).
    unfold ret. by rewrite Hptr. }
  unfold DoAllocate. destruct (Z.eqb_spec size 0) as [|_]; [lia|].
  rewrite (bind_eval _ _ s s s) by done.
  rewrite (st_align s (wf_structure s Hwf)). fold a.
  pose proof (FindPiece_spec s a Hwf Ha' Hmod) as Hfind.
  destruct (first_fit s a) as [piece|].
  - destruct Hfind as (s' & Hfind & Hfound).
    destruct (Hfinish s piece s' Hfound) as (p & Hp & Hfin).
    exists s', p. split_and!; try done.
    rewrite (bind_eval _ _ _ _ _ Hfind). by rewrite bind_ret.
  - rewrite (bind_eval _ _ _ _ _ Hfind).
    pose proof (AllocateBlockToExtendTotalMem_spec cudaMalloc s a Hwf Hdev ltac:(lia)) as Hgrow.
    simpl in Hgrow. fold f in Hgrow.
    destruct (f <? a) eqn:Hfa.
    { rewrite (bind_eval _ _ _ _ _ (bind_eval _ _ _ _ _ Hgrow)). done. }
    apply Z.ltb_ge in Hfa.
    destruct (cudaMalloc f =? 0).
    { rewrite (bind_eval _ _ _ _ _ (bind_eval _ _ _ _ _ Hgrow)). done. }
    destruct Hgrow as (s1 & Hgrow & Hwf1 & Hgrown).
    assert (∃ piece, first_fit s1 a = Some piece) as [piece Hff].
    { destruct Hgrown as (n & _ & _ & _ & Hmap & Hpn & _).
      apply (first_fit_exists s1 a n
               (Piece.mk f (cudaMalloc f) true None None (BinNum4BinSize f)));
        [done| |done|simpl; lia].
      split; [done|]. simpl. rewrite Hmap. apply lookup_insert_eq. }
    pose proof (FindPiece_spec s1 a Hwf1 Ha' Hmod) as Hfind1. rewrite Hff in Hfind1.
    destruct Hfind1 as (s' & Hfind1 & Hfound).
    destruct (Hfinish s1 piece s' Hfound) as (p & Hp & Hfin).
    exists s1, s', piece, p. split_and!; try done.
    rewrite (bind_eval _ _ s s' (Some piece)); [done|].
    rewrite (bind_eval _ _ _ _ _ Hgrow). done.
Qed.

(** ** Deallocation *)

Lemma free_neighbour_Some s o x q :
  free_neighbour s o = Some (x, q) ↔
  o = Some x ∧ pieces_ s !! x = Some q ∧ Piece.is_free q = true.
Proof.
  unfold free_neighbour. split.
  - destruct o as [y|]; [|done].
    destruct (pieces_ s !! y) as [qy|] eqn:Hy; [|done].
    destruct (Piece.is_free qy) eqn:Hf; [|done]. by intros [= <- <-].
  - intros (-> & -> & ->). done.
Qed.

Lemma free_neighbour_ext s s' o :
  (∀ x, o = Some x → pieces_ s' !! x = pieces_ s !! x) →
  free_neighbour s' o = free_neighbour s o.
Proof.
  intros Hext. unfold free_neighbour. destruct o as [x|]; [|done]. by rewrite Hext.
Qed.

Lemma dealloc_next s h p :
  structure s → filing [h] (Some h) (Some h) s → live s h p →
  ∃ s2 p2,
    (match Piece.next p with
     | None => ret tt
     | Some n =>
         np <- load n ;;
         if Piece.is_free np
         then RemovePieceFromBin n ;; MergeNeighbourFreePiece h n
         else ret tt
     end) s = (s2, Ret tt) ∧
    structure s2 ∧ filing [h] (Some h) None s2 ∧ live s2 h p2 ∧
    Piece.prev p2 = Piece.prev p ∧ Piece.ptr p2 = Piece.ptr p ∧
    Piece.size p2 = Piece.size p +
      from_option (fun xq => Piece.size xq.2) 0 (free_neighbour s (Piece.next p)) ∧
    (∀ xq, free_neighbour s (Piece.next p) = Some xq →
       ptr2piece_ s2 !! Piece.ptr xq.2 = None) ∧
    (∀ a, ptr2piece_ s !! a = None → ptr2piece_ s2 !! a = None) ∧
    (∀ m pm, Piece.prev p = Some m → live s m pm → live s2 m pm) ∧
    mem_ptr2block_ s2 = mem_ptr2block_ s ∧
    total_memory_bytes_ s2 = total_memory_bytes_ s ∧
    cuda_calls_ s2 = cuda_calls_ s.
Proof.
  intros Hst Hfi Hp.
  destruct (Piece.next p) as [n|] eqn:Hn.
  - destruct (live_next s h p n Hst Hp Hn) as (pn & Hpn & Hnprev & Hnptr & Hne).
    rewrite (bind_eval _ _ _ _ _ (load_eval s n pn (proj1 Hpn))).
    unfold free_neighbour. rewrite (proj1 Hpn).
    destruct (Piece.is_free pn) eqn:Hnfree.
    + destruct (RemovePieceFromBin_spec [h] (Some h) (Some h) s n pn Hst Hfi Hpn Hnfree)
        as (b & l & Hrem & Hst1 & Hfi1).
      { by intros ?%list_elem_of_singleton. }
      set (u := unbin_state n pn b l s) in *.
      set (pn' := Piece.set_bin_num kInvalidBinNum pn).
      assert (Hpu : live u h p).
      { eapply (live_update_other s u n); [reflexivity|reflexivity|done|done]. }
      assert (Hnu : live u n pn').
      { by apply (live_update_same s u n pn' pn). }
      destruct (MergeNeighbourFreePiece_spec [n; h] [h] (Some h) (Some h) (Some h) None
                  u h n p pn' Hst1 Hfi1 Hpu Hnu Hn) as (Hmerge & Hst2 & Hfi2).
      { right. by left. }
      { by left. }
      { intros x. rewrite !elem_of_cons, elem_of_nil. split.
        - intros [->|[]]. split; [by right; left|done].
        - intros [[->|[->|[]]] ?]; [done|by left]. }
      { intros x y ? ? ? [?|?]; [congruence|by right]. }
      { intros nn Hnn [?|?]; [congruence|].
        destruct (merge_next u h n p pn' Hst1 Hpu Hnu Hn nn Hnn) as (_ & _ & _ & _ & _ & ?).
        congruence. }
      eexists _, _. split_and!.
      * rewrite (bind_eval _ _ _ _ _ Hrem). apply Hmerge.
      * done.
      * done.
      * by eapply merge_live_l.
      * done.
      * done.
      * simpl. done.
      * intros [x q] [= <- <-]. simpl. apply lookup_delete_eq.
      * intros a Ha. simpl. rewrite lookup_delete_None. by right.
      * intros m pm Hm Hpm.
        destruct (live_prev s h p m Hst Hp Hm) as (pm' & Hpm' & Hmnext & Hmptr & Hmh).
        pose proof (live_fun _ _ _ _ Hpm Hpm') as <-.
        destruct (live_bounds s h p Hst Hp) as (_ & _ & ? & _).
        destruct (live_bounds s n pn Hst Hpn) as (_ & _ & ? & _).
        destruct (live_bounds s m pm Hst Hpm) as (_ & _ & ? & _).
        assert (m ≠ n).
        { intros ->. pose proof (live_fun _ _ _ _ Hpm Hpn) as ->.
          unfold piece_end in *. lia. }
        assert (Hmu : live u m pm).
        { eapply (live_update_other s u n); [reflexivity|reflexivity|done|done]. }
        eapply merge_live_other; try done.
        intros Hnn. simpl in Hnn.
        destruct (live_next s n pn m Hst Hpn Hnn) as (pm2 & Hpm2 & _ & Hptr2 & _).
        pose proof (live_fun _ _ _ _ Hpm Hpm2) as <-. unfold piece_end in *. lia.
      * done.
      * done.
      * done.
    + exists s, p. split_and!; try done.
      * eapply filing_adj; [done|].
        intros x q y qy Hq Hy Hqy Hf1 Hf2 [Hx|Hx]; [|by right].
        injection Hx as <-. pose proof (live_fun _ _ _ _ Hp Hq) as <-.
        rewrite Hn in Hy. injection Hy as <-. destruct Hpn as [Hpn _]. congruence.
      * simpl. lia.
  - exists s, p. unfold free_neighbour. split_and!; try done.
    + eapply filing_adj; [done|].
      intros x q y qy Hq Hy Hqy Hf1 Hf2 [Hx|Hx]; [|by right].
      injection Hx as <-. pose proof (live_fun _ _ _ _ Hp Hq) as <-. congruence.
    + simpl. lia.
Qed.

Lemma dealloc_prev s h p :
  structure s → filing [h] (Some h) None s → live s h p →
  ∃ s3 x px,
    (match Piece.prev p with
     | None => ret h
     | Some m =>
         mp <- load m ;;
         if Piece.is_free mp
         then RemovePieceFromBin m ;; MergeNeighbourFreePiece m h ;; ret m
         else ret h
     end) s = (s3, Ret x) ∧
    structure s3 ∧ filing [x] None None s3 ∧ live s3 x px ∧
    x = from_option fst h (free_neighbour s (Piece.prev p)) ∧
    Piece.ptr px =
      from_option (fun xq => Piece.ptr xq.2) (Piece.ptr p) (free_neighbour s (Piece.prev p)) ∧
    Piece.size px = Piece.size p +
      from_option (fun xq => Piece.size xq.2) 0 (free_neighbour s (Piece.prev p)) ∧
    (∀ xq, free_neighbour s (Piece.prev p) = Some xq →
       ptr2piece_ s3 !! Piece.ptr p = None) ∧
    (∀ a, ptr2piece_ s !! a = None → ptr2piece_ s3 !! a = None) ∧
    mem_ptr2block_ s3 = mem_ptr2block_ s ∧
    total_memory_bytes_ s3 = total_memory_bytes_ s ∧
    cuda_calls_ s3 = cuda_calls_ s.
Proof.
  intros Hst Hfi Hp.
  destruct (Piece.prev p) as [m|] eqn:Hm.
  - destruct (live_prev s h p m Hst Hp Hm) as (pm & Hpm & Hmnext & Hmptr & Hne).
    rewrite (bind_eval _ _ _ _ _ (load_eval s m pm (proj1 Hpm))).
    unfold free_neighbour. rewrite (proj1 Hpm).
    destruct (Piece.is_free pm) eqn:Hmfree.
    + destruct (RemovePieceFromBin_spec [h] (Some h) None s m pm Hst Hfi Hpm Hmfree)
        as (b & l & Hrem & Hst1 & Hfi1).
      { by intros ?%list_elem_of_singleton. }
      set (u := unbin_state m pm b l s) in *.
      set (pm' := Piece.set_bin_num kInvalidBinNum pm).
      assert (Hpu : live u h p).
      { eapply (live_update_other s u m); [reflexivity|reflexivity|done|done]. }
      assert (Hmu : live u m pm').
      { by apply (live_update_same s u m pm' pm). }
      destruct (MergeNeighbourFreePiece_spec [m; h] [m] (Some h) None None None
                  u m h pm' p Hst1 Hfi1 Hmu Hpu Hmnext) as (Hmerge & Hst2 & Hfi2).
      { by left. }
      { right. by left. }
      { intros x. rewrite !elem_of_cons, elem_of_nil. split.
        - intros [->|[]]. split; [by left|done].
        - intros [[->|[->|[]]] ?]; [by left|done]. }
      { intros x y ? ? ? [?|?]; congruence. }
      { intros nn Hnn [?|?]; [congruence|].
        destruct (merge_next u m h pm' p Hst1 Hmu Hpu Hmnext nn Hnn) as (_ & _ & _ & _ & ? & _).
        congruence. }
      eexists _, m, _. split_and!.
      * rewrite (bind_eval _ _ _ _ _ Hrem). by rewrite (bind_eval _ _ _ _ _ Hmerge).
      * done.
      * done.
      * by eapply merge_live_l.
      * done.
      * done.
      * simpl. lia.
      * intros _ _. simpl. apply lookup_delete_eq.
      * intros a Ha. simpl. rewrite lookup_delete_None. by right.
      * done.
      * done.
      * done.
    + exists s, h, p. split_and!; try done.
      * eapply filing_adj; [done|].
        intros x q y qy Hq Hy Hqy Hf1 Hf2 [Hx|Hx]; [done|]. exfalso.
        injection Hx as <-.
        destruct (live_next s x q h Hst Hq Hy) as (p' & Hp' & Hprev & _).
        pose proof (live_fun _ _ _ _ Hp Hp') as <-.
        assert (x = m) as -> by congruence.
        pose proof (live_fun _ _ _ _ Hpm Hq) as <-. congruence.
      * simpl. lia.
  - exists s, h, p. unfold free_neighbour. split_and!; try done.
    + eapply filing_adj; [done|].
      intros x q y qy Hq Hy Hqy Hf1 Hf2 [Hx|Hx]; [done|]. exfalso.
      injection Hx as <-.
      destruct (live_next s x q h Hst Hq Hy) as (p' & Hp' & Hprev & _).
      pose proof (live_fun _ _ _ _ Hp Hp') as <-. congruence.
    + simpl. lia.
Qed.

Lemma Deallocate_spec s mem_ptr h p :
  wf s → mem_ptr ≠ 0 → ptr2piece_ s !! mem_ptr = Some h → pieces_ s !! h = Some p →
  Piece.is_free p = false →
  ∃ s', Deallocate mem_ptr s = (s', Ret tt) ∧ wf s' ∧ freed h p s s'.
Proof.
  intros [Hst Hfi] Hnz Hmap Hp Hused.
  assert (Hlp : live s h p).
  { destruct (live_of_map s _ _ Hst Hmap) as (p' & Hp' & Hptr).
    destruct Hp' as [Hp' Hm']. by assert (p = p') as -> by congruence. }
  set (s1 := flag_state h p true s).
  set (p1 := Piece.set_is_free true p).
  assert (Hst1 : structure s1).
  { eapply structure_same_layout; [|done]. by apply same_layout_flag. }
  assert (Hfi1 : filing [h] (Some h) (Some h) s1) by (by apply filing_mark_free).
  assert (Hp1 : live s1 h p1) by (by apply (live_update_same s s1 h p1 p)).
  destruct (dealloc_next s1 h p1 Hst1 Hfi1 Hp1)
    as (s2 & p2 & Hnext & Hst2 & Hfi2 & Hp2 & Hprev2 & Hptr2 & Hsize2 & Hgone2 & Hnone2 &
        Hkeep2 & Hblk2 & Htot2 & Hcalls2).
  destruct (dealloc_prev s2 h p2 Hst2 Hfi2 Hp2)
    as (s3 & x & px & Hprev & Hst3 & Hfi3 & Hpx & Hx & Hptr3 & Hsize3 & Hgone3 & Hnone3 &
        Hblk3 & Htot3 & Hcalls3).
  destruct (InsertPiece2Bin_spec [x] [] None None s3 x px Hst3 Hfi3 Hpx)
    as (b & l & Hins & Hst4 & Hfi4 & Hb & _ & Hxl).
  { by left. }
  { intros y. split; [by intros ?%elem_of_nil|]. by intros [->%list_elem_of_singleton ?]. }
  assert (Hfn : free_neighbour s1 (Piece.next p1) = free_neighbour s (Piece.next p)).
  { apply free_neighbour_ext. intros n Hn. simpl.
    destruct (live_next s h p n Hst Hlp Hn) as (_ & _ & _ & _ & ?).
    by rewrite list_lookup_insert_ne. }
  assert (Hfp : free_neighbour s2 (Piece.prev p2) = free_neighbour s (Piece.prev p)).
  { rewrite Hprev2. apply free_neighbour_ext. intros m Hm.
    destruct (live_prev s h p m Hst Hlp Hm) as (pm & Hpm & _ & _ & ?).
    assert (Hpm1 : live s1 m pm).
    { eapply (live_update_other s s1 h); [reflexivity|reflexivity|done|done]. }
    destruct (Hkeep2 m pm Hm Hpm1) as [-> _]. symmetry. apply Hpm. }
  rewrite Hfn in Hsize2, Hgone2. rewrite Hfp in Hx, Hptr3, Hsize3, Hgone3.
  change (Piece.ptr p1) with (Piece.ptr p) in Hptr2.
  change (Piece.size p1) with (Piece.size p) in Hsize2.
  exists (bin_state x px b l s3). split_and!.
  - unfold Deallocate. destruct (Z.eqb_spec mem_ptr 0) as [|_]; [done|].
    rewrite (bind_eval _ _ s s s) by done. rewrite Hmap.
    rewrite (bind_eval _ _ _ _ _ (load_eval s h p Hp)). rewrite Hused. simpl negb.
    rewrite bind_check.
    rewrite (bind_eval _ _ _ _ _ (store_eval s h p _ Hp)). fold p1. fold (flag_state h p true s).
    fold s1. rewrite (bind_eval _ _ _ _ _ (load_eval s1 h p1 (proj1 Hp1))).
    rewrite (bind_eval _ _ _ _ _ Hnext).
    rewrite <- Hprev2.
    rewrite (bind_eval _ _ _ _ _ Hprev). done.
  - by split.
  - unfold freed. rewrite <- Hx. split_and!.
    + simpl. by rewrite Hblk3, Hblk2.
    + simpl. by rewrite Htot3, Htot2.
    + simpl. by rewrite Hcalls3, Hcalls2.
    + intros xq Hxq. simpl. apply Hnone3. by apply Hgone2.
    + intros xq Hxq. simpl. rewrite <- Hptr2. by apply (Hgone3 xq).
    + exists (Piece.set_bin_num (BinNum4BinSize (Piece.size px)) px),
        (Bin.set_pieces l b).
      assert (Hsz : Piece.size px =
                Piece.size p +
                from_option (λ xq, Piece.size xq.2) 0 (free_neighbour s (Piece.next p)) +
                from_option (λ xq, Piece.size xq.2) 0 (free_neighbour s (Piece.prev p))).
      { rewrite Hsize3, Hsize2. done. }
      rewrite <- Hsz.
      destruct (fi_float _ _ _ _ Hfi3 x px Hpx ltac:(by left)) as [Hxfree _].
      split_and!; try done.
      * by apply (live_update_same s3 _ x _ px).
      * simpl. by rewrite Hptr3, Hptr2.
      * simpl. apply list_lookup_insert_eq. by eapply lookup_lt_Some.
Qed.

(** ** Requests whose aligned size wraps around to zero *)

Lemma bins_at_state i s s' r : bins_at i s = (s', r) → s' = s.
Proof.
  unfold bins_at. destruct (_ && _); [|congruence].
  destruct (bins_ s !! _); congruence.
Qed.

Lemma RV_CHECK_state b s s' r : RV_CHECK b s = (s', r) → s' = s.
Proof. destruct b; unfold RV_CHECK, ret, fail; congruence. Qed.

Lemma InsertPiece2Bin_ret s h p s' :
  pieces_ s !! h = Some p → InsertPiece2Bin h s = (s', Ret tt) →
  ptr2piece_ s' = ptr2piece_ s ∧
  ∃ q, pieces_ s' !! h = Some q ∧ Piece.ptr q = Piece.ptr p.
Proof.
  intros Hp H. unfold InsertPiece2Bin in H.
  rewrite (bind_eval _ _ _ _ _ (load_eval s h p Hp)) in H.
  apply bind_ret_inv in H as (s1 & [] & H1 & H). apply RV_CHECK_state in H1 as ->.
  rewrite (bind_eval _ _ _ _ _ (store_eval s h p _ Hp)) in H.
  apply bind_ret_inv in H as (s2 & b & H2 & H). apply bins_at_state in H2 as ->.
  rewrite (bind_eval _ _ _ _ _ eq_refl) in H.
  destruct (set_insert _ _ _) as [l ins].
  apply bind_ret_inv in H as (s3 & [] & H3 & H). apply RV_CHECK_state in H as ->.
  unfold set_bin_pieces in H3.
  apply bind_ret_inv in H3 as (s4 & b' & H4 & H3). apply bins_at_state in H4 as ->.
  injection H3 as <-. simpl. split; [done|].
  eexists. split; [apply list_lookup_insert_eq; by eapply lookup_lt_Some|done].
Qed.

Lemma MarkPiece_taken s h p :
  pieces_ s !! h = Some p → is_Some (ptr2piece_ s !! Piece.ptr p) →
  ∃ s', MarkPiece h s = (s', Fail CheckFailed).
Proof.
  intros Hp [x Hx]. unfold MarkPiece.
  rewrite (bind_eval _ _ _ _ _ (load_eval s h p Hp)).
  rewrite (bind_eval _ _ s s s) by done.
  rewrite bool_decide_eq_false_2 by (by rewrite Hx).
  eexists. reflexivity.
Qed.

Lemma SplitPiece_zero s h ph :
  structure s → live s h ph → ∀ s' r, SplitPiece h 0 s ≠ (s', Ret r).
Proof.
  intros Hst Hh s' r Hsplit.
  destruct (AllocatePiece_spec s Hst)
    as (s1 & n & Halloc & Hst1 & Hspare & Hfi1 & Hlive1 & Hsame1 & Hal1 & Htot1 & Hblk1 &
        Hbins1 & Hmap1 & Hcalls1).
  assert (Hh1 : live s1 h ph) by (by apply Hlive1).
  assert (Hne : n ≠ h) by (by apply (carve_ne s1 h n ph 0)).
  destruct (live_bounds s1 h ph Hst1 Hh1) as (? & Hend & ? & ?).
  assert (Hlim : address_limit < 2 ^ 64) by (apply Z.pow_lt_mono_r; lia).
  unfold piece_end in Hend.
  pose proof Hh1 as [Hph Hmaph]. pose proof Hspare as ([pn0 Hpn0] & Hsp2 & Hsp3).
  pose proof (lookup_lt_Some _ _ _ Hph). pose proof (lookup_lt_Some _ _ _ Hpn0).
  assert (Hnxs : ∀ x, Piece.next ph = Some x →
            ∃ pnx, pieces_ s1 !! x = Some pnx ∧ x ≠ h ∧ x ≠ n).
  { intros x Hx. destruct (carve_next s1 h n ph Hst1 Hh1 Hspare x Hx)
      as (pnx & [Hpnx _] & _ & _ & ? & ?). by exists pnx. }
  unfold SplitPiece in Hsplit. rewrite (bind_eval _ _ _ _ _ Halloc) in Hsplit.
  rewrite <- (set_pieces_id s1) in Hsplit at 1.
  revert Hsplit.
  mload. rewrite (wrap64_small (Piece.ptr ph + 0)) by lia.
  mstore. mload. rewrite (wrap64_small (Piece.size ph - 0)) by lia.
  mstore. mstore. mload. simpl.
  mstore. mstore. mstore.
  erewrite bind_eval; cycle 1.
  { apply store_prev_of_sp. intros x Hx. destruct (Hnxs x Hx) as (pnx & Hpnx & ? & ?).
    exists pnx. by lk. }
  set (ps2 := set_prev_of _ _ _).
  assert (Hps2n : ps2 !! n = Some (Piece.mk (Piece.size ph - 0) (Piece.ptr ph + 0)
                                     (Piece.is_free pn0) (Some h) (Piece.next ph)
                                     (Piece.bin_num pn0))).
  { subst ps2. rewrite set_prev_of_lookup_ne; [by lk|].
    intros Hx. by destruct (Hnxs n Hx) as (_ & _ & _ & ?). }
  clearbody ps2.
  mstore. mstore.
  set (ps3 := <[n := _]> ps2).
  assert (Hps3n : ∃ q, ps3 !! n = Some q ∧ Piece.ptr q = Piece.ptr ph).
  { eexists. split; [subst ps3; by lk|]. simpl. lia. }
  destruct Hps3n as (q & Hq & Hqptr). clearbody ps3.
  rewrite (bind_eval _ _ _ _ _ eq_refl).
  intros Hsplit.
  apply bind_ret_inv in Hsplit as (s2 & p2 & E2 & Hsplit).
  apply bind_ret_inv in Hsplit as (s3 & [] & E3 & Hsplit).
  apply bind_ret_inv in Hsplit as (s4 & p4 & E4 & Hsplit).
  apply bind_ret_inv in Hsplit as (s5 & [] & E5 & Hsplit).
  apply bind_ret_inv in Hsplit as (s6 & [] & E6 & Hsplit).
  unfold load in E2. simpl in E2.
  destruct (ps3 !! h); [|done]. injection E2 as <- <-.
  apply RV_CHECK_state in E3 as ->.
  unfold load in E4. simpl in E4. rewrite Hq in E4. injection E4 as <- <-.
  apply RV_CHECK_state in E5 as ->.
  destruct (InsertPiece2Bin_ret (set_pieces ps3 s1) n q s6 Hq E6) as (Hmap6 & q6 & Hq6 & Hptr6).
  destruct (MarkPiece_taken s6 n q6 Hq6) as (s7 & Hmark).
  { rewrite Hmap6, Hptr6, Hqptr. simpl. by rewrite Hmaph. }
  congruence.
Qed.

Lemma TakePiece_zero s bn b l1 piece l2 :
  wf s → 0 ≤ bn → bins_ s !! Z.to_nat bn = Some b → Bin.pieces b = l1 ++ piece :: l2 →
  ∀ s' r, TakePiece bn (length l1) piece 0 s ≠ (s', Ret r).
Proof.
  intros Hwf Hbn Hb Hsplit s' r.
  destruct (taken_spec s bn b l1 piece l2 Hwf Hbn Hb Hsplit)
    as (p & Hp & Hfree & Hpbn & Hwf1 & Hp1 & Hnx1).
  destruct (st_size s (wf_structure s Hwf) piece p Hp) as [Hpos _].
  unfold TakePiece.
  rewrite (TakePiece_eval_taken s bn b l1 piece l2 p) by (done || apply Hp).
  rewrite (bind_eval _ _ _ _ _ (load_eval _ piece _ (proj1 Hp1))).
  change (Piece.size (Piece.set_is_free false (Piece.set_bin_num kInvalidBinNum p)))
    with (Piece.size p).
  assert (Hcond : split_condition (Piece.size p) 0 = true).
  { unfold split_condition. apply orb_true_iff. left. apply Z.leb_le.
    change (wrap64 (0 * 2)) with 0. lia. }
  rewrite Hcond. eapply SplitPiece_zero; [apply Hwf1|done].
Qed.

Lemma FindPiece_in_bin_zero s bn b pre rest :
  wf s → 0 ≤ bn → bins_ s !! Z.to_nat bn = Some b → Bin.pieces b = pre ++ rest →
  ∀ s' r, FindPiece_in_bin 0 bn (length pre) rest s = (s', Ret r) → s' = s ∧ r = None.
Proof.
  intros Hwf Hbn Hb Hsplit s' r.
  destruct rest as [|x rest]; simpl.
  { unfold ret. by intros [= <- <-]. }
  destruct (fi_bins _ _ _ _ (wf_filing s Hwf) _ _ Hb) as (_ & _ & Helems).
  destruct (Helems x) as (_ & px & Hpx & Hfree & _).
  { rewrite Hsplit. apply elem_of_app. right. by left. }
  destruct (st_size s (wf_structure s Hwf) x px Hpx) as [Hpos Hxmod].
  rewrite (bind_eval _ _ _ _ _ (load_eval s x px (proj1 Hpx))).
  rewrite Hfree, bind_check.
  rewrite (bind_eval _ _ s s s) by done.
  rewrite (st_align s (wf_structure s Hwf)), (IsAlignedSize_true _ Hxmod), bind_check.
  destruct (Z.leb_spec 0 (Piece.size px)) as [_|]; [|lia].
  intros H. apply bind_ret_inv in H as (s1 & [] & H & _).
  by apply (TakePiece_zero s bn b pre x rest Hwf Hbn Hb Hsplit) in H.
Qed.

Lemma FindPiece_from_zero s n bn :
  wf s → 0 ≤ bn → bn + Z.of_nat n = kBinNumSize →
  ∀ s' r, FindPiece_from 0 n bn s = (s', Ret r) → s' = s ∧ r = None.
Proof.
  intros Hwf. revert bn. induction n as [|n IH]; intros bn Hbn Hn s' r; simpl.
  { unfold ret. by intros [= <- <-]. }
  destruct (bins_lookup _ _ _ s bn (wf_filing s Hwf)) as [b Hb]; [lia|].
  rewrite (bind_eval _ _ _ _ _ (bins_at_eval s bn b Hbn Hb)).
  intros H. apply bind_ret_inv in H as (s1 & r1 & H1 & H).
  destruct (FindPiece_in_bin_zero s bn b [] (Bin.pieces b) Hwf Hbn Hb eq_refl _ _ H1)
    as [-> ->].
  apply (IH (bn + 1)); [lia|lia|done].
Qed.

Lemma FindPiece_zero s s' r :
  wf s → FindPiece 0 s = (s', Ret r) → s' = s ∧ r = None.
Proof.
  intros Hwf. unfold FindPiece.
  apply FindPiece_from_zero; [done|by vm_compute|by vm_compute].
Qed.

Lemma aligned_size_huge size :
  2 ^ 64 - 512 < size < 2 ^ 64 → MemAlignedBytes size kCudaAlignSize = 0.
Proof.
  intros Hsize. unfold MemAlignedBytes, RoundUp, kCudaAlignSize, wrap64.
  replace (size + 512 - 1) with (size + 511 - 2 ^ 64 + 1 * 2 ^ 64) by lia.
  rewrite Z.mod_add by lia. rewrite (Z.mod_small (size + 511 - 2 ^ 64)) by lia.
  rewrite (Z.div_small (size + 511 - 2 ^ 64)) by lia. done.
Qed.

Lemma DoAllocate_huge cudaMalloc s size :
  wf s → device_ok cudaMalloc s → 2 ^ 64 - 512 < size < 2 ^ 64 →
  ∀ s' r, DoAllocate cudaMalloc size s ≠ (s', Ret r).
Proof.
  intros Hwf Hdev Hsize s' r. unfold DoAllocate.
  destruct (Z.eqb_spec size 0) as [|_]; [lia|].
  rewrite (bind_eval _ _ s s s) by done.
  rewrite (st_align s (wf_structure s Hwf)), (aligned_size_huge size Hsize).
  intros H. apply bind_ret_inv in H as (s1 & r1 & H1 & H).
  destruct (FindPiece_zero s s1 r1 Hwf H1) as [-> ->].
  apply bind_ret_inv in H as (s2 & r2 & H2 & H).
  assert (r2 = None) as ->.
  { apply bind_ret_inv in H2 as (s3 & ext & H3 & H2).
    pose proof (AllocateBlockToExtendTotalMem_spec cudaMalloc s 0 Hwf Hdev ltac:(lia)) as Hg.
    simpl in Hg. destruct (_ =? 0).
    - rewrite Hg in H3. injection H3 as <- <-. by injection H2.
    - destruct Hg as (s4 & Hg & Hwf4 & _). rewrite Hg in H3. injection H3 as <- <-.
      by destruct (FindPiece_zero _ _ _ Hwf4 H2). }
  by apply bind_ret_inv in H as (? & ? & ? & _).
Qed.

(** ** The invariant holds in every reachable state *)

Lemma new_bins i b : bins_ CachingAllocator_new !! i = Some b → Bin.pieces b = [].
Proof.
  unfold CachingAllocator_new. cbn [bins_].
  change (Z.to_nat kBinNumSize) with 20%nat. cbn [seq map].
  do 20 (destruct i as [|i]; [by intros [= <-]|]). done.
Qed.

Lemma wf_new : wf CachingAllocator_new.
Proof.
  assert (Hdead : ∀ h p, ¬ live CachingAllocator_new h p).
  { by intros h p [H _]. }
  split.
  - split; try done.
    + intros h p H. by destruct (Hdead _ _ H).
    + intros h p n H. by destruct (Hdead _ _ H).
    + intros h p m H. by destruct (Hdead _ _ H).
    + intros h1 p1 h2 p2 H. by destruct (Hdead _ _ H).
    + exists []. split_and!; [constructor|constructor|]. by intros h ?%elem_of_nil.
    + intros h p H. by destruct (Hdead _ _ H).
  - split.
    + done.
    + intros h p H. by destruct (Hdead _ _ H).
    + intros h p H. by destruct (Hdead _ _ H).
    + intros h p H. by destruct (Hdead _ _ H).
    + intros i b Hb. rewrite (new_bins i b Hb). split_and!.
      * constructor.
      * constructor.
      * by intros h ?%elem_of_nil.
    + intros h p n q H. by destruct (Hdead _ _ H).
Qed.

Lemma DoAllocate_zero cudaMalloc s : DoAllocate cudaMalloc 0 s = (s, Ret 0).
Proof. reflexivity. Qed.

Lemma DoAllocate_wf cudaMalloc s size s' r :
  wf s → device_ok cudaMalloc s → 0 ≤ size < 2 ^ 64 →
  DoAllocate cudaMalloc size s = (s', Ret r) → wf s'.
Proof.
  intros Hwf Hdev Hsize H.
  destruct (decide (size = 0)) as [->|Hnz].
  { rewrite DoAllocate_zero in H. by injection H as <- _. }
  destruct (decide (size ≤ 2 ^ 64 - 512)) as [Hle|Hgt].
  - pose proof (DoAllocate_spec cudaMalloc s size Hwf Hdev ltac:(lia)) as Hspec.
    cbv zeta in Hspec.
    destruct (first_fit s _) as [piece|].
    + destruct Hspec as (s1 & p & Hd & _ & (? & ? & Hwf1 & _)).
      rewrite Hd in H. by injection H as <- _.
    + destruct (_ <? _); [by rewrite Hspec in H|].
      destruct (_ =? 0); [by rewrite Hspec in H|].
      destruct Hspec as (s1 & s2 & piece & p & _ & _ & _ & _ & _ & _ & (? & ? & Hwf2 & _) & Hd).
      rewrite Hd in H. by injection H as <- _.
  - by destruct (DoAllocate_huge cudaMalloc s size Hwf Hdev ltac:(lia) s' r).
Qed.

Lemma Deallocate_null s : Deallocate 0 s = (s, Ret tt).
Proof. reflexivity. Qed.

Lemma Deallocate_unknown s mem_ptr :
  mem_ptr ≠ 0 → ptr2piece_ s !! mem_ptr = None →
  Deallocate mem_ptr s = (s, Fail Undefined).
Proof.
  intros Hnz Hnone. unfold Deallocate.
  destruct (Z.eqb_spec mem_ptr 0) as [|_]; [done|].
  rewrite (bind_eval _ _ s s s) by done. by rewrite Hnone.
Qed.

Lemma Deallocate_free s mem_ptr h p :
  mem_ptr ≠ 0 → ptr2piece_ s !! mem_ptr = Some h → pieces_ s !! h = Some p →
  Piece.is_free p = true →
  Deallocate mem_ptr s = (s, Fail CheckFailed).
Proof.
  intros Hnz Hmap Hp Hfree. unfold Deallocate.
  destruct (Z.eqb_spec mem_ptr 0) as [|_]; [done|].
  rewrite (bind_eval _ _ s s s) by done. rewrite Hmap.
  rewrite (bind_eval _ _ _ _ _ (load_eval s h p Hp)). by rewrite Hfree.
Qed.

Lemma Deallocate_ret s mem_ptr s' :
  wf s → mem_ptr ≠ 0 → Deallocate mem_ptr s = (s', Ret tt) →
  ∃ h p, ptr2piece_ s !! mem_ptr = Some h ∧ live s h p ∧ Piece.is_free p = false ∧
         wf s' ∧ freed h p s s'.
Proof.
  intros Hwf Hnz H.
  destruct (ptr2piece_ s !! mem_ptr) as [h|] eqn:Hmap.
  - destruct (live_of_map s _ _ (wf_structure s Hwf) Hmap) as (p & Hp & Hptr).
    destruct (Piece.is_free p) eqn:Hfree.
    + by rewrite (Deallocate_free s mem_ptr h p Hnz Hmap (proj1 Hp) Hfree) in H.
    + destruct (Deallocate_spec s mem_ptr h p Hwf Hnz Hmap (proj1 Hp) Hfree)
        as (s1 & Hd & Hwf1 & Hfreed).
      rewrite Hd in H. injection H as <-. by exists h, p.
  - by rewrite (Deallocate_unknown s mem_ptr Hnz Hmap) in H.
Qed.

Lemma Deallocate_wf s mem_ptr s' :
  wf s → Deallocate mem_ptr s = (s', Ret tt) → wf s'.
Proof.
  intros Hwf H. destruct (decide (mem_ptr = 0)) as [->|Hnz].
  - rewrite Deallocate_null in H. by injection H as <-.
  - by destruct (Deallocate_ret s mem_ptr s' Hwf Hnz H) as (? & ? & _ & _ & _ & ? & _).
Qed.


(** ** The release of an idle block *)


Section Release.
Variables (s : CachingAllocator) (a : Z) (blk : Block.t) (p : Piece.t).
Hypothesis Hst : structure s.
Hypothesis Hfi : filing [Block.start_piece blk] None None s.
Hypothesis Hblk : mem_ptr2block_ s !! a = Some blk.
Hypothesis Hp : live s (Block.start_piece blk) p.
Hypothesis Hnext : Piece.next p = None.

Let h := Block.start_piece blk.
Let s' := settled (drop_state a h s).

Lemma release_facts : Piece.ptr p = a ∧ Piece.prev p = None ∧ 0 < a.
Proof.
  destruct (st_block s Hst a blk Hblk) as (_ & ? & _ & _ & p' & Hp' & ? & ?).
  by rewrite (live_fun _ _ _ _ Hp Hp').
Qed.

Lemma release_live x q : live s' x q ↔ live s x q ∧ x ≠ h.
Proof.
  destruct release_facts as (Hptr & _ & Hpos).
  pose proof (lookup_lt_Some _ _ _ (proj1 Hp)) as Hlen.
  split.
  - intros [Hq Hm]. simpl in Hq, Hm. apply lookup_delete_Some in Hm as [Hne Hm].
    destruct (decide (x = h)) as [->|Hxh].
    + exfalso. rewrite list_lookup_insert_eq in Hq by done. injection Hq as <-.
      simpl in Hm. destruct (live_of_map s 0 h Hst Hm) as (q & Hq & Hz).
      rewrite (live_fun _ _ _ _ Hq Hp) in Hz. lia.
    + rewrite list_lookup_insert_ne in Hq by done. by split.
  - intros [[Hq Hm] Hxh]. split; simpl.
    + by rewrite list_lookup_insert_ne.
    + apply lookup_delete_Some. split; [|done].
      intros Heq. destruct (live_inj s h x p q Hp (conj Hq Hm)); [congruence|done].
Qed.

Lemma release_size : Piece.size p = Block.size blk.
Proof.
  destruct release_facts as (Hptr & _ & _).
  destruct (st_in_block s Hst h p Hp) as (a' & b' & Hb' & Hlo & Hhi & Hend).
  destruct (live_bounds s h p Hst Hp) as (_ & _ & Hpos & _).
  destruct (st_block s Hst a blk Hblk) as (_ & _ & Hbpos & _).
  destruct (st_block s Hst a' b' Hb') as (_ & _ & Hbpos' & _).
  unfold piece_end in *.
  destruct (decide (a' = a)) as [->|Hne].
  - rewrite Hblk in Hb'. injection Hb' as <-.
    pose proof (proj1 Hend Hnext). lia.
  - destruct (st_block_disj s Hst a' b' a blk Hb' Hblk Hne); lia.
Qed.

Lemma release_other_block x q :
  live s x q → x ≠ h → ∀ a' b', mem_ptr2block_ s !! a' = Some b' →
  a' ≤ Piece.ptr q → piece_end q ≤ a' + Block.size b' → a' ≠ a.
Proof.
  intros Hq Hxh a' b' Hb' Hlo Hhi ->.
  rewrite Hblk in Hb'. injection Hb' as <-.
  destruct release_facts as (Hptr & _ & _). pose proof release_size as Hsize.
  destruct (live_bounds s h p Hst Hp) as (_ & _ & Hpos & _).
  destruct (live_bounds s x q Hst Hq) as (_ & _ & Hqpos & _).
  unfold piece_end in *.
  destruct (st_disj s Hst x q h p Hq Hp Hxh); unfold piece_end in *; lia.
Qed.

Lemma structure_release : structure s'.
Proof.
  destruct release_facts as (Hptr & Hprev & Hpos).
  pose proof (lookup_lt_Some _ _ _ (proj1 Hp)) as Hlen.
  split.
  - apply Hst.
  - intros k x Hk. simpl in Hk. apply lookup_delete_Some in Hk as [Hne Hk].
    destruct (live_of_map s k x Hst Hk) as (q & Hq & Hqptr).
    assert (x ≠ h).
    { intros ->. rewrite (live_fun _ _ _ _ Hq Hp) in Hqptr. congruence. }
    exists q. split; [|done]. simpl. rewrite list_lookup_insert_ne by done. apply Hq.
  - intros x q Hq. apply release_live in Hq as [Hq _]. by apply (st_size s Hst x).
  - intros x q n Hq Hn. apply release_live in Hq as [Hq Hxh].
    destruct (st_next s Hst x q n Hq Hn) as (qn & Hqn & Hqprev & ?).
    exists qn. split_and!; try done. apply release_live. split; [done|].
    intros ->. rewrite (live_fun _ _ _ _ Hqn Hp) in Hqprev. congruence.
  - intros x q m Hq Hm. apply release_live in Hq as [Hq Hxh].
    destruct (st_prev s Hst x q m Hq Hm) as (qm & Hqm & Hqnext).
    exists qm. split; [|done]. apply release_live. split; [done|].
    intros ->. rewrite (live_fun _ _ _ _ Hqm Hp) in Hqnext. congruence.
  - intros x1 q1 x2 q2 H1 H2. apply release_live in H1 as [H1 _].
    apply release_live in H2 as [H2 _]. by apply (st_disj s Hst).
  - destruct (st_recycle s Hst) as (rl & Hc & Hnd & Hdead).
    assert (Hnot : h ∉ rl).
    { intros Hin. by apply (recycled_not_live s rl h p Hst Hc Hin). }
    exists (h :: rl). split_and!.
    + simpl. econstructor; [by apply list_lookup_insert_eq|]. simpl.
      eapply recycle_chain_ext; [|done]. intros x Hx.
      rewrite list_lookup_insert_ne; [done|]. by intros ->.
    + by constructor.
    + intros x [->|Hx]%elem_of_cons; simpl.
      * eexists. split; [by apply list_lookup_insert_eq|done].
      * destruct (Hdead x Hx) as (q & Hq & ?). exists q. split; [|done].
        rewrite list_lookup_insert_ne; [done|]. by intros ->.
  - intros a' b' Hb'. simpl in Hb'. apply lookup_delete_Some in Hb' as [Hne Hb'].
    destruct (st_block s Hst a' b' Hb') as (? & ? & ? & ? & q & Hq & Hqptr & ?).
    split_and!; try done. exists q. split_and!; try done.
    apply release_live. split; [done|].
    intros Heq. rewrite Heq in Hq. rewrite (live_fun _ _ _ _ Hq Hp) in Hqptr. congruence.
  - intros a1 b1 a2 b2 H1 H2. simpl in H1, H2.
    apply lookup_delete_Some in H1 as [_ H1]. apply lookup_delete_Some in H2 as [_ H2].
    by apply (st_block_disj s Hst).
  - intros x q Hq. apply release_live in Hq as [Hq Hxh].
    destruct (st_in_block s Hst x q Hq) as (a' & b' & Hb' & Hlo & Hhi & Hend).
    exists a', b'. split_and!; try done. simpl. apply lookup_delete_Some. split; [|done].
    apply not_eq_sym. by eapply release_other_block.
  - done.
Qed.

Lemma filing_release : filing [] None None s'.
Proof.
  split.
  - apply Hfi.
  - intros x q Hq. apply release_live in Hq as [Hq _]. by apply (fi_used _ _ _ _ Hfi x).
  - by intros x q _ ?%elem_of_nil.
  - intros x q Hq Hfree _. apply release_live in Hq as [Hq Hxh].
    apply (fi_free _ _ _ _ Hfi x q Hq Hfree). by intros ->%list_elem_of_singleton.
  - intros i b Hb. destruct (fi_bins _ _ _ _ Hfi i b Hb) as (Hnd & Hsorted & Helems).
    assert (Hxh : ∀ x, x ∈ Bin.pieces b → x ≠ h).
    { intros x Hx ->. destruct (Helems h Hx) as [Hnot _]. apply Hnot. by left. }
    split_and!; [done| |].
    + eapply bin_sorted_ext; [|done]. intros x Hx. unfold piece_key. simpl.
      rewrite list_lookup_insert_ne; [done|]. apply not_eq_sym. by apply Hxh.
    + intros x Hx. destruct (Helems x Hx) as (_ & q & Hq & ?).
      split; [by intros ?%elem_of_nil|]. exists q. split; [|done].
      apply release_live. split; [done|by apply Hxh].
  - intros x q n qn Hq Hn Hqn Hf1 Hf2. apply release_live in Hq as [Hq Hxh].
    destruct (st_next s Hst x q n Hq Hn) as (qn' & Hqn' & Hqprev & _).
    assert (n ≠ h).
    { destruct release_facts as (_ & Hprev & _).
      intros ->. rewrite (live_fun _ _ _ _ Hqn' Hp) in Hqprev. congruence. }
    simpl in Hqn. rewrite list_lookup_insert_ne in Hqn by done.
    apply (fi_adj _ _ _ _ Hfi x q n qn); done.
Qed.

End Release.

Lemma settled_wf s : wf s → settled s = s.
Proof.
  intros [Hst _]. pose proof (st_total s Hst) as Htot.
  destruct s. simpl in Htot. unfold settled, set_total_memory_bytes. simpl. by rewrite <- Htot.
Qed.

Lemma wf_settled s : wf s → wf (settled s).
Proof. intros Hwf. by rewrite settled_wf. Qed.

Lemma idle_single s a blk :
  structure s → filing [] None None s → mem_ptr2block_ s !! a = Some blk →
  ∃ p, live s (Block.start_piece blk) p ∧ Piece.ptr p = a ∧
       idle_b s blk = Piece.is_free p && bool_decide (Piece.next p = None) ∧
       chain_all_free (S (length (pieces_ s))) (pieces_ s) (Some (Block.start_piece blk)) =
         Ret (idle_b s blk) ∧
       (idle s blk ↔ Piece.is_free p = true ∧ Piece.next p = None).
Proof.
  intros Hst Hfi Hblk.
  destruct (st_block s Hst a blk Hblk) as (_ & _ & _ & _ & p & Hp & Hptr & _).
  assert (Hnx : ∀ n, Piece.is_free p = true → Piece.next p = Some n →
            ∃ q, pieces_ s !! n = Some q ∧ Piece.is_free q = false).
  { intros n Hfree Hn. destruct (st_next s Hst _ p n Hp Hn) as (q & [Hq _] & _).
    exists q. split; [done|]. destruct (Piece.is_free q) eqn:Hqfree; [|done].
    by destruct (fi_adj _ _ _ _ Hfi _ p n q Hp Hn Hq Hfree Hqfree). }
  assert (Hchain : chain_all_free (S (length (pieces_ s))) (pieces_ s)
                     (Some (Block.start_piece blk)) =
                   Ret (Piece.is_free p && bool_decide (Piece.next p = None))).
  { cbn [chain_all_free]. rewrite (proj1 Hp).
    destruct (Piece.is_free p) eqn:Hfree; [|done].
    destruct (Piece.next p) as [n|] eqn:Hn.
    - destruct (Hnx n eq_refl eq_refl) as (q & Hq & Hqfree).
      pose proof (lookup_lt_Some _ _ _ Hq) as Hlen.
      destruct (length (pieces_ s)) as [|k]; [lia|].
      cbn [chain_all_free]. by rewrite Hq, Hqfree.
    - by destruct (length (pieces_ s)). }
  exists p. split_and!; try done.
  - unfold idle_b. rewrite Hchain. by destruct (_ && _).
  - rewrite Hchain. f_equal. unfold idle_b. rewrite Hchain. by destruct (_ && _).
  - split.
    + intros Hidle. inversion Hidle as [|h p' Hp' Hfree Hrest]; subst.
      rewrite (proj1 Hp) in Hp'. injection Hp' as <-. split; [done|].
      destruct (Piece.next p) as [n|] eqn:Hn; [|done]. exfalso.
      destruct (Hnx n Hfree eq_refl) as (q & Hq & Hqfree).
      inversion Hrest as [|n' q' Hq' Hqfree' _]; subst. congruence.
    + intros [Hfree Hn]. econstructor; [apply Hp|done|]. rewrite Hn. constructor.
Qed.

Lemma idle_b_spec s a blk :
  wf (settled s) → mem_ptr2block_ s !! a = Some blk → idle_b s blk = true ↔ idle s blk.
Proof.
  intros [Hst Hfi] Hblk.
  destruct (idle_single (settled s) a blk Hst Hfi Hblk) as (p & _ & _ & Hb & _ & Hidle).
  change (idle_b (settled s) blk) with (idle_b s blk) in Hb.
  change (idle (settled s) blk) with (idle s blk) in Hidle.
  rewrite Hidle, Hb, andb_true_iff, bool_decide_eq_true. done.
Qed.

Lemma release_block_spec s a blk :
  wf (settled s) → mem_ptr2block_ s !! a = Some blk → idle s blk →
  ∃ s', release_block a s = (s', Ret tt) ∧ wf (settled s') ∧
    total_memory_bytes_ s' = total_memory_bytes_ s ∧
    mem_ptr2block_ s' = delete a (mem_ptr2block_ s) ∧
    cuda_calls_ s' = CudaFree a :: cuda_calls_ s ∧
    (∀ x q, live s' x q ↔ live s x q ∧ Piece.ptr q ≠ a) ∧
    (∀ x, recycled s x → recycled s' x) ∧
    (∀ x q, live s x q → Piece.ptr q = a → recycled s' x).
Proof.
  intros [Hst Hfi] Hblk Hidle.
  destruct (idle_single (settled s) a blk Hst Hfi Hblk) as (p & Hp & Hptr & _ & _ & Hiff).
  destruct (proj1 Hiff Hidle) as [Hfree Hnext].
  set (h := Block.start_piece blk) in *.
  destruct (fi_free _ _ _ _ Hfi h p Hp Hfree) as (Hbn & b & Hb & Hin).
  { by intros ?%elem_of_nil. }
  destruct (live_size_range _ h p Hst Hp) as [Hsz _].
  pose proof (BinNum4BinSize_range _ Hsz) as Hrange.
  apply list_elem_of_split in Hin as (l1 & l2 & Hsplit).
  pose proof (fi_bins _ _ _ _ Hfi _ _ Hb) as (_ & Hsorted & _).
  set (u := unbin_state h p b (l1 ++ l2) s).
  assert (Hstu : structure (settled u)).
  { eapply (structure_same_layout (settled s)); [|done].
    apply (same_layout_unbin (settled s) h p b (l1 ++ l2)), Hp. }
  assert (Hfiu : filing [h] None None (settled u)).
  { apply (filing_unbin [] None None (settled s) h p b l1 l2); try done.
    by intros ?%elem_of_nil. }
  set (p1 := Piece.set_bin_num kInvalidBinNum p).
  assert (Hpu : live (settled u) h p1).
  { by apply (live_update_same (settled s) (settled u) h p1 p). }
  pose proof (release_size (settled u) a blk p1 Hstu Hblk Hpu Hnext) as Hsize.
  pose proof (structure_release (settled u) a blk p1 Hstu Hblk Hpu Hnext) as Hst'.
  pose proof (filing_release (settled u) a blk p1 Hstu Hfiu Hblk Hpu) as Hfi'.
  pose proof (release_live (settled u) a blk p1 Hstu Hblk Hpu) as Hlive.
  fold h in Hst', Hfi', Hlive.
  assert (Hlive' : ∀ x q, live (drop_state a h u) x q ↔ live s x q ∧ Piece.ptr q ≠ a).
  { intros x q. rewrite (Hlive x q). split.
    - intros [Hq Hxh]. assert (Hq0 : live s x q).
      { destruct Hq as [Hq Hm]. split; [|done]. simpl in Hq.
        by rewrite list_lookup_insert_ne in Hq by done. }
      split; [done|]. intros Hqa.
      destruct (live_inj s x h q p Hq0 Hp); [congruence|done].
    - intros [Hq Hqa]. assert (x ≠ h).
      { intros ->. rewrite (live_fun _ _ _ _ Hq Hp) in Hqa. done. }
      split; [|done]. destruct Hq as [Hq Hm]. split; [|done]. simpl.
      by rewrite list_lookup_insert_ne by done. }
  pose proof (lookup_lt_Some _ _ _ (proj1 Hp)) as Hlen.
  exists (drop_state a h u). split_and!; try done.
  - unfold release_block. rewrite (bind_eval _ _ s s s) by done. rewrite Hblk. fold h.
    rewrite (bind_eval _ _ _ _ _ (load_eval s h p (proj1 Hp))).
    destruct (st_block _ Hst a blk Hblk) as (Hbptr & _).
    rewrite Hbptr, Hptr, Z.eqb_refl, !bind_check.
    cbn [delete_chain].
    assert (Hdel : (pc <- load h ;;
                    RemovePieceFromBin h ;; UnMarkPiece h ;; DeallocatePiece h ;;
                    delete_chain (length (pieces_ s)) (Piece.next pc)
                      (wrap64 (0 + Piece.size pc))) s =
                   (set_recycle_piece_list (Some h)
                      (set_pieces (<[h := retired (recycle_piece_list_ s)]> (pieces_ u))
                         (set_ptr2piece (delete a (ptr2piece_ s)) u)), Ret (Piece.size p))).
    { rewrite (bind_eval _ _ _ _ _ (load_eval s h p (proj1 Hp))).
      rewrite (bind_eval _ _ s u tt); cycle 1.
      { rewrite (RemovePieceFromBin_eval s h p b); [|apply Hp|done|lia|done].
        change (pieces_ s) with (pieces_ (settled s)).
        by rewrite Hsplit, set_erase_sorted by (by rewrite <- Hsplit). }
      rewrite (bind_eval _ _ _ _ _ (UnMarkPiece_eval u h p1 (proj1 Hpu)
                 (ex_intro _ h (proj2 Hpu)))).
      erewrite bind_eval; cycle 1.
      { apply (DeallocatePiece_eval _ h p1). apply Hpu. }
      rewrite Hnext, wrap64_small by lia.
      change (Piece.ptr p1) with (Piece.ptr p). rewrite Hptr.
      by destruct (length (pieces_ s)). }
    rewrite (bind_eval _ _ _ _ _ Hdel).
    change (Piece.size p1) with (Piece.size p) in Hsize.
    rewrite <- Hsize, Z.eqb_refl, bind_check. reflexivity.
  - destruct (st_recycle _ Hst') as (rl & Hc & _). intros x (rl0 & Hc0 & Hx).
    exists (h :: rl0). split; [|by right].
    simpl. econstructor; [apply list_lookup_insert_eq; by rewrite length_insert|]. simpl.
    eapply recycle_chain_ext; [|done]. intros y Hy. simpl.
    assert (y ≠ h).
    { intros ->. by apply (recycled_not_live (settled s) rl0 h p Hst Hc0 Hy). }
    by rewrite !list_lookup_insert_ne by done.
  - intros x q Hq Hqa. destruct (live_inj s x h q p Hq Hp) as [-> _]; [congruence|].
    destruct (st_recycle _ Hst') as (rl & Hc & _).
    exists rl. split; [done|]. simpl in Hc. inversion Hc; subst. by left.
Qed.

(** ** The reclamation pass *)

Lemma blocks_size_perm l l' : l ≡ₚ l' → blocks_size l = blocks_size l'.
Proof.
  unfold blocks_size. induction 1 as [|x l l' _ IH|x y l|l l' l'' _ IH1 _ IH2]; simpl.
  - done.
  - by rewrite IH.
  - lia.
  - congruence.
Qed.

Lemma blocks_size_nonneg l :
  (∀ kb, kb ∈ l → 0 < Block.size kb.2) → 0 ≤ blocks_size l.
Proof.
  unfold blocks_size. induction l as [|x l IH]; intros Hpos; simpl; [done|].
  pose proof (Hpos x ltac:(by left)).
  assert (0 ≤ foldr (λ kb acc, acc + Block.size kb.2) 0 l).
  { apply IH. intros kb Hkb. apply Hpos. by right. }
  lia.
Qed.

Lemma blocks_size_pos l :
  (∀ kb, kb ∈ l → 0 < Block.size kb.2) →
  (0 <? blocks_size l) = bool_decide (l ≠ []).
Proof.
  intros Hpos. destruct l as [|x l]; [done|].
  rewrite bool_decide_eq_true_2 by done. apply Z.ltb_lt.
  pose proof (Hpos x ltac:(by left)).
  pose proof (blocks_size_nonneg l ltac:(intros kb Hkb; apply Hpos; by right)).
  unfold blocks_size in *. simpl. lia.
Qed.

Lemma idle_blocks_spec s a blk :
  wf (settled s) →
  (a, blk) ∈ idle_blocks s ↔ mem_ptr2block_ s !! a = Some blk ∧ idle s blk.
Proof.
  intros Hwf. unfold idle_blocks. rewrite list_elem_of_filter, elem_of_map_to_list. simpl.
  split.
  - intros [Hb Hblk]. split; [done|]. by apply (idle_b_spec s a blk).
  - intros [Hblk Hidle]. split; [|done]. by apply (idle_b_spec s a blk).
Qed.

Lemma idle_blocks_keys s a :
  wf (settled s) →
  a ∈ (idle_blocks s).*1 ↔ ∃ blk, mem_ptr2block_ s !! a = Some blk ∧ idle s blk.
Proof.
  intros Hwf. rewrite list_elem_of_fmap. split.
  - intros ([a' blk] & -> & Hin). exists blk. by apply idle_blocks_spec.
  - intros (blk & Hblk). exists (a, blk). split; [done|]. by apply idle_blocks_spec.
Qed.

Lemma idle_blocks_NoDup s : NoDup (idle_blocks s).*1.
Proof.
  unfold idle_blocks.
  assert (Hsub : (idle_blocks s).*1 `sublist_of` (map_to_list (mem_ptr2block_ s)).*1)
    by (apply fmap_sublist, sublist_filter).
  apply (sublist_NoDup _ _ (NoDup_fst_map_to_list (mem_ptr2block_ s)) Hsub).
Qed.

Lemma scan_blocks_spec s l acc K :
  wf (settled s) →
  (∀ kb, kb ∈ l → mem_ptr2block_ s !! kb.1 = Some kb.2) →
  0 ≤ acc → acc + blocks_size l < 2 ^ 64 →
  scan_blocks l acc K s =
    (s, Ret (acc + blocks_size (filter (fun kb => idle_b s kb.2 = true) l),
             list_to_set (filter (fun kb => idle_b s kb.2 = true) l).*1 ∪ K)).
Proof.
  intros Hwf. revert acc K. induction l as [|[k blk] l IH]; intros acc K Hl Hacc Hbound.
  - simpl. unfold ret, blocks_size. simpl. do 3 f_equal; [lia|].
    by rewrite union_empty_l_L.
  - assert (Hblk : mem_ptr2block_ s !! k = Some blk) by (apply (Hl (k, blk)); by left).
    assert (Hl' : ∀ kb, kb ∈ l → mem_ptr2block_ s !! kb.1 = Some kb.2).
    { intros kb Hkb. apply Hl. by right. }
    destruct Hwf as [Hst Hfi].
    destruct (idle_single (settled s) k blk Hst Hfi Hblk) as (p & _ & _ & _ & Hchain & _).
    destruct (st_block _ Hst k blk Hblk) as (_ & _ & Hpos & _).
    pose proof (blocks_size_nonneg l) as Hnn.
    assert (0 ≤ blocks_size l).
    { apply Hnn. intros kb Hkb.
      by destruct (st_block _ Hst _ _ (Hl' kb Hkb)) as (_ & _ & ? & _). }
    assert (Hcons : blocks_size ((k, blk) :: l) = blocks_size l + Block.size blk) by done.
    rewrite Hcons in Hbound.
    cbn [scan_blocks]. rewrite (bind_eval _ _ s s s) by done.
    change (pieces_ (settled s)) with (pieces_ s) in Hchain. rewrite Hchain.
    change (idle_b (settled s) blk) with (idle_b s blk).
    destruct (idle_b s blk) eqn:Hidle.
    + rewrite wrap64_small by lia.
      rewrite IH; [|done|lia|lia].
      rewrite filter_cons_True by done.
      do 3 f_equal.
      * change (blocks_size ((k, blk) :: ?l)) with (blocks_size l + Block.size blk). 
        unfold blocks_size. simpl. lia.
      * rewrite fmap_cons. simpl. apply set_eq. intros y.
        rewrite !elem_of_union. tauto.
    + rewrite IH; [|done|lia|lia].
      rewrite filter_cons_False; [done|]. simpl. by rewrite Hidle.
Qed.

Lemma idle_kept s s' a' blk' :
  wf (settled s) → mem_ptr2block_ s !! a' = Some blk' → idle s blk' →
  (∀ x q, live s x q → Piece.ptr q = a' → live s' x q) →
  idle s' blk'.
Proof.
  intros [Hst Hfi] Hblk Hidle Hlive.
  destruct (idle_single (settled s) a' blk' Hst Hfi Hblk) as (p & Hp & Hptr & _ & _ & Hiff).
  destruct (proj1 Hiff Hidle) as [Hfree Hnext].
  destruct (Hlive _ p Hp Hptr) as [Hp' _].
  econstructor; [done|done|]. rewrite Hnext. constructor.
Qed.

Lemma release_blocks_spec ks s :
  NoDup ks → wf (settled s) →
  (∀ a, a ∈ ks → ∃ blk, mem_ptr2block_ s !! a = Some blk ∧ idle s blk) →
  ∃ s', release_blocks ks s = (s', Ret tt) ∧ wf (settled s') ∧
    total_memory_bytes_ s' = total_memory_bytes_ s ∧
    (∀ a, mem_ptr2block_ s' !! a =
          if decide (a ∈ ks) then None else mem_ptr2block_ s !! a) ∧
    cuda_calls_ s' = (CudaFree <$> reverse ks) ++ cuda_calls_ s ∧
    (∀ x q, live s' x q ↔ live s x q ∧ Piece.ptr q ∉ ks) ∧
    (∀ x, recycled s x → recycled s' x) ∧
    (∀ x q, live s x q → Piece.ptr q ∈ ks → recycled s' x).
Proof.
  intros Hnd. revert s. induction Hnd as [|a ks Hnotin Hnd IH]; intros s Hwf Hidle.
  - exists s. split_and!; try done.
    + intros x q. split; [intros ?; split; [done|by intros ?%elem_of_nil]|by intros [? _]].
    + by intros x q _ ?%elem_of_nil.
  - destruct (Hidle a ltac:(by left)) as (blk & Hblk & Hblkidle).
    destruct (release_block_spec s a blk Hwf Hblk Hblkidle)
      as (s1 & Hrel & Hwf1 & Htot1 & Hblocks1 & Hcalls1 & Hlive1 & Hrec1 & Hgone1).
    destruct (IH s1 Hwf1) as (s' & Hrest & Hwf' & Htot' & Hblocks' & Hcalls' & Hlive' &
                              Hrec' & Hgone').
    { intros a' Ha'. destruct (Hidle a' ltac:(by right)) as (blk' & Hblk' & Hidle').
      assert (a' ≠ a) by (by intros ->).
      exists blk'. split.
      - rewrite Hblocks1. by rewrite lookup_delete_ne.
      - apply (idle_kept s s1 a' blk' Hwf Hblk' Hidle').
        intros x q Hq Hqa. apply Hlive1. split; [done|congruence]. }
    exists s'. split_and!; try done.
    + cbn [release_blocks]. by rewrite (bind_eval _ _ _ _ _ Hrel).
    + congruence.
    + intros a'. rewrite Hblocks', Hblocks1.
      destruct (decide (a' ∈ ks)) as [Hin|Hout].
      * rewrite decide_True; [done|by right].
      * destruct (decide (a' = a)) as [->|Hne].
        -- rewrite decide_True by (by left). apply lookup_delete_eq.
        -- rewrite decide_False; [by rewrite lookup_delete_ne|].
           by intros [?|?]%elem_of_cons.
    + rewrite Hcalls', Hcalls1, reverse_cons, fmap_app, <- app_assoc. done.
    + intros x q. rewrite Hlive', Hlive1, elem_of_cons. tauto.
    + intros x Hx. by apply Hrec', Hrec1.
    + intros x q Hq [Hqa|Hqin]%elem_of_cons.
      * by apply Hrec', (Hgone1 x q).
      * destruct (decide (Piece.ptr q = a)) as [Hqa|Hqa].
        -- by apply Hrec', (Hgone1 x q).
        -- apply (Hgone' x q); [|done]. by apply Hlive1.
Qed.

Lemma idle_span s a blk x q :
  wf s → mem_ptr2block_ s !! a = Some blk → idle s blk → live s x q →
  in_block a blk q → Piece.ptr q = a.
Proof.
  intros [Hst Hfi] Hblk Hidle Hq [Hlo Hhi].
  destruct (idle_single s a blk Hst Hfi Hblk) as (p & Hp & Hptr & _ & _ & Hiff).
  destruct (proj1 Hiff Hidle) as [Hfree Hnext].
  pose proof (release_size s a blk p Hst Hblk Hp Hnext) as Hsize.
  destruct (decide (x = Block.start_piece blk)) as [->|Hne].
  { by rewrite (live_fun _ _ _ _ Hq Hp). }
  destruct (live_bounds s x q Hst Hq) as (_ & _ & Hqpos & _).
  destruct (st_disj s Hst x q _ p Hq Hp Hne); unfold piece_end in *; lia.
Qed.

Lemma settled_id s :
  total_memory_bytes_ s = blocks_total (mem_ptr2block_ s) → settled s = s.
Proof.
  intros Htot. destruct s. simpl in Htot.
  unfold settled, set_total_memory_bytes. simpl. by rewrite <- Htot.
Qed.

Lemma DeallocateFreeBlockForGarbageCollection_spec s :
  wf s →
  ∃ s', DeallocateFreeBlockForGarbageCollection s =
          (s', Ret (bool_decide (idle_blocks s ≠ []))) ∧
        wf s' ∧ reclaimed s s'.
Proof.
  intros Hwf. pose proof (wf_settled s Hwf) as Hwfs. pose proof Hwf as [Hst Hfi].
  assert (Hsizes : ∀ kb, kb ∈ map_to_list (mem_ptr2block_ s) → 0 < Block.size kb.2).
  { intros [a blk] Hkb%elem_of_map_to_list.
    by destruct (st_block s Hst a blk Hkb) as (_ & _ & ? & _). }
  assert (Hidle_sizes : ∀ kb, kb ∈ idle_blocks s → 0 < Block.size kb.2).
  { intros kb [_ Hkb]%list_elem_of_filter. by apply Hsizes. }
  pose proof (blocks_size_filter (fun kb => idle_b s kb.2 = true)
                (map_to_list (mem_ptr2block_ s))) as Hpart.
  fold (idle_blocks s) in Hpart.
  set (busy := filter (λ kb : Z * Block.t, ¬ idle_b s kb.2 = true)
                 (map_to_list (mem_ptr2block_ s))) in *.
  assert (Hbusy_nn : 0 ≤ blocks_size busy).
  { apply blocks_size_nonneg. intros kb [_ Hkb]%list_elem_of_filter. by apply Hsizes. }
  pose proof (blocks_size_nonneg _ Hidle_sizes) as Hidle_nn.
  assert (Hbound : 0 ≤ blocks_total (mem_ptr2block_ s) ≤ address_limit).
  { apply blocks_total_bound; [|apply Hst]. intros a blk Hblk.
    by destruct (st_block s Hst a blk Hblk) as (_ & ? & ? & ? & _). }
  assert (Hlim : address_limit < 2 ^ 64) by (apply Z.pow_lt_mono_r; lia).
  pose proof (st_total s Hst) as Htot. rewrite blocks_total_list in Htot, Hbound.
  set (t := total_memory_bytes_ s - blocks_size (idle_blocks s)).
  set (s0 := set_total_memory_bytes t s).
  set (ks := if 0 <? blocks_size (idle_blocks s)
             then elements (list_to_set (C := gset Z) (idle_blocks s).*1) else []).
  assert (Hks : ks ≡ₚ (idle_blocks s).*1).
  { unfold ks. rewrite (blocks_size_pos _ Hidle_sizes).
    destruct (idle_blocks s) as [|kb l] eqn:Hl; [done|].
    rewrite bool_decide_eq_true_2 by done. rewrite <- Hl.
    apply elements_list_to_set, idle_blocks_NoDup. }
  assert (Hwf0 : wf (settled s0)) by exact Hwfs.
  destruct (release_blocks_spec ks s0) as (s' & Hrel & Hwf' & Htot' & Hblocks' & Hcalls' &
                                           Hlive' & Hrec' & Hgone').
  { rewrite Hks. apply idle_blocks_NoDup. }
  { done. }
  { intros a Ha. rewrite Hks in Ha. by apply (idle_blocks_keys s a Hwfs). }
  assert (Hkeys : ∀ a, a ∈ ks ↔ ∃ blk, mem_ptr2block_ s !! a = Some blk ∧ idle s blk).
  { intros a. rewrite Hks. by apply idle_blocks_keys. }
  assert (Hsurv : ∀ a blk, mem_ptr2block_ s' !! a = Some blk ↔
                           mem_ptr2block_ s !! a = Some blk ∧ ¬ idle s blk).
  { intros a blk. rewrite Hblocks'. change (mem_ptr2block_ s0) with (mem_ptr2block_ s).
    destruct (decide (a ∈ ks)) as [Hin|Hout].
    - apply Hkeys in Hin as (blk' & Hblk' & Hidle'). split; [done|].
      intros [Hblk Hidle]. congruence.
    - split; [|by intros [? _]]. intros Hblk. split; [done|]. intros Hidle.
      apply Hout, Hkeys. by exists blk. }
  assert (Hsum : blocks_total (mem_ptr2block_ s') = t).
  { rewrite blocks_total_list.
    rewrite (blocks_size_perm _ busy); [unfold t; lia|].
    apply NoDup_Permutation.
    - apply NoDup_map_to_list.
    - apply NoDup_filter, NoDup_map_to_list.
    - intros [a blk]. unfold busy.
      rewrite list_elem_of_filter, !elem_of_map_to_list, Hsurv. simpl.
      split.
      + intros [Hblk Hnot]. split; [|done]. intros Hb. by apply Hnot, (idle_b_spec s a blk).
      + intros [Hnot Hblk]. split; [done|]. intros Hb. by apply Hnot, (idle_b_spec s a blk). }

  assert (Htot0 : total_memory_bytes_ s' = t) by (by rewrite Htot').
  assert (Hwfinal : wf s').
  { rewrite <- (settled_id s'); [done|]. by rewrite Hsum. }
  exists s'. split_and!; [|done|].
  - unfold DeallocateFreeBlockForGarbageCollection.
    rewrite (bind_eval _ _ s s s) by done.
    rewrite (bind_eval _ _ _ _ _ (scan_blocks_spec s _ 0 ∅ Hwfs
               ltac:(by intros [a blk] ?%elem_of_map_to_list) ltac:(done) ltac:(lia))).
    fold (idle_blocks s). rewrite Z.add_0_l, union_empty_r_L.
    rewrite (bind_eval _ _ s s0 tt); cycle 1.
    { unfold modify, s0, t. by rewrite wrap64_small by lia. }
    rewrite <- (blocks_size_pos _ Hidle_sizes).
    assert (Hrel' : (if 0 <? blocks_size (idle_blocks s)
                     then release_blocks (elements (list_to_set (C := gset Z)
                                                      (idle_blocks s).*1))
                     else ret tt) s0 = (s', Ret tt)).
    { unfold ks in Hrel. by destruct (0 <? blocks_size (idle_blocks s)). }
    by rewrite (bind_eval _ _ _ _ _ Hrel').
  - unfold reclaimed. split_and!; try done.
    + by rewrite Hsum.
    + exists (reverse ks). split; [by rewrite reverse_Permutation|done].
    + intros x q. rewrite Hlive'. change (live s0 x q) with (live s x q). split.
      * intros [Hq Hout]. split; [done|]. intros (a & blk & Hblk & Hidle & Hin).
        apply Hout. rewrite (idle_span s a blk x q Hwf Hblk Hidle Hq Hin).
        apply Hkeys. by exists blk.
      * intros [Hq Hout]. split; [done|]. intros Hin. apply Hout.
        apply Hkeys in Hin as (blk & Hblk & Hidle). exists (Piece.ptr q), blk.
        split_and!; try done.
        destruct (st_block s Hst _ blk Hblk) as (_ & _ & ? & _). unfold in_block. lia.
    + intros x q a blk Hq Hblk Hidle Hin.
      pose proof (idle_span s a blk x q Hwf Hblk Hidle Hq Hin) as Hqa.
      assert (Hqks : Piece.ptr q ∈ ks) by (rewrite Hqa; apply Hkeys; by exists blk).
      assert (Hdead : ∀ y qy, live s' y qy → Piece.ptr qy ≠ Piece.ptr q).
      { intros y qy Hy Heq. apply Hlive' in Hy as [_ Hy]. by rewrite Heq in Hy. }
      split_and!.
      * destruct (ptr2piece_ s' !! Piece.ptr q) as [y|] eqn:Hy; [|done]. exfalso.
        destruct (live_of_map s' _ y (wf_structure s' Hwfinal) Hy) as (qy & Hqy & Hptr).
        by apply (Hdead y qy).
      * by apply (Hgone' x q).
      * intros i b Hb Hx.
        destruct (fi_bins _ _ _ _ (wf_filing s' Hwfinal) i b Hb) as (_ & _ & Helems).
        destruct (Helems x Hx) as (_ & qx & Hqx & _).
        pose proof Hqx as Hqx'. apply Hlive' in Hqx' as [Hqx' _].
        change (live s0 x qx) with (live s x qx) in Hqx'.
        rewrite (live_fun _ _ _ _ Hqx' Hq) in Hqx. by apply (Hdead x q).
Qed.

(** ** Reachable states *)

Lemma DeallocateFreeBlockForGarbageCollection_wf s s' r :
  wf s → DeallocateFreeBlockForGarbageCollection s = (s', Ret r) → wf s'.
Proof.
  intros Hwf H.
  destruct (DeallocateFreeBlockForGarbageCollection_spec s Hwf) as (s1 & Hgc & Hwf1 & _).
  rewrite Hgc in H. by injection H as <- _.
Qed.

Lemma reachable_wf s : reachable s → wf s.
Proof.
  induction 1 as [|s cm size s' p _ IH Hdev Hsize Hd|s mem_ptr s' _ IH Hd|s s' r _ IH Hd].
  - apply wf_new.
  - by eapply DoAllocate_wf.
  - by eapply Deallocate_wf.
  - by eapply DeallocateFreeBlockForGarbageCollection_wf.
Qed.

(** ** The run *)

Lemma device_ok_4096 : device_ok device_4096 CachingAllocator_new.
Proof.
  intros bytes Hpos Hnz. unfold device_4096 in *.
  destruct (Z.leb_spec bytes (2 ^ 30)); [|done].
  split_and!; [lia|unfold address_limit; lia|].
  intros a b Hb. simpl in Hb. by rewrite lookup_empty in Hb.
Qed.

Lemma device_ok_full s : device_ok device_full s.
Proof. by intros bytes _ Hnz. Qed.

Lemma reachable_run_1 : reachable run_1.
Proof.
  apply (reach_allocate CachingAllocator_new device_4096 100 run_1 4096).
  - apply reach_new.
  - apply device_ok_4096.
  - lia.
  - by vm_compute.
Qed.

Lemma reachable_run_2 : reachable run_2.
Proof.
  apply (reach_allocate run_1 device_full 4000 run_2 4608).
  - apply reachable_run_1.
  - apply device_ok_full.
  - lia.
  - by vm_compute.
Qed.

Lemma reachable_run_3 : reachable run_3.
Proof.
  apply (reach_deallocate run_2 4096 run_3); [apply reachable_run_2|by vm_compute].
Qed.

Lemma reachable_run_4 : reachable run_4.
Proof.
  apply (reach_deallocate run_3 4608 run_4); [apply reachable_run_3|by vm_compute].
Qed.

(** ** The claims *)

Lemma wf_no_adjacent_free s : wf s → no_adjacent_free s.
Proof.
  intros [_ Hfi] h p n q Hp Hn Hq [Hf1 Hf2].
  by destruct (fi_adj _ _ _ _ Hfi h p n q Hp Hn Hq Hf1 Hf2).
Qed.

Lemma bin_sorted_order ps l :
  bin_sorted ps l → StronglySorted (size_then_address ps) l.
Proof.
  unfold bin_sorted. induction 1 as [|x l _ IH Hx]; constructor; [done|].
  eapply Forall_impl; [done|]. intros y Hy. by apply PieceCmp_true.
Qed.

(** C1 (the code departs from the claim). For a non-null address that the
    allocator does not hold as a piece in use, [Deallocate] leaves the state
    as it is, but only an address whose piece is already free is stopped by
    the check [RV_CHECK(!piece->is_free)]. An address that is not in the
    address map is never checked: the code reads [it->second] of the end
    iterator, which is undefined behaviour and no check failure. *)
Theorem Deallocate_not_held s mem_ptr :
  reachable s → mem_ptr ≠ 0 → ¬ held_in_use s mem_ptr →
  Deallocate mem_ptr s =
    (s, Fail (match ptr2piece_ s !! mem_ptr with
              | Some _ => CheckFailed
              | None => Undefined
              end)).
Proof.
  intros Hwf%reachable_wf Hnz Hnot.
  destruct (ptr2piece_ s !! mem_ptr) as [h|] eqn:Hmap.
  - destruct (live_of_map s _ _ (wf_structure s Hwf) Hmap) as (p & [Hp _] & _).
    destruct (Piece.is_free p) eqn:Hfree.
    + by apply (Deallocate_free s mem_ptr h p).
    + destruct Hnot. by exists h, p.
  - by apply Deallocate_unknown.
Qed.

Lemma Deallocate_not_held_witness :
  reachable run_4 ∧ 4608 ≠ 0 ∧ ¬ held_in_use run_4 4608 ∧
  Deallocate 4608 run_4 = (run_4, Fail Undefined).
Proof.
  assert (Hnot : ¬ held_in_use run_4 4608).
  { intros (h & p & Hmap & _). vm_compute in Hmap. discriminate. }
  split_and!; [exact reachable_run_4|lia|exact Hnot|].
  exact (Deallocate_not_held run_4 4608 reachable_run_4 ltac:(lia) Hnot).
Defined.

(** C2. When no bin has a free piece that fits a request of [size > 0]
    bytes, [DoAllocate] calls [AllocateBlockToExtendTotalMem] once. If the
    growth is refused or the device has no memory, the check
    [RV_CHECK(piece != nullptr)] fails, after at most one call of
    [cudaMalloc] and with no other change of the state. Otherwise the new
    block is registered with one free piece that spans it, the search is
    run once more and its piece is returned. There is no reclamation and
    no further retry. *)
Theorem DoAllocate_miss cudaMalloc s size :
  reachable s → device_ok cudaMalloc s → 0 < size ≤ 2 ^ 64 - 512 →
  first_fit s (MemAlignedBytes size (alignment_ s)) = None →
  let a := MemAlignedBytes size (alignment_ s) in
  let f := final_allocate_bytes (alignment_ s) a in
  if f <? a then
    DoAllocate cudaMalloc size s = (s, Fail CheckFailed)
  else if cudaMalloc f =? 0 then
    DoAllocate cudaMalloc size s =
      (set_cuda_calls (CudaMalloc f 0 :: cuda_calls_ s) s, Fail CheckFailed)
  else
    ∃ s1 s' piece p,
      AllocateBlockToExtendTotalMem cudaMalloc a s = (s1, Ret true) ∧
      grown (cudaMalloc f) f s s1 ∧
      FindPiece a s1 = (s', Ret (Some piece)) ∧
      first_fit s1 a = Some piece ∧ live s1 piece p ∧ found a s1 piece s' ∧
      DoAllocate cudaMalloc size s = (s', Ret (Piece.ptr p)) ∧
      cuda_calls_ s' = CudaMalloc f (cudaMalloc f) :: cuda_calls_ s.
Proof.
  intros Hwf%reachable_wf Hdev Hsize. rewrite (st_align s (wf_structure s Hwf)).
  intros Hmiss a f.
  pose proof (DoAllocate_spec cudaMalloc s size Hwf Hdev Hsize) as Hspec.
  cbv zeta in Hspec. fold a in Hspec, Hmiss. fold f in Hspec. rewrite Hmiss in Hspec.
  destruct (f <? a); [done|]. destruct (cudaMalloc f =? 0); [done|].
  destruct Hspec as (s1 & s' & piece & p & Hgrow & Hwf1 & Hgrown & Hfit & Hfind & Hp &
                     Hfound & Hd).
  exists s1, s', piece, p. split_and!; try done.
  destruct Hgrown as (n & _ & _ & _ & _ & _ & _ & _ & Hcalls & _).
  destruct Hfound as (p0 & p' & _ & (_ & _ & Hcalls' & _) & _). congruence.
Qed.

Lemma DoAllocate_miss_witness :
  reachable CachingAllocator_new ∧ device_ok device_4096 CachingAllocator_new ∧
  0 < 100 ≤ 2 ^ 64 - 512 ∧
  first_fit CachingAllocator_new (MemAlignedBytes 100 (alignment_ CachingAllocator_new)) = None ∧
  ∃ s1 s' piece p,
    AllocateBlockToExtendTotalMem device_4096 512 CachingAllocator_new = (s1, Ret true) ∧
    grown 4096 2097152 CachingAllocator_new s1 ∧
    FindPiece 512 s1 = (s', Ret (Some piece)) ∧
    first_fit s1 512 = Some piece ∧ live s1 piece p ∧ found 512 s1 piece s' ∧
    DoAllocate device_4096 100 CachingAllocator_new = (s', Ret (Piece.ptr p)) ∧
    cuda_calls_ s' = CudaMalloc 2097152 4096 :: cuda_calls_ CachingAllocator_new.
Proof.
  assert (Hmiss : first_fit CachingAllocator_new
                    (MemAlignedBytes 100 (alignment_ CachingAllocator_new)) = None)
    by (vm_compute; reflexivity).
  split_and!; [exact reach_new|exact device_ok_4096|lia|lia|exact Hmiss|].
  exact (DoAllocate_miss device_4096 CachingAllocator_new 100 reach_new device_ok_4096
           ltac:(lia) Hmiss).
Defined.

(** C3. In every reachable state no two physically adjacent pieces are
    both free. [Deallocate] of a piece in use returns; it merges the piece
    with its free physical next and then with its free physical prev, the
    piece with the lower address survives each merge, the survivor is filed
    in the bin of its final size, and no two adjacent pieces are both free
    afterwards. *)
Theorem Deallocate_coalesces s mem_ptr h p :
  reachable s → mem_ptr ≠ 0 → ptr2piece_ s !! mem_ptr = Some h →
  pieces_ s !! h = Some p → Piece.is_free p = false →
  no_adjacent_free s ∧
  ∃ s', Deallocate mem_ptr s = (s', Ret tt) ∧ freed h p s s' ∧
        no_adjacent_free s' ∧ reachable s'.
Proof.
  intros Hreach Hnz Hmap Hp Hused. pose proof (reachable_wf s Hreach) as Hwf.
  split; [by apply wf_no_adjacent_free|].
  destruct (Deallocate_spec s mem_ptr h p Hwf Hnz Hmap Hp Hused) as (s' & Hd & Hwf' & Hfreed).
  exists s'. split_and!; try done.
  - by apply wf_no_adjacent_free.
  - by apply (reach_deallocate s mem_ptr s').
Qed.

Lemma Deallocate_coalesces_witness :
  reachable run_3 ∧ 4608 ≠ 0 ∧ ptr2piece_ run_3 !! 4608 = Some 1%nat ∧
  pieces_ run_3 !! 1%nat = Some (Piece.mk 4096 4608 false (Some 0%nat) (Some 2%nat) (-1)) ∧
  Piece.is_free (Piece.mk 4096 4608 false (Some 0%nat) (Some 2%nat) (-1)) = false ∧
  no_adjacent_free run_3 ∧
  ∃ s', Deallocate 4608 run_3 = (s', Ret tt) ∧
        freed 1 (Piece.mk 4096 4608 false (Some 0%nat) (Some 2%nat) (-1)) run_3 s' ∧
        no_adjacent_free s' ∧ reachable s'.
Proof.
  assert (Hmap : ptr2piece_ run_3 !! 4608 = Some 1%nat) by (vm_compute; reflexivity).
  assert (Hp : pieces_ run_3 !! 1%nat =
               Some (Piece.mk 4096 4608 false (Some 0%nat) (Some 2%nat) (-1)))
    by (vm_compute; reflexivity).
  split_and!; [exact reachable_run_3|lia|exact Hmap|exact Hp|reflexivity| |].
  - exact (proj1 (Deallocate_coalesces run_3 4608 1 _ reachable_run_3 ltac:(lia) Hmap Hp
                    eq_refl)).
  - exact (proj2 (Deallocate_coalesces run_3 4608 1 _ reachable_run_3 ltac:(lia) Hmap Hp
                    eq_refl)).
Defined.

(** C5. For an aligned size, [FindPiece] visits the bins from the class of
    the size upwards, each in the order of its set (by size, then by
    address), and returns the first piece that is at least as large;
    without such a piece it returns null and changes nothing. Every free
    piece is in the bin of the class of its size, so the scan for its size
    meets it, and a bin holds only free pieces of its own class. *)
Theorem FindPiece_first_fit s a :
  reachable s → 0 < a < 2 ^ 64 → a mod 512 = 0 →
  match first_fit s a with
  | None => FindPiece a s = (s, Ret None)
  | Some piece => ∃ s', FindPiece a s = (s', Ret (Some piece)) ∧ found a s piece s'
  end ∧
  (∀ i b, bins_ s !! i = Some b →
     StronglySorted (size_then_address (pieces_ s)) (Bin.pieces b)) ∧
  (∀ h p, live s h p → Piece.is_free p = true →
     (∃ b, bins_ s !! Z.to_nat (BinNum4BinSize (Piece.size p)) = Some b ∧
           h ∈ Bin.pieces b) ∧
     h ∈ scan_order s (Piece.size p)) ∧
  (∀ i b h, bins_ s !! i = Some b → h ∈ Bin.pieces b →
     ∃ p, live s h p ∧ Piece.is_free p = true ∧
          Z.of_nat i = BinNum4BinSize (Piece.size p)).
Proof.
  intros Hwf%reachable_wf Ha Hmod. pose proof Hwf as [Hst Hfi]. split_and!.
  - by apply FindPiece_spec.
  - intros i b Hb. destruct (fi_bins _ _ _ _ Hfi i b Hb) as (_ & Hsorted & _).
    by apply bin_sorted_order.
  - intros h p Hp Hfree.
    destruct (fi_free _ _ _ _ Hfi h p Hp Hfree) as (Hbn & b & Hb & Hin).
    { by intros ?%elem_of_nil. }
    rewrite Hbn in Hb. split; [by exists b|].
    unfold scan_order. rewrite (drop_S _ _ _ Hb). simpl.
    apply elem_of_app. by left.
  - intros i b h Hb Hin. destruct (fi_bins _ _ _ _ Hfi i b Hb) as (_ & _ & Helems).
    destruct (Helems h Hin) as (_ & p & Hp & Hfree & Hbn).
    exists p. split_and!; try done.
    destruct (fi_free _ _ _ _ Hfi h p Hp Hfree) as (Hbn' & _); [by intros ?%elem_of_nil|].
    congruence.
Qed.

Lemma FindPiece_first_fit_witness :
  reachable run_1 ∧ 0 < 4096 < 2 ^ 64 ∧ 4096 mod 512 = 0 ∧
  match first_fit run_1 4096 with
  | None => FindPiece 4096 run_1 = (run_1, Ret None)
  | Some piece =>
      ∃ s', FindPiece 4096 run_1 = (s', Ret (Some piece)) ∧ found 4096 run_1 piece s'
  end ∧
  (∀ i b, bins_ run_1 !! i = Some b →
     StronglySorted (size_then_address (pieces_ run_1)) (Bin.pieces b)) ∧
  (∀ h p, live run_1 h p → Piece.is_free p = true →
     (∃ b, bins_ run_1 !! Z.to_nat (BinNum4BinSize (Piece.size p)) = Some b ∧
           h ∈ Bin.pieces b) ∧
     h ∈ scan_order run_1 (Piece.size p)) ∧
  (∀ i b h, bins_ run_1 !! i = Some b → h ∈ Bin.pieces b →
     ∃ p, live run_1 h p ∧ Piece.is_free p = true ∧
          Z.of_nat i = BinNum4BinSize (Piece.size p)).
Proof.
  split; [exact reachable_run_1|]. split; [lia|]. split; [reflexivity|].
  exact (FindPiece_first_fit run_1 4096 reachable_run_1 ltac:(lia) eq_refl).
Defined.

(** C6. The piece [FindPiece] has chosen for an aligned size is split
    exactly when what is left of it is at least the aligned size or at
    least [kPieceSplitThreshold] (128 MiB). On a split the chosen piece
    keeps exactly the aligned size and a new free piece with the rest
    follows it in the physical chain, is filed in the bin of its size and
    registered in the address map; otherwise the whole piece is handed
    out. *)
Theorem FindPiece_split s a piece :
  reachable s → 0 < a < 2 ^ 64 → a mod 512 = 0 → first_fit s a = Some piece →
  ∃ s' p, FindPiece a s = (s', Ret (Some piece)) ∧
          live s piece p ∧ Piece.is_free p = true ∧ a ≤ Piece.size p ∧
          kPieceSplitThreshold = 128 * 2 ^ 20 ∧
          (split_condition (Piece.size p) a = true ↔
           a ≤ Piece.size p - a ∨ kPieceSplitThreshold ≤ Piece.size p - a) ∧
          handed_out a piece p s s'.
Proof.
  intros Hwf%reachable_wf Ha Hmod Hfit.
  pose proof (FindPiece_spec s a Hwf Ha Hmod) as Hspec. rewrite Hfit in Hspec.
  destruct Hspec as (s' & Hfind & p & p' & _ & Hout & Hp & Hfree & Hsize & _).
  exists s', p. split_and!; try done.
  destruct (live_bounds s piece p (wf_structure s Hwf) Hp) as (? & Hend & ? & _).
  unfold piece_end, address_limit in Hend.
  apply split_condition_spec; lia.
Qed.

Lemma FindPiece_split_witness :
  reachable run_1 ∧ 0 < 4096 < 2 ^ 64 ∧ 4096 mod 512 = 0 ∧
  first_fit run_1 4096 = Some 1%nat ∧
  ∃ s' p, FindPiece 4096 run_1 = (s', Ret (Some 1%nat)) ∧
          live run_1 1 p ∧ Piece.is_free p = true ∧ 4096 ≤ Piece.size p ∧
          kPieceSplitThreshold = 128 * 2 ^ 20 ∧
          (split_condition (Piece.size p) 4096 = true ↔
           4096 ≤ Piece.size p - 4096 ∨ kPieceSplitThreshold ≤ Piece.size p - 4096) ∧
          handed_out 4096 1 p run_1 s'.
Proof.
  split; [exact reachable_run_1|]. split; [lia|]. split; [reflexivity|].
  split; [vm_compute; reflexivity|].
  exact (FindPiece_split run_1 4096 1 reachable_run_1 ltac:(lia) eq_refl eq_refl).
Defined.

(** C7. The class of a size is the index of the highest set bit of
    [max(size, kAlignSize) / kAlignSize], capped at [kBinNumSize - 1] with
    [kBinNumSize = 20]; the floor of class [i] is [kAlignSize << i] with
    [kAlignSize = 512]; so class [i] holds the sizes from [512 * 2^i] up to,
    but not including, [512 * 2^(i+1)], the last class having no upper
    end and class [0] taking the sizes below 512 as well. *)
Theorem size_class_spec size i :
  0 ≤ size < 2 ^ 64 → 0 ≤ i < kBinNumSize →
  kAlignSize = 512 ∧ kBinNumSize = 20 ∧
  BinNum4BinSize size =
    Z.min (highest_set_bit (Z.max size kAlignSize / kAlignSize)) (kBinNumSize - 1) ∧
  BinSize4BinNum i = Z.shiftl kAlignSize i ∧
  BinSize4BinNum i = 512 * 2 ^ i ∧
  (BinNum4BinSize size = i ↔
   BinSize4BinNum i ≤ Z.max size kAlignSize ∧
   (Z.max size kAlignSize < 2 * BinSize4BinNum i ∨ i = kBinNumSize - 1)).
Proof.
  intros Hsize Hi.
  pose proof (BinSize4BinNum_pow2 i Hi) as Hpow.
  split_and!; try done.
  - rewrite Z.min_comm. by apply BinNum4BinSize_log2.
  - rewrite Hpow, Z.shiftl_mul_pow2 by lia. done.
  - rewrite Hpow. change kAlignSize with 512.
    destruct (decide (i = kBinNumSize - 1)) as [->|Hne].
    + rewrite (BinNum4BinSize_top size Hsize).
      change (512 * 2 ^ (kBinNumSize - 1)) with 268435456.
      split; [intros ?; split; [lia|by right]|intros [? _]; lia].
    + rewrite (BinNum4BinSize_class size i Hsize) by lia.
      replace (2 ^ (i + 1)) with (2 * 2 ^ i) by (rewrite Z.pow_add_r; lia).
      split; [intros [? ?]; split; [done|left; lia]|intros [? [?|?]]; [lia|done]].
Qed.

Lemma size_class_spec_witness :
  0 ≤ 5000 < 2 ^ 64 ∧ 0 ≤ 3 < kBinNumSize ∧
  kAlignSize = 512 ∧ kBinNumSize = 20 ∧
  BinNum4BinSize 5000 =
    Z.min (highest_set_bit (Z.max 5000 kAlignSize / kAlignSize)) (kBinNumSize - 1) ∧
  BinSize4BinNum 3 = Z.shiftl kAlignSize 3 ∧
  BinSize4BinNum 3 = 512 * 2 ^ 3 ∧
  (BinNum4BinSize 5000 = 3 ↔
   BinSize4BinNum 3 ≤ Z.max 5000 kAlignSize ∧
   (Z.max 5000 kAlignSize < 2 * BinSize4BinNum 3 ∨ 3 = kBinNumSize - 1)).
Proof.
  split; [lia|]. split; [unfold kBinNumSize; lia|].
  apply (size_class_spec 5000 3); [lia|unfold kBinNumSize; lia].
Defined.

(** C8 (as amended). On a growth for an aligned size [a],
    [AllocateBlockToExtendTotalMem] computes 2 MiB when [a] is below 1 MiB,
    20 MiB when [a] is from 1 MiB up to, but not including, 10 MiB, and
    otherwise [a] rounded up to a multiple of 2 MiB in 64-bit arithmetic
    (0 when that wraps around); the result is a multiple of the alignment
    unit. The growth is refused without a call of the device when the
    result is below [a]; otherwise exactly that many bytes are asked of
    the device, which is at least 2 MiB and at least [a]. The bytes asked
    for are exactly [a] when [a] is at least 10 MiB and already a multiple
    of 2 MiB, and more than [a] in every other growth. *)
Theorem growth_request_size cudaMalloc s a :
  reachable s → device_ok cudaMalloc s → 0 ≤ a < 2 ^ 64 →
  let f := final_allocate_bytes (alignment_ s) a in
  f = (if a <? 1048576 then 2097152
       else if a <? 10485760 then 20971520
       else if a + 2097151 <? 2 ^ 64 then (a + 2097151) / 2097152 * 2097152
       else 0) ∧
  f mod kCudaMemAllocAlignSize = 0 ∧
  (if f <? a then AllocateBlockToExtendTotalMem cudaMalloc a s = (s, Ret false)
   else 2097152 ≤ f ∧
        ∃ s', AllocateBlockToExtendTotalMem cudaMalloc a s =
                (s', Ret (negb (cudaMalloc f =? 0))) ∧
              cuda_calls_ s' = CudaMalloc f (cudaMalloc f) :: cuda_calls_ s) ∧
  (f = a ↔ 10485760 ≤ a ∧ a + 2097151 < 2 ^ 64 ∧ a mod 2097152 = 0).
Proof.
  intros Hwf%reachable_wf Hdev Ha. rewrite (st_align s (wf_structure s Hwf)). intros f.
  pose proof (final_allocate_bytes_cases a Ha) as Hcases. fold f in Hcases.
  assert (Hval : f = (if a <? 1048576 then 2097152
                      else if a <? 10485760 then 20971520
                      else if a + 2097151 <? 2 ^ 64 then (a + 2097151) / 2097152 * 2097152
                      else 0)).
  { destruct (Z.ltb_spec a 1048576); [lia|].
    destruct (Z.ltb_spec a 10485760); [lia|].
    destruct (Z.ltb_spec (a + 2097151) (2 ^ 64)); lia. }
  pose proof (Z.div_mod (a + 2097151) 2097152 ltac:(lia)) as Hdm.
  pose proof (Z.mod_pos_bound (a + 2097151) 2097152 ltac:(lia)) as Hmb.
  pose proof (Z.div_mod a 2097152 ltac:(lia)) as Hdm'.
  pose proof (Z.mod_pos_bound a 2097152 ltac:(lia)) as Hmb'.
  split_and!.
  - done.
  - change kCudaMemAllocAlignSize with 512.
    destruct Hcases as [[_ ->]|[[_ ->]|[(_ & _ & ->)|[_ ->]]]]; try done.
    replace ((a + 2097151) / 2097152 * 2097152)
      with ((a + 2097151) / 2097152 * 4096 * 512) by lia.
    apply Z.mod_mul. lia.
  - pose proof (AllocateBlockToExtendTotalMem_spec cudaMalloc s a Hwf Hdev Ha) as Hspec.
    cbv zeta in Hspec. fold f in Hspec.
    destruct (Z.ltb_spec f a) as [Hlt|Hge]; [done|].
    split; [by apply (final_allocate_bytes_aligned a Ha)|].
    destruct (Z.eqb_spec (cudaMalloc f) 0) as [Hnull|Hok].
    + eexists. split; [exact Hspec|]. simpl. by rewrite Hnull.
    + destruct Hspec as (s' & Hgrow & _ & n & _ & _ & _ & _ & _ & _ & _ & Hcalls & _).
      by exists s'.
  - destruct Hcases as [[? ->]|[[? ->]|[(? & ? & ->)|[? ->]]]]; lia.
Qed.

Lemma growth_request_size_witness :
  reachable CachingAllocator_new ∧ device_ok device_4096 CachingAllocator_new ∧
  0 ≤ 3145728 < 2 ^ 64 ∧
  let f := final_allocate_bytes (alignment_ CachingAllocator_new) 3145728 in
  f = (if 3145728 <? 1048576 then 2097152
       else if 3145728 <? 10485760 then 20971520
       else if 3145728 + 2097151 <? 2 ^ 64 then (3145728 + 2097151) / 2097152 * 2097152
       else 0) ∧
  f mod kCudaMemAllocAlignSize = 0 ∧
  (if f <? 3145728
   then AllocateBlockToExtendTotalMem device_4096 3145728 CachingAllocator_new =
          (CachingAllocator_new, Ret false)
   else 2097152 ≤ f ∧
        ∃ s', AllocateBlockToExtendTotalMem device_4096 3145728 CachingAllocator_new =
                (s', Ret (negb (device_4096 f =? 0))) ∧
              cuda_calls_ s' =
                CudaMalloc f (device_4096 f) :: cuda_calls_ CachingAllocator_new) ∧
  (f = 3145728 ↔ 10485760 ≤ 3145728 ∧ 3145728 + 2097151 < 2 ^ 64 ∧
                 3145728 mod 2097152 = 0).
Proof.
  split; [exact reach_new|]. split; [exact device_ok_4096|]. split; [lia|].
  exact (growth_request_size device_4096 CachingAllocator_new 3145728 reach_new
           device_ok_4096 ltac:(lia)).
Defined.

(** A growth for 12 MiB asks the device for exactly the 12 MiB of the
    request, and succeeds. *)
Lemma growth_requests_exact_size :
  final_allocate_bytes kCudaAlignSize 12582912 = 12582912 ∧
  snd (AllocateBlockToExtendTotalMem device_4096 12582912 CachingAllocator_new) = Ret true ∧
  cuda_calls_ (fst (AllocateBlockToExtendTotalMem device_4096 12582912 CachingAllocator_new))
    = [CudaMalloc 12582912 4096].
Proof. split_and!; vm_compute; reflexivity. Qed.

(** C9. [DoAllocate(0)] returns the null pointer and leaves every part of
    the allocator as it is. *)
Theorem DoAllocate_zero_size cudaMalloc s :
  DoAllocate cudaMalloc 0 s = (s, Ret 0).
Proof. reflexivity. Qed.

(** C10. In every state the operations can reach, the size of every live
    piece is a positive multiple of the alignment unit of 512 bytes; the
    check [IsAlignedSize] of the code holds for it. *)
Theorem live_piece_aligned s h p :
  reachable s → live s h p →
  0 < Piece.size p ∧ Piece.size p mod kCudaMemAllocAlignSize = 0 ∧
  IsAlignedSize (Piece.size p) (alignment_ s) = true.
Proof.
  intros Hwf%reachable_wf Hp.
  destruct (st_size s (wf_structure s Hwf) h p Hp) as [Hpos Hmod].
  split_and!; try done.
  rewrite (st_align s (wf_structure s Hwf)). by apply IsAlignedSize_true.
Qed.

Lemma live_piece_aligned_witness :
  reachable run_2 ∧
  live run_2 2 (Piece.mk 2092544 8704 true (Some 1%nat) None 11) ∧
  0 < 2092544 ∧ 2092544 mod kCudaMemAllocAlignSize = 0 ∧
  IsAlignedSize 2092544 (alignment_ run_2) = true.
Proof.
  assert (Hp : live run_2 2 (Piece.mk 2092544 8704 true (Some 1%nat) None 11))
    by (split; vm_compute; reflexivity).
  split; [exact reachable_run_2|]. split; [exact Hp|].
  exact (live_piece_aligned run_2 2 _ reachable_run_2 Hp).
Defined.

(** * Further properties of the code *)

(** ** Rounding and size classes *)

Lemma RoundUp_le_multiple n val m :
  0 < val → 0 ≤ n → n + val - 1 < 2 ^ 64 → m mod val = 0 → n ≤ m →
  RoundUp n val ≤ m.
Proof.
  intros Hval Hn Hbound Hm Hnm.
  destruct (RoundUp_bounds n val Hval Hn Hbound) as [[Hle Hlt] Hmod].
  apply Z.div_exact in Hmod; [|lia]. apply Z.div_exact in Hm; [|lia].
  destruct (Z_lt_le_dec m (RoundUp n val)) as [Hlt'|]; [exfalso|done].
  assert (m / val < RoundUp n val / val).
  { apply Z.mul_lt_mono_pos_l with val; lia. }
  assert (val * (m / val + 1) ≤ val * (RoundUp n val / val))
    by (apply Z.mul_le_mono_nonneg_l; lia).
  lia.
Qed.

(** X1. Without overflow of [n + val - 1], [RoundUp n val] is the least
    multiple of [val] that is not below [n]. *)
Theorem RoundUp_least n val :
  0 < val → 0 ≤ n → n + val - 1 < 2 ^ 64 →
  RoundUp n val mod val = 0 ∧ n ≤ RoundUp n val ∧
  ∀ m, m mod val = 0 → n ≤ m → RoundUp n val ≤ m.
Proof.
  intros Hval Hn Hbound.
  destruct (RoundUp_bounds n val Hval Hn Hbound) as [[Hle Hlt] Hmod].
  split_and!; try done. intros m Hm Hnm. by apply RoundUp_le_multiple.
Qed.

Lemma RoundUp_least_witness :
  0 < 512 ∧ 0 ≤ 100 ∧ 100 + 512 - 1 < 2 ^ 64 ∧
  RoundUp 100 512 mod 512 = 0 ∧ 100 ≤ RoundUp 100 512 ∧
  ∀ m, m mod 512 = 0 → 100 ≤ m → RoundUp 100 512 ≤ m.
Proof.
  split; [lia|]. split; [lia|]. split; [lia|].
  apply (RoundUp_least 100 512); lia.
Defined.

(** X2. When [n + val - 1] overflows 64 bits, [RoundUp n val] is [0]: a
    size within [val - 1] of [2^64] is rounded to nothing instead of up. *)
Theorem RoundUp_overflow n val :
  0 < val ≤ 2 ^ 64 → 0 ≤ n < 2 ^ 64 → 2 ^ 64 ≤ n + val - 1 →
  RoundUp n val = 0.
Proof. apply RoundUp_wrapped. Qed.

Lemma RoundUp_overflow_witness :
  0 < 512 ≤ 2 ^ 64 ∧ 0 ≤ 2 ^ 64 - 100 < 2 ^ 64 ∧ 2 ^ 64 ≤ 2 ^ 64 - 100 + 512 - 1 ∧
  RoundUp (2 ^ 64 - 100) 512 = 0.
Proof.
  split; [lia|]. split; [lia|]. split; [lia|].
  apply (RoundUp_overflow (2 ^ 64 - 100) 512); lia.
Defined.

(** X3. [BinNum4BinSize] inverts [BinSize4BinNum]: the floor size of a
    class is in that class. *)
Theorem BinNum4BinSize_of_BinSize4BinNum i :
  0 ≤ i < kBinNumSize → BinNum4BinSize (BinSize4BinNum i) = i.
Proof.
  intros Hi. rewrite (BinSize4BinNum_pow2 i Hi).
  assert (Hpow : 0 < 2 ^ i) by (apply Z.pow_pos_nonneg; lia).
  assert (Hle : 2 ^ i ≤ 2 ^ 19).
  { apply Z.pow_le_mono_r; unfold kBinNumSize in Hi; lia. }
  assert (Hrange : 0 ≤ 512 * 2 ^ i < 2 ^ 64) by lia.
  destruct (decide (i = kBinNumSize - 1)) as [->|Hne].
  - by vm_compute.
  - apply (BinNum4BinSize_class _ i Hrange); [lia|].
    rewrite Z.pow_add_r by lia. lia.
Qed.

Lemma BinNum4BinSize_of_BinSize4BinNum_witness :
  0 ≤ 7 < kBinNumSize ∧ BinNum4BinSize (BinSize4BinNum 7) = 7.
Proof.
  split; [unfold kBinNumSize; lia|].
  apply (BinNum4BinSize_of_BinSize4BinNum 7). unfold kBinNumSize. lia.
Defined.

(** X4. [BinNum4BinSize] is monotone: a larger size is never in a lower
    class. *)
Theorem BinNum4BinSize_monotone a b :
  0 ≤ a ≤ b → b < 2 ^ 64 → BinNum4BinSize a ≤ BinNum4BinSize b.
Proof. apply BinNum4BinSize_mono. Qed.

Lemma BinNum4BinSize_monotone_witness :
  0 ≤ 1000 ≤ 70000 ∧ 70000 < 2 ^ 64 ∧ BinNum4BinSize 1000 ≤ BinNum4BinSize 70000.
Proof.
  split; [lia|]. split; [lia|]. apply (BinNum4BinSize_monotone 1000 70000); lia.
Defined.

(** ** Invariants of the reachable states *)

(** X5. On live pieces [PieceCmp] is a strict total order: irreflexive,
    asymmetric, transitive, and two different live pieces are always
    ordered, so the set of a bin never takes two of them for the same
    element. *)
Theorem PieceCmp_strict_total s x y z px py :
  live s x px → live s y py →
  PieceCmp (pieces_ s) x x = false ∧
  (PieceCmp (pieces_ s) x y = true → PieceCmp (pieces_ s) y x = false) ∧
  (PieceCmp (pieces_ s) x y = true → PieceCmp (pieces_ s) y z = true →
   PieceCmp (pieces_ s) x z = true) ∧
  (x ≠ y → PieceCmp (pieces_ s) x y = true ∨ PieceCmp (pieces_ s) y x = true).
Proof.
  intros Hx Hy. split_and!.
  - apply PieceCmp_irrefl.
  - apply PieceCmp_asym.
  - apply PieceCmp_trans.
  - intros Hne. rewrite !PieceCmp_true.
    assert (Piece.ptr px ≠ Piece.ptr py).
    { intros Heq. by destruct (live_inj s x y px py Hx Hy Heq). }
    destruct Hx as [Hx _], Hy as [Hy _].
    destruct (Z.lt_trichotomy (Piece.size px) (Piece.size py)) as [?|[?|?]].
    + left. exists px, py. split_and!; try done. by left.
    + destruct (Z.lt_trichotomy (Piece.ptr px) (Piece.ptr py)) as [?|[?|?]]; [|done|].
      * left. exists px, py. split_and!; try done. by right.
      * right. exists py, px. split_and!; try done. by right.
    + right. exists py, px. split_and!; try done. by left.
Qed.

Lemma PieceCmp_strict_total_witness :
  live run_3 0 (Piece.mk 512 4096 true None (Some 1%nat) 0) ∧
  live run_3 2 (Piece.mk 2092544 8704 true (Some 1%nat) None 11) ∧
  PieceCmp (pieces_ run_3) 0 0 = false ∧
  (PieceCmp (pieces_ run_3) 0 2 = true → PieceCmp (pieces_ run_3) 2 0 = false) ∧
  (PieceCmp (pieces_ run_3) 0 2 = true → PieceCmp (pieces_ run_3) 2 1 = true →
   PieceCmp (pieces_ run_3) 0 1 = true) ∧
  (0%nat ≠ 2%nat →
   PieceCmp (pieces_ run_3) 0 2 = true ∨ PieceCmp (pieces_ run_3) 2 0 = true).
Proof.
  assert (H0 : live run_3 0 (Piece.mk 512 4096 true None (Some 1%nat) 0))
    by (split; vm_compute; reflexivity).
  assert (H2 : live run_3 2 (Piece.mk 2092544 8704 true (Some 1%nat) None 11))
    by (split; vm_compute; reflexivity).
  split; [exact H0|]. split; [exact H2|].
  exact (PieceCmp_strict_total run_3 0 2 1 _ _ H0 H2).
Defined.

(** X6. In a reachable state two different live pieces never overlap. *)
Theorem live_pieces_disjoint s h1 p1 h2 p2 :
  reachable s → live s h1 p1 → live s h2 p2 → h1 ≠ h2 →
  Piece.ptr p1 + Piece.size p1 ≤ Piece.ptr p2 ∨
  Piece.ptr p2 + Piece.size p2 ≤ Piece.ptr p1.
Proof.
  intros Hwf%reachable_wf H1 H2 Hne.
  apply (st_disj s (wf_structure s Hwf) h1 p1 h2 p2 H1 H2 Hne).
Qed.

Lemma live_pieces_disjoint_witness :
  reachable run_2 ∧
  live run_2 1 (Piece.mk 4096 4608 false (Some 0%nat) (Some 2%nat) (-1)) ∧
  live run_2 2 (Piece.mk 2092544 8704 true (Some 1%nat) None 11) ∧
  1%nat ≠ 2%nat ∧
  (4608 + 4096 ≤ 8704 ∨ 8704 + 2092544 ≤ 4608).
Proof.
  assert (H1 : live run_2 1 (Piece.mk 4096 4608 false (Some 0%nat) (Some 2%nat) (-1)))
    by (split; vm_compute; reflexivity).
  assert (H2 : live run_2 2 (Piece.mk 2092544 8704 true (Some 1%nat) None 11))
    by (split; vm_compute; reflexivity).
  split; [exact reachable_run_2|]. split; [exact H1|]. split; [exact H2|].
  split; [lia|].
  exact (live_pieces_disjoint run_2 1 _ 2 _ reachable_run_2 H1 H2 ltac:(lia)).
Defined.

(** X7. In a reachable state every live piece lies inside a block the
    allocator holds, below address [2^63], and it ends the chain of its
    block exactly when it reaches the end of the block. *)
Theorem live_piece_in_block s h p :
  reachable s → live s h p →
  ∃ a blk, mem_ptr2block_ s !! a = Some blk ∧
           a ≤ Piece.ptr p ∧ Piece.ptr p + Piece.size p ≤ a + Block.size blk ∧
           a + Block.size blk ≤ 2 ^ 63 ∧
           (Piece.next p = None ↔ Piece.ptr p + Piece.size p = a + Block.size blk).
Proof.
  intros Hwf%reachable_wf Hp. pose proof (wf_structure s Hwf) as Hst.
  destruct (st_in_block s Hst h p Hp) as (a & blk & Hblk & Hlo & Hhi & Hend).
  destruct (st_block s Hst a blk Hblk) as (_ & _ & _ & Hlim & _).
  exists a, blk. by split_and!.
Qed.

Lemma live_piece_in_block_witness :
  reachable run_2 ∧
  live run_2 2 (Piece.mk 2092544 8704 true (Some 1%nat) None 11) ∧
  ∃ a blk, mem_ptr2block_ run_2 !! a = Some blk ∧
           a ≤ 8704 ∧ 8704 + 2092544 ≤ a + Block.size blk ∧
           a + Block.size blk ≤ 2 ^ 63 ∧
           (@None nat = None ↔ 8704 + 2092544 = a + Block.size blk).
Proof.
  assert (H2 : live run_2 2 (Piece.mk 2092544 8704 true (Some 1%nat) None 11))
    by (split; vm_compute; reflexivity).
  split; [exact reachable_run_2|]. split; [exact H2|].
  exact (live_piece_in_block run_2 2 _ reachable_run_2 H2).
Defined.

(** X8. In a reachable state [total_memory_bytes_] is the sum of the sizes
    of the blocks held, and it is at most [2^63]: the counter never wraps
    around. *)
Theorem total_memory_bytes_exact s :
  reachable s →
  total_memory_bytes_ s = blocks_total (mem_ptr2block_ s) ∧
  0 ≤ total_memory_bytes_ s ≤ 2 ^ 63.
Proof.
  intros Hwf%reachable_wf. pose proof (wf_structure s Hwf) as Hst.
  rewrite (st_total s Hst). split; [done|].
  apply blocks_total_bound; [|apply Hst]. intros a blk Hblk.
  by destruct (st_block s Hst a blk Hblk) as (_ & ? & ? & ? & _).
Qed.

Lemma total_memory_bytes_exact_witness :
  reachable run_2 ∧
  total_memory_bytes_ run_2 = blocks_total (mem_ptr2block_ run_2) ∧
  0 ≤ total_memory_bytes_ run_2 ≤ 2 ^ 63.
Proof.
  split; [exact reachable_run_2|]. exact (total_memory_bytes_exact run_2 reachable_run_2).
Defined.

(** X9. Because free neighbours are always merged, a block of a reachable
    state is idle exactly when its start piece is free and spans the whole
    block, with no piece after it. *)
Theorem idle_block_is_one_piece s a blk :
  reachable s → mem_ptr2block_ s !! a = Some blk →
  idle s blk ↔
  ∃ p, live s (Block.start_piece blk) p ∧ Piece.is_free p = true ∧
       Piece.ptr p = a ∧ Piece.size p = Block.size blk ∧
       Piece.prev p = None ∧ Piece.next p = None.
Proof.
  intros Hwf%reachable_wf Hblk. pose proof Hwf as [Hst Hfi].
  destruct (idle_single s a blk Hst Hfi Hblk) as (p & Hp & Hptr & _ & _ & Hiff).
  split.
  - intros Hidle. destruct (proj1 Hiff Hidle) as [Hfree Hnext].
    exists p. split_and!; try done.
    + by apply (release_size s a blk p).
    + by destruct (release_facts s a blk p Hst Hblk Hp) as (_ & ? & _).
  - intros (p' & Hp' & Hfree & _ & _ & _ & Hnext).
    rewrite <- (live_fun _ _ _ _ Hp Hp') in Hfree, Hnext. by apply Hiff.
Qed.

Lemma idle_block_is_one_piece_witness :
  reachable run_4 ∧
  mem_ptr2block_ run_4 !! 4096 = Some (Block.mk 2097152 4096 0) ∧
  (idle run_4 (Block.mk 2097152 4096 0) ↔
   ∃ p, live run_4 0 p ∧ Piece.is_free p = true ∧
        Piece.ptr p = 4096 ∧ Piece.size p = 2097152 ∧
        Piece.prev p = None ∧ Piece.next p = None).
Proof.
  assert (Hblk : mem_ptr2block_ run_4 !! 4096 = Some (Block.mk 2097152 4096 0))
    by (vm_compute; reflexivity).
  split; [exact reachable_run_4|]. split; [exact Hblk|].
  exact (idle_block_is_one_piece run_4 4096 _ reachable_run_4 Hblk).
Defined.

(** X10. [FindPiece] finds a piece whenever some free piece is large
    enough: the upward scan from the class of the aligned size misses no
    fitting piece, so the allocator only grows when nothing fits. *)
Theorem FindPiece_complete s a h p :
  reachable s → 0 < a < 2 ^ 64 → a mod 512 = 0 →
  live s h p → Piece.is_free p = true → a ≤ Piece.size p →
  ∃ s' piece q, FindPiece a s = (s', Ret (Some piece)) ∧
                live s piece q ∧ Piece.is_free q = true ∧ a ≤ Piece.size q.
Proof.
  intros Hwf%reachable_wf Ha Hmod Hp Hfree Hsize.
  destruct (first_fit_exists s a h p Hwf Hp Hfree ltac:(lia)) as [piece Hfit].
  pose proof (FindPiece_spec s a Hwf Ha Hmod) as Hspec. rewrite Hfit in Hspec.
  destruct Hspec as (s' & Hfind & q & q' & _ & _ & Hq & Hqfree & Hqsize & _).
  by exists s', piece, q.
Qed.

Lemma FindPiece_complete_witness :
  reachable run_3 ∧ 0 < 1024 < 2 ^ 64 ∧ 1024 mod 512 = 0 ∧
  live run_3 2 (Piece.mk 2092544 8704 true (Some 1%nat) None 11) ∧
  true = true ∧ 1024 ≤ 2092544 ∧
  ∃ s' piece q, FindPiece 1024 run_3 = (s', Ret (Some piece)) ∧
                live run_3 piece q ∧ Piece.is_free q = true ∧ 1024 ≤ Piece.size q.
Proof.
  assert (H2 : live run_3 2 (Piece.mk 2092544 8704 true (Some 1%nat) None 11))
    by (split; vm_compute; reflexivity).
  split; [exact reachable_run_3|]. split; [lia|]. split; [reflexivity|].
  split; [exact H2|]. split; [reflexivity|]. split; [lia|].
  exact (FindPiece_complete run_3 1024 2 _ reachable_run_3 ltac:(lia) eq_refl H2 eq_refl
           ltac:(simpl; lia)).
Defined.

(** ** What [DoAllocate] returns *)

Lemma DoAllocate_ret_inv cudaMalloc s size s' r :
  wf s → device_ok cudaMalloc s → 0 < size < 2 ^ 64 →
  DoAllocate cudaMalloc size s = (s', Ret r) →
  size ≤ 2 ^ 64 - 512 ∧
  ∃ s1 piece p,
    (s1 = s ∨
     first_fit s (MemAlignedBytes size kCudaAlignSize) = None ∧
     ∃ m f, m ≠ 0 ∧ grown m f s s1) ∧
    wf s1 ∧ live s1 piece p ∧ r = Piece.ptr p ∧
    first_fit s1 (MemAlignedBytes size kCudaAlignSize) = Some piece ∧
    found (MemAlignedBytes size kCudaAlignSize) s1 piece s'.
Proof.
  intros Hwf Hdev Hsize H.
  destruct (decide (size ≤ 2 ^ 64 - 512)) as [Hle|Hgt]; cycle 1.
  { by destruct (DoAllocate_huge cudaMalloc s size Hwf Hdev ltac:(lia) s' r). }
  split; [done|].
  pose proof (DoAllocate_spec cudaMalloc s size Hwf Hdev ltac:(lia)) as Hspec.
  cbv zeta in Hspec.
  destruct (first_fit s _) as [piece|] eqn:Hfit.
  - destruct Hspec as (s1 & p & Hd & Hp & Hfound).
    rewrite Hd in H. injection H as <- <-.
    exists s, piece, p. split_and!; try done. by left.
  - destruct (_ <? _); [by rewrite Hspec in H|].
    destruct (Z.eqb_spec (cudaMalloc (final_allocate_bytes kCudaAlignSize
                (MemAlignedBytes size kCudaAlignSize))) 0) as [|Hnz];
      [by rewrite Hspec in H|].
    destruct Hspec as (s1 & s2 & piece & p & _ & Hwf1 & Hgrown & Hfit1 & _ & Hp & Hfound & Hd).
    rewrite Hd in H. injection H as <- <-.
    exists s1, piece, p. split_and!; try done. right. split; [done|]. eauto.
Qed.

Lemma found_room a s piece s' :
  0 < a → found a s piece s' → wf s →
  ∃ p p', live s piece p ∧ Piece.is_free p = true ∧
          live s' piece p' ∧ Piece.is_free p' = false ∧ Piece.ptr p' = Piece.ptr p ∧
          wf s' ∧ a ≤ Piece.size p' ∧
          (Piece.size p' = a ∨
           Piece.size p' < 2 * a ∧ Piece.size p' < a + kPieceSplitThreshold) ∧
          mem_ptr2block_ s' = mem_ptr2block_ s ∧
          total_memory_bytes_ s' = total_memory_bytes_ s ∧
          cuda_calls_ s' = cuda_calls_ s.
Proof.
  intros Ha (p & p' & Hwf' & Hout & Hp & Hfree & Hsize & Hp' & Hptr & Hused) Hwf.
  destruct Hout as (Hblk & Htot & Hcalls & _ & _ & Hsplit).
  exists p, p'. split_and!; try done.
  - destruct (split_condition _ _).
    + destruct Hsplit as (n & _ & _ & Hh & _). rewrite (proj1 Hp') in Hh.
      injection Hh as ->. simpl. lia.
    + destruct Hsplit as [Hps _]. destruct Hp' as [Hp' _]. rewrite Hps in Hp'.
      rewrite list_lookup_insert_eq in Hp' by (eapply lookup_lt_Some; apply Hp).
      injection Hp' as <-. done.
  - destruct (live_bounds s piece p (wf_structure s Hwf) Hp) as (? & Hend & ? & _).
    unfold piece_end, address_limit in Hend.
    pose proof (split_condition_spec (Piece.size p) a ltac:(lia) ltac:(lia)) as Hcond.
    destruct (split_condition _ _).
    + destruct Hsplit as (n & _ & _ & Hh & _). rewrite (proj1 Hp') in Hh.
      injection Hh as ->. by left.
    + destruct Hsplit as [Hps _]. destruct Hp' as [Hp' _]. rewrite Hps in Hp'.
      rewrite list_lookup_insert_eq in Hp' by (eapply lookup_lt_Some; apply Hp).
      injection Hp' as <-. simpl. right.
      assert (¬ (a ≤ Piece.size p - a ∨ kPieceSplitThreshold ≤ Piece.size p - a)).
      { intros Hc. apply Hcond in Hc. done. }
      lia.
Qed.

Lemma Deallocate_rejects s mem_ptr :
  wf s → mem_ptr ≠ 0 → ¬ held_in_use s mem_ptr →
  Deallocate mem_ptr s =
    (s, Fail (match ptr2piece_ s !! mem_ptr with
              | Some _ => CheckFailed
              | None => Undefined
              end)).
Proof.
  intros Hwf Hnz Hnot.
  destruct (ptr2piece_ s !! mem_ptr) as [h|] eqn:Hmap.
  - destruct (live_of_map s _ _ (wf_structure s Hwf) Hmap) as (p & [Hp _] & _).
    destruct (Piece.is_free p) eqn:Hfree.
    + by apply (Deallocate_free s mem_ptr h p).
    + destruct Hnot. by exists h, p.
  - by apply Deallocate_unknown.
Qed.

Lemma DoAllocate_first_fit cudaMalloc s size piece :
  wf s → 0 < size ≤ 2 ^ 64 - 512 →
  first_fit s (MemAlignedBytes size kCudaAlignSize) = Some piece →
  ∃ s' p, DoAllocate cudaMalloc size s = (s', Ret (Piece.ptr p)) ∧
          live s piece p ∧ Piece.is_free p = true ∧
          cuda_calls_ s' = cuda_calls_ s ∧
          mem_ptr2block_ s' = mem_ptr2block_ s ∧
          total_memory_bytes_ s' = total_memory_bytes_ s.
Proof.
  intros Hwf Hsize Hfit.
  destruct (aligned_size_spec size Hsize) as [Ha Hmod].
  pose proof (FindPiece_spec s (MemAlignedBytes size kCudaAlignSize) Hwf ltac:(lia) Hmod)
    as Hspec.
  rewrite Hfit in Hspec.
  destruct Hspec as (s' & Hfind & Hfound).
  destruct (found_room (MemAlignedBytes size kCudaAlignSize) s piece s' ltac:(lia) Hfound Hwf)
    as (p & p' & Hp & Hfree & Hp' & _ & Hptr & _ & _ & _ & Hblk & Htot & Hcalls).
  exists s', p. split_and!; try done.
  unfold DoAllocate. destruct (Z.eqb_spec size 0) as [|_]; [lia|].
  rewrite (bind_eval _ _ s s s) by done.
  rewrite (st_align s (wf_structure s Hwf)).
  rewrite (bind_eval _ _ _ _ _ Hfind). rewrite bind_ret.
  rewrite bool_decide_eq_true_2 by done. rewrite bind_check. simpl. rewrite bind_ret.
  rewrite (bind_eval _ _ _ _ _ (load_eval s' piece p' (proj1 Hp'))).
  unfold ret. by rewrite Hptr.
Qed.

(** X11. A request that a cached free piece can serve never reaches the
    device: [DoAllocate] returns the address of the first fit, and the
    blocks, the byte count and the calls of the device stay as they are. *)
Theorem DoAllocate_hit cudaMalloc s size piece :
  reachable s → 0 < size ≤ 2 ^ 64 - 512 →
  first_fit s (MemAlignedBytes size (alignment_ s)) = Some piece →
  ∃ s' p, DoAllocate cudaMalloc size s = (s', Ret (Piece.ptr p)) ∧
          live s piece p ∧ Piece.is_free p = true ∧
          cuda_calls_ s' = cuda_calls_ s ∧
          mem_ptr2block_ s' = mem_ptr2block_ s ∧
          total_memory_bytes_ s' = total_memory_bytes_ s.
Proof.
  intros Hwf%reachable_wf Hsize. rewrite (st_align s (wf_structure s Hwf)).
  by apply DoAllocate_first_fit.
Qed.

Lemma DoAllocate_hit_witness :
  reachable run_1 ∧ 0 < 4000 ≤ 2 ^ 64 - 512 ∧
  first_fit run_1 (MemAlignedBytes 4000 (alignment_ run_1)) = Some 1%nat ∧
  ∃ s' p, DoAllocate device_full 4000 run_1 = (s', Ret (Piece.ptr p)) ∧
          live run_1 1 p ∧ Piece.is_free p = true ∧
          cuda_calls_ s' = cuda_calls_ run_1 ∧
          mem_ptr2block_ s' = mem_ptr2block_ run_1 ∧
          total_memory_bytes_ s' = total_memory_bytes_ run_1.
Proof.
  assert (Hfit : first_fit run_1 (MemAlignedBytes 4000 (alignment_ run_1)) = Some 1%nat)
    by (vm_compute; reflexivity).
  split; [exact reachable_run_1|]. split; [lia|]. split; [exact Hfit|].
  exact (DoAllocate_hit device_full run_1 4000 1 reachable_run_1 ltac:(lia) Hfit).
Defined.

(** X12. An address [DoAllocate] returns for a positive size is not null,
    was not held in use before the call, and is held in use afterwards with
    room for at least the requested bytes, the room being a multiple of
    512. *)
Theorem DoAllocate_result cudaMalloc s size s' r :
  reachable s → device_ok cudaMalloc s → 0 < size < 2 ^ 64 →
  DoAllocate cudaMalloc size s = (s', Ret r) →
  r ≠ 0 ∧ ¬ held_in_use s r ∧
  ∃ room, allocation s' r room ∧ size ≤ room ∧ room mod 512 = 0.
Proof.
  intros Hwf%reachable_wf Hdev Hsize Hd.
  destruct (DoAllocate_ret_inv cudaMalloc s size s' r Hwf Hdev Hsize Hd)
    as (Hle & s1 & piece & p & Hs1 & Hwf1 & Hp & -> & _ & Hfound).
  destruct (aligned_size_spec size ltac:(lia)) as [Ha Hmod].
  destruct (found_room (MemAlignedBytes size kCudaAlignSize) s1 piece s' ltac:(lia) Hfound Hwf1)
    as (p0 & p' & Hp0 & Hfree & Hp' & Hused & Hptr & Hwf' & Hroom & _).
  rewrite <- (live_fun _ _ _ _ Hp Hp0) in *.
  destruct (live_bounds s1 piece p (wf_structure s1 Hwf1) Hp) as (Hpos & _).
  split_and!.
  - lia.
  - intros (h & q & Hmap & Hq & Hqused).
    destruct (live_of_map s _ h (wf_structure s Hwf) Hmap) as (q' & Hq' & Hqptr).
    assert (q' = q) as -> by (destruct Hq'; congruence).
    assert (Hq1 : live s1 h q).
    { destruct Hs1 as [->|(_ & m & f & _ & n & Hg)]; [done|].
      by apply Hg. }
    destruct (live_inj s1 h piece q p Hq1 Hp Hqptr) as [_ ->]. congruence.
  - exists (Piece.size p'). split_and!.
    + exists piece, p'. split_and!; try done.
      * rewrite <- Hptr. apply Hp'.
      * apply Hp'.
    + lia.
    + by destruct (st_size s' (wf_structure s' Hwf') piece p' Hp').
Qed.

Lemma DoAllocate_result_witness :
  reachable run_1 ∧ device_ok device_full run_1 ∧ 0 < 4000 < 2 ^ 64 ∧
  DoAllocate device_full 4000 run_1 = (run_2, Ret 4608) ∧
  4608 ≠ 0 ∧ ¬ held_in_use run_1 4608 ∧
  ∃ room, allocation run_2 4608 room ∧ 4000 ≤ room ∧ room mod 512 = 0.
Proof.
  assert (Hd : DoAllocate device_full 4000 run_1 = (run_2, Ret 4608))
    by (vm_compute; reflexivity).
  split; [exact reachable_run_1|]. split; [exact (device_ok_full run_1)|].
  split; [lia|]. split; [exact Hd|].
  exact (DoAllocate_result device_full run_1 4000 run_2 4608 reachable_run_1
           (device_ok_full run_1) ltac:(lia) Hd).
Defined.

(** X13. The room of an address [DoAllocate] returns wastes little: it is
    exactly the aligned size when the chosen piece was split, and otherwise
    less than twice the aligned size and less than 128 MiB above it. *)
Theorem DoAllocate_room cudaMalloc s size s' r :
  reachable s → device_ok cudaMalloc s → 0 < size < 2 ^ 64 →
  DoAllocate cudaMalloc size s = (s', Ret r) →
  let a := MemAlignedBytes size (alignment_ s) in
  size ≤ a < size + 512 ∧
  ∃ room, allocation s' r room ∧
          (room = a ∨ a < room ∧ room < 2 * a ∧ room < a + kPieceSplitThreshold).
Proof.
  intros Hwf%reachable_wf Hdev Hsize Hd. rewrite (st_align s (wf_structure s Hwf)).
  intros a.
  destruct (DoAllocate_ret_inv cudaMalloc s size s' r Hwf Hdev Hsize Hd)
    as (Hle & s1 & piece & p & Hs1 & Hwf1 & Hp & -> & _ & Hfound).
  destruct (aligned_size_spec size ltac:(lia)) as [Ha Hmod]. fold a in Ha, Hmod, Hfound.
  destruct (found_room a s1 piece s' ltac:(lia) Hfound Hwf1)
    as (p0 & p' & Hp0 & Hfree & Hp' & Hused & Hptr & Hwf' & Hroom & Hbound & _).
  rewrite <- (live_fun _ _ _ _ Hp Hp0) in *.
  split; [done|]. exists (Piece.size p'). split.
  - exists piece, p'. split_and!; try done.
    + rewrite <- Hptr. apply Hp'.
    + apply Hp'.
  - destruct Hbound as [?|[? ?]]; [by left|].
    destruct (decide (Piece.size p' = a)); [by left|right; lia].
Qed.

Lemma DoAllocate_room_witness :
  reachable run_1 ∧ device_ok device_full run_1 ∧ 0 < 4000 < 2 ^ 64 ∧
  DoAllocate device_full 4000 run_1 = (run_2, Ret 4608) ∧
  let a := MemAlignedBytes 4000 (alignment_ run_1) in
  4000 ≤ a < 4000 + 512 ∧
  ∃ room, allocation run_2 4608 room ∧
          (room = a ∨ a < room ∧ room < 2 * a ∧ room < a + kPieceSplitThreshold).
Proof.
  assert (Hd : DoAllocate device_full 4000 run_1 = (run_2, Ret 4608))
    by (vm_compute; reflexivity).
  split; [exact reachable_run_1|]. split; [exact (device_ok_full run_1)|].
  split; [lia|]. split; [exact Hd|].
  exact (DoAllocate_room device_full run_1 4000 run_2 4608 reachable_run_1
           (device_ok_full run_1) ltac:(lia) Hd).
Defined.

(** X14. A request of more than [2^64 - 512] bytes never returns: the
    aligned size wraps around to [0], and the call ends in a failure,
    whatever the device answers. *)
Theorem DoAllocate_huge_fails cudaMalloc s size :
  reachable s → device_ok cudaMalloc s → 2 ^ 64 - 512 < size < 2 ^ 64 →
  MemAlignedBytes size (alignment_ s) = 0 ∧
  ∃ s' f, DoAllocate cudaMalloc size s = (s', Fail f).
Proof.
  intros Hwf%reachable_wf Hdev Hsize. split.
  - rewrite (st_align s (wf_structure s Hwf)). by apply aligned_size_huge.
  - pose proof (DoAllocate_huge cudaMalloc s size Hwf Hdev Hsize) as Hnever.
    destruct (DoAllocate cudaMalloc size s) as [s' [r|f]]; [|by exists s', f].
    by destruct (Hnever s' r).
Qed.

Lemma DoAllocate_huge_fails_witness :
  reachable run_1 ∧ device_ok device_full run_1 ∧
  2 ^ 64 - 512 < 2 ^ 64 - 1 < 2 ^ 64 ∧
  MemAlignedBytes (2 ^ 64 - 1) (alignment_ run_1) = 0 ∧
  ∃ s' f, DoAllocate device_full (2 ^ 64 - 1) run_1 = (s', Fail f).
Proof.
  split; [exact reachable_run_1|]. split; [exact (device_ok_full run_1)|].
  split; [lia|].
  exact (DoAllocate_huge_fails device_full run_1 (2 ^ 64 - 1) reachable_run_1
           (device_ok_full run_1) ltac:(lia)).
Defined.

(** ** Freeing *)

Lemma freed_lookup s s' h p :
  live s h p → freed h p s s' →
  ptr2piece_ s' !! Piece.ptr p =
    match free_neighbour s (Piece.prev p) with
    | Some _ => None
    | None => Some h
    end ∧
  ¬ held_in_use s' (Piece.ptr p).
Proof.
  intros Hp (_ & _ & _ & _ & Hgone & ps & b & Hps & Hfree & Hptr & _).
  destruct (free_neighbour s (Piece.prev p)) as [xq|] eqn:Hpv.
  - pose proof (Hgone xq eq_refl) as Hnone. split; [done|].
    intros (h' & q & Hmap & _). congruence.
  - simpl in Hps, Hptr. destruct Hps as [Hps Hmap]. rewrite Hptr in Hmap.
    split; [done|]. intros (h' & q & Hmap' & Hq & Hused). congruence.
Qed.

(** X15. An address [DoAllocate] has returned can be handed to
    [Deallocate]: the call returns, the address is no longer held, and the
    memory stays with the allocator (no block is given back to the
    device). *)
Theorem DoAllocate_then_Deallocate cudaMalloc s size s1 r :
  reachable s → device_ok cudaMalloc s → 0 < size < 2 ^ 64 →
  DoAllocate cudaMalloc size s = (s1, Ret r) →
  ∃ s2, Deallocate r s1 = (s2, Ret tt) ∧ ¬ held_in_use s2 r ∧
        mem_ptr2block_ s2 = mem_ptr2block_ s1 ∧
        total_memory_bytes_ s2 = total_memory_bytes_ s1 ∧
        cuda_calls_ s2 = cuda_calls_ s1.
Proof.
  intros Hwf%reachable_wf Hdev Hsize Hd.
  destruct (DoAllocate_ret_inv cudaMalloc s size s1 r Hwf Hdev Hsize Hd)
    as (Hle & s0 & piece & p & _ & Hwf0 & Hp & -> & _ & Hfound).
  destruct (aligned_size_spec size ltac:(lia)) as [Ha Hmod].
  destruct (found_room (MemAlignedBytes size kCudaAlignSize) s0 piece s1 ltac:(lia)
              Hfound Hwf0)
    as (p0 & p' & Hp0 & Hfree & Hp' & Hused & Hptr & Hwf1 & _).
  rewrite <- (live_fun _ _ _ _ Hp Hp0) in *.
  destruct (live_bounds s0 piece p (wf_structure s0 Hwf0) Hp) as (Hpos & _).
  destruct (Deallocate_spec s1 (Piece.ptr p) piece p' Hwf1 ltac:(lia))
    as (s2 & Hfree2 & Hwf2 & Hfreed); [by rewrite <- Hptr; apply Hp'|apply Hp'|done|].
  exists s2. destruct (freed_lookup s1 s2 piece p' Hp' Hfreed) as [_ Hnot].
  rewrite Hptr in Hnot.
  destruct Hfreed as (? & ? & ? & _). by split_and!.
Qed.

Lemma DoAllocate_then_Deallocate_witness :
  reachable run_1 ∧ device_ok device_full run_1 ∧ 0 < 4000 < 2 ^ 64 ∧
  DoAllocate device_full 4000 run_1 = (run_2, Ret 4608) ∧
  ∃ s2, Deallocate 4608 run_2 = (s2, Ret tt) ∧ ¬ held_in_use s2 4608 ∧
        mem_ptr2block_ s2 = mem_ptr2block_ run_2 ∧
        total_memory_bytes_ s2 = total_memory_bytes_ run_2 ∧
        cuda_calls_ s2 = cuda_calls_ run_2.
Proof.
  assert (Hd : DoAllocate device_full 4000 run_1 = (run_2, Ret 4608))
    by (vm_compute; reflexivity).
  split; [exact reachable_run_1|]. split; [exact (device_ok_full run_1)|].
  split; [lia|]. split; [exact Hd|].
  exact (DoAllocate_then_Deallocate device_full run_1 4000 run_2 4608 reachable_run_1
           (device_ok_full run_1) ltac:(lia) Hd).
Defined.

(** X16. A second [Deallocate] of an address that was just freed never
    returns and changes nothing. It is stopped by the check on [is_free]
    only when the piece was not merged into a free physical prev; when it
    was, its address is gone from the address map and the second call
    reads through the end iterator. *)
Theorem Deallocate_twice s mem_ptr h p :
  reachable s → mem_ptr ≠ 0 → ptr2piece_ s !! mem_ptr = Some h →
  pieces_ s !! h = Some p → Piece.is_free p = false →
  ∃ s', Deallocate mem_ptr s = (s', Ret tt) ∧
        Deallocate mem_ptr s' =
          (s', Fail (match free_neighbour s (Piece.prev p) with
                     | Some _ => Undefined
                     | None => CheckFailed
                     end)).
Proof.
  intros Hwf%reachable_wf Hnz Hmap Hp Hused.
  destruct (live_of_map s _ _ (wf_structure s Hwf) Hmap) as (p' & Hp' & Hptr).
  assert (p' = p) as -> by (destruct Hp'; congruence).
  destruct (Deallocate_spec s mem_ptr h p Hwf Hnz Hmap Hp Hused) as (s' & Hd & Hwf' & Hfreed).
  exists s'. split; [done|].
  destruct (freed_lookup s s' h p Hp' Hfreed) as [Hlook Hnot]. rewrite Hptr in Hlook, Hnot.
  rewrite (Deallocate_rejects s' mem_ptr Hwf' Hnz Hnot), Hlook.
  by destruct (free_neighbour s (Piece.prev p)).
Qed.

Lemma Deallocate_twice_witness :
  reachable run_3 ∧ 4608 ≠ 0 ∧ ptr2piece_ run_3 !! 4608 = Some 1%nat ∧
  pieces_ run_3 !! 1%nat = Some (Piece.mk 4096 4608 false (Some 0%nat) (Some 2%nat) (-1)) ∧
  Piece.is_free (Piece.mk 4096 4608 false (Some 0%nat) (Some 2%nat) (-1)) = false ∧
  ∃ s', Deallocate 4608 run_3 = (s', Ret tt) ∧
        Deallocate 4608 s' =
          (s', Fail (match free_neighbour run_3 (Some 0%nat) with
                     | Some _ => Undefined
                     | None => CheckFailed
                     end)).
Proof.
  assert (Hmap : ptr2piece_ run_3 !! 4608 = Some 1%nat) by (vm_compute; reflexivity).
  assert (Hp : pieces_ run_3 !! 1%nat =
               Some (Piece.mk 4096 4608 false (Some 0%nat) (Some 2%nat) (-1)))
    by (vm_compute; reflexivity).
  split; [exact reachable_run_3|]. split; [lia|]. split; [exact Hmap|].
  split; [exact Hp|]. split; [reflexivity|].
  exact (Deallocate_twice run_3 4608 1 _ reachable_run_3 ltac:(lia) Hmap Hp eq_refl).
Defined.

(** ** The program holds its blocks until it is destroyed *)






(** ** The device memory the allocator holds *)

Lemma outstanding_frees ks calls :
  outstanding ((CudaFree <$> ks) ++ calls) = outstanding calls ∖ list_to_set ks.
Proof.
  induction ks as [|k ks IH].
  - simpl. apply set_eq. intros x. rewrite elem_of_difference, elem_of_empty. tauto.
  - rewrite fmap_cons, <- app_comm_cons. cbn [outstanding]. rewrite IH.
    apply set_eq. intros x. rewrite list_to_set_cons.
    rewrite !elem_of_difference, elem_of_union, elem_of_singleton. tauto.
Qed.

Lemma frees_valid_frees ks calls :
  NoDup ks → (∀ k, k ∈ ks → k ∈ outstanding calls) → frees_valid calls →
  frees_valid ((CudaFree <$> ks) ++ calls).
Proof.
  intros Hnd Hin Hok. induction Hnd as [|k ks Hk Hnd IH]; [done|].
  rewrite fmap_cons, <- app_comm_cons. cbn [frees_valid]. split.
  - rewrite outstanding_frees, elem_of_difference, elem_of_list_to_set.
    split; [apply Hin; by left|done].
  - apply IH. intros k' Hk'. apply Hin. by right.
Qed.

Lemma free_blocks_eval blocks s :
  free_blocks blocks s =
    (set_cuda_calls ((CudaFree <$> reverse blocks.*1) ++ cuda_calls_ s) s, Ret tt).
Proof.
  revert s. induction blocks as [|[k blk] blocks IH]; intros s.
  - by destruct s.
  - cbn [free_blocks]. rewrite (bind_eval _ _ s _ tt) by reflexivity. rewrite IH.
    rewrite fmap_cons, reverse_cons, fmap_app, <- app_assoc. done.
Qed.

Lemma reachable_calls s :
  reachable s →
  dom (mem_ptr2block_ s) = outstanding (cuda_calls_ s) ∧ frees_valid (cuda_calls_ s).
Proof.
  induction 1 as [|s cm size s' r Hreach IH Hdev Hsize Hd|s mem_ptr s' Hreach IH Hd|
                  s s' r Hreach IH Hd].
  - split; [|done]. simpl. apply dom_empty_L.
  - pose proof (reachable_wf s Hreach) as Hwf. destruct IH as [IHdom IHok].
    destruct (decide (size = 0)) as [->|Hnz].
    { rewrite DoAllocate_zero in Hd. by injection Hd as <- _. }
    destruct (DoAllocate_ret_inv cm s size s' r Hwf Hdev ltac:(lia) Hd)
      as (Hle & s1 & piece & p & Hs1 & Hwf1 & _ & _ & _ & Hfound).
    destruct (aligned_size_spec size ltac:(lia)) as [Ha _].
    destruct (found_room (MemAlignedBytes size kCudaAlignSize) s1 piece s' ltac:(lia)
                Hfound Hwf1) as (_ & _ & _ & _ & _ & _ & _ & _ & _ & _ & Hblk & _ & Hcalls).
    rewrite Hblk, Hcalls.
    destruct Hs1 as [->|(_ & m & f & Hm & n & _ & Hnone & Hblocks & _ & _ & _ & _ & Hc1 & _)];
      [done|].
    rewrite Hblocks, Hc1. simpl. destruct (Z.eqb_spec m 0) as [|_]; [done|].
    rewrite dom_insert_L, IHdom. done.
  - pose proof (reachable_wf s Hreach) as Hwf.
    destruct (decide (mem_ptr = 0)) as [->|Hnz].
    { rewrite Deallocate_null in Hd. by injection Hd as <-. }
    destruct (Deallocate_ret s mem_ptr s' Hwf Hnz Hd)
      as (h & p & _ & _ & _ & _ & Hblk & _ & Hcalls & _).
    by rewrite Hblk, Hcalls.
  - pose proof (reachable_wf s Hreach) as Hwf. destruct IH as [IHdom IHok].
    destruct (DeallocateFreeBlockForGarbageCollection_spec s Hwf)
      as (s1 & Hgc & _ & Hblocks & _ & _ & (ks & Hks & Hcalls) & _).
    rewrite Hgc in Hd. injection Hd as <- _.
    assert (Hkeys : ∀ a, a ∈ ks ↔ ∃ blk, mem_ptr2block_ s !! a = Some blk ∧ idle s blk).
    { intros a. rewrite Hks. by apply idle_blocks_keys, wf_settled. }
    rewrite Hcalls. split.
    + rewrite outstanding_frees, <- IHdom. apply set_eq. intros a.
      rewrite elem_of_dom, elem_of_difference, elem_of_dom, elem_of_list_to_set, Hkeys.
      split.
      * intros [blk Hblk]. apply Hblocks in Hblk as [Hblk Hnot].
        split; [by exists blk|]. intros (blk' & Hblk' & Hidle). congruence.
      * intros [[blk Hblk] Hnot]. exists blk. apply Hblocks. split; [done|].
        intros Hidle. apply Hnot. by exists blk.
    + apply frees_valid_frees; [| |done].
      * rewrite Hks. apply idle_blocks_NoDup.
      * intros k Hk. apply Hkeys in Hk as (blk & Hblk & _).
        rewrite <- IHdom. apply elem_of_dom. by exists blk.
Qed.

(** X18. In a reachable state the blocks the allocator holds are exactly
    the addresses the device has handed out and not got back, and every
    [cudaFree] so far was of an address then outstanding: the allocator
    loses no device memory and frees nothing twice or that it does not
    hold. *)
Theorem blocks_are_outstanding s :
  reachable s →
  (∀ a, is_Some (mem_ptr2block_ s !! a) ↔ a ∈ outstanding (cuda_calls_ s)) ∧
  frees_valid (cuda_calls_ s).
Proof.
  intros Hreach. destruct (reachable_calls s Hreach) as [Hdom Hok].
  split; [|done]. intros a. by rewrite <- Hdom, elem_of_dom.
Qed.

Lemma blocks_are_outstanding_witness :
  reachable run_4 ∧
  (∀ a, is_Some (mem_ptr2block_ run_4 !! a) ↔ a ∈ outstanding (cuda_calls_ run_4)) ∧
  frees_valid (cuda_calls_ run_4).
Proof.
  split; [exact reachable_run_4|]. exact (blocks_are_outstanding run_4 reachable_run_4).
Defined.

(** X19. The destructor of a reachable allocator gives every block it
    holds back to the device, each once: afterwards no address is
    outstanding. The early return on a byte count of [0] loses nothing,
    since the count is [0] only when no block is held. *)
Theorem destructor_frees_all s :
  reachable s →
  ∃ s' ks, CachingAllocator_delete s = (s', Ret tt) ∧
           ks ≡ₚ (map_to_list (mem_ptr2block_ s)).*1 ∧
           cuda_calls_ s' = (CudaFree <$> ks) ++ cuda_calls_ s ∧
           outstanding (cuda_calls_ s') = ∅ ∧ frees_valid (cuda_calls_ s').
Proof.
  intros Hreach. pose proof (reachable_wf s Hreach) as Hwf.
  pose proof (wf_structure s Hwf) as Hst.
  destruct (reachable_calls s Hreach) as [Hdom Hok].
  assert (Hkeys : ∀ a, a ∈ (map_to_list (mem_ptr2block_ s)).*1 ↔ a ∈ dom (mem_ptr2block_ s)).
  { intros a. rewrite elem_of_dom, list_elem_of_fmap. split.
    - intros ([a' blk] & -> & Hin%elem_of_map_to_list). by exists blk.
    - intros [blk Hblk]. exists (a, blk). split; [done|]. by apply elem_of_map_to_list. }
  unfold CachingAllocator_delete. rewrite (bind_eval _ _ s s s) by done.
  destruct (Z.eqb_spec (total_memory_bytes_ s) 0) as [Hzero|Hpos].
  - assert (Hnil : map_to_list (mem_ptr2block_ s) = []).
    { rewrite (st_total s Hst), blocks_total_list in Hzero.
      assert (Hsizes : ∀ kb, kb ∈ map_to_list (mem_ptr2block_ s) → 0 < Block.size kb.2).
      { intros [a blk] Hin%elem_of_map_to_list.
        by destruct (st_block s Hst a blk Hin) as (_ & _ & ? & _). }
      pose proof (blocks_size_pos _ Hsizes) as Hsz. rewrite Hzero in Hsz.
      destruct (map_to_list (mem_ptr2block_ s)) as [|kb l]; [done|].
      by rewrite bool_decide_eq_true_2 in Hsz. }
    exists s, []. rewrite Hnil. split_and!; try done.
    rewrite <- Hdom. apply map_to_list_empty_iff in Hnil. rewrite Hnil. apply dom_empty_L.
  - rewrite free_blocks_eval.
    eexists _, (reverse (map_to_list (mem_ptr2block_ s)).*1). split_and!.
    + done.
    + apply reverse_Permutation.
    + done.
    + simpl. rewrite outstanding_frees, <- Hdom. apply set_eq. intros a.
      rewrite elem_of_difference, elem_of_list_to_set, elem_of_reverse, Hkeys, elem_of_empty.
      tauto.
    + simpl. apply frees_valid_frees; [| |done].
      * rewrite reverse_Permutation. apply NoDup_fst_map_to_list.
      * intros k Hk. rewrite <- Hdom. apply Hkeys. by apply elem_of_reverse.
Qed.

Lemma destructor_frees_all_witness :
  reachable run_2 ∧
  ∃ s' ks, CachingAllocator_delete run_2 = (s', Ret tt) ∧
           ks ≡ₚ (map_to_list (mem_ptr2block_ run_2)).*1 ∧
           cuda_calls_ s' = (CudaFree <$> ks) ++ cuda_calls_ run_2 ∧
           outstanding (cuda_calls_ s') = ∅ ∧ frees_valid (cuda_calls_ s').
Proof.
  split; [exact reachable_run_2|]. exact (destructor_frees_all run_2 reachable_run_2).
Defined.

(** ** Other allocations are left alone *)

Lemma used_kept_refl ex s : used_kept ex s s.
Proof. intros x q Hq Hused _. by exists q. Qed.

Lemma used_kept_trans ex s1 s2 s3 :
  used_kept ex s1 s2 → used_kept None s2 s3 → used_kept ex s1 s3.
Proof.
  intros H12 H23 x q Hq Hused Hex.
  destruct (H12 x q Hq Hused Hex) as (q2 & Hq2 & Hused2 & Hsize2 & Hptr2).
  destruct (H23 x q2 Hq2 Hused2 ltac:(done)) as (q3 & Hq3 & Hused3 & Hsize3 & Hptr3).
  exists q3. split_and!; [done|done|congruence|congruence].
Qed.

Lemma used_kept_weaken ex s s' : used_kept None s s' → used_kept ex s s'.
Proof. intros H x q Hq Hused _. by apply H. Qed.

Lemma used_kept_update s s' h p q :
  pieces_ s' = <[h := q]> (pieces_ s) → ptr2piece_ s' = ptr2piece_ s →
  pieces_ s !! h = Some p →
  Piece.ptr q = Piece.ptr p → Piece.size q = Piece.size p →
  Piece.is_free q = Piece.is_free p →
  used_kept None s s'.
Proof.
  intros Hps Hmap Hp Hptr Hsize Hfree x qx Hqx Hused _.
  destruct (decide (x = h)) as [->|Hne].
  - assert (qx = p) as -> by (destruct Hqx; congruence).
    exists q. split_and!; try congruence. by apply (live_update_same s s' h q p).
  - exists qx. split_and!; try done. by apply (live_update_other s s' h q).
Qed.

Lemma used_kept_free s s' h p q :
  pieces_ s' = <[h := q]> (pieces_ s) → ptr2piece_ s' = ptr2piece_ s →
  pieces_ s !! h = Some p → Piece.is_free p = true →
  used_kept None s s'.
Proof.
  intros Hps Hmap Hp Hfree x qx Hqx Hused _.
  destruct (decide (x = h)) as [->|Hne].
  - assert (qx = p) as -> by (destruct Hqx; congruence). congruence.
  - exists qx. split_and!; try done. by apply (live_update_other s s' h q).
Qed.

Lemma used_kept_allocation s s' mem_ptr room :
  structure s → used_kept None s s' → allocation s mem_ptr room →
  allocation s' mem_ptr room.
Proof.
  intros Hst Hkept (h & p & Hmap & Hp & Hused & Hsize).
  destruct (live_of_map s _ _ Hst Hmap) as (p' & Hp' & Hptr).
  assert (p' = p) as -> by (destruct Hp'; congruence).
  destruct (Hkept h p Hp' Hused ltac:(done)) as (q & [Hq Hqmap] & Hqused & Hqsize & Hqptr).
  exists h, q. split_and!; [congruence|done|done|congruence].
Qed.

Lemma TakePiece_kept s bn b l1 piece l2 a s' :
  wf s → 0 ≤ bn → bins_ s !! Z.to_nat bn = Some b → Bin.pieces b = l1 ++ piece :: l2 →
  0 < a → a mod 512 = 0 → fits (pieces_ s) a piece = true →
  TakePiece bn (length l1) piece a s = (s', Ret tt) → used_kept None s s'.
Proof.
  intros Hwf Hbn Hb Hsplit Ha Hmod Hfits.
  destruct (taken_spec s bn b l1 piece l2 Hwf Hbn Hb Hsplit)
    as (p & Hp & Hfree & Hpbn & Hwf1 & Hp1 & Hnx1).
  assert (Hsize : a ≤ Piece.size p).
  { unfold fits in Hfits. destruct Hp as [Hp _]. rewrite Hp in Hfits. lia. }
  set (s1 := taken_state piece p b (l1 ++ l2) s) in *.
  set (p1 := Piece.set_is_free false (Piece.set_bin_num kInvalidBinNum p)) in *.
  assert (Hk1 : used_kept None s s1).
  { apply (used_kept_free s s1 piece p p1).
    - unfold s1, taken_state, flag_state, unbin_state. simpl.
      by rewrite list_insert_insert_eq.
    - reflexivity.
    - apply Hp.
    - done. }
  destruct (live_bounds s piece p (wf_structure s Hwf) Hp) as (? & Hend & ? & ?).
  unfold piece_end, address_limit in Hend.
  unfold TakePiece.
  rewrite (TakePiece_eval_taken s bn b l1 piece l2 p) by (done || apply Hp).
  fold s1. rewrite (bind_eval _ _ _ _ _ (load_eval s1 piece p1 (proj1 Hp1))).
  change (Piece.size p1) with (Piece.size p).
  destruct (split_condition (Piece.size p) a) eqn:Hcond.
  - assert (a < Piece.size p) by (apply split_condition_lt; [lia..|done]).
    destruct (SplitPiece_spec s1 piece p1 a)
      as (s2 & n & b' & l' & Halloc & Hsp & Hst' & Hfi' & Hne & Hnl & Hb' & Hmap2 & Hblk2 &
          Htot2 & Hcalls2 & Hbins2 & Hsame2 & Hst2 & Hspare & Hlive2);
      try done; try apply Hwf1.
    simpl in Hsp. rewrite Hsp. intros [= <-].
    intros x q Hq Hused _.
    assert (Hxp : x ≠ piece).
    { intros ->. rewrite (live_fun _ _ _ _ Hq Hp) in Hused. congruence. }
    destruct (Hk1 x q Hq Hused ltac:(done)) as (q1 & Hq1 & Hused1 & Hsize1 & Hptr1).
    assert (Hq2 : live s2 x q1) by (by apply Hlive2).
    assert (Hp2 : live s2 piece p1) by (by apply Hlive2).
    destruct (carve_live_fwd s2 piece n p1 a Hst2 Hp2 Hspare ltac:(simpl; lia) x q1 Hq2)
      as (q' & Hq' & Hptr' & Hfree' & _ & Hsz' & _).
    exists q'. destruct (Hsz' Hxp) as [Hsize' _]. split_and!; try congruence.
    eapply (live_update_other (carve_state piece n p1 a s2) _ n);
      [reflexivity|reflexivity|by eapply carve_not_live|done].
  - unfold ret. by intros [= <-].
Qed.

Lemma FindPiece_in_bin_kept s a bn b pre rest s' r :
  wf s → 0 ≤ bn → bins_ s !! Z.to_nat bn = Some b → Bin.pieces b = pre ++ rest →
  0 < a → a mod 512 = 0 →
  FindPiece_in_bin a bn (length pre) rest s = (s', Ret r) → used_kept None s s'.
Proof.
  intros Hwf Hbn Hb Hsplit Ha Hmod. revert pre Hsplit.
  induction rest as [|x rest IH]; intros pre Hsplit; simpl.
  { unfold ret. intros [= <- _]. apply used_kept_refl. }
  destruct (fi_bins _ _ _ _ (wf_filing s Hwf) _ _ Hb) as (_ & _ & Helems).
  destruct (Helems x) as (_ & px & Hpx & Hfree & _).
  { rewrite Hsplit. apply elem_of_app. right. by left. }
  destruct (st_size s (wf_structure s Hwf) x px Hpx) as [_ Hxmod].
  rewrite (bind_eval _ _ _ _ _ (load_eval s x px (proj1 Hpx))).
  rewrite Hfree, bind_check.
  rewrite (bind_eval _ _ s s s) by done.
  rewrite (st_align s (wf_structure s Hwf)), (IsAlignedSize_true _ Hxmod), bind_check.
  assert (Hfits : fits (pieces_ s) a x = (a <=? Piece.size px)).
  { unfold fits. destruct Hpx as [Hpx _]. by rewrite Hpx. }
  destruct (a <=? Piece.size px) eqn:Hle.
  - intros H. apply bind_ret_inv in H as (s1 & [] & H & H'). injection H' as <- _.
    apply (TakePiece_kept s bn b pre x rest a s1); try done.
  - specialize (IH (pre ++ [x])). rewrite length_app in IH. simpl in IH.
    replace (length pre + 1)%nat with (S (length pre)) in IH by lia.
    apply IH. by rewrite <- app_assoc.
Qed.

Lemma FindPiece_from_kept s a n bn s' r :
  wf s → 0 ≤ bn → bn + Z.of_nat n = kBinNumSize → 0 < a → a mod 512 = 0 →
  FindPiece_from a n bn s = (s', Ret r) → used_kept None s s'.
Proof.
  intros Hwf Hbn Hn Ha Hmod. revert bn Hbn Hn.
  induction n as [|n IH]; intros bn Hbn Hn; simpl.
  { unfold ret. intros [= <- _]. apply used_kept_refl. }
  destruct (bins_lookup _ _ _ s bn (wf_filing s Hwf)) as [b Hb]; [lia|].
  rewrite (bind_eval _ _ _ _ _ (bins_at_eval s bn b Hbn Hb)).
  intros H. apply bind_ret_inv in H as (s1 & r1 & H1 & H).
  pose proof (FindPiece_in_bin_kept s a bn b [] (Bin.pieces b) s1 r1 Hwf Hbn Hb eq_refl
                Ha Hmod H1) as Hk1.
  destruct r1 as [piece|].
  - unfold ret in H. by injection H as <- _.
  - pose proof (FindPiece_in_bin_spec s a bn b [] (Bin.pieces b) Hwf Hbn Hb eq_refl Ha Hmod)
      as Hspec.
    simpl in Hspec.
    destruct (List.find _ _).
    + destruct Hspec as (s2 & Hspec & _). rewrite Hspec in H1. discriminate.
    + rewrite Hspec in H1. injection H1 as <-.
      apply (IH (bn + 1)); [lia|lia|done].
Qed.

Lemma FindPiece_kept s a s' r :
  wf s → 0 < a < 2 ^ 64 → a mod 512 = 0 →
  FindPiece a s = (s', Ret r) → used_kept None s s'.
Proof.
  intros Hwf Ha Hmod. unfold FindPiece.
  pose proof (BinNum4BinSize_range a ltac:(lia)).
  apply FindPiece_from_kept; try done; lia.
Qed.

Lemma DoAllocate_kept cudaMalloc s size s' r :
  wf s → device_ok cudaMalloc s → 0 ≤ size < 2 ^ 64 →
  DoAllocate cudaMalloc size s = (s', Ret r) → used_kept None s s'.
Proof.
  intros Hwf Hdev Hsize Hd.
  destruct (decide (size = 0)) as [->|Hnz].
  { rewrite DoAllocate_zero in Hd. injection Hd as <- _. apply used_kept_refl. }
  destruct (decide (size ≤ 2 ^ 64 - 512)) as [Hle|Hgt]; cycle 1.
  { by destruct (DoAllocate_huge cudaMalloc s size Hwf Hdev ltac:(lia) s' r). }
  destruct (aligned_size_spec size ltac:(lia)) as [Ha Hmod].
  set (a := MemAlignedBytes size kCudaAlignSize) in *.
  unfold DoAllocate in Hd. destruct (Z.eqb_spec size 0) as [|_]; [lia|].
  rewrite (bind_eval _ _ s s s) in Hd by done.
  rewrite (st_align s (wf_structure s Hwf)) in Hd. fold a in Hd.
  apply bind_ret_inv in Hd as (s1 & r1 & Hfind & Hd).
  pose proof (FindPiece_kept s a s1 r1 Hwf ltac:(lia) Hmod Hfind) as Hk1.
  apply bind_ret_inv in Hd as (s2 & r2 & Hgrow & Hd).
  assert (Hs' : s' = s2).
  { apply bind_ret_inv in Hd as (s3 & [] & H3 & Hd). apply RV_CHECK_state in H3 as ->.
    apply bind_ret_inv in Hd as (s4 & h4 & H4 & Hd).
    assert (s4 = s2) as -> by (destruct r2; unfold deref, ret, fail in H4; congruence).
    apply bind_ret_inv in Hd as (s5 & p5 & H5 & Hd).
    unfold load in H5. destruct (pieces_ s2 !! h4); [|done].
    injection H5 as <- _. unfold ret in Hd. congruence. }
  subst s'. eapply used_kept_trans; [exact Hk1|].
  destruct r1 as [piece|].
  { unfold ret in Hgrow. injection Hgrow as <- _. apply used_kept_refl. }
  pose proof (FindPiece_spec s a Hwf ltac:(lia) Hmod) as Hspec.
  destruct (first_fit s a).
  { destruct Hspec as (sx & Hspec & _). rewrite Hspec in Hfind. discriminate. }
  rewrite Hspec in Hfind. injection Hfind as <-.
  apply bind_ret_inv in Hgrow as (s3 & ext & Hext & Hgrow).
  pose proof (AllocateBlockToExtendTotalMem_spec cudaMalloc s a Hwf Hdev ltac:(lia)) as Hg.
  cbv zeta in Hg.
  assert (Hk3 : used_kept None s s3 ∧ (ext = true → wf s3)).
  { destruct (_ <? a).
    - rewrite Hg in Hext. injection Hext as <- <-. split; [apply used_kept_refl|done].
    - destruct (_ =? 0).
      + rewrite Hg in Hext. injection Hext as <- <-. split; [|done].
        intros x q Hq Hused _. by exists q.
      + destruct Hg as (s4 & Hg & Hwf4 & n & _ & _ & _ & _ & _ & _ & _ & _ & Hlive).
        rewrite Hg in Hext. injection Hext as <- <-. split; [|done].
        intros x q Hq Hused _. exists q. split_and!; try done. by apply Hlive. }
  destruct Hk3 as [Hk3 Hwf3]. eapply used_kept_trans; [exact Hk3|].
  destruct ext.
  - by apply (FindPiece_kept s3 a s2 r2 (Hwf3 eq_refl) ltac:(lia) Hmod).
  - unfold ret in Hgrow. injection Hgrow as <- _. apply used_kept_refl.
Qed.

(** X20. [DoAllocate] leaves the other allocations alone: an address held
    in use before the call is held in use afterwards, with the same room. *)
Theorem DoAllocate_keeps_allocations cudaMalloc s size s' r mem_ptr room :
  reachable s → device_ok cudaMalloc s → 0 ≤ size < 2 ^ 64 →
  DoAllocate cudaMalloc size s = (s', Ret r) →
  allocation s mem_ptr room →
  allocation s' mem_ptr room ∧ (0 < size → r ≠ mem_ptr).
Proof.
  intros Hwf%reachable_wf Hdev Hsize Hd Halloc. split.
  - apply (used_kept_allocation s s'); [apply Hwf| |done].
    by apply (DoAllocate_kept cudaMalloc s size s' r).
  - intros Hpos ->.
    destruct (DoAllocate_ret_inv cudaMalloc s size s' mem_ptr Hwf Hdev ltac:(lia) Hd)
      as (Hle & s1 & piece & p & Hs1 & Hwf1 & Hp & Hr & _ & Hfound).
    destruct Hfound as (p0 & _ & _ & _ & Hp0 & Hfree & _).
    rewrite <- (live_fun _ _ _ _ Hp Hp0) in Hfree.
    destruct Halloc as (h & q & Hmap & Hq & Hused & _).
    destruct (live_of_map s _ h (wf_structure s Hwf) Hmap) as (q' & Hq' & Hqptr).
    assert (q' = q) as -> by (destruct Hq'; congruence).
    assert (Hq1 : live s1 h q).
    { destruct Hs1 as [->|(_ & m & f & _ & n & Hg)]; [done|]. by apply Hg. }
    destruct (live_inj s1 h piece q p Hq1 Hp ltac:(congruence)) as [_ ->]. congruence.
Qed.

Lemma DoAllocate_keeps_allocations_witness :
  reachable run_1 ∧ device_ok device_full run_1 ∧ 0 ≤ 4000 < 2 ^ 64 ∧
  DoAllocate device_full 4000 run_1 = (run_2, Ret 4608) ∧
  allocation run_1 4096 512 ∧
  allocation run_2 4096 512 ∧ (0 < 4000 → 4608 ≠ 4096).
Proof.
  assert (Hd : DoAllocate device_full 4000 run_1 = (run_2, Ret 4608))
    by (vm_compute; reflexivity).
  assert (Ha : allocation run_1 4096 512).
  { exists 0%nat, (Piece.mk 512 4096 false None (Some 1%nat) (-1)).
    split_and!; vm_compute; reflexivity. }
  split; [exact reachable_run_1|]. split; [exact (device_ok_full run_1)|].
  split; [lia|]. split; [exact Hd|]. split; [exact Ha|].
  exact (DoAllocate_keeps_allocations device_full run_1 4000 run_2 4608 4096 512
           reachable_run_1 (device_ok_full run_1) ltac:(lia) Hd Ha).
Defined.

(** ** [Deallocate] and the other allocations *)

Lemma merge_used_kept s l r pl pr :
  structure s → live s l pl → live s r pr → Piece.next pl = Some r →
  Piece.is_free pl = true → Piece.is_free pr = true →
  used_kept None s (merge_state l r pl pr s).
Proof.
  intros Hst Hl Hr Hnext Hlfree Hrfree x q Hq Hused _.
  assert (x ≠ l) by (intros ->; rewrite (live_fun _ _ _ _ Hq Hl) in Hused; congruence).
  assert (x ≠ r) by (intros ->; rewrite (live_fun _ _ _ _ Hq Hr) in Hused; congruence).
  destruct (merge_live_fwd s l r pl pr Hst Hl Hr Hnext x q Hq ltac:(done))
    as (q' & Hq' & Hptr & Hfree & _ & Hsz & _).
  exists q'. destruct (Hsz ltac:(done)) as [Hsize _]. split_and!; congruence.
Qed.

Lemma dealloc_next_kept s h p s2 :
  structure s → filing [h] (Some h) (Some h) s → live s h p →
  (match Piece.next p with
   | None => ret tt
   | Some n =>
       np <- load n ;;
       if Piece.is_free np
       then RemovePieceFromBin n ;; MergeNeighbourFreePiece h n
       else ret tt
   end) s = (s2, Ret tt) →
  used_kept None s s2.
Proof.
  intros Hst Hfi Hp.
  destruct (fi_float _ _ _ _ Hfi h p Hp ltac:(by left)) as [Hfree _].
  destruct (Piece.next p) as [n|] eqn:Hn; cycle 1.
  { unfold ret. intros [= <-]. apply used_kept_refl. }
  destruct (live_next s h p n Hst Hp Hn) as (pn & Hpn & Hnprev & Hnptr & Hne).
  rewrite (bind_eval _ _ _ _ _ (load_eval s n pn (proj1 Hpn))).
  destruct (Piece.is_free pn) eqn:Hnfree; cycle 1.
  { unfold ret. intros [= <-]. apply used_kept_refl. }
  destruct (RemovePieceFromBin_spec [h] (Some h) (Some h) s n pn Hst Hfi Hpn Hnfree)
    as (b & l & Hrem & Hst1 & Hfi1).
  { by intros ?%list_elem_of_singleton. }
  set (u := unbin_state n pn b l s) in *.
  set (pn' := Piece.set_bin_num kInvalidBinNum pn).
  assert (Hpu : live u h p).
  { eapply (live_update_other s u n); [reflexivity|reflexivity|done|done]. }
  assert (Hnu : live u n pn').
  { by apply (live_update_same s u n pn' pn). }
  destruct (MergeNeighbourFreePiece_spec [n; h] [h] (Some h) (Some h) (Some h) None
              u h n p pn' Hst1 Hfi1 Hpu Hnu Hn) as (Hmerge & _).
  { right. by left. }
  { by left. }
  { intros x. rewrite !elem_of_cons, elem_of_nil. split.
    - intros [->|[]]. split; [by right; left|done].
    - intros [[->|[->|[]]] ?]; [done|by left]. }
  { intros x y ? ? ? [?|?]; [congruence|by right]. }
  { intros nn Hnn [?|?]; [congruence|].
    destruct (merge_next u h n p pn' Hst1 Hpu Hnu Hn nn Hnn) as (_ & _ & _ & _ & _ & ?).
    congruence. }
  rewrite (bind_eval _ _ _ _ _ Hrem), Hmerge. intros [= <-].
  eapply used_kept_trans.
  - apply (used_kept_free s u n pn pn'); [reflexivity|reflexivity|apply Hpn|done].
  - by apply merge_used_kept.
Qed.

Lemma dealloc_prev_kept s h p s3 x :
  structure s → filing [h] (Some h) None s → live s h p →
  (match Piece.prev p with
   | None => ret h
   | Some m =>
       mp <- load m ;;
       if Piece.is_free mp
       then RemovePieceFromBin m ;; MergeNeighbourFreePiece m h ;; ret m
       else ret h
   end) s = (s3, Ret x) →
  used_kept None s s3.
Proof.
  intros Hst Hfi Hp.
  destruct (fi_float _ _ _ _ Hfi h p Hp ltac:(by left)) as [Hfree _].
  destruct (Piece.prev p) as [m|] eqn:Hm; cycle 1.
  { unfold ret. intros [= <- _]. apply used_kept_refl. }
  destruct (live_prev s h p m Hst Hp Hm) as (pm & Hpm & Hmnext & Hmptr & Hne).
  rewrite (bind_eval _ _ _ _ _ (load_eval s m pm (proj1 Hpm))).
  destruct (Piece.is_free pm) eqn:Hmfree; cycle 1.
  { unfold ret. intros [= <- _]. apply used_kept_refl. }
  destruct (RemovePieceFromBin_spec [h] (Some h) None s m pm Hst Hfi Hpm Hmfree)
    as (b & l & Hrem & Hst1 & Hfi1).
  { by intros ?%list_elem_of_singleton. }
  set (u := unbin_state m pm b l s) in *.
  set (pm' := Piece.set_bin_num kInvalidBinNum pm).
  assert (Hpu : live u h p).
  { eapply (live_update_other s u m); [reflexivity|reflexivity|done|done]. }
  assert (Hmu : live u m pm').
  { by apply (live_update_same s u m pm' pm). }
  destruct (MergeNeighbourFreePiece_spec [m; h] [m] (Some h) None None None
              u m h pm' p Hst1 Hfi1 Hmu Hpu Hmnext) as (Hmerge & _).
  { by left. }
  { right. by left. }
  { intros y. rewrite !elem_of_cons, elem_of_nil. split.
    - intros [->|[]]. split; [by left|done].
    - intros [[->|[->|[]]] ?]; [by left|done]. }
  { intros y z ? ? ? [?|?]; congruence. }
  { intros nn Hnn [?|?]; [congruence|].
    destruct (merge_next u m h pm' p Hst1 Hmu Hpu Hmnext nn Hnn) as (_ & _ & _ & _ & ? & _).
    congruence. }
  rewrite (bind_eval _ _ _ _ _ Hrem), (bind_eval _ _ _ _ _ Hmerge).
  unfold ret. intros [= <- _].
  eapply used_kept_trans.
  - apply (used_kept_free s u m pm pm'); [reflexivity|reflexivity|apply Hpm|done].
  - by apply merge_used_kept.
Qed.

Lemma Deallocate_kept s mem_ptr h p s' :
  wf s → mem_ptr ≠ 0 → ptr2piece_ s !! mem_ptr = Some h → pieces_ s !! h = Some p →
  Piece.is_free p = false →
  Deallocate mem_ptr s = (s', Ret tt) → used_kept (Some h) s s'.
Proof.
  intros [Hst Hfi] Hnz Hmap Hp Hused.
  assert (Hlp : live s h p).
  { destruct (live_of_map s _ _ Hst Hmap) as (p' & Hp' & Hptr).
    destruct Hp' as [Hp' Hm']. by assert (p = p') as -> by congruence. }
  set (s1 := flag_state h p true s).
  set (p1 := Piece.set_is_free true p).
  assert (Hst1 : structure s1).
  { eapply structure_same_layout; [|done]. by apply same_layout_flag. }
  assert (Hfi1 : filing [h] (Some h) (Some h) s1) by (by apply filing_mark_free).
  assert (Hp1 : live s1 h p1) by (by apply (live_update_same s s1 h p1 p)).
  assert (Hk1 : used_kept (Some h) s s1).
  { intros x q Hq Hqused Hex. exists q. split_and!; try done.
    apply (live_update_other s s1 h p1); [reflexivity|reflexivity|congruence|done]. }
  destruct (dealloc_next s1 h p1 Hst1 Hfi1 Hp1)
    as (s2 & p2 & Hnext & Hst2 & Hfi2 & Hp2 & Hprev2 & _).
  pose proof (dealloc_next_kept s1 h p1 s2 Hst1 Hfi1 Hp1 Hnext) as Hk2.
  destruct (dealloc_prev s2 h p2 Hst2 Hfi2 Hp2)
    as (s3 & x & px & Hprev & Hst3 & Hfi3 & Hpx & _).
  pose proof (dealloc_prev_kept s2 h p2 s3 x Hst2 Hfi2 Hp2 Hprev) as Hk3.
  destruct (InsertPiece2Bin_spec [x] [] None None s3 x px Hst3 Hfi3 Hpx)
    as (b & l & Hins & _).
  { by left. }
  { intros y. split; [by intros ?%elem_of_nil|]. by intros [->%list_elem_of_singleton ?]. }
  unfold Deallocate. destruct (Z.eqb_spec mem_ptr 0) as [|_]; [done|].
  rewrite (bind_eval _ _ s s s) by done. rewrite Hmap.
  rewrite (bind_eval _ _ _ _ _ (load_eval s h p Hp)). rewrite Hused. simpl negb.
  rewrite bind_check.
  rewrite (bind_eval _ _ _ _ _ (store_eval s h p _ Hp)). fold p1. fold (flag_state h p true s).
  fold s1. rewrite (bind_eval _ _ _ _ _ (load_eval s1 h p1 (proj1 Hp1))).
  rewrite (bind_eval _ _ _ _ _ Hnext).
  rewrite <- Hprev2.
  rewrite (bind_eval _ _ _ _ _ Hprev). rewrite Hins. intros [= <-].
  eapply used_kept_trans;
    [|apply (used_kept_update s3 (bin_state x px b l s3) x px
               (Piece.set_bin_num (BinNum4BinSize (Piece.size px)) px));
      try reflexivity; apply Hpx].
  eapply used_kept_trans; [|exact Hk3].
  eapply used_kept_trans; [exact Hk1|exact Hk2].
Qed.

(** X21. [Deallocate] leaves the other allocations alone: an address other
    than the freed one that was held in use before the call is held in use
    afterwards, with the same room, even when the freed piece is merged
    with its neighbours. *)
Theorem Deallocate_keeps_allocations s mem_ptr s' other room :
  reachable s → Deallocate mem_ptr s = (s', Ret tt) →
  allocation s other room → other ≠ mem_ptr →
  allocation s' other room.
Proof.
  intros Hwf%reachable_wf Hd (y & q & Hymap & Hq & Hqused & Hqsize) Hne.
  destruct (decide (mem_ptr = 0)) as [->|Hnz].
  { rewrite Deallocate_null in Hd. injection Hd as <-. by exists y, q. }
  destruct (Deallocate_ret s mem_ptr s' Hwf Hnz Hd) as (h & p & Hmap & Hp & Hused & _).
  pose proof (Deallocate_kept s mem_ptr h p s' Hwf Hnz Hmap (proj1 Hp) Hused Hd) as Hkept.
  destruct (live_of_map s _ _ (wf_structure s Hwf) Hymap) as (q' & Hq' & Hptr).
  assert (q' = q) as -> by (destruct Hq'; congruence).
  assert (Hyh : Some h ≠ Some y).
  { intros [= ->]. rewrite (live_fun _ _ _ _ Hq' Hp) in Hptr.
    destruct (live_of_map s _ _ (wf_structure s Hwf) Hmap) as (p' & Hp' & Hptr').
    rewrite (live_fun _ _ _ _ Hp' Hp) in Hptr'. congruence. }
  destruct (Hkept y q Hq' Hqused Hyh) as (q2 & [Hq2 Hq2map] & Hused2 & Hsize2 & Hptr2).
  exists y, q2. split_and!; [congruence|done|done|congruence].
Qed.

Lemma Deallocate_keeps_allocations_witness :
  reachable run_2 ∧ Deallocate 4096 run_2 = (run_3, Ret tt) ∧
  allocation run_2 4608 4096 ∧ 4608 ≠ 4096 ∧
  allocation run_3 4608 4096.
Proof.
  assert (Hd : Deallocate 4096 run_2 = (run_3, Ret tt)) by (vm_compute; reflexivity).
  assert (Ha : allocation run_2 4608 4096).
  { exists 1%nat, (Piece.mk 4096 4608 false (Some 0%nat) (Some 2%nat) (-1)).
    split_and!; vm_compute; reflexivity. }
  split; [exact reachable_run_2|]. split; [exact Hd|]. split; [exact Ha|].
  split; [lia|].
  exact (Deallocate_keeps_allocations run_2 4096 run_3 4608 4096 reachable_run_2 Hd Ha
           ltac:(lia)).
Defined.

(** ** The cache *)

Lemma free_neighbour_size s h p o :
  structure s → live s h p → o = Piece.next p ∨ o = Piece.prev p →
  0 ≤ from_option (fun xq : nat * Piece.t => Piece.size xq.2) 0 (free_neighbour s o).
Proof.
  intros Hst Hp Ho.
  destruct (free_neighbour s o) as [[x q]|] eqn:Hfn; [|done]. simpl.
  apply free_neighbour_Some in Hfn as (-> & Hq & _).
  assert (∃ q', live s x q') as [q' Hq'].
  { destruct Ho as [Ho|Ho]; symmetry in Ho.
    - destruct (live_next s h p x Hst Hp Ho) as (q' & ? & _). by exists q'.
    - destruct (live_prev s h p x Hst Hp Ho) as (q' & ? & _). by exists q'. }
  assert (q' = q) as -> by (destruct Hq'; congruence).
  destruct (live_bounds s x q Hst Hq') as (_ & _ & ? & _). lia.
Qed.

(** X22. Memory that has been freed is used again before the device is
    asked: after [Deallocate] of a piece, a request that fits in the room
    of that piece is served without a call of the device. *)
Theorem freed_memory_is_reused cudaMalloc s mem_ptr h p size :
  reachable s → mem_ptr ≠ 0 → ptr2piece_ s !! mem_ptr = Some h →
  pieces_ s !! h = Some p → Piece.is_free p = false →
  0 < size ≤ Piece.size p →
  ∃ s1 s2 r, Deallocate mem_ptr s = (s1, Ret tt) ∧
             DoAllocate cudaMalloc size s1 = (s2, Ret r) ∧
             cuda_calls_ s2 = cuda_calls_ s ∧
             mem_ptr2block_ s2 = mem_ptr2block_ s.
Proof.
  intros Hwf%reachable_wf Hnz Hmap Hp Hused Hsize. pose proof (wf_structure s Hwf) as Hst.
  destruct (live_of_map s _ _ Hst Hmap) as (p' & Hp' & Hptr).
  assert (p' = p) as -> by (destruct Hp'; congruence).
  destruct (live_bounds s h p Hst Hp') as (? & Hend & ? & _).
  unfold piece_end, address_limit in Hend.
  destruct (Deallocate_spec s mem_ptr h p Hwf Hnz Hmap Hp Hused) as (s1 & Hd & Hwf1 & Hfreed).
  destruct Hfreed as (Hblk1 & _ & Hcalls1 & _ & _ & ps & b & Hps & Hfree & _ & Hpsize & _).
  pose proof (free_neighbour_size s h p (Piece.next p) Hst Hp' ltac:(by left)).
  pose proof (free_neighbour_size s h p (Piece.prev p) Hst Hp' ltac:(by right)).
  destruct (st_size s1 (wf_structure s1 Hwf1) _ ps Hps) as [_ Hmod].
  assert (Ha : 0 ≤ MemAlignedBytes size kCudaAlignSize ≤ Piece.size ps).
  { destruct (aligned_size_spec size ltac:(lia)) as [? _]. split; [lia|].
    unfold MemAlignedBytes, kCudaAlignSize. apply RoundUp_le_multiple; lia. }
  destruct (first_fit_exists s1 _ _ ps Hwf1 Hps Hfree Ha) as [piece Hfit].
  destruct (DoAllocate_first_fit cudaMalloc s1 size piece Hwf1 ltac:(lia) Hfit)
    as (s2 & q & Hd2 & _ & _ & Hcalls2 & Hblk2 & _).
  exists s1, s2, (Piece.ptr q). split_and!; [done|done|congruence|congruence].
Qed.

Lemma freed_memory_is_reused_witness :
  reachable run_2 ∧ 4608 ≠ 0 ∧ ptr2piece_ run_2 !! 4608 = Some 1%nat ∧
  pieces_ run_2 !! 1%nat = Some (Piece.mk 4096 4608 false (Some 0%nat) (Some 2%nat) (-1)) ∧
  Piece.is_free (Piece.mk 4096 4608 false (Some 0%nat) (Some 2%nat) (-1)) = false ∧
  0 < 3000 ≤ Piece.size (Piece.mk 4096 4608 false (Some 0%nat) (Some 2%nat) (-1)) ∧
  ∃ s1 s2 r, Deallocate 4608 run_2 = (s1, Ret tt) ∧
             DoAllocate device_full 3000 s1 = (s2, Ret r) ∧
             cuda_calls_ s2 = cuda_calls_ run_2 ∧
             mem_ptr2block_ s2 = mem_ptr2block_ run_2.
Proof.
  assert (Hmap : ptr2piece_ run_2 !! 4608 = Some 1%nat) by (vm_compute; reflexivity).
  assert (Hp : pieces_ run_2 !! 1%nat =
               Some (Piece.mk 4096 4608 false (Some 0%nat) (Some 2%nat) (-1)))
    by (vm_compute; reflexivity).
  split; [exact reachable_run_2|]. split; [lia|]. split; [exact Hmap|].
  split; [exact Hp|]. split; [reflexivity|]. split; [simpl; lia|].
  exact (freed_memory_is_reused device_full run_2 4608 1 _ 3000 reachable_run_2
           ltac:(lia) Hmap Hp eq_refl ltac:(simpl; lia)).
Defined.

(** ** Round trips of the member functions *)

Lemma PieceCmp_total s x y px py :
  live s x px → live s y py → x ≠ y →
  PieceCmp (pieces_ s) x y = true ∨ PieceCmp (pieces_ s) y x = true.
Proof.
  intros Hx Hy Hne. rewrite !PieceCmp_true.
  assert (Piece.ptr px ≠ Piece.ptr py).
  { intros Heq. by destruct (live_inj s x y px py Hx Hy Heq). }
  destruct Hx as [Hx _], Hy as [Hy _].
  destruct (Z.lt_trichotomy (Piece.size px) (Piece.size py)) as [?|[?|?]].
  - left. exists px, py. split_and!; try done. by left.
  - destruct (Z.lt_trichotomy (Piece.ptr px) (Piece.ptr py)) as [?|[?|?]]; [|done|].
    + left. exists px, py. split_and!; try done. by right.
    + right. exists py, px. split_and!; try done. by right.
  - right. exists py, px. split_and!; try done. by left.
Qed.

Lemma bin_sorted_unique ps l1 l2 :
  bin_sorted ps l1 → bin_sorted ps l2 → l1 ≡ₚ l2 → l1 = l2.
Proof.
  unfold bin_sorted. apply StronglySorted_unique.
  intros x y Hxy Hyx. apply PieceCmp_asym in Hxy. congruence.
Qed.

(** X23. Taking a free piece out of its bin and filing it again restores
    the allocator exactly: [RemovePieceFromBin] followed by
    [InsertPiece2Bin] returns and leaves the state it started from. *)
Theorem RemovePieceFromBin_InsertPiece2Bin s h p :
  reachable s → live s h p → Piece.is_free p = true →
  (RemovePieceFromBin h ;; InsertPiece2Bin h) s = (s, Ret tt).
Proof.
  intros Hwf%reachable_wf Hp Hfree. pose proof Hwf as [Hst Hfi].
  destruct (fi_free _ _ _ _ Hfi h p Hp Hfree) as (Hbn & b & Hb & Hin).
  { by intros ?%elem_of_nil. }
  destruct (live_size_range s h p Hst Hp) as [Hsz _].
  pose proof (BinNum4BinSize_range _ Hsz) as Hrange.
  apply list_elem_of_split in Hin as (l1 & l2 & Hsplit).
  pose proof (fi_bins _ _ _ _ Hfi _ _ Hb) as (Hnd & Hsorted & Helems).
  rewrite Hsplit in Hnd, Hsorted.
  set (p' := Piece.set_bin_num kInvalidBinNum p).
  set (i := Z.to_nat (Piece.bin_num p)) in *.
  pose proof (lookup_lt_Some _ _ _ (proj1 Hp)) as Hlen.
  pose proof (lookup_lt_Some _ _ _ Hb) as Hblen.
  assert (Hback : Piece.set_bin_num (BinNum4BinSize (Piece.size p)) p' = p).
  { unfold p'. rewrite <- Hbn. by destruct p. }
  rewrite (bind_eval _ _ s
             (set_pieces (<[h := p']> (pieces_ s))
                (set_bins (<[i := Bin.set_pieces (l1 ++ l2) b]> (bins_ s)) s)) tt); cycle 1.
  { rewrite (RemovePieceFromBin_eval s h p b); [|apply Hp|done|lia|done].
    by rewrite Hsplit, set_erase_sorted. }
  destruct (set_insert_spec (pieces_ s) h (l1 ++ l2)) as (l1' & l2' & Heq & Hins & Hsorted').
  { by eapply bin_sorted_delete. }
  { intros y Hy.
    assert (Hyb : y ∈ Bin.pieces b).
    { rewrite Hsplit. apply elem_of_app in Hy as [?|?]; apply elem_of_app;
        [by left|right; by right]. }
    destruct (Helems y Hyb) as (_ & q & Hq & _).
    apply (PieceCmp_total s h y p q Hp Hq). intros <-.
    apply NoDup_app in Hnd as (_ & Hnd1 & Hnd2). apply NoDup_cons in Hnd2 as [Hnd2 _].
    apply elem_of_app in Hy as [Hy|Hy]; [|done]. apply (Hnd1 h Hy). by left. }
  assert (Hl : l1' ++ h :: l2' = l1 ++ h :: l2).
  { apply (bin_sorted_unique (pieces_ s)); [done|done|].
    rewrite <- !Permutation_middle. by rewrite Heq. }
  rewrite (InsertPiece2Bin_eval _ h p' (Bin.set_pieces (l1 ++ l2) b) (l1 ++ h :: l2)).
  - f_equal. simpl. rewrite Hback, list_insert_insert_eq.
    rewrite (list_insert_id (pieces_ s) h p) by apply Hp.
    rewrite <- Hbn. fold i. rewrite list_insert_insert_eq.
    replace (Bin.set_pieces (l1 ++ h :: l2) (Bin.set_pieces (l1 ++ l2) b)) with b
      by (rewrite <- Hsplit; by destruct b).
    rewrite (list_insert_id (bins_ s) i b) by done. by destruct s.
  - simpl. by apply list_lookup_insert_eq.
  - done.
  - done.
  - simpl. lia.
  - simpl. rewrite <- Hbn. fold i. by apply list_lookup_insert_eq.
  - simpl. rewrite Hback, list_insert_insert_eq.
    rewrite (list_insert_id (pieces_ s) h p) by apply Hp. by rewrite Hins, Hl.
Qed.

Lemma RemovePieceFromBin_InsertPiece2Bin_witness :
  reachable run_3 ∧
  live run_3 2 (Piece.mk 2092544 8704 true (Some 1%nat) None 11) ∧
  Piece.is_free (Piece.mk 2092544 8704 true (Some 1%nat) None 11) = true ∧
  (RemovePieceFromBin 2 ;; InsertPiece2Bin 2) run_3 = (run_3, Ret tt).
Proof.
  assert (H2 : live run_3 2 (Piece.mk 2092544 8704 true (Some 1%nat) None 11))
    by (split; vm_compute; reflexivity).
  split; [exact reachable_run_3|]. split; [exact H2|]. split; [reflexivity|].
  exact (RemovePieceFromBin_InsertPiece2Bin run_3 2 _ reachable_run_3 H2 eq_refl).
Defined.

(** X24. A retired descriptor is the next one handed out: after
    [DeallocatePiece h], [AllocatePiece] returns [h] again, [pieces_] does
    not grow and the recycle list is what it was before. *)
Theorem DeallocatePiece_AllocatePiece s h p :
  pieces_ s !! h = Some p →
  ∃ s', (DeallocatePiece h ;; AllocatePiece) s = (s', Ret h) ∧
        recycle_piece_list_ s' = recycle_piece_list_ s ∧
        length (pieces_ s') = length (pieces_ s) ∧
        pieces_ s' !! h = Some (retired (recycle_piece_list_ s)) ∧
        (∀ x, x ≠ h → pieces_ s' !! x = pieces_ s !! x) ∧
        ptr2piece_ s' = ptr2piece_ s ∧ bins_ s' = bins_ s.
Proof.
  intros Hp. pose proof (lookup_lt_Some _ _ _ Hp) as Hlen.
  eexists. split.
  - rewrite (bind_eval _ _ _ _ _ (DeallocatePiece_eval s h p Hp)).
    apply (AllocatePiece_recycled _ h (retired (recycle_piece_list_ s))); [done|].
    simpl. by apply list_lookup_insert_eq.
  - simpl. split_and!; try done.
    + by rewrite length_insert.
    + by apply list_lookup_insert_eq.
    + intros x Hx. by rewrite list_lookup_insert_ne.
Qed.

Lemma DeallocatePiece_AllocatePiece_witness :
  pieces_ run_2 !! 2%nat = Some (Piece.mk 2092544 8704 true (Some 1%nat) None 11) ∧
  ∃ s', (DeallocatePiece 2 ;; AllocatePiece) run_2 = (s', Ret 2%nat) ∧
        recycle_piece_list_ s' = recycle_piece_list_ run_2 ∧
        length (pieces_ s') = length (pieces_ run_2) ∧
        pieces_ s' !! 2%nat = Some (retired (recycle_piece_list_ run_2)) ∧
        (∀ x, x ≠ 2%nat → pieces_ s' !! x = pieces_ run_2 !! x) ∧
        ptr2piece_ s' = ptr2piece_ run_2 ∧ bins_ s' = bins_ run_2.
Proof.
  assert (Hp : pieces_ run_2 !! 2%nat =
               Some (Piece.mk 2092544 8704 true (Some 1%nat) None 11))
    by (vm_compute; reflexivity).
  split; [exact Hp|]. exact (DeallocatePiece_AllocatePiece run_2 2 _ Hp).
Defined.

(** X25. [MarkPiece] registers an address only once. When the address of
    the piece is not in the address map, [MarkPiece] followed by
    [UnMarkPiece] returns and restores the allocator; when it is, the check
    of [MarkPiece] fails and the registration that was there stays. *)
Theorem MarkPiece_UnMarkPiece s h p :
  pieces_ s !! h = Some p →
  match ptr2piece_ s !! Piece.ptr p with
  | None => (MarkPiece h ;; UnMarkPiece h) s = (s, Ret tt)
  | Some _ => MarkPiece h s = (s, Fail CheckFailed)
  end.
Proof.
  intros Hp. destruct (ptr2piece_ s !! Piece.ptr p) as [x|] eqn:Hmap.
  - unfold MarkPiece, emplace.
    rewrite (bind_eval _ _ _ _ _ (load_eval s h p Hp)).
    rewrite (bind_eval _ _ s s s) by done. rewrite Hmap.
    rewrite bool_decide_eq_false_2 by done.
    unfold bind, modify, RV_CHECK, fail. simpl. rewrite Hmap. by destruct s.
  - rewrite (bind_eval _ _ _ _ _ (MarkPiece_eval s h p Hp Hmap)).
    rewrite (UnMarkPiece_eval _ h p); [|done|].
    + simpl. rewrite delete_insert_id by done. by destruct s.
    + simpl. rewrite lookup_insert_eq. by eexists.
Qed.

Lemma MarkPiece_UnMarkPiece_witness :
  pieces_ run_2 !! 2%nat = Some (Piece.mk 2092544 8704 true (Some 1%nat) None 11) ∧
  match ptr2piece_ run_2 !! 8704 with
  | None => (MarkPiece 2 ;; UnMarkPiece 2) run_2 = (run_2, Ret tt)
  | Some _ => MarkPiece 2 run_2 = (run_2, Fail CheckFailed)
  end.
Proof.
  assert (Hp : pieces_ run_2 !! 2%nat =
               Some (Piece.mk 2092544 8704 true (Some 1%nat) None 11))
    by (vm_compute; reflexivity).
  split; [exact Hp|]. exact (MarkPiece_UnMarkPiece run_2 2 _ Hp).
Defined.
